(* ===== verification/_CoqProject ===== *)
-Q . S2P
Prelude.v
GoString.v
GoFloat.v
Protocol.v
Engine.v
Apply.v
Overload.v
PriorRules.v
Policy.v
AuditLog.v
AuditSink.v
Verdict.v
Queue.v
Sticky.v
Body.v
Rules.v
Lists.v
Handler.v
HandlerLogic.v
HandlerSafety.v
HandlerFlow.v
Pack.v
Deploy.v
Watch.v
Coraza.v
GoOS.v
ConfFile.v
Config.v
Main.v
Service.v
Serving.v
Inspector.v
Probe.v
