(* ===== verification/Prelude.v ===== *)
(** * Verification of the modsec inspector

    The inspector is a service on a message bus. A module in front of a web server
    publishes each request, response or WebSocket frame as a message; the inspector
    fetches the stored objects of the message, runs the rules engine (Coraza with
    the Core Rule Set) on them, and replies with a verdict: allow, score, deny,
    redirect or error. It may keep the engine transaction of a request open for the
    response, ask its neighbours for actions, write addresses to live lists, and
    report every verdict to an audit stream.

    ** The parts and the files

    - [Prelude]: results ([res]) and panics ([run]) of Go functions, 64-bit integers,
      tactics, the hint database [modsec].
    - [GoString], [GoFloat], [GoOS]: the parts of the Go library the program uses on
      strings, on [float64], and on durations, paths and runes.
    - [Protocol] (internal/protocol/protocol.go): messages, [Parse], [sniffRID],
      replies.
    - [Engine] (internal/engine/engine.go, ranges.go) and [Apply] (apply.go): rule
      ranges; transactions as the list of calls they received, and the functions
      that run them. An engine is a record of its answers as functions of the calls.
    - [Overload] (internal/overload/overload.go), [PriorRules]
      (internal/prior/prior.go), [Policy] (internal/prior/outcome.go and loadFile):
      what a policy file says on verdicts of neighbours and what it asks for.
    - [Verdict] (internal/verdict/verdict.go, statusmap.go): from the outcome of the
      engine to the reply and to the details of the audit event.
    - [AuditLog] (internal/audit/audit.go): the audit event and the stream for it.
    - [AuditSink] (internal/audit/sink.go): the batching sink; critical sections, channel
      operations and moves of its goroutine are the steps of a relation.
    - [Queue] (internal/queue/queue.go): the worker pool; goroutines are program
      counters, and a step runs one of them for one critical section or one call of
      the handler, in any interleaving.
    - [Sticky] (internal/sticky/sticky.go): the registry of kept transactions.
    - [Body] (internal/body/body.go, redis.go): loading, decrypting and checking
      stored objects; the class [BatchStore] is what [LoadMany] needs of a store.
    - [Rules] (internal/rules/rules.go): the profiles and their reload.
    - [Lists] (cmd/modsec/lists.go): publishing bans.
    - [Handler] (cmd/modsec/handler.go, frame.go, response.go, resume.go): what is
      done with one message. A program is a tree of atomic actions on the state shared by
      messages (profile registry, kept transactions, audit sink) and on three traces:
      messages sent, list publications and ended transactions.
    - [HandlerLogic]: triples for these programs, in which other goroutines may act between
      any two actions; what a program owns is kept apart from what all share.
    - [HandlerSafety], [HandlerFlow]: the triples of all operations, and the theorems on
      one message and on a request with its response.
    - [Coraza] (internal/engine/coraza/coraza.go): the adapter of the rules engine, an
      instance of the record [Apply.Engine] over the answers of the library.
    - [Pack] (internal/desired/pack.go, blobs.go, manifest.go): parsing a pack that the
      control plane pushed, fetching its texts, expanding it to a manifest.
    - [Deploy] (apply.go): writing the manifest to a staging directory, swapping it
      with the live one, reloading, and rolling back, over a file system any call of
      which may fail; the class [ReadsLive] is what it needs of the reload.
    - [Watch] (watch.go, settings.go): the goroutine that receives packs, one event at
      a time.
    - [ConfFile], [Config] (internal/config/file.go, config.go, logship.go): the parser
      of inspector.conf, and the settings with their checks.
    - [Main] (cmd/modsec/main.go): how the settings configure the other parts, and the
      heartbeat.
    - [Service] (cmd/modsec/main.go and the goroutines it starts): the parts together. A
      state has the goroutines with their places in their programs; an event lets one of
      them make one move, or is a message, a timer, a pushed pack, a heartbeat or a step of
      the shutdown. Every event keeps the invariant [running_ok].
    - [Serving]: the runs from the state of [Main.boot], and the shutdown in the order of
      main.go.
    - [Inspector]: the abstract specification of the whole, a sequential server that does
      one duty at a time, and the simulation by which the process implements it.
    - [Probe] (cmd/probe/main.go): the test client.

    The bus calls [Handler.receive]; it submits a task to the queue; a worker of the
    queue calls [Handler.evaluate] with the task, its budget and the reason when it
    is shed. [evaluate] uses [Rules] for the engine and the policy, [PriorRules] to
    skip or scale, [Body] to load, [Apply] to run the engine, [Verdict] for the
    reply, [Policy] and [Lists] for asks and bans, [Sticky] to keep a transaction,
    and [AuditLog] and [AuditSink] to report. [Main.boot] builds all of these from [Config.Load]. Beside
    the handler runs the watcher: [Watch.step] takes a pack through [Pack] and
    [Deploy.Apply], which reloads the registry of [Rules] that the handler reads.

    ** What is shown

    - Of the handler: a task is answered exactly once, also after a panic; nothing is
      let through that was not inspected, but for a skip or a binary frame; no
      transaction is left open or closed twice; a resumed transaction gives the
      outcome of a rebuilt one; every message is queued, released or answered; a
      frame reaches the engine as one form argument.
    - Of the pool, the registry and the sink: invariants of every interleaving or
      sequence of operations (each task, state or event is in one place and leaves
      it once; limits and counters hold; a full sink is never left asleep), the order of
      the queue, and completion of [Close] of the pool and of the sink.
    - Of the packs: what is expanded is what was published, every text under its hash;
      whatever calls fail, the live directory and the registry change together, and a
      replica that reports success runs what it reports; without failing calls it
      always does; the newest pack is applied, pending or refused.
    - Of the service, for every interleaving of the moves of its goroutines from the start:
      it implements the sequential server of [Inspector]; nothing panics; every message is in progress or dealt with, and answered once by the
      call that dealt with it; every transaction is ended once, kept, or owned by one
      goroutine; the default profile can be selected at any time, the messages are served
      from the pack that the heartbeat reports, and the publications on the live lists are
      well formed; and from any state the shutdown can complete, after which nothing is
      left unanswered, unpublished or open.
    - Of the engine adapter: the verdict on a request in terms of the answers of the
      rule engine.
    - Of the test client: what its command line says is what the engine gets.
    - Of the settings: what loads is what the parts can run on; where each setting comes
      from; round trip and error lines of the file; the parts after the start are as
      the settings say.
    - Of the data: what [Parse], [ParseRanges], [LoadStatusMap], [parseTTL] and
      [CheckArchiveWhen] accept, with round trips where a printed form exists; that
      a loaded policy sends only well-formed requests and fires exactly the rows
      whose trigger holds; the verdict on every branch; the exact values of the two
      float formulas, with the cases in which rounding shows; the integrity of a
      loaded body and the equivalence of the batched read.

    ** Conventions, bounds and fuel

    A Go [int] is a [Z] kept in its range with [wrap64] where an operation may
    overflow. A string is its bytes. A map is a [gmap]; where Go's
    random iteration order may show, the order is an argument: in [Parse], and in
    [Pack], [Deploy] and [Watch], whose loops take a [Visits] that is only known to
    visit every entry ([VisitsAll]). Times and
    durations are nanoseconds in [Z], and every reading of the clock is an argument.
    A nil pointer is [None]. The loop of [ParseDuration] has fuel, and the
    length of the text is enough ([duration_loop_fuel]). [Probe.hex_digits] stops after the
    16 digits that a 64-bit integer has at most. No other function needs fuel.

    ** What is not modelled

    Packages outside the repository are arguments: the JSON and YAML codecs, the
    rules engine, cryptography, the object store, the address coder, the level parser of
    the shared module. So are [url.Parse], of which only scheme and host are used, the
    tables of Unicode, and, outside [Deploy], what is read of the file system.
    Their assumed laws are hypotheses of the theorems that need them: [BatchStore]
    (the two reads of a store agree), and that a reply without a score out of range
    can be encoded. Logging, metrics, contexts with deadlines and timers are left
    out; a timer is a step that may happen at any time.

    An action of a handler's program is what the code does under one lock, in one atomic
    load or in one call of the bus; the goroutines of [Service] interleave at these. A push
    is one move there: what the watcher does to the files before it swaps the registry is
    seen by nobody else, and [Watch] and [Deploy] have its failures. The subscriptions
    may run [receive] on any number of messages at once. A reply is sent in the order in
    which its call gets there; the bus itself, its buffers and its drain, are not modelled:
    in [Serving.shutdown] the arrivals end before the pool is closed.

    [Deploy] models the file system below the data directory only: symbolic links,
    permissions and other processes that write there are not modelled, and a rename
    that fails has no effect. The watcher handles an event without an interruption; the
    requests served meanwhile only read the registry and count unknown names.

    Left out: the log lines about the addresses, the shipping of the log, the callbacks
    of the connection and signals (the rest of cmd/modsec/main.go), and the flow
    counters of the pool, which are of another module. *)

From Stdlib Require Export ZArith Lia Ascii.
From stdpp Require Export base list gmap strings pretty numbers option.
From stdpp Require Import options.

Local Open Scope Z_scope.

(** ** Results of fallible Go functions: a pair [(v, err)] of which exactly one
    part is meaningful. *)
Inductive res (E A : Type) : Type :=
| Ok (a : A)
| Err (e : E).
Global Arguments Ok {E A} a.
Global Arguments Err {E A} e.

Global Instance res_ret E : MRet (res E) := fun A a => Ok a.
Global Instance res_bind E : MBind (res E) := fun A B k m =>
  match m with Ok a => k a | Err e => Err e end.
Global Instance res_fmap E : FMap (res E) := fun A B f m =>
  match m with Ok a => Ok (f a) | Err e => Err e end.

Definition is_ok {E A} (r : res E A) : bool :=
  match r with Ok _ => true | Err _ => false end.

(** [x != nil] and [len(l) != 0]. *)
Definition is_some {A} (x : option A) : bool :=
  match x with Some _ => true | None => false end.
Definition nonempty {A} (l : list A) : bool :=
  match l with [] => false | _ => true end.

(** [fail_if b e]: the shape [if b { return e }] of a Go validation. *)
Definition fail_if {E} (b : bool) (e : E) : res E unit :=
  if b then Err e else Ok tt.

(** [try_each f l] runs [f] over [l] and stops at the first error, the shape
    [for _, x := range l { if err := f(x); err != nil { return err } }]. *)
Fixpoint try_each {E A} (f : A -> res E unit) (l : list A) : res E unit :=
  match l with
  | [] => Ok tt
  | x :: l => match f x with Ok _ => try_each f l | Err e => Err e end
  end.

(** A Go call that returns, or panics: the run-time errors of the language and the
    calls of [panic] of a library. *)
Inductive run (A : Type) : Type :=
| Done (a : A)
| Panic.
Global Arguments Done {A} a.
Global Arguments Panic {A}.

Global Instance run_ret : MRet run := fun A a => Done a.
Global Instance run_bind : MBind run := fun A B k m =>
  match m with Done a => k a | Panic => Panic end.
Global Instance run_fmap : FMap run := fun A B f m =>
  match m with Done a => Done (f a) | Panic => Panic end.

(** ** Machine integers: Go's [int] and [int64] on the 64-bit targets the
    program is built for. *)
Definition min_int64 : Z := - 2 ^ 63.
Definition max_int64 : Z := 2 ^ 63 - 1.
Definition in_int64 (z : Z) : bool := (min_int64 <=? z) && (z <=? max_int64).
Definition wrap64 (z : Z) : Z := (z + 2 ^ 63) mod 2 ^ 64 - 2 ^ 63.

(** ** Automation shared by the development. *)
Create HintDb modsec.
Create Rewrite HintDb modsec.

(** [destruct_ifs] splits every boolean test and match the goal is stuck on. *)
Ltac destruct_ifs :=
  repeat match goal with
  | |- context [if ?b then _ else _] => destruct b eqn:?
  end.

(** [bool_prop] turns boolean tests of the hypotheses into propositions. *)
Ltac bool_prop :=
  repeat match goal with
  | H : (_ && _) = true |- _ => apply andb_prop in H; destruct H as [? ?]
  | H : (_ || _) = false |- _ => apply orb_false_elim in H; destruct H as [? ?]
  | H : negb _ = true |- _ => apply negb_true_iff in H
  | H : negb _ = false |- _ => apply negb_false_iff in H
  | H : bool_decide _ = true |- _ => apply bool_decide_eq_true in H
  | H : bool_decide _ = false |- _ => apply bool_decide_eq_false in H
  end.

(** [go_cases H] follows one run of a monadic function equated in [H]. *)
Ltac go_cases H :=
  repeat (progress (simplify_eq/=) ||
    match type of H with
    | context [match ?x with _ => _ end] => destruct x eqn:?
    end).

(** ** Lemmas *)
Section res_lemmas.
Context {E : Type}.

Lemma res_bind_ok {A B} (m : res E A) (k : A -> res E B) b :
  m ≫= k = Ok b <-> exists a, m = Ok a /\ k a = Ok b.
Proof. destruct m; simpl; split; [eauto|intros (? & ? & ?); by simplify_eq|done|by intros (? & ? & ?)]. Qed.

Lemma res_bind_err {A B} (m : res E A) (k : A -> res E B) e :
  m ≫= k = Err e <-> m = Err e \/ exists a, m = Ok a /\ k a = Err e.
Proof.
  destruct m as [a|e']; simpl; split.
  - eauto.
  - intros [?|(? & ? & ?)]; by simplify_eq.
  - intros ?. left. by simplify_eq.
  - intros [?|(? & ? & ?)]; by simplify_eq.
Qed.

Lemma fail_if_ok (b : bool) (e : E) u : fail_if b e = Ok u <-> b = false.
Proof. by destruct b, u. Qed.

Lemma is_ok_fail_if (b : bool) (e : E) : is_ok (fail_if b e) = negb b.
Proof. by destruct b. Qed.

Lemma is_ok_bind {A} (m : res E unit) (k : res E A) :
  is_ok (m ≫= fun _ => k) = is_ok m && is_ok k.
Proof. by destruct m. Qed.

Lemma try_each_ok {A} (f : A -> res E unit) l :
  is_ok (try_each f l) = forallb (fun x => is_ok (f x)) l.
Proof. induction l as [|x l IH]; simpl; [done|]. by destruct (f x). Qed.

Lemma try_each_all {A} (f : A -> res E unit) l u :
  try_each f l = Ok u -> forall x, x ∈ l -> is_ok (f x) = true.
Proof.
  intros H. assert (is_ok (try_each f l) = true) as H' by by rewrite H.
  rewrite try_each_ok, forallb_forall in H'. intros x Hx. by apply H', list_elem_of_In.
Qed.

Lemma try_each_err {A} (f : A -> res E unit) l e :
  try_each f l = Err e -> exists x, x ∈ l /\ f x = Err e.
Proof.
  induction l as [|x l IH]; simpl; [done|].
  destruct (f x) eqn:Hf; intros; [|set_solver].
  destruct IH as (y & ? & ?); [done|]. set_solver.
Qed.
End res_lemmas.

Lemma in_int64_spec z : in_int64 z = true <-> min_int64 <= z <= max_int64.
Proof. unfold in_int64. rewrite andb_true_iff. lia. Qed.

Lemma wrap64_range z : min_int64 <= wrap64 z <= max_int64.
Proof.
  unfold wrap64, min_int64, max_int64.
  pose proof (Z.mod_pos_bound (z + 2 ^ 63) (2 ^ 64)). lia.
Qed.

Lemma wrap64_small z : min_int64 <= z <= max_int64 -> wrap64 z = z.
Proof.
  unfold wrap64, min_int64, max_int64. intros.
  rewrite Z.mod_small; lia.
Qed.

Lemma wrap64_add_l x y : wrap64 (wrap64 x + y) = wrap64 (x + y).
Proof.
  unfold wrap64. f_equal.
  replace ((x + 2 ^ 63) mod 2 ^ 64 - 2 ^ 63 + y + 2 ^ 63)
    with ((x + 2 ^ 63) mod 2 ^ 64 + y) by ring.
  rewrite Z.add_mod_idemp_l by lia. f_equal. ring.
Qed.

Lemma wrap64_idemp x : wrap64 (wrap64 x) = wrap64 x.
Proof. apply wrap64_small, wrap64_range. Qed.

#[export] Hint Rewrite wrap64_idemp wrap64_add_l : modsec.
#[export] Hint Resolve wrap64_range : modsec.
#[export] Hint Rewrite @is_ok_bind @is_ok_fail_if @try_each_ok : modsec.
