(* ===== verification/GoString.v ===== *)
(** * Go strings, as the program uses them

    The parts of the packages [strings], [strconv] and [unicode/utf8] that the
    inspector calls, on byte strings ([String.string], one [ascii] per byte).
    [TrimSpace] knows the UTF-8 encoding of every rune of [unicode.IsSpace].
    [ToLower] is exact on ASCII and on the two runes outside ASCII whose lower
    case is ASCII (U+0130 and U+212A); it leaves every other byte of 128 and above
    alone, which no caller of the program can tell apart, since each compares
    the result with ASCII words or hands it to [Atoi]. *)

From S2P Require Import Prelude.
From stdpp Require Import options.

Local Open Scope Z_scope.

Definition byte_val (a : ascii) : Z := Z.of_nat (nat_of_ascii a).
Definition byte_is (n : Z) (a : ascii) : bool := byte_val a =? n.
Definition byte_in (lo hi : Z) (a : ascii) : bool :=
  (lo <=? byte_val a) && (byte_val a <=? hi).

Definition ascii_eqb (a b : ascii) : bool := bool_decide (a = b).
Global Arguments ascii_eqb : simpl never.

Definition len (s : string) : Z := Z.of_nat (String.length s).

(** [s == t] *)
Definition str_eqb (s t : string) : bool := bool_decide (s = t).

(** The slice expressions [s[:n]] and [s[n:]], for [n] in range. *)
Fixpoint str_take (n : nat) (s : string) : string :=
  match n, s with
  | S n, String a s => String a (str_take n s)
  | _, _ => ""
  end.

Fixpoint str_drop (n : nat) (s : string) : string :=
  match n, s with
  | S n, String _ s => str_drop n s
  | O, s => s
  | S _, "" => ""
  end.

Fixpoint str_bytes (s : string) : list ascii :=
  match s with "" => [] | String a s => a :: str_bytes s end.

(** ** Package strings *)

Fixpoint HasPrefix (s p : string) : bool :=
  match p, s with
  | "", _ => true
  | String b p, String a s => ascii_eqb a b && HasPrefix s p
  | String _ _, "" => false
  end.

Definition HasSuffix (s p : string) : bool :=
  HasPrefix (String.rev s) (String.rev p).

Definition TrimPrefix (s p : string) : string :=
  if HasPrefix s p then str_drop (String.length p) s else s.

Definition TrimSuffix (s p : string) : string :=
  if HasSuffix s p then str_take (String.length s - String.length p) s else s.

(** [strings.CutPrefix] *)
Definition CutPrefix (s p : string) : option string :=
  if HasPrefix s p then Some (str_drop (String.length p) s) else None.

(** [strings.Cut] at a one-byte separator. *)
Fixpoint Cut (sep : ascii) (s : string) : option (string * string) :=
  match s with
  | "" => None
  | String a s =>
      if ascii_eqb a sep then Some ("", s)
      else match Cut sep s with
           | Some (before, after) => Some (String a before, after)
           | None => None
           end
  end.

(** [strings.Split] at a one-byte separator. *)
Fixpoint Split (sep : ascii) (s : string) : list string :=
  match s with
  | "" => [""]
  | String a s =>
      if ascii_eqb a sep then "" :: Split sep s
      else match Split sep s with
           | x :: l => String a x :: l
           | [] => [String a ""]
           end
  end.

Definition has_byte (c : ascii) (s : string) : bool :=
  existsb (fun a => ascii_eqb a c) (str_bytes s).

(** [strings.Contains] *)
Fixpoint Contains (s sub : string) : bool :=
  HasPrefix s sub || match s with "" => false | String _ r => Contains r sub end.

(** The runes of [unicode.IsSpace] by the length of their UTF-8 encoding:
    U+0009..U+000D and U+0020; U+0085 and U+00A0; U+1680, U+2000..U+200A,
    U+2028, U+2029, U+202F, U+205F and U+3000. *)
Definition space1 (a : ascii) : bool := byte_in 9 13 a || byte_is 32 a.

Definition space2 (a b : ascii) : bool :=
  byte_is 194 a && (byte_is 133 b || byte_is 160 b).

Definition space3 (a b c : ascii) : bool :=
  (byte_is 225 a && byte_is 154 b && byte_is 128 c)
  || (byte_is 226 a && byte_is 128 b
      && (byte_in 128 138 c || byte_is 168 c || byte_is 169 c || byte_is 175 c))
  || (byte_is 226 a && byte_is 129 b && byte_is 159 c)
  || (byte_is 227 a && byte_is 128 b && byte_is 128 c).

(** Drops the white space a string starts with; [p2] and [p3] recognise the
    encodings of two and of three bytes in the order the bytes are met. *)
Fixpoint trim_go (p2 : ascii -> ascii -> bool) (p3 : ascii -> ascii -> ascii -> bool)
    (s : string) : string :=
  match s with
  | "" => ""
  | String a r =>
      if space1 a then trim_go p2 p3 r
      else match r with
           | "" => s
           | String b r2 =>
               if p2 a b then trim_go p2 p3 r2
               else match r2 with
                    | "" => s
                    | String c r3 => if p3 a b c then trim_go p2 p3 r3 else s
                    end
           end
  end.

Definition trim_left (s : string) : string := trim_go space2 space3 s.

Definition trim_right (s : string) : string :=
  String.rev
    (trim_go (fun a b => space2 b a) (fun a b c => space3 c b a) (String.rev s)).

Definition TrimSpace (s : string) : string := trim_right (trim_left s).

(** [strings.Trim] with a cutset of ASCII characters. *)
Fixpoint trim_set_left (cutset : list ascii) (s : string) : string :=
  match s with
  | String a r => if existsb (ascii_eqb a) cutset then trim_set_left cutset r else s
  | "" => ""
  end.

Definition Trim (cutset : list ascii) (s : string) : string :=
  String.rev (trim_set_left cutset (String.rev (trim_set_left cutset s))).

Definition lower_byte (a : ascii) : ascii :=
  if byte_in 65 90 a then ascii_of_nat (nat_of_ascii a + 32) else a.

(** [strings.ToLower]. U+0130 is C4 B0, U+212A is E2 84 AA. *)
Fixpoint ToLower (s : string) : string :=
  match s with
  | "" => ""
  | String a r =>
      match r with
      | String b r2 =>
          if byte_is 196 a && byte_is 176 b then String "i" (ToLower r2)
          else match r2 with
               | String c r3 =>
                   if byte_is 226 a && byte_is 132 b && byte_is 170 c
                   then String "k" (ToLower r3)
                   else String (lower_byte a) (ToLower r)
               | "" => String (lower_byte a) (ToLower r)
               end
      | "" => String (lower_byte a) (ToLower r)
      end
  end.

(** ** Package strconv *)

Definition is_digit (a : ascii) : bool := byte_in 48 57 a.

Fixpoint parse_digits (acc : Z) (s : string) : option Z :=
  match s with
  | "" => Some acc
  | String a s =>
      if is_digit a then parse_digits (10 * acc + (byte_val a - 48)) s else None
  end.

(** [strconv.Atoi]: an optional sign, at least one digit, nothing else, and a
    value in the range of [int]. [None] is any error. *)
Definition Atoi (s : string) : option Z :=
  let body neg s :=
    match s with
    | "" => None
    | _ => match parse_digits 0 s with
           | Some n => let v := if neg : bool then - n else n in
                       if in_int64 v then Some v else None
           | None => None
           end
    end in
  match s with
  | String "+" s => body false s
  | String "-" s => body true s
  | _ => body false s
  end.

(** [strconv.Itoa] *)
Definition Itoa (z : Z) : string := pretty z.

(** ** Package unicode/utf8 *)

(** [utf8.RuneStart]: the byte is not a continuation byte. *)
Definition RuneStart (a : ascii) : bool := negb (Z.land (byte_val a) 192 =? 128).

(** ** Lemmas *)

Lemma str_eqb_true s t : str_eqb s t = true <-> s = t.
Proof. apply bool_decide_eq_true. Qed.

Lemma str_eqb_false s t : str_eqb s t = false <-> s <> t.
Proof. apply bool_decide_eq_false. Qed.

Lemma ascii_eqb_refl a : ascii_eqb a a = true.
Proof. by apply bool_decide_eq_true. Qed.

Lemma ascii_eqb_true a b : ascii_eqb a b = true <-> a = b.
Proof. apply bool_decide_eq_true. Qed.

Lemma ascii_eqb_false a b : ascii_eqb a b = false <-> a <> b.
Proof. apply bool_decide_eq_false. Qed.

Lemma str_eqb_refl s : str_eqb s s = true.
Proof. by apply str_eqb_true. Qed.

Lemma str_app_nil_r (s : string) : s +:+ "" = s.
Proof. by induction s as [|a s IH]; [|rewrite <- IH at 2]. Qed.

Lemma str_app_assoc (s t u : string) : s +:+ (t +:+ u) = (s +:+ t) +:+ u.
Proof.
  induction s as [|a s IH]; [done|].
  change (String a (s +:+ (t +:+ u)) = String a ((s +:+ t) +:+ u)). by rewrite IH.
Qed.

Lemma str_length_app (s t : string) :
  String.length (s +:+ t) = (String.length s + String.length t)%nat.
Proof.
  induction s as [|a s IH]; [done|].
  change (S (String.length (s +:+ t)) = S (String.length s) + String.length t)%nat. lia.
Qed.

Lemma HasPrefix_spec s p : HasPrefix s p = true <-> exists t, s = p +:+ t.
Proof.
  revert s. induction p as [|b p IH]; intros s.
  - split; [by exists s|]. intros _. by destruct s.
  - destruct s as [|a s]; [split; [done|by intros [t [=]]]|].
    cbn [HasPrefix]. rewrite andb_true_iff, IH, ascii_eqb_true. split.
    + intros [-> [t ->]]. by exists t.
    + intros [t [= -> ->]]. eauto.
Qed.

Lemma str_drop_app (s t : string) : str_drop (String.length s) (s +:+ t) = t.
Proof. by induction s as [|a s IH]. Qed.

Lemma CutPrefix_spec s p t : CutPrefix s p = Some t <-> s = p +:+ t.
Proof.
  unfold CutPrefix. destruct (HasPrefix s p) eqn:E.
  - apply HasPrefix_spec in E as [u ->]. rewrite str_drop_app. split; [by intros [= ->]|].
    intros H. f_equal. by apply (inj (String.append p)).
  - split; [done|]. intros ->. assert (HasPrefix (p +:+ t) p = true) by (apply HasPrefix_spec; eauto).
    congruence.
Qed.

Lemma CutPrefix_none s p : CutPrefix s p = None <-> HasPrefix s p = false.
Proof. unfold CutPrefix. by destruct (HasPrefix s p). Qed.

Lemma str_take_drop n s : str_take n s +:+ str_drop n s = s.
Proof.
  revert s. induction n as [|n IH]; intros s; [done|].
  destruct s as [|a s]; [done|]. simpl.
  change (String a (str_take n s +:+ str_drop n s) = String a s). by rewrite IH.
Qed.

Lemma str_length_take n s :
  String.length (str_take n s) = Nat.min n (String.length s).
Proof. revert s. induction n as [|n IH]; intros [|a s]; simpl; auto. Qed.

Lemma str_take_all n s : (String.length s <= n)%nat -> str_take n s = s.
Proof.
  revert s. induction n as [|n IH]; intros [|a s]; simpl; intros; try done; [lia|].
  by rewrite IH by lia.
Qed.

Lemma str_bytes_app s t : str_bytes (s +:+ t) = str_bytes s ++ str_bytes t.
Proof.
  induction s as [|a s IH]; [done|].
  change (a :: str_bytes (s +:+ t) = a :: str_bytes s ++ str_bytes t). by rewrite IH.
Qed.

Lemma has_byte_app c s t : has_byte c (s +:+ t) = has_byte c s || has_byte c t.
Proof. unfold has_byte. by rewrite str_bytes_app, existsb_app. Qed.

Lemma Cut_app sep s t :
  has_byte sep s = false -> Cut sep (s +:+ String sep t) = Some (s, t).
Proof.
  induction s as [|a s IH]; intros H.
  - change (Cut sep (String sep t) = Some ("", t)). simpl.
    by rewrite ascii_eqb_refl.
  - unfold has_byte in H. simpl in H. bool_prop.
    change (Cut sep (String a (s +:+ String sep t)) = Some (String a s, t)). simpl.
    rewrite H. by rewrite IH.
Qed.

Lemma Cut_none sep s : has_byte sep s = false -> Cut sep s = None.
Proof.
  unfold has_byte. induction s as [|a s IH]; simpl; intros H; [done|].
  bool_prop. rewrite H. by rewrite IH.
Qed.

(** Digits are printed and read back. *)
Lemma pretty_N_char_digit (d : N) :
  (d < 10)%N ->
  is_digit (pretty_N_char d) = true /\ byte_val (pretty_N_char d) = 48 + Z.of_N d.
Proof.
  intros. assert (d = 0 \/ d = 1 \/ d = 2 \/ d = 3 \/ d = 4 \/ d = 5 \/ d = 6
    \/ d = 7 \/ d = 8 \/ d = 9)%N as Hd by lia.
  destruct_or?; by subst.
Qed.

Lemma parse_pretty_N_go (x : N) (s : string) (r : Z) :
  parse_digits (Z.of_N x) s = Some r ->
  parse_digits 0 (pretty_N_go x s) = Some r.
Proof.
  revert s. induction (N.lt_wf_0 x) as [x _ IH]; intros s Hs.
  destruct (decide (x = 0%N)) as [->|Hx].
  - by rewrite pretty_N_go_0.
  - rewrite pretty_N_go_step by lia. apply IH; [apply N.div_lt; lia|]. simpl.
    pose proof (N.mod_lt x 10). pose proof (N.div_mod x 10).
    destruct (pretty_N_char_digit (x `mod` 10)) as [-> ->]; [lia|].
    replace (10 * Z.of_N (x `div` 10) + (48 + Z.of_N (x `mod` 10) - 48))
      with (Z.of_N x) by lia.
    done.
Qed.

(** What [pretty] prints for a natural number starts with a digit. *)
Lemma pretty_N_go_head (x : N) (s : string) :
  (0 < x)%N \/ (exists a t, s = String a t /\ is_digit a = true) ->
  exists a t, pretty_N_go x s = String a t /\ is_digit a = true.
Proof.
  revert s. induction (N.lt_wf_0 x) as [x _ IH]; intros s Hs.
  destruct (decide (x = 0%N)) as [->|Hx].
  - rewrite pretty_N_go_0. destruct Hs as [|?]; [lia|done].
  - rewrite pretty_N_go_step by lia. apply IH; [apply N.div_lt; lia|].
    right. eexists _, _. split; [done|].
    apply pretty_N_char_digit, N.mod_lt. lia.
Qed.

Lemma pretty_N_digits (x : N) :
  exists a t, pretty x = String a t /\ is_digit a = true
              /\ parse_digits 0 (String a t) = Some (Z.of_N x).
Proof.
  unfold pretty, pretty_N. destruct (decide (x = 0%N)) as [->|Hx].
  - exists "0"%char, "". done.
  - destruct (pretty_N_go_head x "") as (a & t & Heq & Hd); [left; lia|].
    exists a, t. rewrite Heq. split_and!; [done..|].
    rewrite <- Heq. by apply parse_pretty_N_go.
Qed.

Lemma is_digit_not_sign a : is_digit a = true -> a <> "+"%char /\ a <> "-"%char.
Proof. intros H. split; intros ->; done. Qed.

Lemma Atoi_digits a t n :
  is_digit a = true -> parse_digits 0 (String a t) = Some n -> in_int64 n = true ->
  Atoi (String a t) = Some n.
Proof.
  intros Hd Hp Hr. apply is_digit_not_sign in Hd as [H1 H2].
  unfold Atoi. destruct a as [[] [] [] [] [] [] [] []]; try done; by rewrite Hp, Hr.
Qed.

(** Reading back what was printed: [Atoi (Itoa z) = z] on the range of [int]. *)
Lemma Atoi_Itoa z : in_int64 z = true -> Atoi (Itoa z) = Some z.
Proof.
  intros Hr. unfold Itoa. destruct z as [|p|p].
  - done.
  - change (pretty (Z.pos p)) with (pretty (N.pos p)).
    destruct (pretty_N_digits (N.pos p)) as (a & t & -> & Hd & Hp).
    by apply Atoi_digits.
  - change (pretty (Z.neg p)) with (String "-" (pretty (N.pos p))).
    destruct (pretty_N_digits (N.pos p)) as (a & t & -> & Hd & Hp).
    unfold Atoi. rewrite Hp. change (- Z.of_N (N.pos p)) with (Z.neg p). by rewrite Hr.
Qed.

Lemma parse_digits_nonneg acc s n :
  0 <= acc -> parse_digits acc s = Some n -> 0 <= n.
Proof.
  revert acc. induction s as [|a s IH]; simpl; intros acc Hacc H; [by simplify_eq|].
  destruct (is_digit a) eqn:Ha; [|done]. eapply IH; [|done].
  unfold is_digit, byte_in in Ha. bool_prop. lia.
Qed.

Lemma Atoi_range s n : Atoi s = Some n -> min_int64 <= n <= max_int64.
Proof.
  intros H. apply in_int64_spec. unfold Atoi in H. go_cases H; done.
Qed.

(** Strings as lists of bytes. *)
Lemma str_bytes_inj s t : str_bytes s = str_bytes t -> s = t.
Proof.
  revert t. induction s as [|a s IH]; intros [|b t] H; simplify_eq/=; [done|].
  f_equal. auto.
Qed.

Lemma str_bytes_rev s : str_bytes (String.rev s) = reverse (str_bytes s).
Proof.
  assert (forall t, str_bytes (String.rev_app s t) = reverse (str_bytes s) ++ str_bytes t)
    as H.
  { induction s as [|a s IH]; intros t; [done|]. simpl.
    by rewrite IH, reverse_cons, <- (assoc_L (++)). }
  unfold String.rev. by rewrite H, app_nil_r.
Qed.

Lemma str_rev_involutive s : String.rev (String.rev s) = s.
Proof. apply str_bytes_inj. by rewrite !str_bytes_rev, reverse_involutive. Qed.

Lemma length_str_bytes s : length (str_bytes s) = String.length s.
Proof. induction s; simpl; auto. Qed.

(** A byte of the printable ASCII range starts and ends no white space. *)
Definition plain (a : ascii) : bool := byte_in 33 126 a.

(** The first byte, if any, is plain. *)
Definition head_plain (s : string) : bool :=
  match s with "" => true | String a _ => plain a end.

Lemma trim_go_plain p2 p3 s :
  (forall a b, plain a = true -> p2 a b = false) ->
  (forall a b c, plain a = true -> p3 a b c = false) ->
  head_plain s = true -> trim_go p2 p3 s = s.
Proof.
  intros H2 H3 Hs. destruct s as [|a r]; simpl in *; [done|].
  assert (space1 a = false) as ->.
  { unfold plain, space1, byte_in, byte_is in *. bool_prop. lia. }
  destruct r as [|b r]; [done|]. rewrite H2 by done.
  destruct r as [|c r]; [done|]. by rewrite H3 by done.
Qed.

Lemma forallb_reverse {A} (f : A -> bool) l : forallb f (reverse l) = forallb f l.
Proof.
  induction l as [|x l IH]; [done|].
  rewrite reverse_cons, forallb_app, IH. simpl. by rewrite andb_true_r, andb_comm.
Qed.

Lemma TrimSpace_ends s :
  head_plain s = true -> head_plain (String.rev s) = true -> TrimSpace s = s.
Proof.
  intros Hs Hr. unfold TrimSpace, trim_left, trim_right.
  assert (forall a b, plain a = true -> space2 a b = false /\ space2 b a = false) as H2.
  { intros a b. unfold plain, space2, byte_in, byte_is. intros. bool_prop. lia. }
  assert (forall a b c, plain a = true -> space3 a b c = false /\ space3 c b a = false)
    as H3.
  { intros a b c. unfold plain, space3, byte_in, byte_is. intros. bool_prop. lia. }
  rewrite (trim_go_plain space2 space3) by naive_solver.
  rewrite trim_go_plain; [apply str_rev_involutive|naive_solver..].
Qed.

Lemma head_plain_all s : forallb plain (str_bytes s) = true -> head_plain s = true.
Proof. destruct s; simpl; [done|]. intros. by bool_prop. Qed.

Lemma head_plain_rev_all s :
  forallb plain (str_bytes s) = true -> head_plain (String.rev s) = true.
Proof. intros. apply head_plain_all. by rewrite str_bytes_rev, forallb_reverse. Qed.

Lemma TrimSpace_plain s : forallb plain (str_bytes s) = true -> TrimSpace s = s.
Proof. intros. apply TrimSpace_ends; [by apply head_plain_all|by apply head_plain_rev_all]. Qed.

Lemma Split_cons sep line rest :
  has_byte sep line = false -> Split sep (line +:+ String sep rest) = line :: Split sep rest.
Proof.
  unfold has_byte. induction line as [|a line IH]; simpl; intros H; bool_prop.
  - by rewrite ascii_eqb_refl.
  - change (String a line +:+ ?t) with (String a (line +:+ t)). simpl.
    match goal with H : ascii_eqb a sep = false |- _ => rewrite H end. by rewrite IH.
Qed.

Lemma trim_set_left_none cutset s :
  forallb (fun a => negb (existsb (ascii_eqb a) cutset)) (str_bytes s) = true ->
  trim_set_left cutset s = s.
Proof. destruct s as [|a s]; simpl; [done|]. intros. bool_prop. by case_match. Qed.

Lemma Trim_none cutset s :
  forallb (fun a => negb (existsb (ascii_eqb a) cutset)) (str_bytes s) = true ->
  Trim cutset s = s.
Proof.
  intros H. unfold Trim. rewrite (trim_set_left_none _ s) by done.
  rewrite trim_set_left_none; [apply str_rev_involutive|].
  by rewrite str_bytes_rev, forallb_reverse.
Qed.

Lemma pretty_N_go_digits (x : N) s :
  forallb is_digit (str_bytes s) = true ->
  forallb is_digit (str_bytes (pretty_N_go x s)) = true.
Proof.
  revert s. induction (N.lt_wf_0 x) as [x _ IH]; intros s Hs.
  destruct (decide (x = 0%N)) as [->|Hx]; [by rewrite pretty_N_go_0|].
  rewrite pretty_N_go_step by lia. apply IH; [apply N.div_lt; lia|]. simpl.
  pose proof (N.mod_lt x 10).
  by rewrite (proj1 (pretty_N_char_digit (x `mod` 10) ltac:(lia))).
Qed.

Lemma Itoa_digits z : 0 <= z -> forallb is_digit (str_bytes (Itoa z)) = true.
Proof.
  intros Hz. destruct z as [|p|p]; [done| |lia].
  change (Itoa (Z.pos p)) with (pretty (N.pos p)). unfold pretty, pretty_N.
  case_decide; [done|]. by apply pretty_N_go_digits.
Qed.

Lemma pretty_N_go_length (k : nat) (x : N) s :
  (x < 10 ^ N.of_nat k)%N ->
  (String.length (pretty_N_go x s) <= k + String.length s)%nat.
Proof.
  revert x s. induction k as [|k IH]; intros x s Hx.
  - replace x with 0%N by (simpl in Hx; lia). by rewrite pretty_N_go_0.
  - destruct (decide (x = 0%N)) as [->|Hx0]; [rewrite pretty_N_go_0; lia|].
    rewrite pretty_N_go_step by lia. etrans; [apply IH|simpl; lia].
    apply N.Div0.div_lt_upper_bound. rewrite Nat2N.inj_succ, N.pow_succ_r' in Hx. lia.
Qed.

(** A non-negative [int] prints in at most 19 digits. *)
Lemma Itoa_head z :
  0 <= z -> exists a r, Itoa z = String a r /\ is_digit a = true.
Proof.
  intros Hz. pose proof (Itoa_digits z Hz) as Hd. unfold Itoa in *.
  destruct z as [|p|p]; [by exists "0"%char, ""| |lia].
  change (pretty (Z.pos p)) with (pretty (N.pos p)) in *.
  destruct (pretty_N_digits (N.pos p)) as (a & t & E & _). rewrite E in *. simpl in Hd.
  bool_prop. eauto.
Qed.

Lemma forallb_no_byte p c s :
  p c = false -> forallb p (str_bytes s) = true -> has_byte c s = false.
Proof.
  intros Hc. unfold has_byte. induction s as [|a s IH]; simpl; intros H; [done|]. bool_prop.
  apply orb_false_intro; [|auto]. apply ascii_eqb_false. intros ->. congruence.
Qed.

Lemma str_rev_app s t : String.rev (s +:+ t) = String.rev t +:+ String.rev s.
Proof. apply str_bytes_inj. by rewrite str_bytes_app, !str_bytes_rev, str_bytes_app, reverse_app. Qed.

Lemma Itoa_length z : 0 <= z <= max_int64 -> (String.length (Itoa z) <= 19)%nat.
Proof.
  intros [H1 H2]. destruct z as [|p|p]; [simpl; lia| |lia].
  change (Itoa (Z.pos p)) with (pretty (N.pos p)). unfold pretty, pretty_N.
  case_decide; [done|]. etrans; [apply (pretty_N_go_length 19)|simpl; lia].
  unfold max_int64 in H2. change (10 ^ N.of_nat 19)%N with 10000000000000000000%N. lia.
Qed.

Lemma digit_plain a : is_digit a = true -> plain a = true.
Proof. unfold is_digit, plain, byte_in. intros. bool_prop. lia. Qed.

Lemma forallb_weaken {A} (f g : A -> bool) l :
  (forall x, f x = true -> g x = true) -> forallb f l = true -> forallb g l = true.
Proof.
  intros Hfg. rewrite !forallb_forall. naive_solver.
Qed.

#[export] Hint Rewrite str_eqb_refl ascii_eqb_refl : modsec.
#[export] Hint Resolve Atoi_range : modsec.

Example trim_nbsp : TrimSpace (String "194" (String "160" " a b ")) = "a b".
Proof. reflexivity. Qed.

Example atoi_plus : Atoi "+007" = Some 7.
Proof. reflexivity. Qed.

Example atoi_range : Atoi "9223372036854775808" = None.
Proof. reflexivity. Qed.

Example to_lower_kelvin : ToLower (String "226" (String "132" (String "170" "M"))) = "km".
Proof. reflexivity. Qed.
