(* ===== verification/GoFloat.v ===== *)
(** * float64 arithmetic of the score calibration

    The two score formulas of [internal/verdict/verdict.go] are computed in
    [float64]. A float64 value is the rational it denotes, and an operation is the
    exact operation on rationals followed by rounding to 53 significant bits, ties
    to even. This is IEEE 754 binary64 as long as no result overflows or is
    subnormal: the operands here are [int]s, 100 and 2, so a non-zero result lies
    between 2^-70 and 2^73. The examples at the end compare the operations with
    [SpecFloat], the executable specification of binary64 of the standard
    library. *)

From S2P Require Import Prelude.
From Stdlib Require Import QArith Qabs Qround Qpower Lqa SpecFloat.
From stdpp Require Import options.

Local Open Scope Q_scope.

(** The nearest integer, ties to even. *)
Definition rne (q : Q) : Z :=
  let f := Qfloor q in
  match Qcompare (q - inject_Z f) (1 # 2) with
  | Lt => f
  | Gt => (f + 1)%Z
  | Eq => if Z.even f then f else (f + 1)%Z
  end.

Definition pow2 (k : Z) : Q := 2 ^ k.

(** The binade of a positive rational: [pow2 k <= q < pow2 (k + 1)]. *)
Definition binade (q : Q) : Z :=
  let k := (Z.log2 (Qnum q) - Z.log2 (Zpos (Qden q)))%Z in
  if Qle_bool (pow2 k) q then k else (k - 1)%Z.

(** Rounding to a float64. *)
Definition rnd (q : Q) : Q :=
  if (Qnum q =? 0)%Z then 0
  else let e := (binade (Qabs q) - 52)%Z in
       Qred (inject_Z (rne (q / pow2 e)) * pow2 e).

Definition fl_of_int (z : Z) : Q := rnd (inject_Z z).
Definition fl_add (x y : Q) : Q := rnd (x + y).
Definition fl_mul (x y : Q) : Q := rnd (x * y).
Definition fl_div (x y : Q) : Q := rnd (x / y).

(** [math.Round]: the nearest integer, ties away from zero. *)
Definition math_Round (q : Q) : Z :=
  if Qle_bool 0 q then Qfloor (q + (1 # 2)) else (- Qfloor (- q + (1 # 2)))%Z.

(** [int(f)] of a rounded value. The language leaves a value outside the range of
    [int] to the implementation; this is what the amd64 instruction gives. *)
Definition int_of_float (z : Z) : Z := if in_int64 z then z else min_int64.

(** ** Lemmas *)

Lemma pow2_pos k : 0 < pow2 k.
Proof. apply Qpower_0_lt. reflexivity. Qed.

Lemma pow2_nonzero k : ~ pow2 k == 0.
Proof. pose proof (pow2_pos k). lra. Qed.

Lemma pow2_add j k : pow2 (j + k) == pow2 j * pow2 k.
Proof. apply Qpower_plus. intros H. discriminate H. Qed.

Lemma pow2_nonneg_int k : (0 <= k)%Z -> pow2 k == inject_Z (2 ^ k).
Proof.
  intros. unfold pow2. change 2 with (inject_Z 2).
  rewrite <- (Z2Nat.id k) by lia. rewrite <- Zpower_Qpower by lia. reflexivity.
Qed.

Lemma pow2_le j k : (j <= k)%Z -> pow2 j <= pow2 k.
Proof. intros. apply Qpower_le_compat_l; [lia|]. by compute. Qed.

Lemma pow2_lt_inv j k : pow2 j < pow2 k -> (j < k)%Z.
Proof.
  intros H. destruct (Z_lt_le_dec j k) as [|Hle]; [done|].
  apply pow2_le in Hle. lra.
Qed.

Lemma Qfloor_spec q : inject_Z (Qfloor q) <= q < inject_Z (Qfloor q) + 1.
Proof.
  split; [apply Qfloor_le|].
  pose proof (Qlt_floor q) as H. rewrite inject_Z_plus in H. exact H.
Qed.

Lemma Qfloor_unique q z : inject_Z z <= q < inject_Z z + 1 -> Qfloor q = z.
Proof.
  intros [H1 H2]. pose proof (Qfloor_spec q) as [H3 H4].
  assert (inject_Z z < inject_Z (Qfloor q + 1)) as Ha
    by (rewrite inject_Z_plus; change (inject_Z 1) with 1; lra).
  assert (inject_Z (Qfloor q) < inject_Z (z + 1)) as Hb
    by (rewrite inject_Z_plus; change (inject_Z 1) with 1; lra).
  rewrite <- Zlt_Qlt in Ha, Hb. lia.
Qed.

Lemma rne_bound q : Qabs (inject_Z (rne q) - q) <= 1 # 2.
Proof.
  pose proof (Qfloor_spec q) as [H1 H2]. unfold rne.
  apply Qabs_Qle_condition.
  destruct (Qcompare (q - inject_Z (Qfloor q)) (1 # 2)) eqn:E.
  - apply Qeq_alt in E. destruct (Z.even _); rewrite ?inject_Z_plus;
      change (inject_Z 1) with 1; lra.
  - apply Qlt_alt in E. lra.
  - apply Qgt_alt in E. rewrite inject_Z_plus. change (inject_Z 1) with 1. lra.
Qed.

Lemma rne_int q z : q == inject_Z z -> rne q = z.
Proof.
  intros Hq. unfold rne.
  assert (Qfloor q = z) as -> by (apply Qfloor_unique; split; lra).
  assert (Qcompare (q - inject_Z z) (1 # 2) = Lt) as -> by (rewrite <- Qlt_alt; lra). done.
Qed.

Lemma Zlog2_pow2 (p : positive) :
  pow2 (Z.log2 (Zpos p)) <= inject_Z (Zpos p)
  /\ inject_Z (Zpos p) < pow2 (Z.log2 (Zpos p) + 1).
Proof.
  pose proof (Z.log2_spec (Zpos p) ltac:(lia)) as [H1 H2].
  pose proof (Z.log2_nonneg (Zpos p)).
  rewrite !pow2_nonneg_int by lia. rewrite <- Zle_Qle, <- Zlt_Qlt.
  replace (Z.log2 (Zpos p) + 1)%Z with (Z.succ (Z.log2 (Zpos p))) by lia. done.
Qed.

Lemma binade_spec q : 0 < q -> pow2 (binade q) <= q < pow2 (binade q + 1).
Proof.
  intros Hq. destruct q as [n d]. destruct n as [|n|n]; [discriminate Hq| |discriminate Hq].
  unfold binade. simpl Qnum. simpl Qden.
  set (k := (Z.log2 (Zpos n) - Z.log2 (Zpos d))%Z).
  pose proof (Zlog2_pow2 n) as [Hn1 Hn2]. pose proof (Zlog2_pow2 d) as [Hd1 Hd2].
  assert (Zpos n # d == inject_Z (Zpos n) / inject_Z (Zpos d)) as Hnd
    by (by rewrite (Qmake_Qdiv (Zpos n) d)).
  pose proof (pow2_pos (Z.log2 (Zpos d))) as Hpd.
  assert (0 < inject_Z (Zpos d)) as Hd0 by (by compute).
  destruct (Qle_bool (pow2 k) _) eqn:E.
  - apply Qle_bool_iff in E. split; [done|]. rewrite Hnd.
    apply Qlt_shift_div_r; [done|].
    assert (pow2 (k + 1) * pow2 (Z.log2 (Zpos d)) == pow2 (Z.log2 (Zpos n) + 1)) as Hk.
    { rewrite <- pow2_add. unfold k. f_equiv. lia. }
    pose proof (pow2_pos (k + 1)). nra.
  - assert (~ pow2 k <= Zpos n # d) as E'.
    { intros H. apply Qle_bool_iff in H. congruence. }
    apply Qnot_le_lt in E'. replace (k - 1 + 1)%Z with k by lia. split; [|done].
    rewrite Hnd. apply Qle_shift_div_l; [done|].
    assert (pow2 (k - 1) * pow2 (Z.log2 (Zpos d) + 1) == pow2 (Z.log2 (Zpos n))) as Hk.
    { rewrite <- pow2_add. unfold k. f_equiv. lia. }
    pose proof (pow2_pos (k - 1)). nra.
Qed.

(** Rounding depends on the value only, not on its numerator and denominator. *)
Lemma binade_unique q k : 0 < q -> pow2 k <= q < pow2 (k + 1) -> binade q = k.
Proof.
  intros Hq [H1 H2]. pose proof (binade_spec q Hq) as [H3 H4].
  assert (k < binade q + 1)%Z by (apply pow2_lt_inv; lra).
  assert (binade q < k + 1)%Z by (apply pow2_lt_inv; lra). lia.
Qed.

#[export] Instance rne_proper : Proper (Qeq ==> eq) rne.
Proof.
  intros q q' Hq. unfold rne. rewrite (Qfloor_comp q q') by done.
  assert (q - inject_Z (Qfloor q') == q' - inject_Z (Qfloor q')) as Hs by (by rewrite Hq).
  by rewrite (Qcompare_comp _ _ Hs _ _ (Qeq_refl _)).
Qed.

#[export] Instance rnd_proper : Proper (Qeq ==> Qeq) rnd.
Proof.
  intros q q' Hq. unfold rnd.
  assert (forall p, (Qnum p =? 0)%Z = true <-> p == 0) as Hz.
  { intros [n d]. rewrite Z.eqb_eq. unfold Qeq. simpl. lia. }
  destruct (Qnum q =? 0)%Z eqn:E, (Qnum q' =? 0)%Z eqn:E'; [done| | |].
  - apply Hz in E. rewrite Hq in E. apply Hz in E. congruence.
  - apply Hz in E'. rewrite <- Hq in E'. apply Hz in E'. congruence.
  - assert (0 < Qabs q) as Hpos.
    { destruct q as [n d]. apply Z.eqb_neq in E. simpl in E. unfold Qabs, Qlt. simpl. lia. }
    pose proof (binade_spec _ Hpos) as Hb.
    assert (binade (Qabs q') = binade (Qabs q)) as ->.
    { apply binade_unique; by rewrite <- Hq. }
    set (e := (binade (Qabs q) - 52)%Z).
    assert (q / pow2 e == q' / pow2 e) as Hd by (by rewrite Hq).
    by rewrite !Qred_correct, (rne_proper _ _ Hd).
Qed.

#[export] Instance math_Round_proper : Proper (Qeq ==> eq) math_Round.
Proof.
  intros q q' Hq. unfold math_Round.
  rewrite (Qleb_comp _ _ (Qeq_refl 0) _ _ Hq).
  destruct (Qle_bool 0 q'); [|f_equal]; apply Qfloor_comp; by rewrite Hq.
Qed.

(** The relative error of one rounding. *)
Definition ulp_half : Q := pow2 (-53).

Lemma rnd_error q : Qabs (rnd q - q) <= Qabs q * ulp_half.
Proof.
  unfold rnd. destruct (Z.eqb_spec (Qnum q) 0) as [H0|H0].
  - assert (q == 0) as -> by (destruct q; simpl in H0; subst; done). by compute.
  - set (e := (binade (Qabs q) - 52)%Z).
    assert (0 < Qabs q) as Hpos.
    { destruct q as [n d]. simpl in H0. unfold Qabs, Qlt. simpl. lia. }
    pose proof (binade_spec _ Hpos) as [Hb _].
    rewrite Qred_correct. pose proof (pow2_pos e) as He.
    pose proof (rne_bound (q / pow2 e)) as Hr.
    assert (inject_Z (rne (q / pow2 e)) * pow2 e - q
      == (inject_Z (rne (q / pow2 e)) - q / pow2 e) * pow2 e) as ->
      by (field; apply pow2_nonzero).
    rewrite Qabs_Qmult. rewrite (Qabs_pos (pow2 e)) by lra.
    assert (pow2 (binade (Qabs q)) * ulp_half == pow2 e * (1 # 2)) as Hu.
    { unfold ulp_half. rewrite <- pow2_add. change (1 # 2) with (pow2 (-1)).
      rewrite <- pow2_add. unfold e. f_equiv. lia. }
    assert (0 < ulp_half) by apply pow2_pos. nra.
Qed.

(** A dyadic rational of at most 53 significant bits is a float64. *)
Lemma rnd_exact q z k :
  q == inject_Z z * pow2 k -> (Z.abs z <= 2 ^ 53)%Z -> rnd q == q.
Proof.
  intros Hq Hz. unfold rnd. destruct (Z.eqb_spec (Qnum q) 0) as [H0|H0].
  { destruct q; simpl in H0; subst; done. }
  assert (0 < Qabs q) as Hpos.
  { destruct q as [n d]. simpl in H0. unfold Qabs, Qlt. simpl. lia. }
  pose proof (binade_spec _ Hpos) as [_ Hb].
  pose proof (binade_spec _ Hpos) as [Hb' _].
  set (b := binade (Qabs q)) in *. pose proof (pow2_pos k) as Hk.
  assert (Qabs q == inject_Z (Z.abs z) * pow2 k) as Habs.
  { rewrite Hq, Qabs_Qmult, (Qabs_pos (pow2 k)) by lra. by destruct z. }
  rewrite Qred_correct.
  assert (exists y, q / pow2 (b - 52) == inject_Z y) as [y Hy].
  { destruct (Z_le_gt_dec (b - 52) k) as [Hle|Hgt].
    - exists (z * 2 ^ (k - (b - 52)))%Z.
      rewrite inject_Z_mult, <- pow2_nonneg_int by lia.
      rewrite Hq. replace k with (k - (b - 52) + (b - 52))%Z at 1 by lia.
      rewrite pow2_add. field. apply pow2_nonzero.
    - assert (pow2 b <= inject_Z (2 ^ 53) * pow2 k) as Hb2.
      { eapply Qle_trans; [apply Hb'|]. rewrite Habs.
        rewrite Zle_Qle in Hz. nra. }
      rewrite <- pow2_nonneg_int, <- pow2_add in Hb2 by lia.
      assert (b = 53 + k)%Z as Hbk.
      { destruct (Z_lt_le_dec (53 + k) b) as [Hlt|]; [|lia].
        pose proof (pow2_le (53 + k + 1) b ltac:(lia)) as H1.
        rewrite (pow2_add (53 + k) 1) in H1. pose proof (pow2_pos (53 + k)).
        change (pow2 1) with 2 in H1. lra. }
      assert (Z.abs z = 2 ^ 53)%Z as Hz2.
      { assert (inject_Z (2 ^ 53) <= inject_Z (Z.abs z)) as H1.
        { rewrite Habs, Hbk, pow2_add, (pow2_nonneg_int 53) in Hb' by lia. nra. }
        rewrite <- Zle_Qle in H1. lia. }
      exists (Z.sgn z * 2 ^ 52)%Z. rewrite Hq, Hbk.
      replace (53 + k - 52)%Z with (k + 1)%Z by lia. rewrite pow2_add.
      rewrite <- (Z.abs_sgn z) at 1. rewrite Z.mul_comm, Hz2.
      change (2 ^ 53)%Z with (2 ^ 52 * 2)%Z. rewrite !inject_Z_mult.
      change (pow2 1) with (inject_Z 2). field.
      apply pow2_nonzero. }
  rewrite (rne_int _ _ Hy), <- Hy. field. apply pow2_nonzero.
Qed.

Lemma rnd_int q z : q == inject_Z z -> (Z.abs z <= 2 ^ 53)%Z -> rnd q == q.
Proof.
  intros Hq Hz. apply (rnd_exact q z 0); [|done].
  rewrite Hq. change (pow2 0) with 1. ring.
Qed.

Lemma rnd_nonneg q : 0 <= q -> 0 <= rnd q.
Proof.
  intros Hq. pose proof (rnd_error q) as H.
  rewrite (Qabs_pos q) in H by done. apply Qabs_Qle_condition in H.
  assert (ulp_half < 1) by (by compute). nra.
Qed.

Lemma math_Round_nonneg q : 0 <= q -> math_Round q = Qfloor (q + (1 # 2)).
Proof.
  intros. unfold math_Round. by rewrite (proj2 (Qle_bool_iff 0 q)).
Qed.

Lemma int_of_float_small z : (min_int64 <= z <= max_int64)%Z -> int_of_float z = z.
Proof. intros. unfold int_of_float. by rewrite (proj2 (in_int64_spec z)). Qed.

(** A value closer to [q] than [q] is to any tie is rounded like [q]. *)
Lemma math_Round_near q q' (n d : Z) :
  (0 < d)%Z -> (0 <= n)%Z -> q == inject_Z n / inject_Z d -> 0 <= q' ->
  ((2 * n + d) mod (2 * d) <> 0)%Z ->
  Qabs (q' - q) < 1 / inject_Z (2 * d) ->
  math_Round q' = ((2 * n + d) / (2 * d))%Z.
Proof.
  intros Hd Hn Hq Hq' Htie Herr. rewrite math_Round_nonneg by done.
  set (k := ((2 * n + d) / (2 * d))%Z).
  pose proof (Z.div_mod (2 * n + d) (2 * d) ltac:(lia)) as Hdm. fold k in Hdm.
  pose proof (Z.mod_pos_bound (2 * n + d) (2 * d) ltac:(lia)) as Hm.
  set (r := ((2 * n + d) mod (2 * d))%Z) in *.
  apply Qabs_Qlt_condition in Herr.
  assert (0 < inject_Z d) as Hd' by (change 0 with (inject_Z 0); by rewrite <- Zlt_Qlt).
  assert (q + (1 # 2) == inject_Z k + inject_Z r / inject_Z (2 * d)) as Hk.
  { assert (inject_Z (2 * n + d) == inject_Z (2 * d * k + r)) as Hi by (by rewrite Hdm).
    rewrite !inject_Z_plus, !inject_Z_mult in Hi. rewrite !inject_Z_mult, Hq.
    change (inject_Z 2) with 2 in *. field_simplify_eq; [|lra]. lra. }
  assert (0 < inject_Z (2 * d)) as Hd2
    by (rewrite inject_Z_mult; change (inject_Z 2) with 2; lra).
  assert (1 / inject_Z (2 * d) <= inject_Z r / inject_Z (2 * d)) as Hr1.
  { apply Qmult_le_compat_r; [|apply Qlt_le_weak, Qinv_lt_0_compat; done].
    change 1 with (inject_Z 1). rewrite <- Zle_Qle. lia. }
  assert (inject_Z r / inject_Z (2 * d) <= 1 - 1 / inject_Z (2 * d)) as Hr2.
  { assert (1 - 1 / inject_Z (2 * d) == (inject_Z (2 * d) - 1) / inject_Z (2 * d)) as ->
      by (field; lra).
    apply Qmult_le_compat_r; [|apply Qlt_le_weak, Qinv_lt_0_compat; done].
    change 1 with (inject_Z 1).
    unfold Qminus. rewrite <- inject_Z_opp, <- inject_Z_plus, <- Zle_Qle. lia. }
  apply Qfloor_unique. split; lra.
Qed.

(** Near a tie the result is one of the two neighbours. *)
Lemma math_Round_tie q' k :
  0 <= q' -> Qabs (q' - (inject_Z k - (1 # 2))) < 1 # 2 ->
  math_Round q' = k \/ math_Round q' = (k - 1)%Z.
Proof.
  intros Hq H%Qabs_Qlt_condition. rewrite math_Round_nonneg by done.
  destruct (Qlt_le_dec (q' + (1 # 2)) (inject_Z k)) as [Hlt|Hle]; [right|left];
    apply Qfloor_unique; rewrite <- ?Z.add_opp_r, ?inject_Z_plus;
    change (inject_Z (-(1))) with (-1); lra.
Qed.

(** The error of two roundings in a row, the first of [2 * q] and the second of its
    half. *)
Lemma rnd_half_error q :
  0 <= q ->
  Qabs (rnd (rnd (2 * q) / 2) - q) <= q * (2 * ulp_half + ulp_half * ulp_half).
Proof.
  intros Hq. pose proof (rnd_error (2 * q)) as H1. set (x := rnd (2 * q)) in *.
  rewrite (Qabs_pos (2 * q)) in H1 by lra. apply Qabs_Qle_condition in H1.
  assert (0 < ulp_half /\ ulp_half < 1) as [Hu0 Hu1] by (split; by compute).
  assert (0 <= x) as Hx by nra. pose proof (rnd_error (x / 2)) as H2.
  assert (0 <= x / 2) as Hx2 by (apply Qle_shift_div_l; [by compute|lra]).
  rewrite (Qabs_pos (x / 2)) in H2 by done. apply Qabs_Qle_condition in H2.
  apply Qabs_Qle_condition. assert (x / 2 == x * (1 # 2)) as Hh by field.
  set (y := x / 2) in *. set (z := rnd y) in *. split; nra.
Qed.

(** ** The operations agree with the binary64 of SpecFloat *)

Definition sf_of_int (z : Z) : spec_float := binary_normalize 53 1024 z 0 false.

Definition sf_val (x : spec_float) : Q :=
  match x with
  | S754_finite s m e => (if s then - inject_Z (Zpos m) else inject_Z (Zpos m)) * pow2 e
  | _ => 0
  end.

Example calibrate_step_agrees :
  sf_val (SFdiv 53 1024 (SFmul 53 1024 (sf_of_int 100) (sf_of_int 7)) (sf_of_int 3))
  == fl_div (fl_mul 100 (fl_of_int 7)) (fl_of_int 3).
Proof. reflexivity. Qed.

Example scale_step_agrees :
  sf_val (SFmul 53 1024 (sf_of_int 5)
    (SFadd 53 1024 (sf_of_int 1) (SFdiv 53 1024 (sf_of_int (-90)) (sf_of_int 100))))
  == fl_mul (fl_of_int 5) (fl_add 1 (fl_div (fl_of_int (-90)) 100)).
Proof. reflexivity. Qed.

Example of_int_rounds_like_binary64 :
  sf_val (sf_of_int (2 ^ 53 + 3)) == fl_of_int (2 ^ 53 + 3).
Proof. reflexivity. Qed.
