(* ===== verification/Protocol.v ===== *)
(** * Messages of the bus: [internal/protocol/protocol.go]

    The request and reply types, [Parse] with its validation, the reply
    constructors, and the checks of the three message parts that the policy file
    also uses: archive conditions, object specifications and markers.

    [json.Unmarshal] and [json.Marshal] are arguments: decoding by reflection is
    not modelled. A Go map literal that [Parse] ranges over is visited in the
    order of an argument, any permutation of its keys. *)

From S2P Require Import Prelude GoString.
From stdpp Require Import options.

Local Open Scope Z_scope.

Definition Version : Z := 2.

(** ** Data *)

Record TLS := { tls_Version : string; tls_SNI : string; tls_JA4 : string }.

Record Conn := {
  ClientIP : string; ClientPort : Z; ServerIP : string; ServerPort : Z;
  conn_TLS : option TLS }.

(** A header is the pair of its name and value. *)
Abbreviation Header := (string * string)%type.

Record HTTP := {
  Method : string; Scheme : string; Host : string; URI : string;
  ArgsSize : Z; http_Version : string }.

Record Response := { Status : Z; rsp_Headers : list Header; UpstreamMS : Z }.

Record Enc := { Alg : string; KID : string; Nonce : string }.

Record Locator := {
  loc_Store : string; Driver : string; Key : string; Unavailable : string;
  Size : Z; DeclaredSize : Z; SHA256 : string; ProcessedSHA256 : string;
  Transformed : bool; Complete : bool; Truncated : bool; Encoding : string;
  ExpiresAt : Z; Hint : string; loc_Enc : option Enc }.

Record Store := {
  st_Headers : option Locator; st_Args : option Locator; st_Body : option Locator }.

Record Route := { ServerName : string; Location : string; Profile : string }.

Record ScoreState := { Total : Z; DenyAt : Z }.

Record ObjectSpec := { spec_Set : string; Limit : Z; Source : string }.

Record Action := {
  To : string; Do : string; Apply : string; act_Phase : string; act_Code : string;
  Delta : Z; Value : Z; Counter : string; Marker : string; Group : string;
  act_Set : string; TTL : option Z; When : list string;
  act_Headers : option ObjectSpec; act_Args : option ObjectSpec;
  act_Body : option ObjectSpec }.

Record PriorVerdict := {
  pv_Phase : string; pv_Inspector : string; pv_Verdict : string; pv_Score : Z;
  pv_Actions : list Action }.

Record Stream := {
  str_Protocol : string; Direction : string; Opcode : string; Fin : bool;
  Subprotocol : string }.

Record Release := { rel_Token : string; rel_Reason : string }.

Record Resume := { Want : bool; res_Token : string; Require_ : bool }.

Record Request := {
  V : Z; RID : string; Ray : string; Phase : string; Wave : Z; Inspector : string;
  DeadlineMS : Z; AuditSubject : option string; Node : string; req_Conn : Conn;
  req_HTTP : HTTP; Vars : gmap string string; Needs : list string;
  req_Store : Store; req_Route : Route; req_Score : ScoreState;
  Prior : list PriorVerdict; req_Response : option Response;
  RequestStore : Store; req_Resume : option Resume; req_Release : option Release;
  ConnID : string; Seq : Z; req_Stream : option Stream }.

Record Reason := { Code : string; Class_ : string }.
Record ResponseRef := { Name : string }.
Record RedirectRef := { URL : string; redir_Status : Z }.
Record HeaderOps := { ops_Set : gmap string string; Unset : list string }.
Record Continue := { Subject : string; TTLMS : Z }.

Record Reply := {
  rep_V : Z; rep_RID : string; rep_Inspector : string; Verdict : string;
  Score : option Z; rep_Reason : option Reason; rep_Response : option ResponseRef;
  Redirect : option RedirectRef; rep_Headers : option HeaderOps;
  rep_Continue : option Continue; Actions : list Action }.

(** The words of the protocol. *)
Definition DoChallenge := "challenge".
Definition DoThreshold := "threshold".
Definition DoSkip := "skip".
Definition DoReauth := "reauth".
Definition DoNote := "note".
Definition DoMutate := "mutate".
Definition DoActive := "active".
Definition DoPassive := "passive".
Definition DoOff := "off".
Definition DoVote := "vote".
Definition DoAudit := "audit".
Definition DoArchive := "archive".
Definition DoMark := "mark".
Definition DoScore := "score".

Definition ApplyRequest := "request".
Definition ApplyIP := "ip".
Definition ApplyASN := "asn".
Definition ApplySession := "session".
Definition ApplyConn := "conn".
Definition ApplyResponse := "response".

Definition PhaseRequest := "request".
Definition PhaseResponse := "response".
Definition PhaseFrame := "frame".

Definition NeedHeaders := "headers".
Definition NeedArgs := "args".
Definition NeedBody := "body".

Definition VerdictAllow := "allow".
Definition VerdictScore := "score".
Definition VerdictRedirect := "redirect".
Definition VerdictDeny := "deny".
Definition VerdictError := "error".

Definition ClassOverload := "overload".

(** ** Small accessors *)

Definition Placed (l : option Locator) : bool :=
  match l with
  | Some l => str_eqb (Unavailable l) "" && negb (str_eqb (Driver l) "")
              && negb (str_eqb (Key l) "")
  | None => false
  end.

Definition Scope (a : Action) : string :=
  if str_eqb (Apply a) "" then ApplyRequest else Apply a.

Definition Needed (r : Request) (obj : string) : bool :=
  existsb (fun n => str_eqb n obj) (Needs r).

(** ** Checks shared with the policy file *)

Inductive WhenError :=
| WhenUnknown (word : string)
| WhenTwice (name : string).

Fixpoint when_loop (seen : gset string) (words : list string) :
    res WhenError (gset string) :=
  match words with
  | [] => Ok seen
  | word :: words =>
      let name := ToLower (TrimSpace word) in
      if negb (str_eqb name "allow") && negb (str_eqb name "deny")
      then Err (WhenUnknown word)
      else if bool_decide (name ∈ seen) then Err (WhenTwice name)
      else when_loop ({[name]} ∪ seen) words
  end.

Definition ArchiveWhen : list string := ["allow"; "deny"].

Definition CheckArchiveWhen (words : list string) : res WhenError (list string) :=
  seen ← when_loop ∅ words;
  Ok (List.filter (fun name => bool_decide (name ∈ seen)) ArchiveWhen).

Inductive SpecError :=
| SpecSet (name set : string)
| SpecLimit (name : string)
| SpecSource (name source : string).

Definition CheckObjectSpec (name : string) (o : option ObjectSpec) (audit : bool) :
    res SpecError unit :=
  match o with
  | None => Ok tt
  | Some o =>
      fail_if (negb (str_eqb (spec_Set o) "") && negb (str_eqb (spec_Set o) "on")
               && negb (str_eqb (spec_Set o) "off")) (SpecSet name (spec_Set o));;
      fail_if (Limit o <? 0) (SpecLimit name);;
      fail_if (negb (str_eqb (Source o) "") && negb (str_eqb (Source o) "store")
               && negb (str_eqb (Source o) "original")) (SpecSource name (Source o))
  end.

Inductive MarkerError :=
| MarkerMissing | MarkerLong | MarkerControl | MarkerSpace.

Definition MarkerMax : Z := 128.

(** [marker[i] < 0x20 || marker[i] == 0x7f] *)
Definition control_byte (a : ascii) : bool := (byte_val a <? 32) || byte_is 127 a.

Definition first_is (c : ascii) (s : string) : bool :=
  match s with "" => false | String a _ => ascii_eqb a c end.

Definition CheckMarker (marker : string) : res MarkerError unit :=
  fail_if (str_eqb marker "") MarkerMissing;;
  fail_if (MarkerMax <? len marker) MarkerLong;;
  fail_if (existsb control_byte (str_bytes marker)) MarkerControl;;
  fail_if (first_is " " marker || first_is " " (String.rev marker)) MarkerSpace.

(** ** Parse *)

Inductive ParseWhy :=
| InvalidJSON | MissingRID | MissingV | MissingInspector
| BadPhase (phase : string) | ReleaseNoToken | NoMethodOrURI
| MixesUnavailable (obj : string) | NoDriverOrKey (obj : string).

Record ParseError := { pe_RID : string; pe_Err : ParseWhy }.

Definition validate (l : option Locator) (obj : string) : res ParseWhy unit :=
  match l with
  | None => Ok tt
  | Some l =>
      fail_if (negb (str_eqb (Unavailable l) "")
               && (negb (str_eqb (Driver l) "") || negb (str_eqb (Key l) "")))
        (MixesUnavailable obj);;
      fail_if (negb (Bool.eqb (str_eqb (Driver l) "") (str_eqb (Key l) "")))
        (NoDriverOrKey obj)
  end.

(** The value of the map literal [{headers: s.Headers, ...}] at a key. *)
Definition store_obj (s : Store) (name : string) : option Locator :=
  if str_eqb name NeedHeaders then st_Headers s
  else if str_eqb name NeedArgs then st_Args s else st_Body s.

Definition need_names : list string := [NeedHeaders; NeedArgs; NeedBody].

(** The pattern of [ridPattern]: the field name in quotes, a colon with white
    space of the class [\s] around it, and a quoted run of 1 to 32 hex digits. *)
Definition dquote : ascii := "034"%char.

Definition re_space (a : ascii) : bool :=
  byte_is 9 a || byte_is 10 a || byte_is 12 a || byte_is 13 a || byte_is 32 a.

Definition is_hex (a : ascii) : bool :=
  byte_in 48 57 a || byte_in 97 102 a || byte_in 65 70 a.

Fixpoint skip_space (s : string) : string :=
  match s with
  | String a r => if re_space a then skip_space r else s
  | "" => ""
  end.

Fixpoint hex_run (s : string) : string * string :=
  match s with
  | String a r =>
      if is_hex a then let '(h, t) := hex_run r in (String a h, t) else ("", s)
  | "" => ("", "")
  end.

Definition rid_key : string := String dquote ("rid" +:+ String dquote "").

Definition rid_at (s : string) : option string :=
  s ← CutPrefix s rid_key;
  s ← CutPrefix (skip_space s) ":";
  s ← CutPrefix (skip_space s) (String dquote "");
  let '(h, t) := hex_run s in
  if (1 <=? len h) && (len h <=? 32) && first_is dquote t then Some h else None.

Fixpoint sniff (s : string) : option string :=
  match rid_at s with
  | Some h => Some h
  | None => match s with "" => None | String _ r => sniff r end
  end.

Definition sniffRID (payload : string) : string := default "" (sniff payload).

Definition valid_phase (p : string) : bool :=
  str_eqb p PhaseRequest || str_eqb p PhaseResponse || str_eqb p PhaseFrame.

Section parse.
Context (unmarshal : string -> option Request).

(** The checks of [Parse] on a decoded request; [o1] and [o2] are the orders in
    which the two map literals are visited. *)
Definition check_request (o1 o2 : list string) (req : Request) :
    res ParseError unit :=
  let fail why := {| pe_RID := RID req; pe_Err := why |} in
  let locs prefix st o :=
    try_each (fun name =>
      match validate (store_obj st name) (prefix +:+ name) with
      | Ok _ => Ok tt | Err why => Err (fail why) end) o in
  fail_if (str_eqb (RID req) "") {| pe_RID := ""; pe_Err := MissingRID |};;
  fail_if (V req =? 0) (fail MissingV);;
  fail_if (str_eqb (Inspector req) "") (fail MissingInspector);;
  fail_if (negb (valid_phase (Phase req))) (fail (BadPhase (Phase req)));;
  match req_Release req with
  | Some r => fail_if (str_eqb (rel_Token r) "") (fail ReleaseNoToken)
  | None =>
      fail_if (str_eqb (Method (req_HTTP req)) "" || str_eqb (URI (req_HTTP req)) "")
        (fail NoMethodOrURI);;
      locs "" (req_Store req) o1;;
      locs "request_" (RequestStore req) o2
  end.

Definition Parse (o1 o2 : list string) (payload : string) : res ParseError Request :=
  match unmarshal payload with
  | None => Err {| pe_RID := sniffRID payload; pe_Err := InvalidJSON |}
  | Some req => check_request o1 o2 req;; Ok req
  end.
End parse.

(** ** Replies *)

Definition NewReply (req : Request) (verdict : string) : Reply :=
  {| rep_V := V req; rep_RID := RID req; rep_Inspector := Inspector req;
     Verdict := verdict; Score := None; rep_Reason := None; rep_Response := None;
     Redirect := None; rep_Headers := None; rep_Continue := None; Actions := [] |}.

Definition set_V (v : Z) (r : Reply) : Reply :=
  {| rep_V := v; rep_RID := rep_RID r; rep_Inspector := rep_Inspector r;
     Verdict := Verdict r; Score := Score r; rep_Reason := rep_Reason r;
     rep_Response := rep_Response r; Redirect := Redirect r;
     rep_Headers := rep_Headers r; rep_Continue := rep_Continue r;
     Actions := Actions r |}.

(** One function sets the fields a verdict is made of; [None] for a field of
    pointer type is nil. *)
Definition set_outcome (verdict : string) (score : option Z) (reason : option Reason)
    (response : option ResponseRef) (redirect : option RedirectRef) (r : Reply) : Reply :=
  {| rep_V := rep_V r; rep_RID := rep_RID r; rep_Inspector := rep_Inspector r;
     Verdict := verdict; Score := score; rep_Reason := reason;
     rep_Response := response; Redirect := redirect;
     rep_Headers := rep_Headers r; rep_Continue := rep_Continue r;
     Actions := Actions r |}.

Definition set_Reason (reason : Reason) (r : Reply) : Reply :=
  set_outcome (Verdict r) (Score r) (Some reason) (rep_Response r) (Redirect r) r.

Definition set_Continue (c : Continue) (r : Reply) : Reply :=
  {| rep_V := rep_V r; rep_RID := rep_RID r; rep_Inspector := rep_Inspector r;
     Verdict := Verdict r; Score := Score r; rep_Reason := rep_Reason r;
     rep_Response := rep_Response r; Redirect := Redirect r;
     rep_Headers := rep_Headers r; rep_Continue := Some c; Actions := Actions r |}.

Definition set_Actions (l : list Action) (r : Reply) : Reply :=
  {| rep_V := rep_V r; rep_RID := rep_RID r; rep_Inspector := rep_Inspector r;
     Verdict := Verdict r; Score := Score r; rep_Reason := rep_Reason r;
     rep_Response := rep_Response r; Redirect := Redirect r;
     rep_Headers := rep_Headers r; rep_Continue := rep_Continue r; Actions := l |}.

Definition reason (code : string) : Reason := {| Code := code; Class_ := "" |}.

Definition ErrorReply (req : Request) (code : string) : Reply :=
  set_Reason (reason code) (NewReply req VerdictError).

Definition ShedReply (req : Request) (code : string) : Reply :=
  set_Reason {| Code := code; Class_ := ClassOverload |} (ErrorReply req code).

Definition FallbackReply (rid inspector code : string) : Reply :=
  {| rep_V := Version; rep_RID := rid; rep_Inspector := inspector;
     Verdict := VerdictError; Score := None; rep_Reason := Some (reason code);
     rep_Response := None; Redirect := None; rep_Headers := None;
     rep_Continue := None; Actions := [] |}.

Inductive ScoreError := ErrScoreRange (score : Z) | ErrMarshal.

(** [r.WithScore(score)]: the reply after the call, or the error. *)
Definition WithScore (r : Reply) (score : Z) : res ScoreError Reply :=
  if (score <? 0) || (100 <? score) then Err (ErrScoreRange score)
  else Ok (set_outcome VerdictScore (Some score) (rep_Reason r) (rep_Response r)
             (Redirect r) r).

Definition Marshal (encode : Reply -> option string) (r : Reply) : res ScoreError string :=
  let out_of_range :=
    match Score r with Some s => (s <? 0) || (100 <? s) | None => false end in
  if out_of_range then Err (ErrScoreRange (default 0 (Score r)))
  else match encode r with Some b => Ok b | None => Err ErrMarshal end.

(** ** Well-formedness *)

(** A locator answers for its object in exactly one of three ways: it says why
    there is none, gives an address, or is empty. *)
Definition locator_ok (l : option Locator) : Prop :=
  match l with
  | None => True
  | Some l =>
      (Unavailable l <> "" /\ Driver l = "" /\ Key l = "")
      \/ (Unavailable l = "" /\ Driver l <> "" /\ Key l <> "")
      \/ (Unavailable l = "" /\ Driver l = "" /\ Key l = "")
  end.

Definition store_ok (s : Store) : Prop :=
  locator_ok (st_Headers s) /\ locator_ok (st_Args s) /\ locator_ok (st_Body s).

Definition envelope_ok (req : Request) : Prop :=
  RID req <> "" /\ V req <> 0 /\ Inspector req <> ""
  /\ (Phase req = PhaseRequest \/ Phase req = PhaseResponse \/ Phase req = PhaseFrame).

(** What [Parse] promises of a message it accepts. *)
Definition request_ok (req : Request) : Prop :=
  envelope_ok req
  /\ match req_Release req with
     | Some r => rel_Token r <> ""
     | None => Method (req_HTTP req) <> "" /\ URI (req_HTTP req) <> ""
               /\ store_ok (req_Store req) /\ store_ok (RequestStore req)
     end.

(** ** Samples: concrete messages for the examples *)

Definition sample_conn : Conn :=
  {| ClientIP := "192.0.2.7"; ClientPort := 40000; ServerIP := "198.51.100.1";
     ServerPort := 443; conn_TLS := None |}.

Definition sample_http : HTTP :=
  {| Method := "GET"; Scheme := "https"; Host := "example.org"; URI := "/a";
     ArgsSize := 0; http_Version := "HTTP/1.1" |}.

Definition no_store : Store := {| st_Headers := None; st_Args := None; st_Body := None |}.

Definition sample_request (rid phase : string) : Request :=
  {| V := 2; RID := rid; Ray := ""; Phase := phase; Wave := 1; Inspector := "modsec";
     DeadlineMS := 50; AuditSubject := None; Node := "n1"; req_Conn := sample_conn;
     req_HTTP := sample_http; Vars := ∅; Needs := []; req_Store := no_store;
     req_Route := {| ServerName := ""; Location := ""; Profile := "" |};
     req_Score := {| Total := 0; DenyAt := 0 |}; Prior := []; req_Response := None;
     RequestStore := no_store; req_Resume := None; req_Release := None; ConnID := "";
     Seq := 0; req_Stream := None |}.

(** ** Lemmas *)

Lemma validate_ok l obj : is_ok (validate l obj) = true <-> locator_ok l.
Proof.
  destruct l as [l|]; [|done]. simpl. autorewrite with modsec. unfold str_eqb.
  repeat case_bool_decide; simpl; intuition congruence.
Qed.

Lemma locs_ok {E} (st : Store) (f : string -> option Locator -> res E unit) o :
  (forall name l, is_ok (f name l) = true <-> locator_ok l) ->
  o ≡ₚ need_names ->
  is_ok (try_each (fun name => f name (store_obj st name)) o) = true <-> store_ok st.
Proof.
  intros Hf Ho. rewrite try_each_ok, forallb_forall.
  setoid_rewrite Hf. setoid_rewrite <- list_elem_of_In. setoid_rewrite Ho.
  unfold need_names, store_ok. split.
  - intros H. split_and!; [apply (H NeedHeaders)|apply (H NeedArgs)|apply (H NeedBody)];
      clear; set_solver.
  - intros (? & ? & ?) x Hx. rewrite !elem_of_cons in Hx.
    destruct Hx as [->|[->|[->|Hx]]]; [done..|]. by apply elem_of_nil in Hx.
Qed.

Lemma valid_phase_spec p :
  valid_phase p = true <-> p = PhaseRequest \/ p = PhaseResponse \/ p = PhaseFrame.
Proof. unfold valid_phase. rewrite !orb_true_iff, !str_eqb_true. tauto. Qed.

Lemma check_request_ok o1 o2 req :
  o1 ≡ₚ need_names -> o2 ≡ₚ need_names ->
  is_ok (check_request o1 o2 req) = true <-> request_ok req.
Proof.
  intros H1 H2. unfold check_request, request_ok, envelope_ok.
  rewrite !is_ok_bind, !is_ok_fail_if, !andb_true_iff, !negb_true_iff, !negb_false_iff.
  rewrite !str_eqb_false, Z.eqb_neq, valid_phase_spec.
  destruct (req_Release req) as [r|].
  - rewrite is_ok_fail_if, negb_true_iff, str_eqb_false. tauto.
  - rewrite !is_ok_bind, is_ok_fail_if, !andb_true_iff, negb_true_iff, orb_false_iff,
      !str_eqb_false.
    rewrite !(locs_ok _ (fun name l => match validate l _ with Ok _ => _ | Err _ => _ end)).
    + tauto.
    + intros name l. rewrite <- (validate_ok l ("request_" +:+ name)). by destruct (validate _ _).
    + done.
    + intros name l. rewrite <- (validate_ok l ("" +:+ name)). by destruct (validate _ _).
    + done.
Qed.

Lemma check_request_rid o1 o2 req e :
  check_request o1 o2 req = Err e -> pe_RID e = RID req.
Proof.
  unfold check_request, fail_if. intros H.
  destruct (str_eqb (RID req) "") eqn:Hr.
  { apply str_eqb_true in Hr. rewrite Hr. by simplify_eq/=. }
  assert (forall prefix st o, try_each (fun name =>
    match validate (store_obj st name) (prefix +:+ name) with
    | Ok _ => Ok tt | Err why => Err {| pe_RID := RID req; pe_Err := why |} end) o = Err e ->
    pe_RID e = RID req) as Hlocs.
  { intros prefix st o (x & _ & Hx)%try_each_err.
    by destruct (validate _ _); simplify_eq/=. }
  go_cases H; eauto.
  apply res_bind_err in H as [H|(? & _ & H)]; eauto.
Qed.

(** The key of the pattern starts at the first quote of a payload only. *)
Lemma CutPrefix_app p s : CutPrefix (p +:+ s) p = Some s.
Proof.
  assert (HasPrefix (p +:+ s) p = true /\ str_drop (String.length p) (p +:+ s) = s)
    as [H1 H2].
  { induction p as [|a p [IH1 IH2]]; [by destruct s|].
    change (String a p +:+ s) with (String a (p +:+ s)). simpl.
    by rewrite ascii_eqb_refl. }
  unfold CutPrefix. by rewrite H1, H2.
Qed.

Lemma skip_space_app ws a s :
  forallb re_space (str_bytes ws) = true -> re_space a = false ->
  skip_space (ws +:+ String a s) = String a s.
Proof.
  intros H Ha. induction ws as [|b ws IH].
  - change ("" +:+ String a s) with (String a s). simpl. by rewrite Ha.
  - change (String b ws +:+ String a s) with (String b (ws +:+ String a s)).
    simpl in *. bool_prop. rewrite H. auto.
Qed.

Lemma hex_run_app h a s :
  forallb is_hex (str_bytes h) = true -> is_hex a = false ->
  hex_run (h +:+ String a s) = (h, String a s).
Proof.
  intros H Ha. induction h as [|b h IH].
  - change ("" +:+ String a s) with (String a s). simpl. by rewrite Ha.
  - change (String b h +:+ String a s) with (String b (h +:+ String a s)).
    simpl in *. bool_prop. rewrite H. by rewrite IH.
Qed.

Lemma hex_run_hex s h t : hex_run s = (h, t) -> forallb is_hex (str_bytes h) = true.
Proof.
  revert h t. induction s as [|a s IH]; simpl; intros h t H; [by simplify_eq|].
  destruct (is_hex a) eqn:Ha; [|by simplify_eq].
  destruct (hex_run s) as [h' t']. simplify_eq/=. rewrite Ha. eauto.
Qed.

Lemma rid_at_sound s h :
  rid_at s = Some h -> forallb is_hex (str_bytes h) = true /\ 1 <= len h <= 32.
Proof.
  unfold rid_at. intros H.
  destruct (CutPrefix s _) as [s1|]; simpl in H; [|done].
  destruct (CutPrefix (skip_space s1) _) as [s2|]; simpl in H; [|done].
  destruct (CutPrefix (skip_space s2) _) as [s3|]; simpl in H; [|done].
  destruct (hex_run s3) as [h' t] eqn:Hrun.
  destruct (_ && _ && _) eqn:Hb; simplify_eq. bool_prop.
  split; [by eapply hex_run_hex|lia].
Qed.

Lemma sniff_sound s h :
  sniff s = Some h -> forallb is_hex (str_bytes h) = true /\ 1 <= len h <= 32.
Proof.
  induction s as [|a s IH]; cbn [sniff]; intros H; [done|].
  destruct (rid_at (String a s)) eqn:E; simplify_eq; [by eapply rid_at_sound|auto].
Qed.

Lemma sniff_at s h : rid_at s = Some h -> sniff s = Some h.
Proof. intros H. destruct s; cbn [sniff]; by rewrite H. Qed.

Lemma rid_at_no_quote a s : a <> dquote -> rid_at (String a s) = None.
Proof.
  intros Ha%ascii_eqb_false. unfold rid_at, CutPrefix, rid_key. simpl. by rewrite Ha.
Qed.

Lemma rid_at_match ws1 ws2 h post :
  forallb re_space (str_bytes ws1) = true -> forallb re_space (str_bytes ws2) = true ->
  forallb is_hex (str_bytes h) = true -> 1 <= len h <= 32 ->
  rid_at (rid_key +:+ ws1 +:+ ":" +:+ ws2 +:+ String dquote (h +:+ String dquote post))
  = Some h.
Proof.
  intros H1 H2 Hh Hlen. unfold rid_at. rewrite CutPrefix_app. simpl.
  change (":" +:+ ?s) with (String ":" s). rewrite skip_space_app by done.
  rewrite (CutPrefix_app ":" _ : CutPrefix (String ":" _) ":" = Some _). simpl.
  rewrite skip_space_app by done.
  rewrite (CutPrefix_app (String dquote "") _
    : CutPrefix (String dquote _) (String dquote "") = Some _). simpl.
  rewrite hex_run_app by done.
  rewrite (proj2 (Z.leb_le 1 _)), (proj2 (Z.leb_le _ 32)) by lia. done.
Qed.

Lemma when_loop_ok words seen out :
  when_loop seen words = Ok out <->
  let names := (fun w => ToLower (TrimSpace w)) <$> words in
  NoDup names /\ Forall (fun n => n ∈ ArchiveWhen /\ n ∉ seen) names
  /\ out = list_to_set names ∪ seen.
Proof.
  revert seen. induction words as [|w words IH]; intros seen; cbn [when_loop].
  { split.
    - intros [= ->]. split; [constructor|]. split; [constructor|]. set_solver.
    - intros (_ & _ & ->). f_equal. set_solver. }
  rewrite fmap_cons. set (name := ToLower (TrimSpace w)).
  destruct (negb _ && negb _) eqn:Hw.
  { split; [done|]. intros (_ & Hf%Forall_cons_iff & _). destruct Hf as [[Hin _] _].
    bool_prop. rewrite !str_eqb_false in *. set_solver. }
  assert (name ∈ ArchiveWhen) as Hname.
  { apply andb_false_iff in Hw. rewrite !negb_false_iff, !str_eqb_true in Hw.
    unfold ArchiveWhen. set_solver. }
  case_bool_decide as Hseen.
  { split; [done|]. intros (_ & Hf%Forall_cons_iff & _). by destruct Hf as [[_ ?] _]. }
  rewrite IH. generalize ((fun w0 => ToLower (TrimSpace w0)) <$> words).
  clear IH Hw. intros names. cbn zeta.
  rewrite list.NoDup_cons, list.Forall_cons, !list.Forall_forall.
  assert (list_to_set names ∪ ({[name]} ∪ seen) = list_to_set (name :: names) ∪ seen)
    as -> by (simpl; set_solver +).
  split; intros H; destruct_and! H; split_and!; try done.
  - intros Hn. set_solver.
  - intros n Hn. set_solver.
  - intros n Hn. set_solver.
Qed.

Lemma when_canonical (names : list string) :
  List.filter (fun n => bool_decide (n ∈ (list_to_set names ∪ ∅ : gset string))) ArchiveWhen
  = List.filter (fun n => bool_decide (n ∈ names)) ArchiveWhen.
Proof. apply List.filter_ext. intros n. apply bool_decide_ext. set_solver +. Qed.

(** ** Properties *)

(** C28: [Parse] accepts exactly the messages that decode to a well-formed
    request, whatever order the two map literals of locators are visited in: the
    envelope is complete, a release carries a token, and any other message has a
    method, a URI and six locators each of which says why there is no object,
    gives a full address, or is empty. *)
Theorem Parse_accepts unmarshal o1 o2 payload req :
  o1 ≡ₚ need_names -> o2 ≡ₚ need_names ->
  Parse unmarshal o1 o2 payload = Ok req
  <-> unmarshal payload = Some req /\ request_ok req.
Proof.
  intros H1 H2. unfold Parse. destruct (unmarshal payload) as [req'|]; [|naive_solver].
  pose proof (check_request_ok o1 o2 req' H1 H2) as Hok.
  destruct (check_request o1 o2 req') eqn:E; simpl in *.
  - split; [intros [= ->]; naive_solver|]. by intros ([= ->] & _).
  - split; [done|]. intros ([= ->] & Hreq). by apply Hok in Hreq.
Qed.

Lemma Parse_accepts_witness :
  Parse (fun _ => Some (sample_request "r1" "request")) need_names need_names "x"
    = Ok (sample_request "r1" "request")
  <-> Some (sample_request "r1" "request") = Some (sample_request "r1" "request")
      /\ request_ok (sample_request "r1" "request").
Proof.
  exact (Parse_accepts (fun _ => Some (sample_request "r1" "request")) need_names need_names
    "x" (sample_request "r1" "request") (Permutation_refl _) (Permutation_refl _)).
Defined.

(** C34: A rejected message keeps its identity: the error of [Parse] carries the
    request's RID, or, when the payload is not JSON, the RID that [sniffRID]
    finds in the text. Another order of the locators changes the wording of the
    error at most. *)
Theorem Parse_rejects unmarshal o1 o2 o1' o2' payload e :
  o1 ≡ₚ need_names -> o2 ≡ₚ need_names -> o1' ≡ₚ need_names -> o2' ≡ₚ need_names ->
  Parse unmarshal o1 o2 payload = Err e ->
  pe_RID e = from_option RID (sniffRID payload) (unmarshal payload)
  /\ exists e', Parse unmarshal o1' o2' payload = Err e' /\ pe_RID e' = pe_RID e.
Proof.
  intros H1 H2 H1' H2' HP. unfold Parse in *.
  destruct (unmarshal payload) as [req|]; simpl; [|by simplify_eq/=; eauto].
  destruct (check_request o1 o2 req) as [|e0] eqn:E; simplify_eq/=.
  pose proof (check_request_rid _ _ _ _ E) as Hrid. split; [done|].
  destruct (check_request o1' o2' req) as [|e'] eqn:E'; simpl.
  - assert (request_ok req) as Hr
      by (apply (check_request_ok o1' o2'); [done..|by rewrite E']).
    apply (check_request_ok o1 o2) in Hr; [|done..]. by rewrite E in Hr.
  - exists e'. split; [done|]. by rewrite (check_request_rid _ _ _ _ E'), Hrid.
Qed.

Lemma Parse_rejects_witness :
  pe_RID {| pe_RID := "r1"; pe_Err := BadPhase "x" |} = "r1"
  /\ exists e', Parse (fun _ => Some (sample_request "r1" "x")) (rev need_names) need_names ""
       = Err e' /\ pe_RID e' = "r1".
Proof.
  exact (Parse_rejects (fun _ => Some (sample_request "r1" "x")) need_names need_names
    (rev need_names) need_names "" {| pe_RID := "r1"; pe_Err := BadPhase "x" |}
    (Permutation_refl _) (Permutation_refl _)
    (Permutation_sym (Permutation_rev need_names)) (Permutation_refl _) eq_refl).
Defined.

(** [sniffRID] recovers the RID of a payload that is not JSON: with any white
    space around the colon, whatever follows, and no quote before the key, it
    returns the hex digits of the field. *)
Lemma sniffRID_finds pre ws1 ws2 h post :
  has_byte dquote pre = false ->
  forallb re_space (str_bytes ws1) = true -> forallb re_space (str_bytes ws2) = true ->
  forallb is_hex (str_bytes h) = true -> 1 <= len h <= 32 ->
  sniffRID (pre +:+ rid_key +:+ ws1 +:+ ":" +:+ ws2
            +:+ String dquote (h +:+ String dquote post)) = h.
Proof.
  intros Hpre H1 H2 Hh Hlen. unfold sniffRID.
  pose proof (rid_at_match ws1 ws2 h post H1 H2 Hh Hlen) as Hm.
  set (rest := rid_key +:+ _) in *.
  assert (sniff (pre +:+ rest) = Some h) as ->; [|done].
  induction pre as [|a pre IH].
  - by apply sniff_at.
  - unfold has_byte in Hpre. simpl in Hpre. bool_prop.
    change (String a pre +:+ rest) with (String a (pre +:+ rest)). cbn [sniff].
    rewrite rid_at_no_quote by (by apply ascii_eqb_false). by apply IH.
Qed.

Lemma sniffRID_finds_witness :
  sniffRID ("{" +:+ rid_key +:+ " " +:+ ":" +:+ "" +:+ String dquote ("a1B2" +:+ String dquote ","))
  = "a1B2".
Proof. apply (sniffRID_finds "{" " " "" "a1B2" ","); try reflexivity. by vm_compute. Defined.

(** [CheckArchiveWhen] accepts exactly the lists whose words, trimmed and in
    lower case, are among allow and deny and do not repeat, and returns the words
    present in the canonical order. *)
Lemma CheckArchiveWhen_spec words out :
  CheckArchiveWhen words = Ok out <->
  let names := (fun w => ToLower (TrimSpace w)) <$> words in
  NoDup names /\ Forall (fun n => n ∈ ArchiveWhen) names
  /\ out = List.filter (fun n => bool_decide (n ∈ names)) ArchiveWhen.
Proof.
  unfold CheckArchiveWhen. rewrite res_bind_ok. setoid_rewrite when_loop_ok.
  cbn zeta. split.
  - intros (seen & (Hnd & Hf & ->) & [= <-]).
    split; [done|]. split; [|apply when_canonical].
    eapply list.Forall_impl; [exact Hf|]. naive_solver.
  - intros (Hnd & Hf & ->). eexists. split; [|f_equal; apply when_canonical].
    split; [done|]. split; [|done].
    eapply list.Forall_impl; [exact Hf|]. set_solver +.
Qed.
