(* ===== verification/Engine.v ===== *)
(** * The rules engine seen from the inspector: [internal/engine/engine.go] and
    [internal/engine/ranges.go]

    The data of an engine run and the rule-number ranges of the settings and of
    the policy file. *)

From S2P Require Import Prelude GoString.
From stdpp Require Import options.

Local Open Scope Z_scope.

Record Intervention := {
  iv_Status : Z; Pause : Z; iv_URL : string; Log : string; Disruptive : bool;
  iv_Action : string; RuleID : Z }.

Record MatchedRule := {
  ID : Z; rule_Phase : Z; Severity : string; Tags : list string;
  Message : string; Data : string; Target : string }.

Definition TagMax : Z := 128.

Definition Finding (r : MatchedRule) : bool := negb (str_eqb (Message r) "").

Definition Tagged (r : MatchedRule) (tags : list string) : bool :=
  existsb (fun have => existsb (fun want => str_eqb have want) tags) (Tags r).

(** ** Ranges of rule numbers *)

Abbreviation Ranges := (list (Z * Z)).

Definition cutRange (item : string) : option (Z * Z) :=
  match Cut "-" item with
  | Some (lo, hi) =>
      match Atoi lo, Atoi hi with
      | Some l, Some h => if (l <? 0) || (h <? l) then None else Some (l, h)
      | _, _ => None
      end
  | None =>
      match Atoi item with
      | Some v => if v <? 0 then None else Some (v, v)
      | None => None
      end
  end.

(** The error carries the item that is not a number or a range. *)
Fixpoint ParseRanges (items : list string) : res string Ranges :=
  match items with
  | [] => Ok []
  | item :: items =>
      match cutRange (TrimSpace item) with
      | None => Err item
      | Some rng => out ← ParseRanges items; Ok (rng :: out)
      end
  end.

Definition Has (rs : Ranges) (id : Z) : bool :=
  existsb (fun rng => (rng.1 <=? id) && (id <=? rng.2)) rs.

(** The text of a range in a settings variable or a policy file. *)
Definition show_range (rng : Z * Z) : string :=
  if rng.1 =? rng.2 then Itoa rng.1 else Itoa rng.1 +:+ "-" +:+ Itoa rng.2.

Definition range_ok (rng : Z * Z) : Prop := 0 <= rng.1 <= rng.2 /\ rng.2 <= max_int64.

(** ** Lemmas *)

Lemma Finding_spec r : Finding r = true <-> Message r <> "".
Proof. unfold Finding. by rewrite negb_true_iff, str_eqb_false. Qed.

Lemma Tagged_spec r tags : Tagged r tags = true <-> exists t, t ∈ Tags r /\ t ∈ tags.
Proof.
  unfold Tagged. rewrite existsb_exists. setoid_rewrite existsb_exists.
  setoid_rewrite str_eqb_true. setoid_rewrite <- list_elem_of_In. naive_solver.
Qed.

Lemma Has_spec rs id :
  Has rs id = true <-> exists rng, rng ∈ rs /\ rng.1 <= id <= rng.2.
Proof.
  unfold Has. rewrite existsb_exists. setoid_rewrite <- list_elem_of_In.
  setoid_rewrite andb_true_iff. setoid_rewrite Z.leb_le. done.
Qed.

Lemma cutRange_ok item rng : cutRange item = Some rng -> range_ok rng.
Proof.
  unfold cutRange, range_ok. intros H.
  go_cases H; try match goal with
  | H : (_ || _) = false |- _ => apply orb_false_elim in H as [? ?]
  end; repeat match goal with
  | H : Atoi _ = Some _ |- _ => apply Atoi_range in H
  end; lia.
Qed.

Lemma ParseRanges_ok items rs :
  ParseRanges items = Ok rs -> Forall range_ok rs /\ length rs = length items.
Proof.
  revert rs. induction items as [|item items IH]; simpl; intros rs H.
  { simplify_eq. by split. }
  destruct (cutRange _) as [rng|] eqn:E; [|done].
  destruct (ParseRanges items) as [out|] eqn:E'; simpl in H; [|done]. simplify_eq.
  destruct (IH out eq_refl). apply cutRange_ok in E. simpl. split; [by constructor|lia].
Qed.

Lemma Itoa_plain z : 0 <= z -> forallb plain (str_bytes (Itoa z)) = true.
Proof.
  intros. eapply forallb_weaken; [apply digit_plain|]. by apply Itoa_digits.
Qed.

Lemma show_range_plain rng :
  range_ok rng -> forallb plain (str_bytes (show_range rng)) = true.
Proof.
  intros [??]. unfold show_range. destruct (_ =? _); [apply Itoa_plain; lia|].
  rewrite !str_bytes_app, !forallb_app, !Itoa_plain by lia. done.
Qed.

Lemma cutRange_show rng : range_ok rng -> cutRange (show_range rng) = Some rng.
Proof.
  destruct rng as [lo hi]. intros [Hr1 Hr2]. simpl in *. unfold show_range. simpl.
  assert (in_int64 lo = true /\ in_int64 hi = true) as [Hlo Hhi].
  { rewrite !in_int64_spec. unfold min_int64, max_int64 in *. lia. }
  destruct (Z.eqb_spec lo hi) as [->|Hne]; unfold cutRange.
  - rewrite Cut_none by (apply (forallb_no_byte is_digit); [done|apply Itoa_digits; lia]).
    rewrite Atoi_Itoa by done. by rewrite (proj2 (Z.ltb_ge hi 0)) by lia.
  - change ("-" +:+ Itoa hi) with (String "-" (Itoa hi)).
    rewrite Cut_app by (apply (forallb_no_byte is_digit); [done|apply Itoa_digits; lia]).
    rewrite !Atoi_Itoa by done.
    by rewrite (proj2 (Z.ltb_ge lo 0)), (proj2 (Z.ltb_ge hi lo)) by lia.
Qed.

(** ** Properties *)

(** Rule ranges survive printing and parsing: [ParseRanges] reads back every
    list of ranges of non-negative numbers from its text, as single numbers and
    as intervals. *)
Lemma ParseRanges_show rs :
  Forall range_ok rs -> ParseRanges (show_range <$> rs) = Ok rs.
Proof.
  induction 1 as [|rng rs Hr Hrs IH]; [done|]. rewrite fmap_cons. simpl.
  rewrite TrimSpace_plain by (by apply show_range_plain).
  rewrite cutRange_show by done. by rewrite IH.
Qed.

Lemma ParseRanges_show_witness :
  ParseRanges (show_range <$> [(942100, 942199); (920170, 920170)])
  = Ok [(942100, 942199); (920170, 920170)].
Proof.
  apply (ParseRanges_show [(942100, 942199); (920170, 920170)]).
  repeat constructor; by vm_compute.
Defined.

(** [ParseRanges] fails on the first item that is not a number or a range and
    names it; on success every item gives one well-formed range, and [Has] holds
    of exactly the numbers between the bounds of one of them. *)
Lemma ParseRanges_spec items :
  match ParseRanges items with
  | Ok rs => length rs = length items /\ Forall range_ok rs
             /\ Forall2 (fun item rng => cutRange (TrimSpace item) = Some rng) items rs
             /\ (forall id, Has rs id = true <-> exists item rng, item ∈ items
                   /\ cutRange (TrimSpace item) = Some rng /\ rng.1 <= id <= rng.2)
  | Err bad => exists before after, items = before ++ bad :: after
               /\ cutRange (TrimSpace bad) = None
               /\ Forall (fun item => is_Some (cutRange (TrimSpace item))) before
  end.
Proof.
  assert (forall rs, ParseRanges items = Ok rs ->
    Forall2 (fun item rng => cutRange (TrimSpace item) = Some rng) items rs) as HF.
  { induction items as [|item items IH]; simpl; intros rs H; [by simplify_eq|].
    destruct (cutRange _) as [rng|] eqn:E; [|done].
    destruct (ParseRanges items) as [out|]; simpl in H; [|done]. simplify_eq. eauto. }
  destruct (ParseRanges items) as [rs|bad] eqn:E.
  - destruct (ParseRanges_ok _ _ E). specialize (HF rs eq_refl).
    split_and!; [done..|]. intros id. rewrite Has_spec. split.
    + intros (rng & (i & Hi)%list_elem_of_lookup & Hid).
      destruct (Forall2_lookup_r _ _ _ _ _ HF Hi) as (item & ? & ?).
      exists item, rng. split; [|done]. apply list_elem_of_lookup. eauto.
    + intros (item & rng & (i & Hi)%list_elem_of_lookup & Hc & Hid).
      destruct (Forall2_lookup_l _ _ _ _ _ HF Hi) as (rng' & ? & ?). simplify_eq.
      exists rng. split; [|done]. apply list_elem_of_lookup. eauto.
  - clear HF. revert E. induction items as [|item items IH]; simpl; intros H; [done|].
    destruct (cutRange (TrimSpace item)) as [rng|] eqn:E; [|by simplify_eq; exists [], items].
    destruct (ParseRanges items) as [out|bad'] eqn:E'; simpl in H; [done|]. simplify_eq.
    destruct (IH eq_refl) as (before & after & -> & ? & ?).
    exists (item :: before), after. split_and!; [done..|]. constructor; eauto.
Qed.
