(* ===== verification/Apply.v ===== *)
(** * Running a transaction: [internal/engine/apply.go]

    The rules engine is behind the interfaces [Engine] and [Transaction]. A
    transaction is modelled by the calls it has received, in order, and an engine
    by its answers, each a function of the calls up to and including the one that
    is answered; so an engine may keep any state it likes. The functions of the
    file return, beside their Go results, the calls received by the transaction
    they created, from which the theorems read who closes it and when.

    [lifecycle] is the specification: a state machine of the phases of a
    transaction. *)

From Stdlib Require Import QArith_base.
From S2P Require Import Prelude GoString GoFloat Engine.
From stdpp Require Import options.

Local Open Scope Z_scope.

(** ** Data *)

Record Input := {
  in_RID : string; in_ClientIP : string; in_ClientPort : Z; in_ServerIP : string;
  in_ServerPort : Z; in_Method : string; in_URI : string; in_Args : string;
  in_Version : string; in_Host : string; in_Headers : list (string * string);
  in_Body : string; in_BodyTruncated : bool }.

Record ResponseInput := {
  rsp_Status : Z; rsp_Proto : string; rsp_in_Headers : list (string * string);
  rsp_Body : string; rsp_BodyTruncated : bool }.

Record Outcome := {
  out_Intervention : option Intervention; Matched : list MatchedRule;
  AnomalyScore : Z; Threshold : Z; out_EngineMS : Q }.

(** The calls of the interface [Transaction] that change it. *)
Inductive Call :=
| ProcessConnection (clientIP : string) (clientPort : Z) (serverIP : string) (serverPort : Z)
| ProcessURI (uri method httpVersion : string)
| SetServerName (name : string)
| AddRequestHeader (name value : string)
| ProcessRequestHeaders
| WriteRequestBody (b : string)
| ProcessRequestBody
| AddResponseHeader (name value : string)
| ProcessResponseHeaders (status : Z) (proto : string)
| WriteResponseBody (b : string)
| ProcessResponseBody
| ProcessLogging
| Close.

Abbreviation Tx := (list Call).

(** An engine behind the interfaces; an error is a string. *)
Record Engine := {
  NewTransaction : string -> option string;
  on_RequestHeaders : Tx -> option Intervention;
  on_WriteRequestBody : Tx -> option string;
  on_RequestBody : Tx -> res string (option Intervention);
  on_ResponseHeaders : Tx -> option Intervention;
  on_WriteResponseBody : Tx -> option string;
  on_ResponseBody : Tx -> res string (option Intervention);
  matched : Tx -> list MatchedRule;
  Anomaly : Tx -> Z * Z;
  AnomalyOutbound : Tx -> Z * Z;
  RuleCount : Z }.

Record Live := { live_tx : Tx; live_proto : string }.

(** ** Operations *)

Definition requestTarget (uri args : string) : string :=
  if str_eqb args "" then uri else uri +:+ "?" +:+ args.

Definition protocolVersion (v : string) : string :=
  if str_eqb v "" then "1.1" else TrimPrefix v "HTTP/".

(** [strings.LastIndex(host, ":")] cuts the reversed string at its first colon. *)
Definition hostname (host : string) : string :=
  match Cut ":" (String.rev host) with
  | Some (after, before) => if has_byte "]" after then host else String.rev before
  | None => host
  end.

(** The first intervention wins. *)
Definition first_iv (it v : option Intervention) : option Intervention :=
  match it with Some _ => it | None => v end.

(** The result of a call that may fail before or after the transaction exists. *)
Inductive begun (A : Type) : Type :=
| NotCreated (e : string)
| Failed (tx : Tx) (e : string)
| Running (tx : Tx) (a : A).
Arguments NotCreated {A} e.
Arguments Failed {A} tx e.
Arguments Running {A} tx a.

Section engine.
Context (eng : Engine).

Definition begin (i : Input) : begun (option Intervention) :=
  match NewTransaction eng (in_RID i) with
  | Some err => NotCreated err
  | None =>
      let tx := [ProcessConnection (in_ClientIP i) (in_ClientPort i)
                   (in_ServerIP i) (in_ServerPort i)] in
      let tx := tx ++ [ProcessURI (requestTarget (in_URI i) (in_Args i)) (in_Method i)
                         (protocolVersion (in_Version i))] in
      let tx := if negb (str_eqb (in_Host i) "")
                then tx ++ [SetServerName (hostname (in_Host i))] else tx in
      let tx := tx ++ ((fun h => AddRequestHeader h.1 h.2) <$> in_Headers i) in
      let tx := tx ++ [ProcessRequestHeaders] in
      let it := on_RequestHeaders eng tx in
      let '(tx, werr) :=
        if 0 <? len (in_Body i)
        then let tx := tx ++ [WriteRequestBody (in_Body i)] in
             (tx, on_WriteRequestBody eng tx)
        else (tx, None) in
      match werr with
      | Some err => Failed (tx ++ [Close]) err
      | None =>
          let tx := tx ++ [ProcessRequestBody] in
          match on_RequestBody eng tx with
          | Err err => Failed (tx ++ [Close]) err
          | Ok v => Running tx (first_iv it v)
          end
      end
  end.

Definition matchedPhases (tx : Tx) (lo hi : Z) : list MatchedRule :=
  List.filter (fun m => (lo <=? rule_Phase m) && (rule_Phase m <=? hi)) (matched eng tx).

(** [us] is the time since the start in microseconds. *)
Definition outcome (tx : Tx) (it : option Intervention) (lo hi : Z)
    (score : Tx -> Z * Z) (us : Z) : Outcome :=
  {| out_Intervention := it; Matched := matchedPhases tx lo hi;
     AnomalyScore := (score tx).1; Threshold := (score tx).2;
     out_EngineMS := fl_div (fl_of_int us) 1000 |}.

(** [Apply]: the calls of the transaction, if one was created, and the result. *)
Definition Apply (i : Input) (us : Z) : option Tx * res string Outcome :=
  match begin i with
  | NotCreated err => (None, Err err)
  | Failed tx err => (Some tx, Err err)
  | Running tx it =>
      let tx := tx ++ [ProcessLogging] in
      let out := outcome tx it 1 2 (Anomaly eng) us in
      (Some (tx ++ [Close]), Ok out)
  end.

Definition ApplyKeep (i : Input) (us : Z) : option Tx * res string (Outcome * Live) :=
  match begin i with
  | NotCreated err => (None, Err err)
  | Failed tx err => (Some tx, Err err)
  | Running tx it =>
      (Some tx, Ok (outcome tx it 1 2 (Anomaly eng) us,
                    {| live_tx := tx; live_proto := protocolVersion (in_Version i) |}))
  end.

(** [finish] returns the calls it left the transaction with. *)
Definition finish (tx : Tx) (rsp : ResponseInput) (proto : string) (us : Z) :
    Tx * res string Outcome :=
  let tx := tx ++ ((fun h => AddResponseHeader h.1 h.2) <$> rsp_in_Headers rsp) in
  let tx := tx ++ [ProcessResponseHeaders (rsp_Status rsp) proto] in
  let it := on_ResponseHeaders eng tx in
  let '(tx, werr) :=
    if 0 <? len (rsp_Body rsp)
    then let tx := tx ++ [WriteResponseBody (rsp_Body rsp)] in
         (tx, on_WriteResponseBody eng tx)
    else (tx, None) in
  match werr with
  | Some err => (tx, Err err)
  | None =>
      let tx := tx ++ [ProcessResponseBody] in
      match on_ResponseBody eng tx with
      | Err err => (tx, Err err)
      | Ok v =>
          let tx := tx ++ [ProcessLogging] in
          (tx, Ok (outcome tx (first_iv it v) 3 4 (AnomalyOutbound eng) us))
      end
  end.

(** [Live.Resume] closes the transaction on return, whatever the result. *)
Definition Resume (l : Live) (rsp : ResponseInput) (us : Z) : Tx * res string Outcome :=
  let '(tx, r) := finish (live_tx l) rsp (live_proto l) us in (tx ++ [Close], r).

Definition Discard (l : Live) : Tx := live_tx l ++ [Close].

Definition ApplyResponse (i : Input) (rsp : ResponseInput) (us : Z) :
    option Tx * res string Outcome :=
  match begin i with
  | NotCreated err => (None, Err err)
  | Failed tx err => (Some tx, Err err)
  | Running tx _ =>
      let '(tx, r) := finish tx rsp (protocolVersion (in_Version i)) us in
      (Some (tx ++ [Close]), r)
  end.
End engine.

(** ** Specification: the phases of a transaction *)

Inductive stage :=
| Created | Connected | ReqHeaders | ReqBody | ReqDone | RspHeaders | RspBody | RspDone
| Logged | Closed.

(** One call, from one stage to the next. Closing is allowed until it is done. *)
Inductive advance : stage -> Call -> stage -> Prop :=
| adv_conn a b c d : advance Created (ProcessConnection a b c d) Connected
| adv_uri a b c : advance Connected (ProcessURI a b c) ReqHeaders
| adv_name n : advance ReqHeaders (SetServerName n) ReqHeaders
| adv_header n v : advance ReqHeaders (AddRequestHeader n v) ReqHeaders
| adv_headers : advance ReqHeaders ProcessRequestHeaders ReqBody
| adv_write b : advance ReqBody (WriteRequestBody b) ReqBody
| adv_body : advance ReqBody ProcessRequestBody ReqDone
| adv_rheader n v : advance ReqDone (AddResponseHeader n v) ReqDone
| adv_rheaders s p : advance ReqDone (ProcessResponseHeaders s p) RspBody
| adv_rwrite b : advance RspBody (WriteResponseBody b) RspBody
| adv_rbody : advance RspBody ProcessResponseBody RspDone
| adv_log s : s = ReqDone \/ s = RspDone -> advance s ProcessLogging Logged
| adv_close s : s <> Closed -> advance s Close Closed.

Inductive lifecycle : stage -> Tx -> stage -> Prop :=
| life_nil s : lifecycle s [] s
| life_cons s c s' tx s'' :
    advance s c s' -> lifecycle s' tx s'' -> lifecycle s (c :: tx) s''.

(** ** Lemmas *)

#[export] Hint Constructors advance lifecycle : modsec.

Lemma lifecycle_app s tx1 s' tx2 s'' :
  lifecycle s tx1 s' -> lifecycle s' tx2 s'' -> lifecycle s (tx1 ++ tx2) s''.
Proof. induction 1; simpl; eauto with modsec. Qed.

Lemma lifecycle_one s c s' : advance s c s' -> lifecycle s [c] s'.
Proof. eauto with modsec. Qed.

(** The calls that may repeat in a stage. *)
Lemma lifecycle_loop {A} s (f : A -> Call) l :
  (forall x, advance s (f x) s) -> lifecycle s (f <$> l) s.
Proof. intros H. induction l; simpl; eauto with modsec. Qed.

(** Nothing follows the closing of a transaction, so a complete run closes it
    once. *)
Lemma lifecycle_closed tx s : lifecycle Closed tx s -> tx = [] /\ s = Closed.
Proof. inversion 1 as [|? ? ? ? ? Ha]; subst; [done|]. inversion Ha; destruct_or?; done. Qed.

Lemma lifecycle_snoc s tx c s'' :
  lifecycle s (tx ++ [c]) s'' -> exists s', lifecycle s tx s' /\ advance s' c s''.
Proof.
  revert s. induction tx as [|d tx IH]; simpl; intros s H.
  - inversion H as [|? ? s' ? ? Ha Hl]; subst. inversion Hl; subst. eauto with modsec.
  - inversion H as [|? ? s1 ? ? Ha Hl]; subst.
    destruct (IH _ Hl) as (s' & ? & ?). eauto with modsec.
Qed.

Lemma lifecycle_no_close s tx s' : lifecycle s tx s' -> s' <> Closed -> Close ∉ tx.
Proof.
  induction 1 as [|s c s1 tx s2 Ha Hl IH]; intros Hne; [set_solver|].
  apply not_elem_of_cons. split; [|auto].
  intros <-. inversion Ha; subst; apply lifecycle_closed in Hl as [_ ->]; done.
Qed.

(** A closed transaction received [Close] last, and only then. *)
Lemma lifecycle_closes_once s tx :
  lifecycle s tx Closed -> s <> Closed -> exists tx', tx = tx' ++ [Close] /\ Close ∉ tx'.
Proof.
  intros H Hs. destruct tx as [|c tx _] using rev_ind; [by inversion H; subst|].
  apply lifecycle_snoc in H as (s' & Hl & Ha).
  inversion Ha; subst. exists tx. split; [done|]. by eapply lifecycle_no_close.
Qed.

(** [life] follows a concatenation of calls through the stages. *)
Ltac life :=
  repeat first
    [ eassumption
    | apply life_nil
    | apply lifecycle_loop; intros; by constructor
    | eapply life_cons; [by (constructor; auto)|]
    | eapply lifecycle_app ].

Section engine_lemmas.
Context (eng : Engine).

Lemma begin_lifecycle i :
  match begin eng i with
  | NotCreated _ => True
  | Failed tx _ => lifecycle Created tx Closed
  | Running tx _ => lifecycle Created tx ReqDone
  end.
Proof.
  unfold begin. destruct (NewTransaction _ _); [done|]. cbv zeta.
  destruct (negb _), (0 <? _); cbv zeta;
    repeat case_match; simplify_eq; life.
Qed.

Lemma finish_lifecycle tx rsp proto us :
  lifecycle Created tx ReqDone ->
  lifecycle Created ((finish eng tx rsp proto us).1 ++ [Close]) Closed.
Proof.
  intros Htx. unfold finish. cbv zeta.
  destruct (0 <? _); cbv zeta; repeat case_match; simplify_eq; simpl; life.
Qed.

Lemma Discard_complete l :
  lifecycle Created (live_tx l) ReqDone -> lifecycle Created (Discard l) Closed.
Proof. intros. unfold Discard. life. Qed.

Lemma Resume_complete l rsp us :
  lifecycle Created (live_tx l) ReqDone ->
  lifecycle Created (Resume eng l rsp us).1 Closed.
Proof.
  intros Hl. unfold Resume. pose proof (finish_lifecycle _ rsp (live_proto l) us Hl).
  by destruct (finish _ _ _ _ _).
Qed.

Lemma Apply_complete i us tx :
  (Apply eng i us).1 = Some tx -> lifecycle Created tx Closed.
Proof.
  unfold Apply. pose proof (begin_lifecycle i) as Hb.
  destruct (begin eng i); intros H; simplify_eq/=; [done|]. life.
Qed.

Lemma ApplyKeep_complete i us :
  match ApplyKeep eng i us with
  | (None, r) => is_ok r = false
  | (Some tx, Err _) => lifecycle Created tx Closed
  | (Some tx, Ok (_, l)) => live_tx l = tx /\ lifecycle Created tx ReqDone
  end.
Proof.
  unfold ApplyKeep. pose proof (begin_lifecycle i) as Hb. by destruct (begin eng i).
Qed.

Lemma ApplyResponse_complete i rsp us tx :
  (ApplyResponse eng i rsp us).1 = Some tx -> lifecycle Created tx Closed.
Proof.
  unfold ApplyResponse. pose proof (begin_lifecycle i) as Hb.
  destruct (begin eng i) as [|tx'|tx' it]; intros H; simplify_eq/=; [done|].
  pose proof (finish_lifecycle tx' rsp (protocolVersion (in_Version i)) us Hb) as Hf.
  destruct (finish _ _ _ _ _). by simplify_eq/=.
Qed.
End engine_lemmas.

(** An engine that lets everything pass, and an input, for the examples. *)
Definition quiet_engine : Engine :=
  {| NewTransaction := fun _ => None; on_RequestHeaders := fun _ => None;
     on_WriteRequestBody := fun _ => None; on_RequestBody := fun _ => Ok None;
     on_ResponseHeaders := fun _ => None; on_WriteResponseBody := fun _ => None;
     on_ResponseBody := fun _ => Ok None; matched := fun _ => [];
     Anomaly := fun _ => (0, 5); AnomalyOutbound := fun _ => (0, 4); RuleCount := 1 |}.

Definition sample_input : Input :=
  {| in_RID := "r1"; in_ClientIP := "192.0.2.7"; in_ClientPort := 40000;
     in_ServerIP := "198.51.100.1"; in_ServerPort := 443; in_Method := "GET";
     in_URI := "/a"; in_Args := "x=1"; in_Version := "HTTP/1.1"; in_Host := "example.org:443";
     in_Headers := [("Accept", "text/html")]; in_Body := ""; in_BodyTruncated := false |}.

(** ** Properties *)

(** [Apply] takes every transaction it creates through the stages of
    [lifecycle] and closes it: on success, on an error of either body call, and
    only once, as its last call. *)
Lemma Apply_lifecycle eng i us tx :
  (Apply eng i us).1 = Some tx ->
  lifecycle Created tx Closed /\ exists tx', tx = tx' ++ [Close] /\ Close ∉ tx'.
Proof.
  intros H. pose proof (Apply_complete eng i us tx H). split; [done|].
  by eapply lifecycle_closes_once.
Qed.

Lemma Apply_lifecycle_witness :
  let tx := [ProcessConnection "192.0.2.7" 40000 "198.51.100.1" 443;
             ProcessURI "/a?x=1" "GET" "1.1"; SetServerName "example.org";
             AddRequestHeader "Accept" "text/html"; ProcessRequestHeaders; ProcessRequestBody;
             ProcessLogging; Close] in
  lifecycle Created tx Closed /\ exists tx', tx = tx' ++ [Close] /\ Close ∉ tx'.
Proof. apply (Apply_lifecycle quiet_engine sample_input 0). reflexivity. Defined.

(** A kept transaction is closed exactly once over its whole life. An error of
    [ApplyKeep] leaves no open transaction behind; on success the transaction is
    open, and each of the two ways to end it, [Resume] with any response and
    [Discard], completes the lifecycle with one [Close]. *)
Lemma ApplyKeep_lifecycle eng i us :
  match ApplyKeep eng i us with
  | (None, r) => is_ok r = false
  | (Some tx, Err _) => lifecycle Created tx Closed
  | (Some tx, Ok (_, l)) =>
      live_tx l = tx /\ Close ∉ tx
      /\ lifecycle Created (Discard l) Closed
      /\ forall rsp us', lifecycle Created (Resume eng l rsp us').1 Closed
  end.
Proof.
  pose proof (ApplyKeep_complete eng i us) as H.
  destruct (ApplyKeep eng i us) as [[tx|] [[out l]|e]]; try done. destruct H as [<- Hl].
  split_and!; [done|by eapply lifecycle_no_close|by apply Discard_complete|].
  intros. by apply Resume_complete.
Qed.

(** Resuming is rebuilding: the response phase on the transaction kept by the
    request phase makes the same calls and gives the same result as
    [ApplyResponse], which runs the request phase again on the same input. *)
Lemma Resume_is_ApplyResponse eng i us us' rsp :
  match ApplyKeep eng i us with
  | (_, Ok (_, l)) =>
      let '(tx, r) := Resume eng l rsp us' in
      ApplyResponse eng i rsp us' = (Some tx, r)
  | (tx, Err e) => ApplyResponse eng i rsp us' = (tx, Err e)
  end.
Proof.
  unfold ApplyKeep, ApplyResponse, Resume. destruct (begin eng i); [done..|]. simpl.
  by destruct (finish _ _ _ _ _).
Qed.
