(* ===== verification/Overload.v ===== *)
(** * Overload rows: [internal/overload/overload.go]

    The queue fill a policy row fires from, its check, and when it fires. *)

From S2P Require Import Prelude.
From stdpp Require Import options.

Local Open Scope Z_scope.

Definition On : string := "overload".
Definition AtMin : Z := 25.
Definition AtMax : Z := 100.

Definition At (at_ : option Z) : Z := default AtMax at_.

(** [Check]; the error carries the value out of range. *)
Definition Check_at (at_ : option Z) : res Z unit :=
  match at_ with
  | None => Ok tt
  | Some n => fail_if ((n <? AtMin) || (AtMax <? n)) n
  end.

Definition Fires (at_ fill : Z) (shed : bool) : bool :=
  if shed then true else (at_ <? AtMax) && (at_ <=? fill).

Lemma Check_at_ok at_ :
  is_ok (Check_at at_) = true <-> forall n, at_ = Some n -> AtMin <= n <= AtMax.
Proof.
  destruct at_ as [n|]; simpl; [|naive_solver].
  rewrite is_ok_fail_if, negb_true_iff, orb_false_iff, !Z.ltb_ge. naive_solver lia.
Qed.

Lemma Fires_spec at_ fill shed :
  Fires at_ fill shed = true <-> shed = true \/ (at_ < AtMax /\ at_ <= fill).
Proof.
  unfold Fires. destruct shed; [naive_solver|].
  rewrite andb_true_iff, Z.ltb_lt, Z.leb_le. naive_solver.
Qed.
