(* ===== verification/PriorRules.v ===== *)
(** * Neighbour requests: [internal/prior/prior.go]

    The policy file's rules on whose requests to apply, their validation, and
    [Evaluate], which delivers the actions of the neighbours' verdicts to the rules
    and answers what they ask for: to skip the check, or to scale the score. *)

From S2P Require Import Prelude GoString Protocol.
From stdpp Require Import options.

Local Open Scope Z_scope.

(** ** Data *)

Definition AnyInspector : string := "*".

Record Rule := {
  From : string; Accept : list string; rule_Apply : list string; Codes : list string }.

Record ActionOutcome := {
  ao_From : string; ao_Do : string; ao_Apply : string; ao_Code : string;
  ao_Delta : Z; ao_Value : Z; Took : Z; ao_Outcome : string }.

Record Ask := { Skip : bool; Percent : Z; Outcomes : list ActionOutcome }.

Definition OutcomeApplied : string := "applied".
Definition OutcomeNoRule : string := "no_rule".

Definition PercentMin : Z := -100.
Definition PercentMax : Z := 900.

(** ** Operations *)

Definition Accepts (r : Rule) (verb : string) : bool :=
  existsb (fun v => str_eqb v verb) (Accept r).

Definition WantsAxis (r : Rule) (axis : string) : bool :=
  match rule_Apply r with [] => true | l => existsb (fun a => str_eqb a axis) l end.

Definition WantsCode (r : Rule) (code : string) : bool :=
  match Codes r with [] => true | l => existsb (fun c => str_eqb c code) l end.

Inductive RuleError :=
| FromEmpty | AcceptMissing | VerbNotOurs (verb : string) | VerbUnknown (verb : string)
| AxisNever (axis : string) | AxisUnknown (axis : string) | AnySender.

Definition check_verb (verb : string) : res RuleError unit :=
  if str_eqb verb DoThreshold || str_eqb verb DoSkip then Ok tt
  else if str_eqb verb DoChallenge || str_eqb verb DoReauth || str_eqb verb DoNote
  then Err (VerbNotOurs verb) else Err (VerbUnknown verb).

Definition check_axis (axis : string) : res RuleError unit :=
  if str_eqb axis ApplyRequest then Ok tt
  else if str_eqb axis ApplyIP || str_eqb axis ApplyASN || str_eqb axis ApplySession
  then Err (AxisNever axis) else Err (AxisUnknown axis).

Definition validate_rule (r : Rule) : res RuleError unit :=
  fail_if (str_eqb (From r) "") FromEmpty;;
  fail_if (bool_decide (Accept r = [])) AcceptMissing;;
  try_each check_verb (Accept r);;
  try_each check_axis (rule_Apply r);;
  fail_if (str_eqb (From r) AnyInspector) AnySender.

(** [out.apply(took)] *)
Definition apply_outcome (took : Z) (o : ActionOutcome) : ActionOutcome :=
  {| ao_From := ao_From o; ao_Do := ao_Do o; ao_Apply := ao_Apply o;
     ao_Code := ao_Code o; ao_Delta := ao_Delta o; ao_Value := ao_Value o;
     Took := wrap64 (Took o + took); ao_Outcome := OutcomeApplied |}.

(** [a.take(r, act, &out)]: the pair of the ask and the outcome record. *)
Definition take (act : Action) (s : Ask * ActionOutcome) : Ask * ActionOutcome :=
  let '(a, out) := s in
  if str_eqb (Do act) DoSkip then
    ({| Skip := true; Percent := Percent a; Outcomes := Outcomes a |},
     apply_outcome 0 out)
  else if str_eqb (Do act) DoThreshold then
    ({| Skip := Skip a; Percent := wrap64 (Percent a + Delta act);
        Outcomes := Outcomes a |},
     apply_outcome (Delta act) out)
  else (a, out).

(** The guards of the loop of [deliver]. *)
Definition rule_takes (from : string) (act : Action) (r : Rule) : bool :=
  str_eqb (From r) from && Accepts r (Do act) && WantsAxis r (Scope act)
  && WantsCode r (act_Code act).

Definition deliver (rules : list Rule) (from : string) (a : Ask) (act : Action) : Ask :=
  let out := {| ao_From := from; ao_Do := Do act; ao_Apply := Scope act;
                ao_Code := act_Code act; ao_Delta := Delta act; ao_Value := Value act;
                Took := 0; ao_Outcome := OutcomeNoRule |} in
  let '(a, out) :=
    fold_left (fun s r => if rule_takes from act r then take act s else s)
      rules (a, out) in
  {| Skip := Skip a; Percent := Percent a; Outcomes := Outcomes a ++ [out] |}.

Definition clamp_percent (p : Z) : Z :=
  let p := if p <? PercentMin then PercentMin else p in
  if PercentMax <? p then PercentMax else p.

Definition Evaluate (entries : list PriorVerdict) (rules : list Rule) : Ask :=
  let a :=
    fold_left (fun a v => fold_left (deliver rules (pv_Inspector v)) (pv_Actions v) a)
      entries {| Skip := false; Percent := 0; Outcomes := [] |} in
  {| Skip := Skip a; Percent := clamp_percent (Percent a); Outcomes := Outcomes a |}.

(** ** Specification *)

(** What one action of a sender comes to under the rules: how many of them take
    it, and the record of that. *)
Definition takers (rules : list Rule) (from : string) (act : Action) : Z :=
  Z.of_nat (length (List.filter (rule_takes from act) rules)).

Definition applies (act : Action) : bool :=
  str_eqb (Do act) DoSkip || str_eqb (Do act) DoThreshold.

Definition sum_Z (l : list Z) : Z := foldr Z.add 0 l.

(** The senders' actions in the order they are delivered. *)
Definition deliveries (entries : list PriorVerdict) : list (string * Action) :=
  v ← entries; act ← pv_Actions v; [(pv_Inspector v, act)].

Definition record_of (rules : list Rule) (d : string * Action) : ActionOutcome :=
  let '(from, act) := d in
  {| ao_From := from; ao_Do := Do act; ao_Apply := Scope act; ao_Code := act_Code act;
     ao_Delta := Delta act; ao_Value := Value act;
     Took := wrap64 (if str_eqb (Do act) DoThreshold
                     then takers rules from act * Delta act else 0);
     ao_Outcome := if applies act && (0 <? takers rules from act)
                   then OutcomeApplied else OutcomeNoRule |}.

Definition rule_ok (r : Rule) : Prop :=
  From r <> "" /\ From r <> AnyInspector /\ Accept r <> []
  /\ Forall (fun v => v = DoThreshold \/ v = DoSkip) (Accept r)
  /\ Forall (fun x => x = ApplyRequest) (rule_Apply r).

(** ** Lemmas *)

Lemma validate_rule_ok r : is_ok (validate_rule r) = true <-> rule_ok r.
Proof.
  assert (forall v, is_ok (check_verb v) = true <-> v = DoThreshold \/ v = DoSkip) as Hv.
  { intros v. unfold check_verb. rewrite <- !str_eqb_true, <- orb_true_iff.
    destruct (_ || _); [done|]. by destruct (_ || _). }
  assert (forall x, is_ok (check_axis x) = true <-> x = ApplyRequest) as Hx.
  { intros x. unfold check_axis. rewrite <- str_eqb_true.
    destruct (str_eqb x ApplyRequest); [done|]. by destruct (_ || _). }
  unfold validate_rule, rule_ok. autorewrite with modsec.
  rewrite !andb_true_iff, !negb_true_iff, !str_eqb_false, !forallb_forall,
    bool_decide_eq_false, !list.Forall_forall.
  setoid_rewrite Hv. setoid_rewrite Hx. setoid_rewrite list_elem_of_In. tauto.
Qed.

Lemma takers_cons r rules from act :
  takers (r :: rules) from act
  = (if rule_takes from act r then 1 else 0) + takers rules from act.
Proof. unfold takers. simpl. destruct (rule_takes _ _ _); simpl; lia. Qed.

Lemma takers_nonneg rules from act : 0 <= takers rules from act.
Proof. unfold takers. lia. Qed.

Section deliver.
Context (from : string) (act : Action).

Definition take_all (rules : list Rule) (s : Ask * ActionOutcome) : Ask * ActionOutcome :=
  fold_left (fun s r => if rule_takes from act r then take act s else s) rules s.

(** What taking the action [n] times does. *)
Definition taken (n : Z) (s : Ask * ActionOutcome) : Ask * ActionOutcome :=
  let d := if str_eqb (Do act) DoThreshold then n * Delta act else 0 in
  if applies act && (0 <? n) then
    ({| Skip := Skip s.1 || str_eqb (Do act) DoSkip;
        Percent := wrap64 (Percent s.1 + d); Outcomes := Outcomes s.1 |},
     apply_outcome d s.2)
  else s.

Lemma take_taken n s :
  0 <= n -> wrap64 (Percent s.1) = Percent s.1 -> take act (taken n s) = taken (1 + n) s.
Proof.
  intros Hn Hw. destruct s as [a out]. unfold taken, take, applies, apply_outcome.
  destruct (str_eqb (Do act) DoSkip) eqn:Hs.
  - apply str_eqb_true in Hs. rewrite Hs. cbn [andb orb].
    replace (0 <? 1 + n) with true by lia. replace (str_eqb DoSkip DoThreshold) with false by done.
    destruct (0 <? n); simpl in *; rewrite ?orb_true_r, ?Z.add_0_r, ?Hw, ?wrap64_idemp; done.
  - destruct (str_eqb (Do act) DoThreshold); cbn [andb orb]; [|done].
    replace (0 <? 1 + n) with true by lia. destruct (Z.ltb_spec 0 n).
    + simpl. rewrite !wrap64_add_l, ?orb_false_r.
      replace (Percent a + n * Delta act + Delta act)
        with (Percent a + (1 + n) * Delta act) by ring.
      replace (Took out + n * Delta act + Delta act)
        with (Took out + (1 + n) * Delta act) by ring. done.
    + replace n with 0 by lia. simpl. rewrite !orb_false_r. f_equal; f_equal; f_equal; lia.
Qed.

Lemma take_all_taken rules s :
  wrap64 (Percent s.1) = Percent s.1 ->
  take_all (rev rules) s = taken (takers (rev rules) from act) s.
Proof.
  intros Hw. induction rules as [|r rules IH]; simpl.
  - unfold taken. by rewrite andb_false_r.
  - unfold take_all in *. rewrite fold_left_app. simpl. rewrite IH.
    assert (takers (rev rules ++ [r]) from act
      = (if rule_takes from act r then 1 else 0) + takers (rev rules) from act) as ->.
    { unfold takers. rewrite List.filter_app, length_app. simpl.
      destruct (rule_takes _ _ _); simpl; lia. }
    destruct (rule_takes _ _ _); [|done].
    apply take_taken; [apply takers_nonneg|done].
Qed.
End deliver.

Lemma deliver_spec rules from a act :
  wrap64 (Percent a) = Percent a ->
  let n := takers rules from act in
  deliver rules from a act =
  {| Skip := Skip a || (str_eqb (Do act) DoSkip && (0 <? n));
     Percent := wrap64 (Percent a + if str_eqb (Do act) DoThreshold then n * Delta act else 0);
     Outcomes := Outcomes a ++ [record_of rules (from, act)] |}.
Proof.
  intros Hw n. unfold deliver.
  pose proof (take_all_taken from act (rev rules)) as Ht. rewrite rev_involutive in Ht.
  unfold take_all in Ht. rewrite Ht by done. fold n. clear Ht.
  pose proof (takers_nonneg rules from act) as Hn. fold n in Hn.
  unfold taken, record_of, applies, apply_outcome. fold n. destruct (Z.ltb_spec 0 n).
  - rewrite !andb_true_r. destruct (str_eqb (Do act) DoSkip), (str_eqb (Do act) DoThreshold);
      simpl; rewrite ?Z.add_0_r, ?orb_false_r, ?Hw; done.
  - replace n with 0 by lia. rewrite !andb_false_r, orb_false_r. simpl.
    destruct (str_eqb (Do act) DoThreshold); by rewrite ?Z.mul_0_l, Z.add_0_r, Hw.
Qed.

(** The change of the score the sender asks for, as many times as rules take it. *)
Definition delta_of (rules : list Rule) (d : string * Action) : Z :=
  if str_eqb (Do d.2) DoThreshold then takers rules d.1 d.2 * Delta d.2 else 0.

Definition skips (rules : list Rule) (d : string * Action) : bool :=
  str_eqb (Do d.2) DoSkip && (0 <? takers rules d.1 d.2).

Lemma deliver_all rules ds a :
  wrap64 (Percent a) = Percent a ->
  fold_left (fun a d => deliver rules d.1 a d.2) ds a =
  {| Skip := Skip a || existsb (skips rules) ds;
     Percent := wrap64 (Percent a + sum_Z (delta_of rules <$> ds));
     Outcomes := Outcomes a ++ (record_of rules <$> ds) |}.
Proof.
  revert a. induction ds as [|[from act] ds IH]; intros a Hw; cbn [fold_left].
  - simpl. rewrite Z.add_0_r, orb_false_r, app_nil_r, Hw. by destruct a.
  - rewrite IH by (by rewrite deliver_spec; simpl; rewrite ?wrap64_idemp).
    rewrite deliver_spec by done. rewrite fmap_cons. simpl.
    rewrite wrap64_add_l, <- orb_assoc, <- (assoc_L (++)). simpl. f_equal. f_equal.
    unfold delta_of at 2. simpl. lia.
Qed.

Lemma fold_deliveries rules entries a :
  fold_left (fun a v => fold_left (deliver rules (pv_Inspector v)) (pv_Actions v) a) entries a
  = fold_left (fun a d => deliver rules d.1 a d.2) (deliveries entries) a.
Proof.
  revert a. induction entries as [|v entries IH]; intros a; [done|].
  assert (deliveries (v :: entries)
    = ((fun act => (pv_Inspector v, act)) <$> pv_Actions v) ++ deliveries entries) as ->.
  { unfold deliveries. cbn. f_equal. }
  simpl. rewrite IH, fold_left_app. f_equal.
  generalize a. induction (pv_Actions v) as [|act acts IHa]; intros a'; [done|]. cbn. auto.
Qed.

Lemma clamp_percent_range p : PercentMin <= clamp_percent p <= PercentMax.
Proof.
  unfold clamp_percent, PercentMin, PercentMax.
  destruct (p <? -100) eqn:?; destruct_ifs; lia.
Qed.

Lemma clamp_percent_id p : PercentMin <= p <= PercentMax -> clamp_percent p = p.
Proof.
  unfold clamp_percent, PercentMin, PercentMax.
  destruct (p <? -100) eqn:?; destruct_ifs; lia.
Qed.

(** ** Properties *)

(** C27: [Evaluate] delivers every action of every neighbour in order. The check is
    skipped iff some rule takes a skip; the scale is the sum, in 64-bit arithmetic,
    of each threshold's delta times the number of rules that take it, kept within
    -100..900; and each action leaves one record that says whether it was applied and
    what it took. *)
Theorem Evaluate_spec entries rules :
  let ds := deliveries entries in
  Evaluate entries rules =
  {| Skip := existsb (skips rules) ds;
     Percent := clamp_percent (wrap64 (sum_Z (delta_of rules <$> ds)));
     Outcomes := record_of rules <$> ds |}
  /\ PercentMin <= Percent (Evaluate entries rules) <= PercentMax.
Proof.
  split; [|apply clamp_percent_range].
  unfold Evaluate. rewrite fold_deliveries, deliver_all by done. done.
Qed.
