(* ===== verification/Policy.v ===== *)
(** * Outcome rows of the policy file: [internal/prior/outcome.go]

    A row says when it fires ([on]) and what it does then: it sends an action to a
    neighbour or to the module ([do]), or writes the client to a live set ([list]).
    This file has the rows, their validation when a policy is loaded ([Load], [LoadDir] of
    prior.go), and [Fire] and [FireOverload], which the handler calls with the verdict. *)

From S2P Require Import Prelude GoString Protocol Engine Overload PriorRules.
From stdpp Require Import options.

Local Open Scope Z_scope.

(** ** Data *)

Definition OnDeny : string := "deny".
Definition OnAllow : string := "allow".
Definition OnScore : string := "score".
Definition OnRule : string := "rule".
Definition OnOverload : string := Overload.On.

Definition WriteAddr : string := "addr".
Definition WriteNet : string := "net".
Definition WriteNetAll : string := "net_all".
Definition WriteASN : string := "asn".

(** The verbs of [outcomeVerbs] and the axes each takes. *)
Definition outcomeVerbs (do_ : string) : option (list string) :=
  if str_eqb do_ DoChallenge then Some [ApplyRequest]
  else if str_eqb do_ DoThreshold then Some [ApplyRequest]
  else if str_eqb do_ DoSkip then Some [ApplyRequest]
  else if str_eqb do_ DoMutate then Some [ApplyRequest]
  else if str_eqb do_ DoReauth then Some [ApplySession]
  else if str_eqb do_ DoNote then Some [ApplyRequest; ApplyIP; ApplyASN; ApplySession]
  else if str_eqb do_ DoActive then Some [ApplyRequest; ApplyConn]
  else if str_eqb do_ DoPassive then Some [ApplyRequest; ApplyConn]
  else if str_eqb do_ DoOff then Some [ApplyRequest; ApplyConn]
  else if str_eqb do_ DoVote then Some [ApplyRequest; ApplyConn]
  else if str_eqb do_ DoAudit then Some [ApplyRequest; ApplyResponse]
  else if str_eqb do_ DoArchive then Some [ApplyRequest; ApplyResponse]
  else if str_eqb do_ DoMark then Some [ApplyRequest]
  else if str_eqb do_ DoScore then Some [ApplyRequest]
  else None.

Definition auditVerb (do_ : string) : bool :=
  str_eqb do_ DoAudit || str_eqb do_ DoArchive.

Definition recordVerb (do_ : string) : bool :=
  auditVerb do_ || str_eqb do_ DoMark || str_eqb do_ DoScore.

Definition controlVerb (do_ : string) : bool :=
  str_eqb do_ DoActive || str_eqb do_ DoPassive || str_eqb do_ DoOff || str_eqb do_ DoVote.

Record Outcome := {
  o_On : string; o_At : option Z; Below : bool; Eq : bool;
  Rules : list string; o_Tags : list string; ranges : Ranges;
  o_To : string; o_Do : string; o_Apply : string; o_Phase : string;
  o_Delta : option Z; o_Value : option Z; o_Counter : string; o_Group : string;
  o_Set : string; o_Headers : option ObjectSpec; o_Args : option ObjectSpec;
  o_Body : option ObjectSpec; o_When : list string; o_Marker : string;
  List_ : string; Write : string; o_TTL : string; o_Code : string }.

Record Ban := { Dataset : string; ban_Write : string; Addr : string;
                ban_TTL : Z; ban_Reason : string }.

Record Fired := { f_Actions : list Action; Bans : list Ban; Names : list string }.

(** ** Regular expressions *)

Definition upper (a : ascii) : bool := byte_in 65 90 a.
Definition lower (a : ascii) : bool := byte_in 97 122 a.

(** [^[A-Za-z0-9][A-Za-z0-9._-]*$] *)
Definition nameRe (s : string) : bool :=
  match s with
  | "" => false
  | String a r =>
      (upper a || lower a || is_digit a)
      && forallb (fun b => upper b || lower b || is_digit b || byte_is 46 b
                           || byte_is 95 b || byte_is 45 b) (str_bytes r)
  end.

(** [^[A-Z][A-Z0-9_]{0,63}$] *)
Definition codeRe (s : string) : bool :=
  match s with
  | "" => false
  | String a r =>
      upper a && forallb (fun b => upper b || is_digit b || byte_is 95 b) (str_bytes r)
      && (len r <=? 63)
  end.

(** ** Accessors *)

Definition Asks (o : Outcome) : bool := negb (str_eqb (o_Do o) "").

Definition Subject_ (o : Outcome) : string :=
  if str_eqb (Write o) "" then WriteAddr else Write o.

Definition Axis (o : Outcome) : string :=
  if negb (str_eqb (o_Apply o) "") then o_Apply o
  else match outcomeVerbs (o_Do o) with
       | Some axes =>
           if (Nat.eqb (length axes) 1) || auditVerb (o_Do o)
           then hd "" axes else ""
       | None => ""
       end.

(** [parseTTL]; the error carries the text that is not a number. *)
Definition parseTTL (raw : string) : res string Z :=
  let raw := TrimSpace (ToLower raw) in
  if str_eqb raw "" then Ok 0
  else
    let '(mult, raw) :=
      if HasSuffix raw "s" then (1, TrimSuffix raw "s")
      else if HasSuffix raw "m" then (60, TrimSuffix raw "m")
      else if HasSuffix raw "h" then (3600, TrimSuffix raw "h")
      else if HasSuffix raw "d" then (86400, TrimSuffix raw "d")
      else (1, raw) in
    match Atoi (TrimSpace raw) with
    | Some n => if n <? 0 then Err raw else Ok (wrap64 (n * mult))
    | None => Err raw
    end.

(** [n, _ := parseTTL(raw)]: the error is dropped, and its value is 0. *)
Definition ttl_or_zero (raw : string) : Z :=
  match parseTTL raw with Ok n => n | Err _ => 0 end.

Definition Seconds (o : Outcome) : Z := ttl_or_zero (o_TTL o).

Definition Matches (o : Outcome) (verdict : string) (score : Z) : bool :=
  if str_eqb (o_On o) OnAllow then str_eqb verdict VerdictAllow
  else if str_eqb (o_On o) OnDeny
  then str_eqb verdict VerdictDeny || str_eqb verdict VerdictRedirect
  else if str_eqb (o_On o) OnScore then
    match o_At o with
    | None => false
    | Some n =>
        if negb (str_eqb verdict VerdictScore) then false
        else if Eq o then score =? n
        else if Below o then score <? n
        else n <=? score
    end
  else false.

(** ** Validation *)

Inductive RowError :=
| AtNotAllowed | BelowEqNotAllowed | AtRange (at_ : Z) | ScoreNeedsAt | AtNegative
| BelowAndEq | UnknownOn (on : string)
| FilterNotAllowed | FilterMissing | BadRange (item : string) | BadTag (tag : string)
| BadCode (code : string) | DoAndList | NeitherDoNorList | BadDataset (name : string)
| BadWrite (write : string) | BadTTL (raw : string) | ListNeedsTTL
| DenyAsk | UnknownVerb (do_ : string) | BadAxis (apply : string) | NeedsApply
| DeltaRange (d : Z) | ValueRange (v : Z) | NeedsDelta | NeedsValue | TakesNoTo | NeedsTo
| PhaseNotAllowed | BadAskPhase (phase : string) | ConnNeedsFrame
| CounterNotAllowed | BadCounter (name : string)
| NeedsGroup | BadGroup (name : string) | NeedsSet (set : string) | GroupNotAllowed
| BadMarker (e : MarkerError) | MarkerNotAllowed
| OnlyForSetOn | OnlyForArchive | BadWhen (e : WhenError) | ArgsOfResponse
| BadSpec (e : SpecError) | ObjectsNotAllowed | SetNotAllowed.

Definition map_err {E E' A} (f : E -> E') (r : res E A) : res E' unit :=
  match r with Ok _ => Ok tt | Err e => Err (f e) end.



Definition checkPhaseAsk (do_ phase apply : string) : res RowError unit :=
  if str_eqb phase "" then Ok tt
  else
    fail_if (negb (controlVerb do_)) PhaseNotAllowed;;
    fail_if (negb (str_eqb phase PhaseRequest || str_eqb phase PhaseResponse
                   || str_eqb phase PhaseFrame)) (BadAskPhase phase);;
    fail_if (str_eqb apply ApplyConn && negb (str_eqb phase PhaseFrame)) ConnNeedsFrame.

Definition badTag (tag : string) : bool :=
  str_eqb tag "" || (TagMax <? len tag) || negb (str_eqb (TrimSpace tag) tag)
  || existsb control_byte (str_bytes tag).

Definition checkRuleFilter (o : Outcome) : res RowError unit :=
  if negb (str_eqb (o_On o) OnRule) then
    fail_if (nonempty (Rules o) || nonempty (o_Tags o)) FilterNotAllowed
  else
    fail_if (negb (nonempty (Rules o)) && negb (nonempty (o_Tags o))) FilterMissing;;
    map_err BadRange (ParseRanges (Rules o));;
    try_each (fun tag => fail_if (badTag tag) (BadTag tag)) (o_Tags o).

Definition hasString (l : list string) (want : string) : bool :=
  existsb (fun v => str_eqb v want) l.

(** [o.To] names a neighbour: it is neither empty nor the star. *)
Definition to_named (o : Outcome) : bool :=
  negb (str_eqb (o_To o) "") && negb (str_eqb (o_To o) "*").

Definition set_on_off (o : Outcome) : bool :=
  str_eqb (o_Set o) "on" || str_eqb (o_Set o) "off".

Definition has_objects (o : Outcome) : bool :=
  is_some (o_Headers o) || is_some (o_Args o) || is_some (o_Body o).

(** The part of [validateOutcomeAsk] on the audit verbs. *)
Definition check_audit (o : Outcome) (ttl : Z) : res RowError unit :=
  fail_if (to_named o) TakesNoTo;;
  fail_if (negb (set_on_off o)) (NeedsSet (o_Set o));;
  fail_if (str_eqb (o_Set o) "off"
           && (negb (ttl =? 0) || nonempty (o_When o) || has_objects o)) OnlyForSetOn;;
  fail_if (str_eqb (o_Do o) DoAudit && (negb (ttl =? 0) || nonempty (o_When o)))
    OnlyForArchive;;
  map_err BadWhen (CheckArchiveWhen (o_When o));;
  fail_if (str_eqb (o_Apply o) ApplyResponse && is_some (o_Args o)) ArgsOfResponse;;
  try_each (fun item =>
      map_err BadSpec (CheckObjectSpec item.1 item.2 (str_eqb (o_Do o) DoAudit)))
    [("headers", o_Headers o); ("args", o_Args o); ("body", o_Body o)].

(** The pointer is not nil and its value is outside [lo..hi]. *)
Definition out_of (lo hi : Z) (p : option Z) : bool :=
  match p with Some n => (n <? lo) || (hi <? n) | None => false end.

(** The pointer is nil or its value is 0. *)
Definition nil_or_zero (p : option Z) : bool :=
  match p with Some n => n =? 0 | None => true end.

Definition validateOutcomeAsk (o : Outcome) : res RowError unit :=
  let do_ := o_Do o in
  fail_if (str_eqb (o_On o) OnDeny && negb (recordVerb do_)) DenyAsk;;
  match outcomeVerbs do_ with
  | None => Err (UnknownVerb do_)
  | Some axes =>
      fail_if (negb (str_eqb (o_Apply o) "") && negb (hasString axes (o_Apply o)))
        (BadAxis (o_Apply o));;
      fail_if (str_eqb (o_Apply o) "" && negb (Nat.eqb (length axes) 1)
               && negb (auditVerb do_)) NeedsApply
  end;;
  fail_if (out_of (-100) 900 (o_Delta o)) (DeltaRange (default 0 (o_Delta o)));;
  fail_if (out_of (-100) 100 (o_Value o)) (ValueRange (default 0 (o_Value o)));;
  fail_if (str_eqb do_ DoThreshold && nil_or_zero (o_Delta o)) NeedsDelta;;
  fail_if (str_eqb do_ DoNote && nil_or_zero (o_Value o)) NeedsValue;;
  fail_if (str_eqb do_ DoScore && to_named o) TakesNoTo;;
  fail_if (str_eqb do_ DoScore && nil_or_zero (o_Value o)) NeedsValue;;
  fail_if (controlVerb do_ && negb (to_named o)) NeedsTo;;
  checkPhaseAsk do_ (o_Phase o) (Axis o);;
  fail_if (negb (str_eqb (o_Counter o) "") && negb (str_eqb do_ DoNote)) CounterNotAllowed;;
  fail_if (negb (str_eqb (o_Counter o) "") && negb (nameRe (o_Counter o)))
    (BadCounter (o_Counter o));;
  (if str_eqb do_ DoMutate then
     fail_if (str_eqb (o_Group o) "") NeedsGroup;;
     fail_if (negb (nameRe (o_Group o))) (BadGroup (o_Group o));;
     fail_if (negb (set_on_off o)) (NeedsSet (o_Set o))
   else fail_if (negb (str_eqb (o_Group o) "")) GroupNotAllowed);;
  (if str_eqb do_ DoMark then
     fail_if (to_named o) TakesNoTo;;
     map_err BadMarker (CheckMarker (o_Marker o))
   else fail_if (negb (str_eqb (o_Marker o) "")) MarkerNotAllowed);;
  let ttl := ttl_or_zero (o_TTL o) in
  (if auditVerb do_ then check_audit o ttl else Ok tt);;
  fail_if (negb (auditVerb do_) && (nonempty (o_When o) || has_objects o))
    ObjectsNotAllowed;;
  fail_if (negb (auditVerb do_) && negb (str_eqb do_ DoMutate)
           && negb (str_eqb (o_Set o) "")) SetNotAllowed.

Definition check_trigger (o : Outcome) : res RowError unit :=
  if str_eqb (o_On o) OnDeny || str_eqb (o_On o) OnAllow || str_eqb (o_On o) OnRule then
    fail_if (is_some (o_At o)) AtNotAllowed;;
    fail_if (Below o || Eq o) BelowEqNotAllowed
  else if str_eqb (o_On o) OnOverload then
    map_err AtRange (Check_at (o_At o));;
    fail_if (Below o || Eq o) BelowEqNotAllowed
  else if str_eqb (o_On o) OnScore then
    match o_At o with
    | None => Err ScoreNeedsAt
    | Some n =>
        fail_if (n <? 0) AtNegative;;
        fail_if (Below o && Eq o) BelowAndEq
    end
  else Err (UnknownOn (o_On o)).

(** The whole of [validateOutcome]; the index of the row only words the error. *)
Definition validateOutcome (o : Outcome) : res RowError unit :=
  check_trigger o;;
  checkRuleFilter o;;
  fail_if (negb (str_eqb (o_Code o) "") && negb (codeRe (o_Code o))) (BadCode (o_Code o));;
  fail_if (Asks o && negb (str_eqb (List_ o) "")) DoAndList;;
  if Asks o then validateOutcomeAsk o
  else
    fail_if (str_eqb (List_ o) "") NeitherDoNorList;;
    fail_if (negb (nameRe (List_ o))) (BadDataset (List_ o));;
    fail_if (negb (hasString [WriteAddr; WriteNet; WriteNetAll; WriteASN] (Subject_ o)))
      (BadWrite (Write o));;
    match parseTTL (o_TTL o) with
    | Err raw => Err (BadTTL raw)
    | Ok ttl => fail_if (ttl <=? 0) ListNeedsTTL
    end.

Definition compile (o : Outcome) : Outcome :=
  {| o_On := o_On o; o_At := o_At o; Below := Below o; Eq := Eq o; Rules := Rules o;
     o_Tags := o_Tags o;
     ranges := match ParseRanges (Rules o) with Ok rs => rs | Err _ => [] end;
     o_To := o_To o; o_Do := o_Do o; o_Apply := o_Apply o; o_Phase := o_Phase o;
     o_Delta := o_Delta o; o_Value := o_Value o; o_Counter := o_Counter o;
     o_Group := o_Group o; o_Set := o_Set o; o_Headers := o_Headers o;
     o_Args := o_Args o; o_Body := o_Body o; o_When := o_When o; o_Marker := o_Marker o;
     List_ := List_ o; Write := Write o; o_TTL := o_TTL o; o_Code := o_Code o |}.

(** ** Loading *)

Record PolicyFile := { p_Rules : list PriorRules.Rule; p_Outcomes : list Outcome }.

Inductive FileError :=
| FileRead | FileYaml | FileRule (e : RuleError) | FileOutcome (e : RowError).

(** [loadFile]: [read] is the answer of [os.ReadFile], [None] when the file does
    not exist; [unmarshal] is the YAML decoder with unknown fields refused. *)
Definition loadFile (read : option (res unit string))
    (unmarshal : string -> option (list PriorRules.Rule * list Outcome)) :
    res FileError (PolicyFile * bool) :=
  match read with
  | None => Ok ({| p_Rules := []; p_Outcomes := [] |}, false)
  | Some (Err _) => Err FileRead
  | Some (Ok raw) =>
      match unmarshal raw with
      | None => Err FileYaml
      | Some (rules, rows) =>
          try_each (fun r => map_err FileRule (validate_rule r)) rules;;
          try_each (fun o => map_err FileOutcome (validateOutcome o)) rows;;
          mret ({| p_Rules := rules; p_Outcomes := compile <$> rows |}, true)
      end
  end.

Definition FileName : string := "policy.yaml".

Definition path_join (a b : string) : string := a +:+ "/" +:+ b.

Definition Load (read : string -> option (res unit string))
    (unmarshal : string -> option (list PriorRules.Rule * list Outcome)) (path : string) :
    res FileError PolicyFile :=
  r ← loadFile (read path) unmarshal; mret r.1.

Definition LoadDir (read : string -> option (res unit string))
    (unmarshal : string -> option (list PriorRules.Rule * list Outcome)) (dir : string) :
    res FileError PolicyFile :=
  r ← loadFile (read (path_join dir FileName)) unmarshal; mret r.1.

(** ** Firing *)

(** The first finding that passes the filters of the row. *)
Definition hit_one (o : Outcome) (r : MatchedRule) : bool :=
  Finding r && negb (nonempty (Rules o) && negb (Has (ranges o) (ID r)))
  && negb (nonempty (o_Tags o) && negb (Tagged r (o_Tags o))).

Definition hit (o : Outcome) (matched : list MatchedRule) : option MatchedRule :=
  List.find (hit_one o) matched.

Definition ruleCode (id : Z) : string := "CRS_RULE_" +:+ Itoa id.

Definition reasonOf (o : Outcome) (code : string) : string :=
  if negb (str_eqb (o_Code o) "") then o_Code o else code.

Definition outcomeName (o : Outcome) : string :=
  if Asks o then o_Do o else List_ o.

Definition ask (o : Outcome) (code : string) : Action :=
  let archive_on := str_eqb (o_Do o) DoArchive && str_eqb (o_Set o) "on" in
  {| To := o_To o; Do := o_Do o; Apply := Axis o; act_Phase := o_Phase o;
     act_Code := reasonOf o code; Delta := default 0 (o_Delta o);
     Value := default 0 (o_Value o); Counter := o_Counter o; Marker := o_Marker o;
     Group := o_Group o; act_Set := o_Set o;
     TTL := if archive_on && (0 <? ttl_or_zero (o_TTL o))
            then Some (ttl_or_zero (o_TTL o)) else None;
     When := if archive_on && nonempty (o_When o)
             then match CheckArchiveWhen (o_When o) with Ok w => w | Err _ => [] end
             else [];
     act_Headers := o_Headers o; act_Args := o_Args o; act_Body := o_Body o |}.

(** One row of the loop of [fire]: [match_] answers with the reason code. *)
Definition fire_row (match_ : Outcome -> option string) (addr : string) (out : Fired)
    (o : Outcome) : Fired :=
  match match_ o with
  | None => out
  | Some code =>
      if Asks o then
        {| f_Actions := f_Actions out ++ [ask o code]; Bans := Bans out;
           Names := Names out ++ [outcomeName o] |}
      else if str_eqb addr "" then out
      else
        {| f_Actions := f_Actions out;
           Bans := Bans out ++ [{| Dataset := List_ o; ban_Write := Subject_ o;
                                   Addr := addr; ban_TTL := Seconds o;
                                   ban_Reason := reasonOf o code |}];
           Names := Names out ++ [outcomeName o] |}
  end.

Definition fire (outcomes : list Outcome) (match_ : Outcome -> option string)
    (addr : string) : Fired :=
  fold_left (fire_row match_ addr) outcomes {| f_Actions := []; Bans := []; Names := [] |}.

Definition fire_match (verdict : string) (score : Z) (matched : list MatchedRule)
    (code : string) (o : Outcome) : option string :=
  if str_eqb (o_On o) OnRule then
    match hit o matched with Some r => Some (ruleCode (ID r)) | None => None end
  else if Matches o verdict score then Some code else None.

Definition Fire (outcomes : list Outcome) (verdict : string) (score : Z)
    (matched : list MatchedRule) (addr code : string) : Fired :=
  fire outcomes (fire_match verdict score matched code) addr.

Definition overload_match (fill : Z) (shed : bool) (code : string) (o : Outcome) :
    option string :=
  if str_eqb (o_On o) OnOverload && Fires (At (o_At o)) fill shed
  then Some code else None.

Definition FireOverload (outcomes : list Outcome) (fill : Z) (shed : bool)
    (addr code : string) : Fired :=
  fire outcomes (overload_match fill shed code) addr.

(** ** Specification of what a loaded policy sends *)

(** The condition under which the module and the neighbours accept an action. *)
Record action_ok (a : Action) : Prop := {
  ok_axis : exists axes, outcomeVerbs (Do a) = Some axes /\ Apply a ∈ axes;
  ok_delta : -100 <= Delta a <= 900;
  ok_value : -100 <= Value a <= 100;
  ok_threshold : Do a = DoThreshold -> Delta a <> 0;
  ok_note : Do a = DoNote -> Value a <> 0;
  ok_score : Do a = DoScore -> Value a <> 0;
  ok_control : controlVerb (Do a) = true -> To a <> "" /\ To a <> "*";
  ok_record : recordVerb (Do a) = true -> To a = "" \/ To a = "*";
  ok_phase : act_Phase a <> "" -> controlVerb (Do a) = true
             /\ valid_phase (act_Phase a) = true
             /\ (Apply a = ApplyConn -> act_Phase a = PhaseFrame);
  ok_counter : Counter a <> "" -> Do a = DoNote /\ nameRe (Counter a) = true;
  ok_group : Group a <> "" -> Do a = DoMutate;
  ok_mutate : Do a = DoMutate -> nameRe (Group a) = true
              /\ (act_Set a = "on" \/ act_Set a = "off");
  ok_mark : if str_eqb (Do a) DoMark then is_ok (CheckMarker (Marker a)) = true
            else Marker a = "";
  ok_ttl : forall n, TTL a = Some n -> 0 < n /\ Do a = DoArchive /\ act_Set a = "on";
  ok_when : When a ∈ [[]; ["allow"]; ["deny"]; ["allow"; "deny"]];
  ok_objects : is_some (act_Headers a) || is_some (act_Args a) || is_some (act_Body a) = true ->
               auditVerb (Do a) = true /\ act_Set a = "on" }.

Definition ban_ok (addr : string) (b : Ban) : Prop :=
  nameRe (Dataset b) = true
  /\ ban_Write b ∈ [WriteAddr; WriteNet; WriteNetAll; WriteASN]
  /\ Addr b = addr /\ addr <> "" /\ 0 < ban_TTL b.

(** ** Lemmas *)

Lemma is_ok_map_err {E E' A} (f : E -> E') (r : res E A) : is_ok (map_err f r) = is_ok r.
Proof. by destruct r. Qed.

#[export] Hint Rewrite @is_ok_map_err : modsec.

Lemma hasString_spec l want : hasString l want = true <-> want ∈ l.
Proof.
  unfold hasString. rewrite existsb_exists. setoid_rewrite str_eqb_true.
  setoid_rewrite <- list_elem_of_In. naive_solver.
Qed.

Lemma outcomeVerbs_hd do_ axes : outcomeVerbs do_ = Some axes -> hd "" axes ∈ axes.
Proof. unfold outcomeVerbs. intros H. go_cases H; set_solver. Qed.

Lemma Axis_valid o axes :
  outcomeVerbs (o_Do o) = Some axes ->
  (negb (str_eqb (o_Apply o) "") && negb (hasString axes (o_Apply o))) = false ->
  (str_eqb (o_Apply o) "" && negb (Nat.eqb (length axes) 1) && negb (auditVerb (o_Do o)))
    = false ->
  Axis o ∈ axes.
Proof.
  intros Ho H1 H2. unfold Axis. rewrite Ho. destruct (str_eqb (o_Apply o) "") eqn:E; simpl in *.
  - pose proof (outcomeVerbs_hd _ _ Ho). destruct (Nat.eqb _ _), (auditVerb _); done.
  - rewrite negb_false_iff in H1. by apply hasString_spec.
Qed.

Lemma out_of_default lo hi p :
  lo <= 0 <= hi -> out_of lo hi p = false -> lo <= default 0 p <= hi.
Proof. destruct p; simpl; intros; bool_prop; lia. Qed.

Lemma nil_or_zero_default p : nil_or_zero p = false -> default 0 p <> 0.
Proof. destruct p; simpl; [lia|done]. Qed.

Lemma CheckArchiveWhen_canonical words out :
  CheckArchiveWhen words = Ok out -> out ∈ [[]; ["allow"]; ["deny"]; ["allow"; "deny"]].
Proof.
  unfold CheckArchiveWhen. intros (seen & _ & [= <-])%res_bind_ok. simpl.
  destruct (bool_decide _), (bool_decide _); set_solver.
Qed.

(** A check [if a && b { return err }] that passed: [a] excludes [b]. *)
Lemma check_imp (a b : bool) : negb (a && b) = true -> a = true -> b = false.
Proof. by destruct a, b. Qed.

Lemma checkPhaseAsk_ok do_ phase apply :
  is_ok (checkPhaseAsk do_ phase apply) = true -> phase <> "" ->
  controlVerb do_ = true /\ valid_phase phase = true
  /\ (apply = ApplyConn -> phase = PhaseFrame).
Proof.
  unfold checkPhaseAsk. intros H Hp. apply str_eqb_false in Hp. rewrite Hp in H.
  autorewrite with modsec in H. rewrite !andb_true_iff, !negb_involutive in H.
  destruct H as (? & ? & H). split_and!; [done..|].
  intros ->. pose proof (check_imp _ _ H eq_refl) as Hf.
  by rewrite negb_false_iff, str_eqb_true in Hf.
Qed.

Lemma check_audit_ok o ttl :
  is_ok (check_audit o ttl) = true ->
  to_named o = false
  /\ (has_objects o = true -> o_Set o = "on").
Proof.
  unfold check_audit. intros H. autorewrite with modsec in H.
  rewrite !andb_true_iff in H. destruct H as (Ht & Hs & Hoff & _).
  apply negb_true_iff in Ht. split; [done|]. intros Hobj. rewrite negb_involutive in Hs.
  unfold set_on_off in Hs. destruct (str_eqb (o_Set o) "on") eqn:E; [by apply str_eqb_true|].
  simpl in Hs. pose proof (check_imp _ _ Hoff Hs) as Hn. rewrite Hobj in Hn.
  by rewrite orb_true_r in Hn.
Qed.

Lemma to_named_false o : to_named o = false -> o_To o = "" \/ o_To o = "*".
Proof.
  unfold to_named. intros H. apply andb_false_iff in H.
  by rewrite !negb_false_iff, !str_eqb_true in H.
Qed.

Lemma recordVerb_cases do_ :
  recordVerb do_ = true -> auditVerb do_ = true \/ do_ = DoMark \/ do_ = DoScore.
Proof. unfold recordVerb. rewrite !orb_true_iff, !str_eqb_true. tauto. Qed.

Lemma auditVerb_not do_ w :
  auditVerb w = false -> auditVerb do_ = true -> do_ <> w.
Proof. by intros H1 H2 ->; rewrite H1 in H2. Qed.

(** A validated row asks for an acceptable action. *)
Lemma ask_valid o code :
  Asks o = true -> is_ok (validateOutcomeAsk o) = true -> action_ok (ask o code).
Proof.
  intros Ha H. unfold validateOutcomeAsk in H. cbv zeta in H. autorewrite with modsec in H.
  rewrite !andb_true_iff in H.
  destruct H as (Hdeny & Hverb & Hdelta & Hvalue & Hthr & Hnote & Hsto & Hsval & Hctl
    & Hphase & Hcnt & Hcntn & Hgroup & Hmark & Haudit & Hobj & Hset).
  destruct (outcomeVerbs (o_Do o)) as [axes|] eqn:Hax; [|done].
  autorewrite with modsec in Hverb. rewrite andb_true_iff, !negb_true_iff in Hverb.
  destruct Hverb as [Hax1 Hax2]. rewrite negb_true_iff in Hdelta, Hvalue.
  constructor; simpl.
  - eauto using Axis_valid.
  - by apply out_of_default.
  - by apply out_of_default.
  - intros Hd. apply nil_or_zero_default, (check_imp _ _ Hthr). by rewrite Hd.
  - intros Hd. apply nil_or_zero_default, (check_imp _ _ Hnote). by rewrite Hd.
  - intros Hd. apply nil_or_zero_default, (check_imp _ _ Hsval). by rewrite Hd.
  - intros Hd. pose proof (check_imp _ _ Hctl Hd) as Ht. apply negb_false_iff in Ht.
    unfold to_named in Ht. by rewrite andb_true_iff, !negb_true_iff, !str_eqb_false in Ht.
  - intros [Hd|[Hd|Hd]]%recordVerb_cases; apply to_named_false.
    + rewrite Hd in Haudit. by apply check_audit_ok in Haudit as [? _].
    + rewrite Hd in Hmark. simpl in Hmark. autorewrite with modsec in Hmark.
      by apply andb_prop in Hmark as [?%negb_true_iff _].
    + apply (check_imp _ _ Hsto). by rewrite Hd.
  - by apply checkPhaseAsk_ok.
  - intros Hc. apply str_eqb_false in Hc. rewrite Hc in Hcnt, Hcntn. simpl in *.
    rewrite negb_involutive in Hcnt, Hcntn. by rewrite str_eqb_true in Hcnt.
  - intros Hg. apply str_eqb_false in Hg. destruct (str_eqb (o_Do o) DoMutate) eqn:Hd.
    + by apply str_eqb_true.
    + rewrite Hg in Hgroup. done.
  - intros Hd. rewrite Hd in Hgroup. simpl in Hgroup. autorewrite with modsec in Hgroup.
    rewrite !andb_true_iff, !negb_involutive in Hgroup. destruct Hgroup as (_ & ? & Hs).
    unfold set_on_off in Hs. by rewrite orb_true_iff, !str_eqb_true in Hs.
  - destruct (str_eqb (o_Do o) DoMark).
    + autorewrite with modsec in Hmark. by apply andb_prop in Hmark as [_ ?].
    + by rewrite is_ok_fail_if, negb_involutive, str_eqb_true in Hmark.
  - intros n. destruct_ifs; [|done]. intros [= <-]. bool_prop.
    rewrite !str_eqb_true in *. split_and!; [lia|done..].
  - destruct_ifs; [|set_solver]. destruct (CheckArchiveWhen _) eqn:E; [|set_solver].
    by eapply CheckArchiveWhen_canonical.
  - intros Ho. change (has_objects o = true) in Ho.
    destruct (auditVerb (o_Do o)) eqn:Hd.
    + split; [done|]. by apply check_audit_ok in Haudit as [_ ?]; auto.
    + simpl in Hobj. by rewrite Ho, orb_true_r in Hobj.
Qed.

Lemma ban_valid o addr code :
  Asks o = false -> is_ok (validateOutcome o) = true -> addr <> "" ->
  ban_ok addr {| Dataset := List_ o; ban_Write := Subject_ o; Addr := addr;
                 ban_TTL := Seconds o; ban_Reason := reasonOf o code |}.
Proof.
  intros Ha H Haddr. unfold validateOutcome in H. rewrite Ha in H.
  autorewrite with modsec in H. rewrite !andb_true_iff, !negb_involutive in H.
  destruct H as (_ & _ & _ & _ & _ & Hname & Hsub & Httl).
  split_and!; simpl; try done.
  - by apply hasString_spec.
  - unfold Seconds, ttl_or_zero. destruct (parseTTL _); [|done].
    rewrite is_ok_fail_if, negb_true_iff, Z.leb_gt in Httl. done.
Qed.

Lemma validateOutcome_asks o :
  is_ok (validateOutcome o) = true -> Asks o = true -> is_ok (validateOutcomeAsk o) = true.
Proof.
  unfold validateOutcome. intros H Ha. rewrite Ha in H. autorewrite with modsec in H.
  rewrite !andb_true_iff in H. tauto.
Qed.

Lemma validateOutcome_code o :
  is_ok (validateOutcome o) = true -> o_Code o <> "" -> codeRe (o_Code o) = true.
Proof.
  unfold validateOutcome. intros H Hc%str_eqb_false. autorewrite with modsec in H.
  rewrite !andb_true_iff in H. destruct H as (_ & _ & H & _).
  rewrite Hc in H. simpl in H. by rewrite negb_involutive in H.
Qed.

Section fire.
Context (match_ : Outcome -> option string) (addr : string).

(** What one row contributes. *)
Definition row_action (o : Outcome) : option Action :=
  code ← match_ o; if Asks o then Some (ask o code) else None.

Definition row_ban (o : Outcome) : option Ban :=
  code ← match_ o;
  if Asks o || str_eqb addr "" then None
  else Some {| Dataset := List_ o; ban_Write := Subject_ o; Addr := addr;
               ban_TTL := Seconds o; ban_Reason := reasonOf o code |}.

Definition row_name (o : Outcome) : option string :=
  match row_action o, row_ban o with
  | None, None => None
  | _, _ => Some (outcomeName o)
  end.

Lemma fire_loop rows out :
  fold_left (fire_row match_ addr) rows out =
  {| f_Actions := f_Actions out ++ omap row_action rows;
     Bans := Bans out ++ omap row_ban rows;
     Names := Names out ++ omap row_name rows |}.
Proof.
  revert out. induction rows as [|o rows IH]; intros out; cbn [fold_left].
  { simpl. rewrite !app_nil_r. by destruct out. }
  rewrite IH. unfold fire_row. cbn [omap list_omap].
  unfold row_name, row_action, row_ban.
  destruct (match_ o) as [code|]; simpl; [|done].
  destruct (Asks o); simpl; [by rewrite <- !(assoc_L (++))|].
  destruct (str_eqb addr ""); simpl; by rewrite <- ?(assoc_L (++)).
Qed.

Lemma fire_eq rows :
  fire rows match_ addr =
  {| f_Actions := omap row_action rows; Bans := omap row_ban rows;
     Names := omap row_name rows |}.
Proof. unfold fire. by rewrite fire_loop. Qed.

Lemma fire_actions rows a :
  a ∈ f_Actions (fire rows match_ addr) <->
  exists o code, o ∈ rows /\ match_ o = Some code /\ Asks o = true /\ a = ask o code.
Proof.
  rewrite fire_eq. simpl. rewrite list_elem_of_omap. unfold row_action. split.
  - intros (o & Ho & Ha). destruct (match_ o) as [code|] eqn:E; simplify_eq/=.
    destruct (Asks o) eqn:Eo; simplify_eq. eauto 10.
  - intros (o & code & Ho & Hm & Hask & ->). exists o. by rewrite Hm, Hask.
Qed.

Lemma fire_bans rows b :
  b ∈ Bans (fire rows match_ addr) ->
  exists o code, o ∈ rows /\ match_ o = Some code /\ Asks o = false /\ addr <> ""
    /\ b = {| Dataset := List_ o; ban_Write := Subject_ o; Addr := addr;
              ban_TTL := Seconds o; ban_Reason := reasonOf o code |}.
Proof.
  rewrite fire_eq. simpl. rewrite list_elem_of_omap. unfold row_ban.
  intros (o & Ho & Hb). destruct (match_ o) as [code|] eqn:E; simplify_eq/=.
  destruct (Asks o) eqn:Eo, (str_eqb addr "") eqn:Ea; simplify_eq/=.
  exists o, code. by rewrite str_eqb_false in Ea.
Qed.
End fire.

Lemma ruleCode_valid id : 0 <= id <= max_int64 -> codeRe (ruleCode id) = true.
Proof.
  intros Hid. unfold ruleCode, codeRe. pose proof (Itoa_length id Hid) as Hl.
  change ("CRS_RULE_" +:+ Itoa id) with (String "C" ("RS_RULE_" +:+ Itoa id)).
  unfold len. rewrite str_bytes_app, forallb_app, str_length_app.
  rewrite (forallb_weaken is_digit _ (str_bytes (Itoa id))); [|by intros ? ->; rewrite orb_true_r|].
  - apply andb_true_intro. split; [done|].
    change (String.length "RS_RULE_") with 8%nat. apply Z.leb_le.
    rewrite Nat2Z.inj_add. apply inj_le in Hl. lia.
  - apply Itoa_digits. lia.
Qed.

(** The units of a time to live and their seconds. *)
Definition ttl_units : list (string * Z) :=
  [(EmptyString, 1); ("s", 1); ("m", 60); ("h", 3600); ("d", 86400)].

Lemma ToLower_digits s t :
  forallb is_digit (str_bytes s) = true -> ToLower (s +:+ t) = s +:+ ToLower t.
Proof.
  induction s as [|a s IH]; intros H; [done|]. simpl in H. bool_prop.
  change (String a s +:+ ?x) with (String a (s +:+ x)).
  assert (byte_is 196 a = false /\ byte_is 226 a = false /\ lower_byte a = a)
    as (H1 & H2 & H3).
  { unfold is_digit, byte_in, byte_is, lower_byte, byte_in in *. bool_prop.
    assert ((65 <=? byte_val a) && (byte_val a <=? 90) = false) as -> by lia.
    split_and!; [lia|lia|done]. }
  simpl. rewrite H1, H2, H3. simpl. rewrite IH by done.
  destruct (s +:+ t) as [|b [|c r]]; done.
Qed.

Lemma str_rev_snoc s a : String.rev (s +:+ String a "") = String a (String.rev s).
Proof.
  apply str_bytes_inj. simpl. rewrite !str_bytes_rev, str_bytes_app. simpl.
  by rewrite reverse_app.
Qed.

Lemma HasSuffix_snoc s a b : HasSuffix (s +:+ String a "") (String b "") = ascii_eqb a b.
Proof.
  unfold HasSuffix. rewrite str_rev_snoc. change (String.rev (String b "")) with (String b "").
  simpl. by destruct (String.rev s); rewrite andb_true_r.
Qed.

Lemma str_take_app s t : str_take (String.length s) (s +:+ t) = s.
Proof.
  induction s as [|a s IH]; [by destruct t|].
  change (String a (str_take (String.length s) (s +:+ t)) = String a s). by rewrite IH.
Qed.

Lemma TrimSuffix_snoc s a : TrimSuffix (s +:+ String a "") (String a "") = s.
Proof.
  unfold TrimSuffix. rewrite HasSuffix_snoc, ascii_eqb_refl, str_length_app.
  replace (String.length s + String.length (String a "") - String.length (String a ""))%nat
    with (String.length s) by lia.
  apply str_take_app.
Qed.

Lemma Itoa_snoc n : 0 <= n -> exists s a, Itoa n = s +:+ String a "" /\ is_digit a = true.
Proof.
  intros Hn. pose proof (Itoa_digits n Hn) as Hd.
  assert (Itoa n <> "") as Hne.
  { unfold Itoa. destruct n as [|p|p]; [done| |lia].
    change (pretty (Z.pos p)) with (pretty (N.pos p)).
    by destruct (pretty_N_digits (N.pos p)) as (a & t & -> & _). }
  exists (String.rev (str_drop 1 (String.rev (Itoa n)))).
  assert (forallb is_digit (str_bytes (String.rev (Itoa n))) = true) as Hr
    by (by rewrite str_bytes_rev, forallb_reverse).
  destruct (String.rev (Itoa n)) as [|a r] eqn:E.
  - apply (f_equal String.rev) in E. by rewrite str_rev_involutive in E.
  - exists a. simpl in *. bool_prop. split; [|done].
    rewrite <- (str_rev_involutive (Itoa n)), E. apply str_bytes_inj.
    rewrite str_bytes_app, !str_bytes_rev. apply reverse_cons.
Qed.


(** ** Specification of when a row fires *)

(** The finding passes the filters the row names in its text. *)
Definition row_takes (o : Outcome) (r : MatchedRule) : Prop :=
  Message r <> ""
  /\ (Rules o <> [] -> exists item rng, item ∈ Rules o
        /\ cutRange (TrimSpace item) = Some rng /\ rng.1 <= ID r <= rng.2)
  /\ (o_Tags o <> [] -> exists t, t ∈ Tags r /\ t ∈ o_Tags o).

(** [triggers verdict score matched code o c]: the row [o] fires on the verdict with
    the reason code [c]. *)
Inductive triggers (verdict : string) (score : Z) (matched : list MatchedRule)
    (code : string) (o : Outcome) : string -> Prop :=
| on_allow :
    o_On o = OnAllow -> verdict = VerdictAllow -> triggers verdict score matched code o code
| on_deny :
    o_On o = OnDeny -> verdict = VerdictDeny \/ verdict = VerdictRedirect ->
    triggers verdict score matched code o code
| on_score n :
    o_On o = OnScore -> verdict = VerdictScore -> o_At o = Some n ->
    (if Eq o then score = n else if Below o then score < n else n <= score) ->
    triggers verdict score matched code o code
| on_rule before r after :
    o_On o = OnRule -> matched = before ++ r :: after -> row_takes o r ->
    Forall (fun r' => ~ row_takes o r') before ->
    triggers verdict score matched code o (ruleCode (ID r)).

(** The rows of a loaded policy are the compiled rows of the file, all valid. *)
Definition loaded (rows : list Outcome) : Prop :=
  exists file, rows = compile <$> file
    /\ Forall (fun o => is_ok (validateOutcome o) = true) file.

Lemma loadFile_loaded read unmarshal p found :
  loadFile read unmarshal = Ok (p, found) ->
  loaded (p_Outcomes p) /\ Forall rule_ok (p_Rules p).
Proof.
  unfold loadFile. destruct read as [[raw|]|]; [|done|].
  - destruct (unmarshal raw) as [[rules rows]|]; [|done].
    destruct (try_each _ rules) eqn:H1; simpl; [|done].
    destruct (try_each _ rows) eqn:H2; simpl; [|done]. intros [= <- <-]. simpl.
    pose proof (try_each_all _ _ _ H1) as Hr. pose proof (try_each_all _ _ _ H2) as Ho.
    setoid_rewrite is_ok_map_err in Hr. setoid_rewrite is_ok_map_err in Ho. split.
    + exists rows. split; [done|]. apply list.Forall_forall. exact Ho.
    + apply list.Forall_forall. intros r ?. by apply validate_rule_ok, Hr.
  - intros [= <- <-]. split; [by exists []|constructor].
Qed.

Lemma nonempty_spec {A} (l : list A) : nonempty l = true <-> l <> [].
Proof. destruct l; simpl; naive_solver. Qed.

Lemma rule_row_ranges o :
  is_ok (validateOutcome o) = true -> o_On o = OnRule ->
  ParseRanges (Rules o) = Ok (ranges (compile o)).
Proof.
  intros H Ho. unfold validateOutcome in H. autorewrite with modsec in H.
  rewrite !andb_true_iff in H. destruct H as (_ & H & _). unfold checkRuleFilter in H.
  rewrite Ho in H. simpl in H. autorewrite with modsec in H.
  rewrite !andb_true_iff in H. destruct H as (_ & H & _). simpl.
  by destruct (ParseRanges _).
Qed.

Lemma listed_spec items rs id :
  ParseRanges items = Ok rs ->
  Has rs id = true <-> exists item rng, item ∈ items
    /\ cutRange (TrimSpace item) = Some rng /\ rng.1 <= id <= rng.2.
Proof.
  revert rs. induction items as [|item items IH]; simpl; intros rs H.
  { simplify_eq. split; [done|]. intros (? & ? & ?%elem_of_nil & _). done. }
  destruct (cutRange _) as [rng|] eqn:E; [|done].
  destruct (ParseRanges items) as [out|]; simpl in H; [|done]. simplify_eq.
  specialize (IH out eq_refl). simpl. rewrite orb_true_iff, andb_true_iff, !Z.leb_le, IH.
  setoid_rewrite elem_of_cons. naive_solver.
Qed.

Lemma hit_one_spec o r :
  is_ok (validateOutcome o) = true -> o_On o = OnRule ->
  hit_one (compile o) r = true <-> row_takes o r.
Proof.
  intros Hv Ho. unfold hit_one, row_takes.
  pose proof (rule_row_ranges _ Hv Ho) as Hp. simpl in *.
  rewrite !andb_true_iff, <- Finding_spec, <- (listed_spec _ _ _ Hp), <- Tagged_spec,
    <- !nonempty_spec, !negb_true_iff, !andb_false_iff, !negb_false_iff.
  destruct (nonempty (Rules o)), (nonempty (o_Tags o)); intuition congruence.
Qed.

Lemma hit_split o matched r :
  hit o matched = Some r <-> exists before after, matched = before ++ r :: after
    /\ hit_one o r = true /\ Forall (fun r' => hit_one o r' = false) before.
Proof.
  unfold hit. induction matched as [|m matched IH]; simpl.
  { split; [done|]. by intros ([|] & ? & ? & _). }
  destruct (hit_one o m) eqn:E.
  - split.
    + intros [= ->]. by exists [], matched.
    + intros (before & after & Heq & _ & Hb). destruct before as [|x before]; simplify_eq/=; [done|].
      apply list.Forall_cons in Hb as [? _]. congruence.
  - rewrite IH. split.
    + intros (before & after & -> & ? & ?). exists (m :: before), after. auto.
    + intros (before & after & Heq & Hr & Hb). destruct before as [|x before]; simplify_eq/=.
      { congruence. }
      apply list.Forall_cons in Hb as [_ ?]. eauto.
Qed.

Lemma not_true_false (b : bool) P : (b = true <-> P) -> b = false <-> ~ P.
Proof. destruct b; intuition congruence. Qed.

Lemma fire_match_spec o verdict score matched code c :
  is_ok (validateOutcome o) = true ->
  fire_match verdict score matched code (compile o) = Some c <->
  triggers verdict score matched code o c.
Proof.
  intros Hv. unfold fire_match. simpl. destruct (str_eqb (o_On o) OnRule) eqn:Er.
  - apply str_eqb_true in Er. split.
    + destruct (hit _ _) as [r|] eqn:Eh; [|done]. intros [= <-].
      apply hit_split in Eh as (before & after & Hm & Hr & Hb).
      eapply on_rule; eauto; [by apply hit_one_spec|].
      eapply list.Forall_impl; [done|]. intros r' Hr'.
      by rewrite (not_true_false _ _ (hit_one_spec o r' Hv Er)) in Hr'.
    + intros [Ho| Ho| ? Ho |before r after Ho Hm Hr Hb]; rewrite Er in *; try done.
      assert (hit (compile o) matched = Some r) as ->; [|done]. apply hit_split.
      exists before, after. split_and!; [done|by apply hit_one_spec|].
      eapply list.Forall_impl; [done|]. intros r'.
      apply (not_true_false _ _ (hit_one_spec o r' Hv Er)).
  - apply str_eqb_false in Er. split.
    + destruct (Matches _ _ _) eqn:Em; [|done]. intros [= <-]. unfold Matches in Em. simpl in Em.
      destruct (str_eqb (o_On o) OnAllow) eqn:E1; [rewrite str_eqb_true in *; by apply on_allow|].
      destruct (str_eqb (o_On o) OnDeny) eqn:E2.
      { rewrite orb_true_iff, !str_eqb_true in *. by apply on_deny. }
      destruct (str_eqb (o_On o) OnScore) eqn:E3; [|done].
      destruct (o_At o) as [n|] eqn:Ea; [|done].
      destruct (str_eqb verdict VerdictScore) eqn:E4; [|done]. rewrite !str_eqb_true in *.
      apply (on_score _ _ _ _ _ n); [done..|]. simpl in Em.
      destruct (Eq o), (Below o); lia.
    + unfold Matches. simpl.
      intros [Ho ->| Ho Hve| n Ho -> Ha Hn|? ? ? Ho]; [| | |done]; rewrite Ho; simpl.
      * done.
      * by destruct Hve as [-> | ->].
      * rewrite Ha. simpl. assert ((if Eq o then score =? n else if Below o then score <? n
          else n <=? score) = true) as ->; [|done]. destruct (Eq o), (Below o); lia.
Qed.

Lemma loaded_row rows o :
  loaded rows -> o ∈ rows ->
  exists row, o = compile row /\ is_ok (validateOutcome row) = true /\ compile row ∈ rows.
Proof.
  intros (file & -> & Hf) Ho. apply list_elem_of_fmap in Ho as (row & -> & Hrow).
  exists row. rewrite list.Forall_forall in Hf. split_and!; [done|auto|].
  by apply list_elem_of_fmap_2.
Qed.

(** Compiling only fills the parsed ranges in: no check reads them. *)
Lemma validateOutcome_compile o : validateOutcome (compile o) = validateOutcome o.
Proof. done. Qed.

Lemma loaded_valid rows o : loaded rows -> o ∈ rows -> is_ok (validateOutcome o) = true.
Proof.
  intros Hl Ho. destruct (loaded_row _ _ Hl Ho) as (row & -> & ? & _).
  by rewrite validateOutcome_compile.
Qed.

(** Whatever the predicate a loaded policy is fired with, it sends well-formed
    actions and writes well-formed bans. *)
Lemma fire_wellformed rows match_ addr :
  loaded rows ->
  Forall action_ok (f_Actions (fire rows match_ addr))
  /\ Forall (ban_ok addr) (Bans (fire rows match_ addr)).
Proof.
  intros Hl. rewrite !list.Forall_forall. split.
  - intros a (o & code & Ho & _ & Ha & ->)%fire_actions.
    apply ask_valid; [done|]. apply validateOutcome_asks; [|done]. by eapply loaded_valid.
  - intros b (o & code & Ho & _ & Ha & Haddr & ->)%fire_bans.
    apply ban_valid; [done| |done]. by eapply loaded_valid.
Qed.

(** A deny row asks for records only. *)
Lemma deny_row o :
  is_ok (validateOutcome o) = true -> Asks o = true -> o_On o = OnDeny ->
  recordVerb (o_Do o) = true.
Proof.
  intros Hv Ha Hd. apply validateOutcome_asks in Hv; [|done].
  unfold validateOutcomeAsk in Hv. cbv zeta in Hv. autorewrite with modsec in Hv.
  rewrite !andb_true_iff in Hv. destruct Hv as (Hv & _). rewrite Hd in Hv. simpl in Hv.
  by rewrite negb_involutive in Hv.
Qed.

Lemma reasonOf_valid o code :
  is_ok (validateOutcome o) = true -> codeRe code = true -> codeRe (reasonOf o code) = true.
Proof.
  intros Hv Hc. unfold reasonOf. destruct (str_eqb (o_Code o) "") eqn:E; [done|].
  apply validateOutcome_code; [done|]. by apply str_eqb_false.
Qed.

(** A policy of three rows for the examples: an audit record on every denial, a note
    for one rule's finding, and a ban of the client on a high score. *)
Definition sample_rows : list Outcome :=
  [ {| o_On := "deny"; o_At := None; Below := false; Eq := false; Rules := []; o_Tags := [];
       ranges := []; o_To := ""; o_Do := "audit"; o_Apply := ""; o_Phase := "";
       o_Delta := None; o_Value := None; o_Counter := ""; o_Group := ""; o_Set := "on";
       o_Headers := None; o_Args := None; o_Body := None; o_When := []; o_Marker := "";
       List_ := ""; Write := ""; o_TTL := ""; o_Code := "" |};
    {| o_On := "rule"; o_At := None; Below := false; Eq := false;
       Rules := ["942100-942199"]; o_Tags := []; ranges := []; o_To := "*"; o_Do := "note";
       o_Apply := "ip"; o_Phase := ""; o_Delta := None; o_Value := Some 10;
       o_Counter := "sqli"; o_Group := ""; o_Set := ""; o_Headers := None; o_Args := None;
       o_Body := None; o_When := []; o_Marker := ""; List_ := ""; Write := ""; o_TTL := "";
       o_Code := "" |};
    {| o_On := "score"; o_At := Some 80; Below := false; Eq := false; Rules := [];
       o_Tags := []; ranges := []; o_To := ""; o_Do := ""; o_Apply := ""; o_Phase := "";
       o_Delta := None; o_Value := None; o_Counter := ""; o_Group := ""; o_Set := "";
       o_Headers := None; o_Args := None; o_Body := None; o_When := []; o_Marker := "";
       List_ := "crs-bans"; Write := ""; o_TTL := "2h"; o_Code := "" |} ].

Definition sample_match : MatchedRule :=
  {| ID := 942150; rule_Phase := 2; Severity := "critical"; Tags := []; Message := "SQLi";
     Data := ""; Target := "" |}.

Definition sample_policy : PolicyFile :=
  {| p_Rules := []; p_Outcomes := compile <$> sample_rows |}.

Lemma sample_loads :
  loadFile (Some (Ok "outcomes")) (fun _ => Some ([], sample_rows)) = Ok (sample_policy, true).
Proof. reflexivity. Qed.

Lemma sample_rows_valid : Forall (fun o => is_ok (validateOutcome o) = true) sample_rows.
Proof. repeat constructor. Qed.

(** ** Properties *)

(** A policy file that loads sends only well-formed requests: whatever the
    verdict, the score and the findings, and whatever the queue fill, every action
    of [Fire] and [FireOverload] has a known verb on an axis of that verb, deltas
    and values in range, a named receiver where control needs one, and the fields
    of its verb only; every ban names a dataset and a positive time to live. *)
Lemma Fire_wellformed read unmarshal p found verdict score matched fill shed addr code code'
    (Hload : loadFile read unmarshal = Ok (p, found)) :
  let v := Fire (p_Outcomes p) verdict score matched addr code in
  let q := FireOverload (p_Outcomes p) fill shed addr code' in
  Forall action_ok (f_Actions v) /\ Forall (ban_ok addr) (Bans v)
  /\ Forall action_ok (f_Actions q) /\ Forall (ban_ok addr) (Bans q).
Proof.
  apply loadFile_loaded in Hload as [Hl _]. intros v q.
  destruct (fire_wellformed _ (fire_match verdict score matched code) addr Hl).
  destruct (fire_wellformed _ (overload_match fill shed code') addr Hl). done.
Qed.

Lemma Fire_wellformed_witness :
  let v := Fire (p_Outcomes sample_policy) "score" 90 [sample_match] "192.0.2.7" "CRS_ANOMALY" in
  let q := FireOverload (p_Outcomes sample_policy) 100 true "192.0.2.7" "MODSEC_QUEUE_LIMIT" in
  Forall action_ok (f_Actions v) /\ Forall (ban_ok "192.0.2.7") (Bans v)
  /\ Forall action_ok (f_Actions q) /\ Forall (ban_ok "192.0.2.7") (Bans q).
Proof.
  exact (Fire_wellformed _ _ sample_policy true "score" 90 [sample_match] 100 true "192.0.2.7"
    "CRS_ANOMALY" "MODSEC_QUEUE_LIMIT" sample_loads).
Defined.

(** C26: [Fire] runs exactly the rows whose trigger holds, in file order: there is
    one answer per row, [Some] of the reason code exactly when the row's trigger
    holds with that code, and the actions, bans and names are the answers' rows
    turned into requests, where a list row needs an address. *)
Theorem Fire_triggers rows verdict score matched addr code
    (Hv : Forall (fun o => is_ok (validateOutcome o) = true) rows) :
  exists codes : list (option string),
    Forall2 (fun o r => forall c, r = Some c <-> triggers verdict score matched code o c)
      rows codes
    /\ let fired := Fire (compile <$> rows) verdict score matched addr code in
       f_Actions fired = omap (fun '(o, r) => c ← r; if Asks o then Some (ask o c) else None)
                           (zip rows codes)
       /\ Bans fired = omap (fun '(o, r) => c ← r;
                         if Asks o || str_eqb addr "" then None
                         else Some {| Dataset := List_ o; ban_Write := Subject_ o;
                                      Addr := addr; ban_TTL := Seconds o;
                                      ban_Reason := reasonOf o c |}) (zip rows codes).
Proof.
  exists ((fire_match verdict score matched code ∘ compile) <$> rows). split.
  - apply list.Forall2_fmap_r, Forall_Forall2_diag.
    eapply list.Forall_impl; [done|]. intros o Ho c. by apply fire_match_spec.
  - unfold Fire. rewrite fire_eq. simpl. clear Hv. split.
    + induction rows as [|o rows IH]; [done|]. cbn. unfold row_action at 1. simpl.
      destruct (fire_match _ _ _ _ (compile o)); simpl; [|done].
      destruct (Asks o) eqn:E; change (Asks (compile o)) with (Asks o); rewrite E; [|done].
      by rewrite IH.
    + induction rows as [|o rows IH]; [done|]. cbn. unfold row_ban at 1. simpl.
      destruct (fire_match _ _ _ _ (compile o)); simpl; [|done].
      change (Asks (compile o)) with (Asks o). destruct (_ || _); [done|]. by rewrite IH.
Qed.

Lemma Fire_triggers_witness :
  exists codes : list (option string),
    Forall2 (fun o r => forall c, r = Some c
        <-> triggers "score" 90 [sample_match] "CRS_ANOMALY" o c) sample_rows codes
    /\ let fired := Fire (compile <$> sample_rows) "score" 90 [sample_match] "192.0.2.7"
                      "CRS_ANOMALY" in
       f_Actions fired = omap (fun '(o, r) => c ← r; if Asks o then Some (ask o c) else None)
                           (zip sample_rows codes)
       /\ Bans fired = omap (fun '(o, r) => c ← r;
                         if Asks o || str_eqb "192.0.2.7" "" then None
                         else Some {| Dataset := List_ o; ban_Write := Subject_ o;
                                      Addr := "192.0.2.7"; ban_TTL := Seconds o;
                                      ban_Reason := reasonOf o c |}) (zip sample_rows codes).
Proof.
  exact (Fire_triggers sample_rows "score" 90 [sample_match] "192.0.2.7" "CRS_ANOMALY"
    sample_rows_valid).
Defined.

(** C36: After a denial a loaded policy asks the neighbours for nothing but
    records (audit, archive, mark, score), save by the rows that fire on a rule's
    finding rather than on the verdict. *)
Theorem deny_asks_records read unmarshal p found verdict score matched addr code a
    (Hload : loadFile read unmarshal = Ok (p, found))
    (Hv : verdict = VerdictDeny \/ verdict = VerdictRedirect)
    (Ha : a ∈ f_Actions (Fire (p_Outcomes p) verdict score matched addr code)) :
  recordVerb (Do a) = true
  \/ exists row r, row ∈ p_Outcomes p /\ o_On row = OnRule /\ r ∈ matched
       /\ Message r <> "" /\ a = ask row (ruleCode (ID r)).
Proof.
  apply loadFile_loaded in Hload as [Hl _].
  apply fire_actions in Ha as (o & c & Ho & Hm & Hask & ->).
  destruct (loaded_row _ _ Hl Ho) as (row & -> & Hrow & _).
  apply fire_match_spec in Hm; [|done].
  destruct Hm as [Hon ->|Hon _|n Hon -> _ _|before r after Hon -> Hr _].
  - by destruct Hv.
  - left. simpl. by apply deny_row.
  - by destruct Hv.
  - right. exists (compile row), r. destruct Hr as (? & _). split_and!; [done..| |done|done].
    set_solver.
Qed.

Lemma deny_asks_records_witness :
  exists a, a ∈ f_Actions (Fire (p_Outcomes sample_policy) "deny" 0 [sample_match] "192.0.2.7"
                             "CRS_RULE")
    /\ (recordVerb (Do a) = true
        \/ exists row r, row ∈ p_Outcomes sample_policy /\ o_On row = OnRule
             /\ r ∈ [sample_match] /\ Message r <> "" /\ a = ask row (ruleCode (ID r))).
Proof.
  assert (hd_error (f_Actions (Fire (p_Outcomes sample_policy) "deny" 0 [sample_match]
    "192.0.2.7" "CRS_RULE")) <> None) as Hne by (vm_compute; discriminate).
  destruct (f_Actions (Fire (p_Outcomes sample_policy) "deny" 0 [sample_match] "192.0.2.7"
    "CRS_RULE")) as [|a l] eqn:E; [by destruct Hne|].
  exists a. split; [by left|].
  apply (deny_asks_records _ _ sample_policy true "deny" 0 [sample_match] "192.0.2.7"
    "CRS_RULE" a sample_loads); [by left|rewrite E; by left].
Defined.

(** Every reason code that a loaded policy sends or writes has the form of a
    code, provided the verdict's code has it and the findings' rule ids are not
    negative. *)
Lemma Fire_codes read unmarshal p found verdict score matched addr code
    (Hload : loadFile read unmarshal = Ok (p, found)) (Hcode : codeRe code = true)
    (Hids : Forall (fun r => 0 <= ID r <= max_int64) matched) :
  let v := Fire (p_Outcomes p) verdict score matched addr code in
  Forall (fun a => codeRe (act_Code a) = true) (f_Actions v)
  /\ Forall (fun b => codeRe (ban_Reason b) = true) (Bans v).
Proof.
  apply loadFile_loaded in Hload as [Hl _]. intros v.
  assert (forall o c, o ∈ p_Outcomes p -> fire_match verdict score matched code o = Some c ->
    codeRe (reasonOf o c) = true) as Hc.
  { intros o c Ho Hm. destruct (loaded_row _ _ Hl Ho) as (row & -> & Hrow & _).
    apply reasonOf_valid; [done|]. apply fire_match_spec in Hm; [|done].
    destruct Hm as [| | |before r after _ -> _ _]; [done..|].
    apply ruleCode_valid. rewrite list.Forall_forall in Hids. set_solver. }
  rewrite !list.Forall_forall. split.
  - intros a (o & c & ? & ? & _ & ->)%fire_actions. simpl. auto.
  - intros b (o & c & ? & ? & _ & _ & ->)%fire_bans. simpl. auto.
Qed.

Lemma Fire_codes_witness :
  let v := Fire (p_Outcomes sample_policy) "score" 90 [sample_match] "192.0.2.7" "CRS_ANOMALY" in
  Forall (fun a => codeRe (act_Code a) = true) (f_Actions v)
  /\ Forall (fun b => codeRe (ban_Reason b) = true) (Bans v).
Proof.
  apply (Fire_codes _ _ sample_policy true "score" 90 [sample_match] "192.0.2.7"
    "CRS_ANOMALY" sample_loads); [reflexivity|].
  constructor; [|constructor]. split; vm_compute; discriminate.
Defined.

Lemma TrimSuffix_unit n u :
  0 <= n -> u ∈ ["s"; "m"; "h"; "d"] ->
  HasSuffix (Itoa n +:+ u) u = true /\ TrimSuffix (Itoa n +:+ u) u = Itoa n.
Proof.
  intros _ Hu. set_unfold in Hu.
  destruct Hu as [->|[->|[->|[->|[]]]]]; by rewrite HasSuffix_snoc, TrimSuffix_snoc.
Qed.

Lemma ttl_text n u :
  0 <= n -> u ∈ [""; "s"; "m"; "h"; "d"] ->
  TrimSpace (ToLower (Itoa n +:+ u)) = Itoa n +:+ u.
Proof.
  intros Hn Hu. rewrite ToLower_digits by by apply Itoa_digits.
  assert (ToLower u = u /\ forallb plain (str_bytes u) = true) as [-> Hp].
  { set_unfold in Hu. by destruct Hu as [->|[->|[->|[->|[->|[]]]]]]. }
  apply TrimSpace_plain. by rewrite str_bytes_app, forallb_app, Itoa_plain, Hp.
Qed.

(** A number alone ends in a digit, which is no unit. *)
Lemma Itoa_no_unit n u :
  0 <= n -> u ∈ ["s"; "m"; "h"; "d"] -> HasSuffix (Itoa n) u = false.
Proof.
  intros Hn Hu. destruct (Itoa_snoc n Hn) as (s & a & -> & Ha). set_unfold in Hu.
  destruct Hu as [->|[->|[->|[->|[]]]]]; rewrite HasSuffix_snoc; apply ascii_eqb_false;
    by intros ->.
Qed.

Lemma snoc_not_empty s a : str_eqb (s +:+ String a "") "" = false.
Proof. apply str_eqb_false. by destruct s. Qed.

(** [parseTTL] reads a number with a unit as that many seconds, in 64-bit
    arithmetic: the result is exact if and only if the product fits, and wraps
    around otherwise. *)
Lemma parseTTL_show n u mult
    (Hn : 0 <= n <= max_int64) (Hu : (u, mult) ∈ ttl_units) :
  parseTTL (Itoa n +:+ u) = Ok (wrap64 (n * mult))
  /\ (wrap64 (n * mult) = n * mult <-> n * mult <= max_int64).
Proof.
  assert (in_int64 n = true) as Hi.
  { apply in_int64_spec. unfold min_int64, max_int64 in *. lia. }
  assert (u ∈ [""; "s"; "m"; "h"; "d"] /\ 0 < mult) as [Hmem Hpos].
  { unfold ttl_units in Hu. set_unfold in Hu.
    destruct Hu as [[= -> ->]|[[= -> ->]|[[= -> ->]|[[= -> ->]|[[= -> ->]|[]]]]]];
      split; (lia || set_solver). }
  split.
  - unfold parseTTL. rewrite ttl_text by (done || lia).
    assert (str_eqb (Itoa n +:+ u) "" = false) as ->.
    { destruct (Itoa_snoc n) as (s & a & -> & _); [lia|]. apply str_eqb_false. by destruct s. }
    pose proof (Itoa_no_unit n) as Hno. pose proof (TrimSuffix_unit n u) as Htrim.
    assert (TrimSpace (Itoa n) = Itoa n) as Hts by (apply TrimSpace_plain, Itoa_plain; lia).
    clear Hmem Hpos. unfold ttl_units in Hu. set_unfold in Hu.
    destruct Hu as [[= -> ->]|[[= -> ->]|[[= -> ->]|[[= -> ->]|[[= -> ->]|[]]]]]].
    1: rewrite str_app_nil_r, !Hno by (lia || set_solver).
    2-5: destruct Htrim as [Hs Ht]; [lia|set_solver|].
    3-5: rewrite !HasSuffix_snoc; simpl.
    2: rewrite Hs.
    2-5: rewrite Ht.
    all: rewrite Hts, Atoi_Itoa by done; by rewrite (proj2 (Z.ltb_ge n 0)) by lia.
  - split; [|intros; apply wrap64_small; unfold min_int64; lia].
    intros <-. apply wrap64_range.
Qed.

Lemma parseTTL_show_witness :
  parseTTL (Itoa 36 +:+ "h") = Ok (wrap64 (36 * 3600))
  /\ (wrap64 (36 * 3600) = 36 * 3600 <-> 36 * 3600 <= max_int64).
Proof.
  apply (parseTTL_show 36 "h" 3600).
  - split; vm_compute; discriminate.
  - do 3 right. left.
Defined.
