(* ===== verification/AuditLog.v ===== *)
(** * Audit events: [internal/audit/audit.go]

    [Build] makes the event of one verdict; [Ensure] creates the stream that keeps the
    events. *)

From Stdlib Require Import QArith_base.
From S2P Require Import Prelude GoString Protocol PriorRules.
From stdpp Require Import options.

Local Open Scope Z_scope.

(** ** Events *)

Definition audit_Version : Z := 1.
Definition Kind : string := "inspector".

Definition SeverityInfo : string := "info".
Definition SeverityLow : string := "low".
Definition SeverityMedium : string := "medium".
Definition SeverityHigh : string := "high".
Definition SeverityCritical : string := "critical".
Definition TargetURI : string := "uri".

Record Finding := {
  fd_Code : string; fd_Severity : string; fd_Target : string; Offset : option Z;
  Length : option Z; fd_Rule : string; Confidence : option Q; Evidence : string;
  fd_Message : string; fd_Tags : list string }.

(** The values the handlers put into [map[string]any]. *)
Inductive any : Type :=
| AnyInt (z : Z)
| AnyBool (b : bool)
| AnyFloat (q : Q)
| AnyString (s : string)
| AnyStrings (l : list string)
| AnyActions (l : list ActionOutcome).

Record Details := {
  EngineMS : Q; Findings : list Finding; det_Engine : gmap string any }.

(** [audit.Details{}] and [audit.Details{Engine: m}] *)
Definition details (m : gmap string any) : Details :=
  {| EngineMS := 0; Findings := []; det_Engine := m |}.

(** [det.Engine[k] = v] *)
Definition set_engine (k : string) (v : any) (d : Details) : Details :=
  {| EngineMS := EngineMS d; Findings := Findings d; det_Engine := <[k := v]> (det_Engine d) |}.

Record FrameRef := { fr_Direction : string; fr_Seq : Z }.

Record Event := {
  ev_V : Z; ev_Kind : string; TS : string; ev_Ray : string; ev_Node : string;
  ev_Phase : string; ev_Inspector : string; ev_Profile : string; ev_Verdict : string;
  ev_Score : option Z; ev_EngineMS : Q; ev_Findings : list Finding;
  ev_Engine : gmap string any; Frame : option FrameRef }.

(** [Build]; [now] is the formatted time. *)
Definition Build (now : string) (req : option Request) (reply : option Reply)
    (det : Details) : Event :=
  let of_req {A} (f : Request -> A) (d : A) := from_option f d req in
  let inspector := of_req Inspector "" in
  {| ev_V := audit_Version; ev_Kind := Kind; TS := now;
     ev_Ray := of_req Ray ""; ev_Node := of_req Node ""; ev_Phase := of_req Phase "";
     ev_Inspector :=
       match reply with
       | Some r => if str_eqb inspector "" then rep_Inspector r else inspector
       | None => inspector
       end;
     ev_Profile := of_req (fun r => Profile (req_Route r)) "";
     ev_Verdict := from_option Verdict "" reply;
     ev_Score := reply ≫= Score;
     ev_EngineMS := EngineMS det; ev_Findings := Findings det;
     ev_Engine := det_Engine det;
     Frame :=
       of_req (fun r => s ← req_Stream r;
         if str_eqb (Direction s) "" then None
         else Some {| fr_Direction := Direction s; fr_Seq := Seq r |}) None |}.

(** ** The stream *)

Definition Stream : string := "WAF_AUDIT".
Definition MaxBytes : Z := Z.shiftl 256 20.
Definition MaxAge : Z := 24 * 3600 * 1000000000.

(** What [Ensure] asks of the stream; its storage is a file, its retention by limits,
    and the oldest messages are dropped first. *)
Record StreamConfig := {
  sc_Name : string; Subjects : list string; sc_MaxAge : Z; sc_MaxBytes : Z; Duplicates : Z }.

Definition stream_config : StreamConfig :=
  {| sc_Name := Stream; Subjects := ["waf.audit.>"]; sc_MaxAge := MaxAge;
     sc_MaxBytes := MaxBytes; Duplicates := 2 * 60 * 1000000000 |}.

(** A connection, as far as [Ensure] uses it: the error of [JetStream], and that of
    [AddStream] with whether it is [ErrStreamNameAlreadyInUse]. *)
Record Conn := { JetStream : option string; AddStream : StreamConfig -> option (string * bool) }.

(** [Ensure]: the error, if any. *)
Definition Ensure (nc : option Conn) : option string :=
  match nc with
  | None => Some "nats connection is nil"
  | Some nc =>
      match JetStream nc with
      | Some err => Some err
      | None =>
          match AddStream nc stream_config with
          | None | Some (_, true) => None
          | Some (err, false) => Some err
          end
      end
  end.
