(* ===== verification/AuditSink.v ===== *)
(** * The audit sink: [internal/audit/sink.go]

    The sink collects encoded events, and one goroutine publishes them in batches, one
    message per subject and batch. The events are added by the handler's goroutines under
    a mutex; a channel wakes the sink's goroutine, and another stops it. [step] is one
    critical section, or one move of that goroutine; beside the fields of the sink its
    state has the history that the theorems speak of. *)

From S2P Require Import Prelude GoString Protocol AuditLog.
From stdpp Require Import options.

Local Open Scope Z_scope.

Definition KindBatch : string := "batch".
Definition maxItems : nat := 256.
Definition maxSize : Z := Z.shiftl 512 10.
Definition maxPending : nat := Z.to_nat 50000.

Record item := { subject : string; it_body : string }.

Definition sizeOf (items : list item) : Z :=
  foldr (fun it n => len (it_body it) + 2 + n) 0 items.

(** Where the goroutine is: in the [select] of [loop], in [flush], for the last time when
    the sink was stopped, or past its end, which closes the channel [done]. *)
Inductive position := Selecting | Flushing (last : bool) | Returned.

(** [wake] and [halt]: the channel [wake] is full, the channel [stop] is closed. *)
Record Sink := {
  pending : list item; pending_size : Z; dropped : Z; wake : bool; halt : bool;
  loop_at : position }.

Definition NewSink : Sink :=
  {| pending := []; pending_size := 0; dropped := 0; wake := false; halt := false;
     loop_at := Selecting |}.

Definition set_pending (p : list item) (size dropped : Z) (s : Sink) : Sink :=
  {| pending := p; pending_size := size; dropped := dropped; wake := wake s; halt := halt s;
     loop_at := loop_at s |}.

Definition set_wake (b : bool) (s : Sink) : Sink :=
  {| pending := pending s; pending_size := pending_size s; dropped := dropped s; wake := b;
     halt := halt s; loop_at := loop_at s |}.

Definition set_loop (at_ : position) (s : Sink) : Sink :=
  {| pending := pending s; pending_size := pending_size s; dropped := dropped s; wake := wake s;
     halt := halt s; loop_at := at_ |}.

(** ** Adding *)

Definition is_full (s : Sink) : bool :=
  (maxItems <=? length (pending s))%nat || (maxSize <=? pending_size s).

(** The critical section of [Add], and whether a kick follows it. *)
Definition enqueue (it : item) (s : Sink) : bool * Sink :=
  let pending := pending s ++ [it] in
  let sz := pending_size s + len (it_body it) + 2 in
  let s :=
    if (maxPending <? length pending)%nat then
      let cut := (length pending - maxPending)%nat in
      let pending := drop cut pending in
      set_pending pending (sizeOf pending) ((dropped s + Z.of_nat cut) mod 2 ^ 64) s
    else set_pending pending sz (dropped s) s in
  (is_full s, s).

Definition kick (s : Sink) : Sink := set_wake true s.

(** The item that [Add] queues for a request, a reply and details: nothing without a
    subject, and nothing when the event does not encode. [connected] says that
    the sink and its connection exist. *)
Definition Add (marshal : Event -> option string) (now : string) (connected : bool)
    (req : option Request) (reply : option Reply) (det : Details) : res unit (option item) :=
  match req, reply with
  | Some rq, Some _ =>
      match AuditSubject rq with
      | Some subj =>
          if negb connected || str_eqb subj "" then Ok None
          else
            match marshal (Build now req reply det) with
            | Some body => Ok (Some {| subject := subj; it_body := body |})
            | None => Err tt
            end
      | None => Ok None
      end
  | _, _ => Ok None
  end.

(** ** Publishing *)

(** [groupBySubject]: the subjects in order of first use, and the items of each. *)
Definition group_step (st : list string * gmap string (list item)) (it : item) :
    list string * gmap string (list item) :=
  let '(order, bySubject) := st in
  match bySubject !! subject it with
  | Some its => (order, <[subject it := its ++ [it]]> bySubject)
  | None => (order ++ [subject it], <[subject it := [it]]> bySubject)
  end.

Definition groupBySubject (items : list item) : list string * gmap string (list item) :=
  fold_left group_step items ([], ∅).

(** [publish]: the messages sent, each a subject and its items. *)
Definition publish (items : list item) : list (string * list item) :=
  match items with
  | [it] => [(subject it, [it])]
  | _ =>
      let '(order, bySubject) := groupBySubject items in
      (fun s => (s, default [] (bySubject !! s))) <$> order
  end.

(** [pack] and [send]: the message for one subject. The items are encoded JSON already. *)
Record envelope := { env_V : Z; env_Kind : string; env_Items : list string }.

Definition pack (items : list item) : envelope :=
  {| env_V := audit_Version; env_Kind := KindBatch; env_Items := it_body <$> items |}.

Definition send (m : string * list item) : string * envelope := (m.1, pack m.2).

(** One iteration of the loop of [flush]: what is taken, or [None] at the end. *)
Definition flush_take (s : Sink) : option (list item * Sink) :=
  match pending s with
  | [] => None
  | p =>
      let n := Nat.min maxItems (length p) in
      Some (firstn n p, set_pending (drop n p) (sizeOf (drop n p)) (dropped s) s)
  end.

(** ** The goroutine *)

(** The cases of the [select]. *)
Inductive select_case := on_stop | on_wake | on_tick.

(** One move of [loop]: a case of the [select] that is ready, or an iteration of [flush]
    with the items it publishes. *)
Definition loop_step (c : select_case) (s : Sink) : option (list item * Sink) :=
  match loop_at s with
  | Selecting =>
      match c with
      | on_stop => if halt s then Some ([], set_loop (Flushing true) s) else None
      | on_wake => if wake s then Some ([], set_loop (Flushing false) (set_wake false s)) else None
      | on_tick => Some ([], set_loop (Flushing false) s)
      end
  | Flushing last =>
      match flush_take s with
      | Some (its, s) => Some (its, s)
      | None => Some ([], set_loop (if last then Returned else Selecting) s)
      end
  | Returned => None
  end.

(** [Close] closes the channel [stop] once, and waits until the goroutine has returned. *)
Definition Close (s : Sink) : Sink :=
  {| pending := pending s; pending_size := pending_size s; dropped := dropped s; wake := wake s;
     halt := true; loop_at := loop_at s |}.

(** Moves in a row; one that is not possible is none. The messages, and the sink. *)
Fixpoint run_loop (cs : list select_case) (s : Sink) : list (string * list item) * Sink :=
  match cs with
  | [] => ([], s)
  | c :: cs =>
      match loop_step c s with
      | None => run_loop cs s
      | Some (its, s) => let '(out, s) := run_loop cs s in (publish its ++ out, s)
      end
  end.

(** ** Specification: the sink as a step relation *)

(** What happened to the events so far; those of [late] were added when the goroutine had
    returned. *)
Record History := {
  added : list item; taken : list item; lost : list item; late : list item;
  sent : list (string * list item) }.

Definition no_history : History :=
  {| added := []; taken := []; lost := []; late := []; sent := [] |}.

(** The items [enqueue] drops: the oldest ones over the limit. *)
Definition overflow (it : item) (s : Sink) : list item :=
  firstn (length (pending s ++ [it]) - maxPending) (pending s ++ [it]).

Definition is_late (s : Sink) (it : item) : list item :=
  match loop_at s with Returned => [it] | _ => [] end.

(** The sink, the goroutines between the critical section of [Add] and its [kick], and the
    history. *)
Record State := { sink : Sink; kicks : nat; history : History }.

Definition started : State := {| sink := NewSink; kicks := 0; history := no_history |}.

Inductive step : State -> State -> Prop :=
| step_add it s n h full s' :
    enqueue it s = (full, s') ->
    step {| sink := s; kicks := n; history := h |}
      {| sink := s'; kicks := if full then S n else n;
         history := {| added := added h ++ [it]; taken := taken h;
                       lost := lost h ++ overflow it s; late := late h ++ is_late s it;
                       sent := sent h |} |}
| step_kick s n h :
    step {| sink := s; kicks := S n; history := h |} {| sink := kick s; kicks := n; history := h |}
| step_loop c s n h its s' :
    loop_step c s = Some (its, s') ->
    step {| sink := s; kicks := n; history := h |}
      {| sink := s'; kicks := n;
         history := {| added := added h; taken := taken h ++ its; lost := lost h;
                       late := late h; sent := sent h ++ publish its |} |}
| step_close s n h :
    step {| sink := s; kicks := n; history := h |} {| sink := Close s; kicks := n; history := h |}.

(** The items sent to a subject, in the order of the messages. *)
Definition sent_to (subj : string) (msgs : list (string * list item)) : list item :=
  mjoin ((fun m => if decide (m.1 = subj) then m.2 else []) <$> msgs).

Definition of_subject (subj : string) (items : list item) : list item :=
  filter (fun it => subject it = subj) items.

(** A message goes to the subject of its items, and holds 1 to 256 of them. *)
Definition message_ok (m : string * list item) : Prop :=
  m.2 <> [] /\ (length m.2 <= maxItems)%nat /\ Forall (fun it => subject it = m.1) m.2.

(** A full sink will be flushed before its goroutine sleeps: the goroutine is awake, has
    been woken, or is about to be. *)
Definition awake (s : State) : Prop :=
  is_full (sink s) = true ->
  wake (sink s) = true \/ (0 < kicks s)%nat \/ loop_at (sink s) <> Selecting.

Definition stopping (at_ : position) : bool :=
  match at_ with Selecting | Flushing false => false | _ => true end.

Record sink_inv (st : State) : Prop := {
  inv_size : pending_size (sink st) = sizeOf (pending (sink st));
  inv_bound : (length (pending (sink st)) <= maxPending)%nat;
  inv_dropped : dropped (sink st) = Z.of_nat (length (lost (history st))) mod 2 ^ 64;
  inv_all : added (history st) ≡ₚ lost (history st) ++ taken (history st) ++ pending (sink st);
  inv_order : (taken (history st) ++ pending (sink st)) `sublist_of` added (history st);
  inv_sent : forall subj, sent_to subj (sent (history st)) = of_subject subj (taken (history st));
  inv_msgs : Forall message_ok (sent (history st));
  inv_awake : awake st;
  inv_halt : stopping (loop_at (sink st)) = true -> halt (sink st) = true;
  inv_late : exists early, added (history st) = early ++ late (history st);
  inv_end : match loop_at (sink st) with
            | Returned => pending (sink st) `sublist_of` late (history st)
            | _ => late (history st) = []
            end }.

(** ** Lemmas *)

Lemma sizeOf_app l1 l2 : sizeOf (l1 ++ l2) = sizeOf l1 + sizeOf l2.
Proof. induction l1; simpl; lia. Qed.

(** The state of [groupBySubject] after the items [l]. *)
Definition grouped (l : list item) (st : list string * gmap string (list item)) : Prop :=
  NoDup st.1
  /\ forall s, st.2 !! s = match of_subject s l with [] => None | its => Some its end
               /\ (s ∈ st.1 <-> of_subject s l <> []).

Lemma of_subject_one s it : of_subject s [it] = if decide (subject it = s) then [it] else [].
Proof. done. Qed.

Lemma of_subject_snoc s l it :
  of_subject s (l ++ [it]) = of_subject s l ++ (if decide (subject it = s) then [it] else []).
Proof. unfold of_subject. by rewrite list.filter_app. Qed.

Lemma group_step_inv l st it : grouped l st -> grouped (l ++ [it]) (group_step st it).
Proof.
  destruct st as [order by_]. intros [Hn H]. simpl in *.
  pose proof (H (subject it)) as [Hb Ho]. unfold group_step. rewrite Hb.
  destruct (of_subject (subject it) l) as [|x its] eqn:E; split; simpl.
  - apply list.NoDup_app. split_and!; [done| |apply NoDup_singleton].
    intros x Hx ->%list_elem_of_singleton. by apply Ho in Hx.
  - intros s. rewrite of_subject_snoc, elem_of_app, list_elem_of_singleton.
    destruct (H s) as [Hb' Ho'].
    destruct (decide (subject it = s)) as [<-|Hne].
    + rewrite lookup_insert_eq, E. simpl. split; [done|]. split; auto.
    + rewrite lookup_insert_ne, app_nil_r by done. split; [done|]. rewrite <- Ho'. naive_solver.
  - done.
  - intros s. rewrite of_subject_snoc. destruct (H s) as [Hb' Ho'].
    destruct (decide (subject it = s)) as [<-|Hne].
    + rewrite lookup_insert_eq, E. simpl. split; [done|]. rewrite Ho. done.
    + by rewrite lookup_insert_ne, app_nil_r by done.
Qed.

Lemma groupBySubject_inv l : grouped l (groupBySubject l).
Proof.
  unfold groupBySubject. rewrite <- (app_nil_l l) at 1.
  assert (grouped [] (@nil string, (∅ : gmap string (list item)))) as H.
  { split; [constructor|]. simpl. intros s. rewrite lookup_empty. split; [done|].
    split; [by intros ?%elem_of_nil|done]. }
  revert H. generalize (@nil item) as done_, (@nil string, (∅ : gmap string (list item))).
  induction l as [|it l IH]; intros done_ st H; simpl; [by rewrite app_nil_r|].
  replace (done_ ++ it :: l) with ((done_ ++ [it]) ++ l) by by rewrite <- (assoc_L (++)).
  by apply IH, group_step_inv.
Qed.

(** Both cases of [publish] send each subject of the batch its items. *)
Lemma publish_spec l :
  exists order, NoDup order /\ publish l = (fun s => (s, of_subject s l)) <$> order
    /\ forall s, s ∈ order <-> of_subject s l <> [].
Proof.
  assert (exists order by_, NoDup order /\ groupBySubject l = (order, by_)
    /\ (forall s, s ∈ order <-> of_subject s l <> [])
    /\ (fun s => (s, default [] (by_ !! s))) <$> order
       = (fun s => (s, of_subject s l)) <$> order) as (order & by_ & Hn & Hg & Ho & Hm).
  { pose proof (groupBySubject_inv l) as [Hn H].
    destruct (groupBySubject l) as [order by_]. exists order, by_. simpl in *.
    split_and!; [done|done|apply H|]. apply list_fmap_ext. intros i s _.
    destruct (H s) as [-> _]. by destruct (of_subject s l). }
  destruct l as [|it [|it' l]].
  - exists order. split_and!; [done| |done]. unfold publish. by rewrite Hg, Hm.
  - exists [subject it]. split_and!; [apply NoDup_singleton| |].
    + simpl. rewrite of_subject_one. by rewrite decide_True.
    + intros s. rewrite list_elem_of_singleton, of_subject_one. case_decide; naive_solver.
  - exists order. split_and!; [done| |done]. unfold publish. by rewrite Hg, Hm.
Qed.

Lemma of_subject_Forall s l : Forall (fun it => subject it = s) (of_subject s l).
Proof. apply list.Forall_forall. intros it Hit. by apply list_elem_of_filter in Hit as [? _]. Qed.

Lemma batch_publish_ok l : (length l <= maxItems)%nat -> Forall message_ok (publish l).
Proof.
  intros Hl. destruct (publish_spec l) as (order & _ & -> & Ho).
  apply list.Forall_fmap, list.Forall_forall. intros s Hs. split_and!; simpl.
  - by apply Ho.
  - pose proof (list.length_filter (fun it => subject it = s) l); unfold of_subject; lia.
  - apply of_subject_Forall.
Qed.

Lemma sent_to_cons subj m msgs :
  sent_to subj (m :: msgs) = (if decide (m.1 = subj) then m.2 else []) ++ sent_to subj msgs.
Proof. done. Qed.

Lemma sent_to_order subj l order :
  NoDup order ->
  sent_to subj ((fun s => (s, of_subject s l)) <$> order)
  = if decide (subj ∈ order) then of_subject subj l else [].
Proof.
  induction 1 as [|s order Hs Hn IH]; [done|].
  rewrite fmap_cons, sent_to_cons, IH. simpl. destruct (decide (s = subj)) as [->|Hne].
  - rewrite (decide_False (P := subj ∈ order)), app_nil_r by done.
    by rewrite decide_True by set_solver.
  - simpl. destruct (decide (subj ∈ order)); [by rewrite decide_True by set_solver|].
    by rewrite decide_False by set_solver.
Qed.

Lemma sent_to_publish subj l : sent_to subj (publish l) = of_subject subj l.
Proof.
  destruct (publish_spec l) as (order & Hn & -> & Ho). rewrite sent_to_order by done.
  case_decide as H; [done|]. rewrite Ho in H. destruct (of_subject subj l); [done|].
  by destruct H.
Qed.

Lemma sent_to_app subj m1 m2 : sent_to subj (m1 ++ m2) = sent_to subj m1 ++ sent_to subj m2.
Proof. unfold sent_to. by rewrite fmap_app, join_app. Qed.

Lemma of_subject_app s l1 l2 : of_subject s (l1 ++ l2) = of_subject s l1 ++ of_subject s l2.
Proof. apply list.filter_app. Qed.

Lemma enqueue_pending it s full s' :
  enqueue it s = (full, s') ->
  pending s' = drop (length (pending s ++ [it]) - maxPending) (pending s ++ [it]).
Proof.
  unfold enqueue. destruct (Nat.ltb_spec maxPending (length (pending s ++ [it]))); intros [= _ <-]; simpl; [done|].
  by replace (length (pending s ++ [it]) - maxPending)%nat with 0%nat by lia.
Qed.

Lemma enqueue_rest it s full s' :
  enqueue it s = (full, s') ->
  full = is_full s' /\ wake s' = wake s /\ halt s' = halt s /\ loop_at s' = loop_at s
  /\ (pending_size s = sizeOf (pending s) -> pending_size s' = sizeOf (pending s')).
Proof.
  unfold enqueue. destruct (_ <? _)%nat; intros [= <- <-]; simpl; split_and!; try done.
  intros ->. rewrite sizeOf_app. simpl. lia.
Qed.

Lemma enqueue_dropped it s full s' :
  enqueue it s = (full, s') ->
  dropped s' = if (maxPending <? length (pending s ++ [it]))%nat
    then (dropped s + Z.of_nat (length (overflow it s))) mod 2 ^ 64 else dropped s.
Proof.
  unfold enqueue, overflow. destruct (_ <? _)%nat eqn:E; intros [= _ <-]; simpl; [|done].
  rewrite length_take. repeat f_equal. lia.
Qed.

Lemma overflow_none it s :
  (maxPending <? length (pending s ++ [it]))%nat = false -> overflow it s = [].
Proof.
  intros H%Nat.ltb_ge. unfold overflow.
  by replace (length (pending s ++ [it]) - maxPending)%nat with 0%nat by lia.
Qed.

Lemma flush_take_spec s its s' :
  flush_take s = Some (its, s') ->
  its <> [] /\ (length its <= maxItems)%nat /\ pending s = its ++ pending s'
  /\ s' = set_pending (pending s') (sizeOf (pending s')) (dropped s) s.
Proof.
  unfold flush_take. destruct (pending s) as [|it p] eqn:E; [done|].
  cbv zeta. remember (Nat.min maxItems (length (it :: p))) as n eqn:Hn.
  intros [= <- <-]. simpl. split_and!; try done.
  - destruct n; [simpl in Hn; unfold maxItems in Hn; lia|done].
  - rewrite length_take. lia.
  - by rewrite take_drop.
Qed.

Lemma of_subject_nil s : of_subject s [] = [].
Proof. done. Qed.

Lemma add_inv it s n h full s' :
  enqueue it s = (full, s') -> sink_inv {| sink := s; kicks := n; history := h |} ->
  sink_inv {| sink := s'; kicks := if full then S n else n;
              history := {| added := added h ++ [it]; taken := taken h;
                            lost := lost h ++ overflow it s; late := late h ++ is_late s it;
                            sent := sent h |} |}.
Proof.
  intros E [Hs Hb Hd Ha Ho Hm Hk Hw Hh [early Hl] He]; simpl in *.
  pose proof (enqueue_pending _ _ _ _ E) as Hp.
  pose proof (enqueue_dropped _ _ _ _ E) as Hdr.
  apply enqueue_rest in E as (-> & Ewake & Ehalt & Eloop & Esize).
  constructor; simpl; rewrite ?Ehalt, ?Eloop; auto.
  - rewrite Hp, length_drop, length_app. simpl. lia.
  - rewrite Hdr, (length_app (lost h)), Nat2Z.inj_add, Hd.
    destruct (_ <? _)%nat eqn:Ef; [by rewrite Z.add_mod_idemp_l by lia|].
    rewrite overflow_none by done. simpl. by rewrite Z.add_0_r.
  - rewrite Hp, Ha, <- !(assoc_L (++)). f_equiv.
    rewrite (Permutation_app_comm (overflow it s)), <- (assoc_L (++)). f_equiv.
    rewrite (Permutation_app_comm (drop _ _) (overflow it s)). unfold overflow. by rewrite take_drop.
  - rewrite Hp. trans (taken h ++ pending s ++ [it]).
    + apply sublist_app; [done|apply sublist_drop].
    + rewrite (assoc_L (++)). by apply sublist_app.
  - unfold awake. simpl. intros ->. right. left. lia.
  - unfold is_late. destruct (loop_at s) as [|last|] eqn:El.
    + exists (added h ++ [it]). by rewrite He, !app_nil_r.
    + exists (added h ++ [it]). by rewrite He, !app_nil_r.
    + exists early. by rewrite Hl, (assoc_L (++)).
  - unfold is_late. destruct (loop_at s); [by rewrite He|by rewrite He|].
    rewrite Hp. trans (pending s ++ [it]); [apply sublist_drop|by apply sublist_app].
Qed.

(** The goroutine publishes what it takes, and moves on with nothing left only. *)
Lemma loop_step_spec c s its s' :
  loop_step c s = Some (its, s') ->
  (its = [] /\ pending s' = pending s /\ pending_size s' = pending_size s /\ dropped s' = dropped s
   /\ halt s' = halt s
   /\ ((loop_at s = Selecting /\ exists last, loop_at s' = Flushing last /\ (last = true -> halt s = true))
       \/ exists last, loop_at s = Flushing last /\ pending s = []
          /\ loop_at s' = if last then Returned else Selecting))
  \/ exists last, loop_at s = Flushing last /\ flush_take s = Some (its, s').
Proof.
  unfold loop_step. destruct (loop_at s) as [|last|] eqn:El; [|destruct (flush_take s) as [[i1 s1]|] eqn:Ef|done].
  - left. destruct c; [destruct (halt s) eqn:Eh|destruct (wake s)|]; simplify_eq;
      (split_and!; [done..|left; split; [done|]]); eexists; (split; [done|]); simpl; congruence.
  - intros [= <- <-]. right. by exists last.
  - intros [= <- <-]. left. split_and!; try done. right. exists last. split_and!; try done.
    unfold flush_take in Ef. by destruct (pending s).
Qed.

Lemma loop_inv c s n h its s' :
  loop_step c s = Some (its, s') -> sink_inv {| sink := s; kicks := n; history := h |} ->
  sink_inv {| sink := s'; kicks := n;
              history := {| added := added h; taken := taken h ++ its; lost := lost h;
                            late := late h; sent := sent h ++ publish its |} |}.
Proof.
  intros E [Hs Hb Hd Ha Ho Hm Hk Hw Hh Hl He]; simpl in *.
  apply loop_step_spec in E as [(-> & Ep & Es & Ed & Eh & Hmove)|(last & El & Ef)].
  - assert (publish [] = []) as -> by done. rewrite !app_nil_r.
    constructor; simpl; rewrite ?Ep, ?Es, ?Ed, ?Eh; auto.
    + intros Hfull. destruct Hmove as [(_ & last & El' & _)|(last & _ & Hnil & _)].
      * right. right. simpl. by rewrite El'.
      * exfalso. unfold is_full in Hfull. simpl in Hfull. rewrite Ep, Es, Hs, Hnil in Hfull. done.
    + destruct Hmove as [(El & last & El' & Hlast)|(last & El & _ & El')]; rewrite El'.
      * by destruct last; auto.
      * rewrite El in Hh. by destruct last; auto.
    + destruct Hmove as [(El & last & El' & Hlast)|(last & El & Hnil & El')]; rewrite El'; rewrite El in He; [done|].
      destruct last; [|done]. rewrite Hnil. apply sublist_nil_l.
  - apply flush_take_spec in Ef as (Hne & Hln & Hp & Es'). rewrite Es' in *. clear Es'.
    rewrite Hp, length_app in *. simpl in *. constructor; simpl; auto.
    + lia.
    + by rewrite Ha, <- (assoc_L (++)).
    + by rewrite <- (assoc_L (++)).
    + intros subj. by rewrite sent_to_app, of_subject_app, Hm, sent_to_publish.
    + apply Forall_app. split; [done|by apply batch_publish_ok].
    + right. right. simpl. by rewrite El.
    + by rewrite El in *.
Qed.

Lemma sink_step_inv st st' : step st st' -> sink_inv st -> sink_inv st'.
Proof.
  destruct 1 as [it s n h full s' E|s n h|c s n h its s' E|s n h]; intros Hi.
  - by apply add_inv.
  - destruct Hi. constructor; try done. by left.
  - by eapply loop_inv.
  - by destruct Hi.
Qed.

Lemma sink_run_inv st st' : rtc step st st' -> sink_inv st -> sink_inv st'.
Proof. induction 1; eauto using sink_step_inv. Qed.

Lemma started_inv : sink_inv started.
Proof.
  constructor; simpl; try done.
  - unfold maxPending. lia.
  - by exists [].
Qed.

(** What was added before a state stays in front of what is added late. *)
Definition after_ (l : list item) (st : State) : Prop :=
  exists more, added (history st) = l ++ more ++ late (history st).

Lemma step_after l st st' : step st st' -> sink_inv st -> after_ l st -> after_ l st'.
Proof.
  unfold after_. intros Hst Hi [more Hm]. pose proof (inv_end _ Hi) as He.
  destruct Hst as [it s n h full s' E|s n h|c s n h its s' E|s n h]; simpl in *; try by exists more.
  rewrite Hm. unfold is_late. destruct (loop_at s);
    [exists (more ++ [it])..|exists more]; rewrite ?He, ?app_nil_r, <- ?(assoc_L (++)); done.
Qed.

Lemma run_after st st' :
  rtc step st st' -> sink_inv st -> loop_at (sink st) <> Returned ->
  after_ (added (history st)) st'.
Proof.
  intros Hr Hi Hn. assert (after_ (added (history st)) st) as Ha.
  { exists []. pose proof (inv_end _ Hi) as He. destruct (loop_at (sink st)); [..|done];
      by rewrite He, app_nil_r. }
  revert Ha. generalize (added (history st)) as l. clear Hn.
  induction Hr; intros l Ha; eauto using sink_step_inv, step_after.
Qed.

(** *** The end *)

(** A stopped goroutine comes to its end: it flushes what is pending, and returns. *)
Lemma flushes_out s last :
  loop_at s = Flushing last ->
  exists cs out s', run_loop cs s = (out, s')
    /\ loop_at s' = (if last then Returned else Selecting) /\ pending s' = []
    /\ halt s' = halt s /\ wake s' = wake s /\ dropped s' = dropped s
    /\ Forall message_ok out /\ forall subj, sent_to subj out = of_subject subj (pending s).
Proof.
  remember (length (pending s)) as n eqn:En. revert s En.
  induction (lt_wf n) as [n _ IH]. intros s -> El.
  destruct (flush_take s) as [[its s1]|] eqn:Ef.
  - pose proof (flush_take_spec _ _ _ Ef) as (Hne & Hl & Hp & Hs1).
    assert (loop_step on_tick s = Some (its, s1)) as Hstep
      by (unfold loop_step; by rewrite El, Ef).
    assert (length (pending s1) < length (pending s))%nat as Hlt.
    { rewrite Hp, length_app. destruct its; [done|simpl; lia]. }
    destruct (IH _ Hlt s1 eq_refl) as (cs & out & s' & Hr & El' & Hp' & Hh & Hw & Hd & Hm & Hsub).
    { rewrite Hs1. exact El. }
    exists (on_tick :: cs), (publish its ++ out), s'. cbn [run_loop]. rewrite Hstep, Hr.
    rewrite Hh, Hw, Hd. rewrite Hs1 at 1 2 3. split_and!; try done.
    + apply Forall_app. split; [by apply batch_publish_ok|done].
    + intros subj. by rewrite Hp, sent_to_app, of_subject_app, sent_to_publish, Hsub.
  - exists [on_tick], [], (set_loop (if last then Returned else Selecting) s).
    assert (pending s = []) as Hp by (unfold flush_take in Ef; by destruct (pending s)).
    cbn [run_loop]. unfold loop_step. rewrite El, Ef. rewrite Hp. split_and!; try done.
Qed.

Lemma closed_returns s :
  loop_at s <> Returned -> halt s = true ->
  exists cs out s', run_loop cs s = (out, s') /\ loop_at s' = Returned /\ pending s' = []
    /\ Forall message_ok out /\ forall subj, sent_to subj out = of_subject subj (pending s).
Proof.
  intros Hn Hh.
  assert (forall s, loop_at s = Selecting -> halt s = true -> exists cs out s',
    run_loop cs s = (out, s') /\ loop_at s' = Returned /\ pending s' = []
    /\ Forall message_ok out /\ forall subj, sent_to subj out = of_subject subj (pending s)) as Hsel.
  { clear. intros s El Hh.
    destruct (flushes_out (set_loop (Flushing true) s) true eq_refl)
      as (cs & out & s' & Hr & El' & Hp & _ & _ & _ & Hm & Hs).
    exists (on_stop :: cs), (publish [] ++ out), s'. cbn [run_loop].
    assert (loop_step on_stop s = Some ([], set_loop (Flushing true) s)) as ->
      by (unfold loop_step; by rewrite El, Hh).
    by rewrite Hr. }
  destruct (loop_at s) as [|[]|] eqn:El; [by apply Hsel| | |done].
  - destruct (flushes_out s true El) as (cs & out & s' & Hr & El' & Hp & _ & _ & _ & Hm & Hs).
    by exists cs, out, s'.
  - destruct (flushes_out s false El) as (cs & out & s' & Hr & El' & Hp & Hh' & _ & _ & Hm & Hs).
    destruct (Hsel s' El') as (cs2 & out2 & s2 & Hr2 & El2 & Hp2 & Hm2 & Hs2); [congruence|].
    exists (cs ++ cs2), (out ++ out2), s2.
    assert (forall cs cs2 s, run_loop (cs ++ cs2) s
      = let '(o1, s1) := run_loop cs s in let '(o2, s2) := run_loop cs2 s1 in (o1 ++ o2, s2)) as Happ.
    { clear. induction cs as [|c cs IH]; intros cs2 s; cbn [run_loop app].
      { by destruct (run_loop cs2 s). }
      destruct (loop_step c s) as [[its s1]|]; [|apply IH]. rewrite IH.
      destruct (run_loop cs s1) as [o1 s2]. destruct (run_loop cs2 s2). by rewrite (assoc_L (++)). }
    rewrite Happ, Hr, Hr2. split_and!; [done..| |].
    + apply Forall_app. by split.
    + intros subj. rewrite sent_to_app, Hs, Hs2, Hp. apply app_nil_r.
Qed.

(** ** Sample runs *)

Definition sample_item (subj body : string) : item := {| subject := subj; it_body := body |}.

(** Two events are added; the sink is closed, and its goroutine flushes and returns. *)
Definition sample_open : State :=
  {| sink := (enqueue (sample_item "b" "{2}") (enqueue (sample_item "a" "{1}") NewSink).2).2;
     kicks := 0;
     history := {| added := [sample_item "a" "{1}"; sample_item "b" "{2}"]; taken := [];
                   lost := []; late := []; sent := [] |} |}.

Definition sample_closed : State :=
  {| sink := {| pending := []; pending_size := 0; dropped := 0; wake := false; halt := true;
                loop_at := Returned |};
     kicks := 0;
     history := {| added := [sample_item "a" "{1}"; sample_item "b" "{2}"];
                   taken := [sample_item "a" "{1}"; sample_item "b" "{2}"]; lost := []; late := [];
                   sent := [("a", [sample_item "a" "{1}"]); ("b", [sample_item "b" "{2}"])] |} |}.

Lemma sample_opens : rtc step started sample_open.
Proof.
  eapply rtc_l; [apply (step_add (sample_item "a" "{1}")); vm_compute; reflexivity|].
  eapply rtc_l; [apply (step_add (sample_item "b" "{2}")); vm_compute; reflexivity|].
  apply rtc_refl.
Qed.

Lemma sample_close_run : rtc step sample_open sample_closed.
Proof.
  eapply rtc_l; [apply step_close|].
  eapply rtc_l; [apply (step_loop on_stop); vm_compute; reflexivity|].
  eapply rtc_l; [apply (step_loop on_tick); vm_compute; reflexivity|].
  eapply rtc_l; [apply (step_loop on_tick); vm_compute; reflexivity|].
  apply rtc_refl.
Qed.

(** ** Properties *)

(** C24: However the goroutines that add events and the one that publishes them interleave,
    no event is lost silently or sent twice: every event added is in exactly one of
    the messages sent, the pending list or the dropped ones, which the counter counts;
    at most 50000 are pending and [pending_size] is their encoded size; a message holds 1
    to 256 events, all of its subject; each subject receives its events in the order they
    were added; and no wake-up is missed: when the sink is full its goroutine is
    awake, has been woken, or is about to be. *)
Theorem sink_conserves st (Hrun : rtc step started st) :
  let s := sink st in
  let h := history st in
  added h ≡ₚ lost h ++ taken h ++ pending s
  /\ (taken h ++ pending s) `sublist_of` added h
  /\ (forall subj, sent_to subj (sent h) = of_subject subj (taken h))
  /\ Forall message_ok (sent h)
  /\ dropped s = Z.of_nat (length (lost h)) mod 2 ^ 64
  /\ (length (pending s) <= maxPending)%nat /\ pending_size s = sizeOf (pending s)
  /\ awake st.
Proof. by destruct (sink_run_inv _ _ Hrun started_inv). Qed.

Lemma sink_conserves_witness :
  let s := sink sample_open in
  let h := history sample_open in
  added h ≡ₚ lost h ++ taken h ++ pending s
  /\ (taken h ++ pending s) `sublist_of` added h
  /\ (forall subj, sent_to subj (sent h) = of_subject subj (taken h))
  /\ Forall message_ok (sent h)
  /\ dropped s = Z.of_nat (length (lost h)) mod 2 ^ 64
  /\ (length (pending s) <= maxPending)%nat /\ pending_size s = sizeOf (pending s)
  /\ awake sample_open.
Proof. exact (sink_conserves sample_open sample_opens). Defined.

(** C25: Closing the sink publishes what was added before: from any state, once the sink is
    told to stop its goroutine can return by itself, and has nothing left to publish; and
    whenever it returns, every event that was added while it ran is in a message sent or
    counted as dropped, once. Only events added after that stay behind. *)
Theorem close_publishes st st'
    (Hrun : rtc step started st) (Hopen : loop_at (sink st) <> Returned) :
  (exists cs, let s' := (run_loop cs (Close (sink st))).2 in
     loop_at s' = Returned /\ pending s' = [])
  /\ (rtc step st st' -> loop_at (sink st') = Returned ->
      exists before, added (history st') = added (history st) ++ before ++ late (history st')
      /\ (added (history st) ++ before) ⊆+ (lost (history st') ++ taken (history st'))
      /\ pending (sink st') `sublist_of` late (history st')).
Proof.
  split.
  { destruct (closed_returns (Close (sink st)) Hopen eq_refl) as (cs & out & s' & E & ? & ? & _).
    exists cs. by rewrite E. }
  intros Hrest Hret. pose proof (sink_run_inv _ _ Hrun started_inv) as Hi.
  destruct (run_after _ _ Hrest Hi Hopen) as [before Hb].
  pose proof (sink_run_inv _ _ Hrest Hi) as [_ _ _ Ha _ _ _ _ _ _ He]. rewrite Hret in He.
  exists before. split_and!; [done| |done].
  apply sublist_submseteq, submseteq_Permutation in He as [k Hk].
  rewrite Hb, (assoc_L (++)), Hk in Ha.
  assert ((added (history st) ++ before) ++ k ≡ₚ lost (history st') ++ taken (history st')) as Hp.
  { apply (Permutation_app_inv_l (pending (sink st'))).
    trans ((added (history st) ++ before) ++ pending (sink st') ++ k); [solve_Permutation|].
    rewrite Ha. solve_Permutation. }
  rewrite <- Hp. by apply submseteq_inserts_r.
Qed.

Lemma close_publishes_witness :
  exists before, added (history sample_closed)
      = added (history sample_open) ++ before ++ late (history sample_closed)
  /\ (added (history sample_open) ++ before)
       ⊆+ (lost (history sample_closed) ++ taken (history sample_closed))
  /\ pending (sink sample_closed) `sublist_of` late (history sample_closed).
Proof.
  assert (loop_at (sink sample_open) <> Returned) as Ho by (vm_compute; discriminate).
  exact (proj2 (close_publishes sample_open sample_closed sample_opens Ho) sample_close_run eq_refl).
Defined.
