(* ===== verification/Verdict.v ===== *)
(** * From an engine outcome to a verdict: [internal/verdict/verdict.go] and
    [internal/verdict/statusmap.go]

    The verdict with its calibrated and scaled score, the names of the denial
    responses by status, and the findings of the audit event. *)

From Stdlib Require Import QArith Qabs Qround Lqa.
From S2P Require Import Prelude GoString GoFloat Protocol Engine Apply AuditLog.
From stdpp Require Import options.

Local Open Scope Z_scope.

(** ** The status map *)

Definition DefaultResponseName : string := "blocked".

Record StatusMap := { byStatus : gmap Z string; fallback : string }.

Definition BuiltinStatusMap : StatusMap :=
  {| byStatus := list_to_map [(403, "blocked"); (406, "blocked"); (400, "malformed")];
     fallback := DefaultResponseName |}.

Definition Name (m : StatusMap) (status : Z) : string :=
  default (fallback m) (byStatus m !! status).

Inductive MapError :=
| ReadFailed | NoColon (line : Z) | EmptyName (line : Z) | NotANumber (line : Z).

(** One line of the file, numbered from 1. *)
Definition map_line (m : StatusMap) (n : Z) (line : string) : res MapError StatusMap :=
  let line := TrimSpace line in
  if str_eqb line "" || HasPrefix line "#" then Ok m
  else
    match Cut ":" line with
    | None => Err (NoColon n)
    | Some (key, value) =>
        let key := TrimSpace key in
        let value := Trim [dquote; "'"%char] (TrimSpace value) in
        if str_eqb value "" then Err (EmptyName n)
        else if str_eqb key "default"
        then Ok {| byStatus := byStatus m; fallback := value |}
        else
          match Atoi key with
          | None => Err (NotANumber n)
          | Some status =>
              Ok {| byStatus := <[status := value]> (byStatus m); fallback := fallback m |}
          end
    end.

Fixpoint map_lines (m : StatusMap) (n : Z) (lines : list string) : res MapError StatusMap :=
  match lines with
  | [] => Ok m
  | line :: lines => m ← map_line m n line; map_lines m (n + 1) lines
  end.

(** [LoadStatusMap]: [read] answers [None] when there is no file, and the map is
    then nil. *)
Definition LoadStatusMap (read : option (res unit string)) : res MapError (option StatusMap) :=
  match read with
  | None => Ok None
  | Some (Err _) => Err ReadFailed
  | Some (Ok raw) =>
      m ← map_lines {| byStatus := ∅; fallback := DefaultResponseName |} 1
            (Split "010" raw);
      Ok (Some m)
  end.

(** ** The score *)

Definition DefaultCRSThreshold : Z := 5.

Definition Calibrate (anomaly threshold : Z) : Z :=
  if anomaly <=? 0 then 0
  else
    let threshold := if threshold <=? 0 then DefaultCRSThreshold else threshold in
    let score := int_of_float (math_Round
      (fl_div (fl_div (fl_mul 100 (fl_of_int anomaly)) (fl_of_int threshold)) 2)) in
    Z.min score 100.

Definition ScaleScore (score percent : Z) : Z :=
  if (percent =? 0) || (score <=? 0) then Z.max score 0
  else
    let scaled := int_of_float (math_Round
      (fl_mul (fl_of_int score) (fl_add 1 (fl_div (fl_of_int percent) 100)))) in
    let scaled := if scaled <? 0 then 0 else scaled in
    Z.min scaled 100.

(** ** The verdict *)

Definition CodeAnomaly : string := "CRS_ANOMALY".
Definition CodeRuleMatched : string := "CRS_RULE".
Definition CodeRedirect : string := "CRS_REDIRECT".
Definition CodeScoreRange : string := "MODSEC_SCORE_RANGE".

Record Decisive := { dec_Ranges : Ranges; dec_Tags : gset string }.

Definition match_ (d : Decisive) (r : MatchedRule) : bool :=
  Has (dec_Ranges d) (ID r)
  || existsb (fun tag => bool_decide (tag ∈ dec_Tags d)) (Tags r).

Definition empty_ (d : Decisive) : bool :=
  bool_decide (dec_Ranges d = []) && bool_decide (size (dec_Tags d) = 0%nat).

Record Options := {
  opt_StatusMap : option StatusMap; opt_Decisive : Decisive; ScalePercent : Z }.

Definition statusName (o : Options) (status : Z) : string :=
  Name (default BuiltinStatusMap (opt_StatusMap o)) status.

Definition decisive (matched : list MatchedRule) (d : Decisive) : option MatchedRule :=
  if empty_ d then None else List.find (match_ d) matched.

Definition deny_reply (reply : Reply) (code name : string) : Reply :=
  set_outcome VerdictDeny (Score reply) (Some (reason code)) (Some {| Protocol.Name := name |})
    (Redirect reply) reply.

Definition fromIntervention (reply : Reply) (iv : Intervention) (opt : Options) : Reply :=
  if str_eqb (iv_Action iv) "redirect" then
    if str_eqb (iv_URL iv) "" then reply
    else set_outcome VerdictRedirect (Score reply) (Some (reason CodeRedirect))
           (rep_Response reply) (Some {| URL := iv_URL iv; redir_Status := 0 |}) reply
  else if str_eqb (iv_Action iv) "deny" || str_eqb (iv_Action iv) "block"
          || str_eqb (iv_Action iv) "drop"
  then deny_reply reply CodeRuleMatched (statusName opt (iv_Status iv))
  else reply.

Definition From (req : Request) (out : Outcome) (opt : Options) : Reply :=
  let reply := NewReply req VerdictAllow in
  let by_score :=
    match decisive (Matched out) (opt_Decisive opt) with
    | Some _ => deny_reply reply CodeRuleMatched (statusName opt 0)
    | None =>
        if 0 <? AnomalyScore out then
          let score := ScaleScore (Calibrate (AnomalyScore out) (Threshold out))
                         (ScalePercent opt) in
          match WithScore reply score with
          | Err _ => set_Reason (reason CodeScoreRange) reply
          | Ok reply => set_Reason (reason CodeAnomaly) reply
          end
        else reply
    end in
  match out_Intervention out with
  | Some iv => if Disruptive iv then fromIntervention reply iv opt else by_score
  | None => by_score
  end.

Definition Deny (req : Request) (code : string) (opt : Options) : Reply :=
  deny_reply (NewReply req VerdictDeny) code (statusName opt 0).

(** ** The findings *)

Definition evidenceMax : Z := 256.
Definition tagsMax : nat := 32.

Definition ruleID (id : Z) : string := if id =? 0 then "" else Itoa id.

Definition severity (s : string) : string :=
  if str_eqb s "emergency" || str_eqb s "alert" then SeverityCritical
  else if str_eqb s "critical" then SeverityHigh
  else if str_eqb s "error" || str_eqb s "warning" then SeverityMedium
  else if str_eqb s "notice" then SeverityLow
  else SeverityInfo.

(** The loop of [clip] from the position [cut]; [s[cut]] is the byte at it. *)
Fixpoint rune_cut (s : string) (cut : nat) : nat :=
  match cut with
  | O => O
  | S n =>
      match str_bytes s !! cut with
      | Some b => if RuneStart b then cut else rune_cut s n
      | None => cut
      end
  end.

Definition clip (s : string) (max : Z) : string :=
  if len s <=? max then s else str_take (rune_cut s (Z.to_nat max)) s.

Definition tags_step (out : list string) (tag : string) : list string :=
  if (length out =? tagsMax)%nat then out
  else if str_eqb tag "" then out else out ++ [clip tag TagMax].

(** The loop breaks once [out] is full: no later tag changes it then. *)
Definition tags (src : list string) : list string := fold_left tags_step src [].

Definition finding (r : MatchedRule) : AuditLog.Finding :=
  {| fd_Code := "crs-" +:+ ruleID (ID r); fd_Severity := severity (Severity r);
     fd_Target := if str_eqb (Target r) "" then TargetURI else Target r;
     Offset := None; Length := None; fd_Rule := ruleID (ID r); Confidence := None;
     Evidence := clip (Data r) evidenceMax; fd_Message := clip (Message r) evidenceMax;
     fd_Tags := tags (Tags r) |}.

Definition Detail (out : Outcome) : Details :=
  let engineData : gmap string any :=
    <["crs_threshold" := AnyInt (Threshold out)]>
      {["crs_anomaly_score" := AnyInt (AnomalyScore out)]} in
  let engineData :=
    if (0 <? Threshold out) && (Threshold out <=? AnomalyScore out)
    then <["crs_would_block" := AnyBool true]> engineData else engineData in
  {| EngineMS := out_EngineMS out;
     Findings := finding <$> List.filter Engine.Finding (Matched out);
     det_Engine := engineData |}.

(** ** Lemmas: the score *)

Lemma ulp_half_small : (ulp_half < 1 # 9000000000000000)%Q /\ (0 < ulp_half)%Q.
Proof. split; by compute. Qed.

Lemma calibrate_product a t :
  0 < a <= 2 ^ 45 -> 0 < t <= 2 ^ 53 ->
  (fl_mul 100 (fl_of_int a) / fl_of_int t == 2 * (inject_Z (50 * a) / inject_Z t))%Q.
Proof.
  intros Ha Ht. assert (fl_of_int a == inject_Z a)%Q as Ea by (apply (rnd_int _ a); [done|lia]).
  assert (fl_of_int t == inject_Z t)%Q as Et by (apply (rnd_int _ t); [done|lia]).
  assert (fl_mul 100 (fl_of_int a) == inject_Z (100 * a))%Q as Em.
  { unfold fl_mul. rewrite (rnd_int _ (100 * a)); rewrite ?Ea, ?inject_Z_mult; [done..|lia]. }
  rewrite Em, Et. rewrite !inject_Z_mult. change (inject_Z 100) with 100%Q.
  change (inject_Z 50) with 50%Q. field.
  change 0%Q with (inject_Z 0). rewrite inject_Z_injective. lia.
Qed.

(** The quotient of a tie is computed exactly, and rounded up. *)
Lemma calibrate_tie q k :
  1 <= k <= 2 ^ 52 -> (q == inject_Z (2 * k - 1) / 2)%Q ->
  math_Round (rnd (rnd (2 * q) / 2)) = k.
Proof.
  intros Hkb Eq.
  assert (rnd (2 * q) == inject_Z (2 * k - 1))%Q as E1.
  { assert (2 * q == inject_Z (2 * k - 1))%Q as E by (rewrite Eq; field).
    rewrite (rnd_int _ (2 * k - 1)); [done..|lia]. }
  assert (rnd (rnd (2 * q) / 2) == inject_Z (2 * k - 1) / 2)%Q as ->.
  { assert (rnd (2 * q) / 2 == inject_Z (2 * k - 1) * pow2 (-1))%Q as E
      by (rewrite E1; change (pow2 (-1)) with (1 # 2); field).
    rewrite (rnd_exact _ (2 * k - 1) (-1)); [|done|lia]. by rewrite E1. }
  assert (inject_Z (2 * k - 1) == 2 * inject_Z k - 1)%Q as E2.
  { rewrite <- Z.add_opp_r, inject_Z_plus, inject_Z_mult. reflexivity. }
  assert (1 <= inject_Z k)%Q by (change 1%Q with (inject_Z 1); rewrite <- Zle_Qle; lia).
  assert (inject_Z (2 * k - 1) / 2 == inject_Z k - (1 # 2))%Q as -> by (rewrite E2; field).
  rewrite math_Round_nonneg by lra. apply Qfloor_unique. split; lra.
Qed.

(** Elsewhere the error of the two divisions is below the distance to the next tie. *)
Lemma calibrate_error a t :
  0 <= a <= 50 * 2 ^ 45 -> 0 < t ->
  let q := (inject_Z a / inject_Z t)%Q in
  (Qabs (rnd (rnd (2 * q) / 2) - q) < 1 / inject_Z (2 * t))%Q.
Proof.
  intros Ha Ht. cbv zeta.
  assert (0 < inject_Z t)%Q as HT by (change 0%Q with (inject_Z 0); rewrite <- Zlt_Qlt; lia).
  assert (0 <= inject_Z a)%Q as HA by (change 0%Q with (inject_Z 0); rewrite <- Zle_Qle; lia).
  pose proof ulp_half_small as [Hu0 Hu1].
  eapply Qle_lt_trans; [apply rnd_half_error, Qle_shift_div_l; [done|lra]|].
  assert (1 / inject_Z (2 * t) == (1 # 2) * / inject_Z t)%Q as ->.
  { rewrite inject_Z_mult. change (inject_Z 2) with 2%Q. field. lra. }
  change (inject_Z a / inject_Z t)%Q with (inject_Z a * / inject_Z t)%Q.
  assert (0 < / inject_Z t)%Q as HW by by apply Qinv_lt_0_compat.
  assert (inject_Z a <= inject_Z (50 * 2 ^ 45))%Q as HA2 by (rewrite <- Zle_Qle; lia).
  assert (inject_Z a * (2 * ulp_half + ulp_half * ulp_half) < 1 # 2)%Q as Hs.
  { eapply Qle_lt_trans; [apply Qmult_le_compat_r; [apply HA2|nra]|]. by compute. }
  set (A := inject_Z a) in *. set (W := (/ inject_Z t)%Q) in *.
  set (U := (2 * ulp_half + ulp_half * ulp_half)%Q) in *. nra.
Qed.

(** Half-up rounding of the exact quotient survives the two float divisions. *)
Lemma calibrate_rounds a t :
  0 < a <= 2 ^ 45 -> 0 < t <= 2 ^ 53 ->
  math_Round (fl_div (fl_div (fl_mul 100 (fl_of_int a)) (fl_of_int t)) 2)
  = (100 * a + t) / (2 * t).
Proof.
  intros Ha Ht. unfold fl_div. rewrite (calibrate_product a t Ha Ht).
  assert (0 < inject_Z t)%Q as HT by (change 0%Q with (inject_Z 0); rewrite <- Zlt_Qlt; lia).
  set (q := (inject_Z (50 * a) / inject_Z t)%Q).
  assert (0 <= inject_Z (50 * a))%Q as HA
    by (change 0%Q with (inject_Z 0); rewrite <- Zle_Qle; lia).
  assert (0 <= q)%Q as Hq by (apply Qle_shift_div_l; [done|lra]).
  destruct (Z.eq_dec ((100 * a + t) mod (2 * t)) 0) as [Htie|Htie].
  - set (k := (100 * a + t) / (2 * t)).
    assert (100 * a + t = 2 * t * k) as Hk.
    { pose proof (Z.div_mod (100 * a + t) (2 * t) ltac:(lia)). unfold k. lia. }
    apply calibrate_tie; [nia|].
    unfold q. assert (100 * a = (2 * k - 1) * t) as E by lia.
    assert (2 * inject_Z (50 * a) == inject_Z (2 * k - 1) * inject_Z t)%Q as E'.
    { rewrite <- inject_Z_mult, <- E. change 2%Q with (inject_Z 2).
      rewrite <- inject_Z_mult. f_equiv. lia. }
    assert (inject_Z (50 * a) == inject_Z (2 * k - 1) * inject_Z t / 2)%Q as -> by
      (apply (Qmult_inj_l _ _ 2); [by compute|]; rewrite E'; field).
    field. lra.
  - replace (100 * a + t) with (2 * (50 * a) + t) in * by lia.
    apply (math_Round_near q); try done; try lia.
    + apply rnd_nonneg. apply Qle_shift_div_l; [by compute|].
      pose proof (rnd_nonneg (2 * q) ltac:(lra)). lra.
    + apply calibrate_error; lia.
Qed.

(** The float product of a score and a scale is within 10^-6 of the exact one. *)
Lemma scale_error s p :
  1 <= s <= 100 -> -100 <= p <= 900 ->
  let x := fl_mul (fl_of_int s) (fl_add 1 (fl_div (fl_of_int p) 100)) in
  (0 <= x /\ Qabs (x - inject_Z (s * (100 + p)) / 100) <= 1 # 1000000)%Q.
Proof.
  intros Hs Hp. cbv zeta. unfold fl_mul, fl_add, fl_div.
  assert (fl_of_int s == inject_Z s)%Q as Es by (apply (rnd_int _ s); [done|lia]).
  assert (fl_of_int p == inject_Z p)%Q as Ep by (apply (rnd_int _ p); [done|lia]).
  rewrite Es, Ep.
  assert (inject_Z (s * (100 + p)) / 100 == inject_Z s * (1 + inject_Z p / 100))%Q as ->.
  { rewrite inject_Z_mult, inject_Z_plus. change (inject_Z 100) with 100%Q. field. }
  pose proof ulp_half_small as [Hu0 Hu1].
  assert (1 <= inject_Z s <= 100)%Q as [HS1 HS2].
  { change 1%Q with (inject_Z 1). change 100%Q with (inject_Z 100).
    rewrite <- !Zle_Qle. lia. }
  assert (-100 <= inject_Z p <= 900)%Q as [HP1 HP2].
  { change (-100)%Q with (inject_Z (-100)). change 900%Q with (inject_Z 900).
    rewrite <- !Zle_Qle. lia. }
  set (S := inject_Z s) in *. set (y := (inject_Z p / 100)%Q).
  assert (-1 <= y <= 9)%Q as [HY1 HY2].
  { split; [apply Qle_shift_div_l|apply Qle_shift_div_r]; (by compute || lra). }
  pose proof (rnd_error y) as H1.
  assert (Qabs y <= 9)%Q as Hya by (apply Qabs_Qle_condition; lra).
  assert (-1 <= rnd y)%Q as Hx1.
  { destruct (Z.eq_dec p (-100)) as [->|Hne].
    - assert (rnd y == -1)%Q as ->; [|lra].
      rewrite (rnd_int y (-1)); [reflexivity|reflexivity|lia].
    - assert (-99 <= inject_Z p)%Q as HP3
        by (change (-99)%Q with (inject_Z (-99)); rewrite <- Zle_Qle; lia).
      assert (- (99 # 100) <= y)%Q as Hy3 by (apply Qle_shift_div_l; [by compute|lra]).
      apply Qabs_Qle_condition in H1. nra. }
  assert (Qabs (rnd y - y) <= 9 * ulp_half)%Q as H1' by nra.
  apply Qabs_Qle_condition in H1'.
  set (x1 := rnd y) in *. pose proof (rnd_error (1 + x1)) as H2.
  rewrite (Qabs_pos (1 + x1)) in H2 by lra.
  pose proof (rnd_nonneg (1 + x1) ltac:(lra)) as Hx2. set (x2 := rnd (1 + x1)) in *.
  apply Qabs_Qle_condition in H2. assert (x2 <= 11)%Q as Hx2' by nra.
  assert (0 <= S * x2)%Q as Hx3 by nra. pose proof (rnd_error (S * x2)) as H3.
  rewrite (Qabs_pos (S * x2)) in H3 by done. pose proof (rnd_nonneg _ Hx3) as Hx3'.
  set (x3 := rnd (S * x2)) in *. apply Qabs_Qle_condition in H3.
  split; [done|]. apply Qabs_Qle_condition.
  assert (S * x2 <= 1100)%Q as Hb by nra.
  assert (- (20 * ulp_half) <= x2 - (1 + y) <= 20 * ulp_half)%Q as [H4 H5] by (split; nra).
  assert (- (2000 * ulp_half) <= S * (x2 - (1 + y)) <= 2000 * ulp_half)%Q as [H6 H7]
    by (split; nra).
  split; nra.
Qed.

Lemma int_of_float_range z : min_int64 <= int_of_float z <= max_int64.
Proof.
  unfold int_of_float. destruct (in_int64 z) eqn:E; [by apply in_int64_spec|].
  unfold min_int64, max_int64. lia.
Qed.

(** Whatever the operands, also those outside the range of [Calibrate_spec], the
    score of a verdict is in range. *)
Lemma score_range anomaly threshold percent :
  0 <= ScaleScore (Calibrate anomaly threshold) percent <= 100.
Proof.
  unfold ScaleScore. destruct (_ || _).
  - unfold Calibrate. destruct (anomaly <=? 0); lia.
  - destruct (_ <? 0) eqn:E; lia.
Qed.

Lemma WithScore_ok r score :
  0 <= score <= 100 ->
  WithScore r score = Ok (set_outcome VerdictScore (Some score) (rep_Reason r)
                            (rep_Response r) (Redirect r) r).
Proof.
  intros. unfold WithScore.
  by rewrite (proj2 (Z.ltb_ge score 0)), (proj2 (Z.ltb_ge 100 score)) by lia.
Qed.

(** The engine itself stopped the transaction. *)
Definition stopped (out : Outcome) : option Intervention :=
  iv ← out_Intervention out; if Disruptive iv then Some iv else None.

Lemma decisive_spec matched d :
  match decisive matched d with
  | Some r => r ∈ matched /\ match_ d r = true
  | None => Forall (fun r => match_ d r = false) matched
  end.
Proof.
  unfold decisive, empty_. destruct (bool_decide (dec_Ranges d = [])) eqn:E1; simpl.
  - destruct (bool_decide (size (dec_Tags d) = 0%nat)) eqn:E2.
    + bool_prop. apply list.Forall_forall. intros r _. unfold match_.
      assert (dec_Ranges d = []) as -> by done. simpl.
      assert (dec_Tags d = ∅) as -> by by apply leibniz_equiv, size_empty_iff.
      induction (Tags r) as [|t l IH]; [done|]. simpl. rewrite IH.
      rewrite bool_decide_eq_false_2 by set_solver. done.
    + destruct (List.find _ _) as [r|] eqn:E.
      * apply List.find_some in E as [? ?]. by rewrite list_elem_of_In.
      * apply list.Forall_forall. intros r Hr. by eapply List.find_none; [|apply list_elem_of_In].
  - destruct (List.find _ _) as [r|] eqn:E.
    + apply List.find_some in E as [? ?]. by rewrite list_elem_of_In.
    + apply list.Forall_forall. intros r Hr. by eapply List.find_none; [|apply list_elem_of_In].
Qed.

Lemma match_spec d r :
  match_ d r = true <->
  (exists rng, rng ∈ dec_Ranges d /\ rng.1 <= ID r <= rng.2)
  \/ (exists t, t ∈ Tags r /\ t ∈ dec_Tags d).
Proof.
  unfold match_. rewrite orb_true_iff, Has_spec, existsb_exists.
  setoid_rewrite <- list_elem_of_In. setoid_rewrite bool_decide_eq_true. done.
Qed.

(** The cases of [From], in its order. *)
Inductive verdict_case (req : Request) (out : Outcome) (opt : Options) : Reply -> Prop :=
| case_redirect iv :
    stopped out = Some iv -> iv_Action iv = "redirect" -> iv_URL iv <> "" ->
    verdict_case req out opt
      (set_outcome VerdictRedirect None (Some (reason CodeRedirect)) None
         (Some {| URL := iv_URL iv; redir_Status := 0 |}) (NewReply req VerdictAllow))
| case_deny iv :
    stopped out = Some iv -> iv_Action iv ∈ ["deny"; "block"; "drop"] ->
    verdict_case req out opt
      (deny_reply (NewReply req VerdictAllow) CodeRuleMatched (statusName opt (iv_Status iv)))
| case_pass iv :
    stopped out = Some iv -> iv_Action iv ∉ ["deny"; "block"; "drop"] ->
    (iv_Action iv = "redirect" -> iv_URL iv = "") ->
    verdict_case req out opt (NewReply req VerdictAllow)
| case_decisive m :
    stopped out = None -> m ∈ Matched out -> match_ (opt_Decisive opt) m = true ->
    verdict_case req out opt
      (deny_reply (NewReply req VerdictAllow) CodeRuleMatched (statusName opt 0))
| case_score :
    stopped out = None -> 0 < AnomalyScore out ->
    Forall (fun m => match_ (opt_Decisive opt) m = false) (Matched out) ->
    verdict_case req out opt
      (set_Reason (reason CodeAnomaly)
         (set_outcome VerdictScore
            (Some (ScaleScore (Calibrate (AnomalyScore out) (Threshold out)) (ScalePercent opt)))
            None None None (NewReply req VerdictAllow)))
| case_clean :
    stopped out = None -> AnomalyScore out <= 0 ->
    Forall (fun m => match_ (opt_Decisive opt) m = false) (Matched out) ->
    verdict_case req out opt (NewReply req VerdictAllow).

Lemma From_case req out opt : verdict_case req out opt (From req out opt).
Proof.
  unfold From. rewrite WithScore_ok by apply score_range.
  pose proof (decisive_spec (Matched out) (opt_Decisive opt)) as Hd.
  assert (match out_Intervention out with
    | Some iv => if Disruptive iv then stopped out = Some iv else stopped out = None
    | None => stopped out = None end) as Hst.
  { unfold stopped. destruct (out_Intervention out) as [iv|]; [|done]. simpl.
    by destruct (Disruptive iv). }
  assert (stopped out = None -> verdict_case req out opt
    match decisive (Matched out) (opt_Decisive opt) with
    | Some _ => deny_reply (NewReply req VerdictAllow) CodeRuleMatched (statusName opt 0)
    | None =>
        if 0 <? AnomalyScore out then
          set_Reason (reason CodeAnomaly) (set_outcome VerdictScore
            (Some (ScaleScore (Calibrate (AnomalyScore out) (Threshold out)) (ScalePercent opt)))
            None None None (NewReply req VerdictAllow))
        else NewReply req VerdictAllow
    end) as Hrest.
  { intros Hn. destruct (decisive _ _) as [m|].
    - destruct Hd. by eapply case_decisive.
    - destruct (Z.ltb_spec 0 (AnomalyScore out)); [by apply case_score|by apply case_clean]. }
  destruct (out_Intervention out) as [iv|]; [|by apply Hrest].
  destruct (Disruptive iv); [|by apply Hrest]. clear Hrest Hd. unfold fromIntervention.
  destruct (str_eqb (iv_Action iv) "redirect") eqn:E1.
  - apply str_eqb_true in E1. destruct (str_eqb (iv_URL iv) "") eqn:E2.
    + apply str_eqb_true in E2. eapply case_pass; eauto. rewrite E1. set_solver.
    + apply str_eqb_false in E2. by eapply case_redirect.
  - apply str_eqb_false in E1. destruct (_ || _) eqn:E2.
    + rewrite !orb_true_iff, !str_eqb_true in E2. eapply case_deny; [done|]. set_solver.
    + rewrite !orb_false_iff, !str_eqb_false in E2. eapply case_pass; [done| |done]. set_solver.
Qed.

Lemma Marshal_ok encode text r :
  (forall s, Score r = Some s -> 0 <= s <= 100) ->
  encode r = Some text -> Marshal encode r = Ok text.
Proof.
  intros Hs He. unfold Marshal. rewrite He. destruct (Score r) as [s|]; [|done].
  specialize (Hs s eq_refl).
  by rewrite (proj2 (Z.ltb_ge s 0)), (proj2 (Z.ltb_ge 100 s)) by lia.
Qed.

(** *** Clipping *)

Lemma rune_cut_spec s max :
  (max < String.length s)%nat ->
  let k := rune_cut s max in
  (k <= max)%nat
  /\ (k = 0%nat \/ exists b, str_bytes s !! k = Some b /\ RuneStart b = true)
  /\ forall j b, (k < j <= max)%nat -> str_bytes s !! j = Some b -> RuneStart b = false.
Proof.
  intros Hmax. induction max as [|max IH]; simpl; [naive_solver lia|].
  destruct (lookup_lt_is_Some_2 (str_bytes s) (S max)) as [b Hb].
  { by rewrite length_str_bytes. }
  rewrite Hb. destruct (RuneStart b) eqn:Er.
  - split_and!; [lia|eauto|lia].
  - destruct IH as (H1 & H2 & H3); [lia|]. split_and!; [lia|done|].
    intros j b' Hj Hb'. destruct (decide (j = S max)) as [->|]; [by simplify_eq|].
    apply (H3 j b'); [lia|done].
Qed.

Lemma clip_len s max : 0 <= max -> len (clip s max) <= max.
Proof.
  intros Hm. unfold clip. destruct (Z.leb_spec (len s) max) as [|Hl]; [done|].
  unfold len in *. rewrite str_length_take.
  pose proof (rune_cut_spec s (Z.to_nat max) ltac:(lia)) as [Hk _]. lia.
Qed.

Lemma tags_inv src :
  (length (tags src) <= tagsMax)%nat /\ Forall (fun t => len t <= TagMax) (tags src).
Proof.
  unfold tags. assert (length (@nil string) <= tagsMax)%nat as H1 by (simpl; lia).
  assert (Forall (fun t => len t <= TagMax) (@nil string)) as H2 by done.
  revert H1 H2. generalize (@nil string). induction src as [|t src IH]; intros out H1 H2; [done|].
  simpl. apply IH; unfold tags_step; destruct (Nat.eqb_spec (length out) tagsMax); try done;
    destruct (str_eqb t ""); try done.
  - rewrite length_app. simpl. lia.
  - apply Forall_app. split; [done|]. constructor; [|done]. apply clip_len. by unfold TagMax.
Qed.

(** Which verdict an outcome gets. *)
Lemma From_verdict req out opt :
  let r := From req out opt in
  (Verdict r = VerdictRedirect <-> exists iv, stopped out = Some iv
     /\ iv_Action iv = "redirect" /\ iv_URL iv <> "")
  /\ (Verdict r = VerdictDeny <->
       (exists iv, stopped out = Some iv /\ iv_Action iv ∈ ["deny"; "block"; "drop"])
       \/ stopped out = None /\ exists m, m ∈ Matched out
            /\ match_ (opt_Decisive opt) m = true)
  /\ (Verdict r = VerdictScore <-> stopped out = None /\ 0 < AnomalyScore out
        /\ Forall (fun m => match_ (opt_Decisive opt) m = false) (Matched out))
  /\ Verdict r ∈ [VerdictAllow; VerdictScore; VerdictDeny; VerdictRedirect].
Proof.
  intros r. subst r.
  assert (forall m, m ∈ Matched out -> match_ (opt_Decisive opt) m = true ->
    Forall (fun m => match_ (opt_Decisive opt) m = false) (Matched out) -> False) as Hno.
  { intros m Hin Ht Hall. rewrite list.Forall_forall in Hall. specialize (Hall m Hin).
    congruence. }
  destruct (From_case req out opt) as [iv H1 H2 H3|iv H1 H2|iv H1 H2 H3|m H1 H2 H3|H1 H2 H3|H1 H2 H3];
    simpl; rewrite H1; set_unfold; split_and!; try done; try naive_solver lia.
  - split; [discriminate|]. intros [(iv' & [= <-] & Hx)|[? _]]; [|done].
    rewrite H2 in Hx. by destruct Hx as [?|[?|[?|[]]]].
  - split; [discriminate|]. intros (iv' & [= <-] & Hx & _). rewrite Hx in H2.
    by destruct H2 as [?|[?|[?|[]]]].
Qed.

(** ** Properties *)

(** C37: [Calibrate] is exact: a positive anomaly score over a threshold, 5 when
    the engine reports none, becomes 50 per threshold rounded half up and capped
    at 100, with no float rounding visible for every score up to 2^45. *)
Theorem Calibrate_spec anomaly threshold
    (Ha : 0 < anomaly <= 2 ^ 45) (Ht : threshold <= 2 ^ 53) :
  let t := if threshold <=? 0 then 5 else threshold in
  Calibrate anomaly threshold = Z.min 100 ((100 * anomaly + t) / (2 * t)).
Proof.
  intros t. unfold Calibrate, DefaultCRSThreshold.
  rewrite (proj2 (Z.leb_gt anomaly 0)) by lia. fold t.
  assert (0 < t <= 2 ^ 53) as Ht' by (unfold t; destruct (Z.leb_spec threshold 0); lia).
  rewrite calibrate_rounds by done.
  assert (0 <= (100 * anomaly + t) / (2 * t) <= 100 * 2 ^ 45 + 1) as Hb.
  { split; [apply Z.div_pos; lia|]. apply Z.div_le_upper_bound; nia. }
  rewrite int_of_float_small by (unfold min_int64, max_int64; lia). apply Z.min_comm.
Qed.

Lemma Calibrate_spec_witness : Calibrate 7 5 = Z.min 100 ((100 * 7 + 5) / (2 * 5)).
Proof. apply (Calibrate_spec 7 5); lia. Defined.

(** C38: [ScaleScore] on a score 0..100 and a percent -100..900 is the scaled score
    rounded half up and capped at 100, except that on an exact half the float
    product may fall just below it and be rounded down. *)
Theorem ScaleScore_spec score percent
    (Hs : 0 <= score <= 100) (Hp : -100 <= percent <= 900) :
  let half_up := (score * (100 + percent) + 50) / 100 in
  ScaleScore score percent = Z.min 100 half_up
  \/ (score * (100 + percent)) mod 100 = 50
     /\ ScaleScore score percent = Z.min 100 (half_up - 1).
Proof.
  intros k. unfold ScaleScore.
  destruct (Z.eqb_spec percent 0) as [->|Hp0]; simpl.
  { left. unfold k. replace (score * (100 + 0) + 50) with (50 + score * 100) by lia.
    rewrite Z.div_add by lia. change (50 / 100) with 0. lia. }
  destruct (Z.leb_spec score 0) as [Hs0|Hs0].
  { left. unfold k. assert (score = 0) as -> by lia. reflexivity. }
  pose proof (scale_error score percent ltac:(lia) Hp) as [Hx Herr]. cbv zeta in Hx, Herr.
  set (x := fl_mul _ _) in *.
  pose proof (Z.div_mod (score * (100 + percent) + 50) 100 ltac:(lia)) as Hdm. fold k in Hdm.
  pose proof (Z.mod_pos_bound (score * (100 + percent) + 50) 100 ltac:(lia)) as Hm.
  assert (0 <= k <= 1001) as Hk by nia.
  assert (forall z, -1 <= z <= 1001 ->
    Z.min (if int_of_float z <? 0 then 0 else int_of_float z) 100
    = Z.min 100 (Z.max 0 z)) as Hfin.
  { intros z Hz. rewrite int_of_float_small by (unfold min_int64, max_int64; lia).
    destruct (Z.ltb_spec z 0); lia. }
  destruct (Z.eq_dec ((score * (100 + percent) + 50) mod 100) 0) as [Htie|Htie].
  - assert (math_Round x = k \/ math_Round x = k - 1) as Hr.
    { apply math_Round_tie; [done|]. eapply Qle_lt_trans; [|by instantiate (1 := 1 # 1000000)].
      assert (inject_Z (score * (100 + percent)) / 100 == inject_Z k - (1 # 2))%Q as <-; [|done].
      replace (score * (100 + percent)) with (100 * k - 50) by lia.
      rewrite <- Z.add_opp_r, inject_Z_plus, inject_Z_mult.
      change (inject_Z 100) with 100%Q. change (inject_Z (- (50))) with (-50)%Q. field. }
    assert (1 <= k) as Hk1 by nia.
    destruct Hr as [-> | ->]; rewrite Hfin by lia; [left; lia|right]. split; [|lia].
    replace (score * (100 + percent)) with (50 + (k - 1) * 100) by lia.
    by rewrite Z.mod_add by lia.
  - left. assert (math_Round x = k) as ->; [|rewrite Hfin by lia; lia].
    replace k with ((2 * (score * (100 + percent)) + 100) / (2 * 100)).
    2: { unfold k. rewrite <- (Z.div_mul_cancel_l _ 100 2) by lia. f_equal. lia. }
    apply (math_Round_near (inject_Z (score * (100 + percent)) / 100)); try done; try nia.
    + replace (2 * (score * (100 + percent)) + 100)
        with (2 * (score * (100 + percent) + 50)) by lia.
      rewrite Z.mul_mod_distr_l by lia. lia.
    + eapply Qle_lt_trans; [exact Herr|]. by compute.
Qed.

Lemma ScaleScore_spec_witness :
  let half_up := (5 * (100 + -90) + 50) / 100 in
  ScaleScore 5 (-90) = Z.min 100 half_up
  \/ (5 * (100 + -90)) mod 100 = 50 /\ ScaleScore 5 (-90) = Z.min 100 (half_up - 1).
Proof. apply (ScaleScore_spec 5 (-90)); lia. Defined.

(** C13: The verdict of an outcome. A disruptive intervention alone decides: a
    redirect with a target redirects, deny, block and drop deny, anything else
    allows. Without one, a match that the settings call decisive (by rule number or
    tag) denies; else a positive anomaly score gives a score verdict with the
    calibrated and scaled score, always in 0..100; else the request is allowed.
    The reply answers the request, has a score exactly for a score verdict, a
    target for a redirect, a response for a denial, and encodes. *)
Theorem From_spec req out opt :
  let r := From req out opt in
  (Verdict r = VerdictRedirect <-> exists iv, stopped out = Some iv
     /\ iv_Action iv = "redirect" /\ iv_URL iv <> "")
  /\ (Verdict r = VerdictDeny <->
       (exists iv, stopped out = Some iv /\ iv_Action iv ∈ ["deny"; "block"; "drop"])
       \/ stopped out = None /\ exists m, m ∈ Matched out
            /\ match_ (opt_Decisive opt) m = true)
  /\ (Verdict r = VerdictScore <-> stopped out = None /\ 0 < AnomalyScore out
        /\ Forall (fun m => match_ (opt_Decisive opt) m = false) (Matched out))
  /\ Verdict r ∈ [VerdictAllow; VerdictScore; VerdictDeny; VerdictRedirect]
  /\ (forall s, Score r = Some s <-> Verdict r = VerdictScore /\ 0 <= s <= 100
        /\ s = ScaleScore (Calibrate (AnomalyScore out) (Threshold out)) (ScalePercent opt))
  /\ (rep_Response r <> None <-> Verdict r = VerdictDeny)
  /\ (Redirect r <> None <-> Verdict r = VerdictRedirect)
  /\ rep_V r = V req /\ rep_RID r = RID req /\ rep_Inspector r = Inspector req
  /\ forall encode text, encode r = Some text -> Marshal encode r = Ok text.
Proof.
  intros r. subst r. pose proof (From_verdict req out opt) as (H1 & H2 & H3 & H4).
  split; [exact H1|]. split; [exact H2|]. split; [exact H3|]. split; [exact H4|]. clear H1 H2 H3 H4.
  destruct (From_case req out opt) as [iv H1 H2 H3|iv H1 H2|iv H1 H2 H3|m H1 H2 H3|H1 H2 H3|H1 H2 H3];
    simpl; split_and!; try done;
    try (intros ? ? He; apply Marshal_ok; [|exact He]; simpl; intros s Hs; simplify_eq;
      apply score_range);
    try naive_solver lia.
  pose proof (score_range (AnomalyScore out) (Threshold out) (ScalePercent opt)).
  split; [by intros [= <-]|by intros (_ & _ & ->)].
Qed.

(** [clip] cuts before a rune: the result is the text when it is short enough,
    and otherwise its longest prefix of at most [max] bytes after which a rune
    starts, or nothing. *)
Lemma clip_spec s max (Hmax : 0 <= max) :
  exists k, clip s max = str_take k s /\ len (clip s max) = Z.of_nat k /\ Z.of_nat k <= max
    /\ (len s <= max -> clip s max = s)
    /\ (max < len s ->
         (k = 0%nat \/ exists b, str_bytes s !! k = Some b /\ RuneStart b = true)
         /\ forall j b, (k < j)%nat -> Z.of_nat j <= max -> str_bytes s !! j = Some b ->
                       RuneStart b = false).
Proof.
  unfold clip. destruct (Z.leb_spec (len s) max) as [Hl|Hl].
  - exists (String.length s). rewrite str_take_all by done. unfold len in *.
    split_and!; (done || lia).
  - unfold len in Hl. destruct (rune_cut_spec s (Z.to_nat max)) as (H1 & H2 & H3); [lia|].
    exists (rune_cut s (Z.to_nat max)). unfold len. rewrite str_length_take.
    split_and!; [done|lia|lia|lia|]. intros _. split; [done|].
    intros j b Hj Hjm. apply H3. lia.
Qed.

Lemma clip_spec_witness :
  let s := String "a" (String "195" (String "169" "b")) in
  exists k, clip s 2 = str_take k s /\ len (clip s 2) = Z.of_nat k /\ Z.of_nat k <= 2
    /\ (len s <= 2 -> clip s 2 = s)
    /\ (2 < len s ->
         (k = 0%nat \/ exists b, str_bytes s !! k = Some b /\ RuneStart b = true)
         /\ forall j b, (k < j)%nat -> Z.of_nat j <= 2 -> str_bytes s !! j = Some b ->
                       RuneStart b = false).
Proof. apply (clip_spec (String "a" (String "195" (String "169" "b"))) 2). lia. Defined.

(** [Detail] reports exactly the matches with a message, in order, within the
    limits of an audit event: evidence and message of at most 256 bytes, at most
    32 tags of at most 128 bytes, and never without a target; the engine data say
    that the rule set would block exactly when it has a threshold that is
    reached. *)
Lemma Detail_spec out :
  let d := Detail out in
  length (Findings d) = length (List.filter Engine.Finding (Matched out))
  /\ Forall2 (fun r f => Message r <> "" /\ fd_Rule f = ruleID (ID r)) 
       (List.filter Engine.Finding (Matched out)) (Findings d)
  /\ Forall (fun f => len (Evidence f) <= 256 /\ len (fd_Message f) <= 256
       /\ (length (fd_Tags f) <= 32)%nat /\ Forall (fun t => len t <= 128) (fd_Tags f)
       /\ fd_Target f <> "") (Findings d)
  /\ (det_Engine d !! "crs_would_block" = Some (AnyBool true)
      <-> 0 < Threshold out <= AnomalyScore out)
  /\ det_Engine d !! "crs_anomaly_score" = Some (AnyInt (AnomalyScore out))
  /\ det_Engine d !! "crs_threshold" = Some (AnyInt (Threshold out)).
Proof.
  intros d. subst d. unfold Detail. simpl. split_and!.
  - by rewrite length_fmap.
  - apply Forall2_fmap_r, Forall_Forall2_diag, list.Forall_forall. intros r Hr.
    apply list_elem_of_In, List.filter_In in Hr as [_ Hr]. by apply Finding_spec in Hr.
  - apply list.Forall_fmap, list.Forall_forall. intros r _. simpl.
    destruct (tags_inv (Tags r)). split_and!; try by apply clip_len.
    + done.
    + done.
    + destruct (str_eqb (Target r) "") eqn:E; [done|by apply str_eqb_false].
  - destruct (Z.ltb_spec 0 (Threshold out)), (Z.leb_spec (Threshold out) (AnomalyScore out));
      simpl; simpl_map; split; (done || lia).
  - destruct (_ && _); by simpl_map.
  - destruct (_ && _); by simpl_map.
Qed.

(** The text of a status map. *)
Definition show_map_line (e : Z * string) : string := Itoa e.1 +:+ ": " +:+ e.2.

Definition show_map (entries : list (Z * string)) : string :=
  foldr (fun e text => show_map_line e +:+ String "010" text) "" entries.

(** A response name that the file format can hold as it is. *)
Definition name_ok (n : string) : Prop :=
  n <> "" /\ forallb (fun b => plain b && negb (ascii_eqb b dquote)
                              && negb (ascii_eqb b "'")) (str_bytes n) = true.

Lemma name_ok_plain n : name_ok n -> forallb plain (str_bytes n) = true.
Proof.
  intros [_ Hn]. eapply forallb_weaken; [|exact Hn]. intros a. simpl. by destruct (plain a).
Qed.

Lemma show_map_line_trim st n :
  0 <= st -> name_ok n -> TrimSpace (show_map_line (st, n)) = show_map_line (st, n).
Proof.
  intros Hst Hn. pose proof (name_ok_plain n Hn) as Hp. unfold show_map_line. simpl.
  destruct (Itoa_head st Hst) as (c & r & -> & Hc). apply TrimSpace_ends.
  - simpl. by apply digit_plain.
  - rewrite !str_rev_app. destruct (String.rev n) as [|b t] eqn:Er.
    + apply (f_equal String.rev) in Er. rewrite str_rev_involutive in Er. by destruct Hn.
    + simpl. apply head_plain_rev_all in Hp. by rewrite Er in Hp.
Qed.

Lemma show_map_line_read m k st n :
  0 <= st <= max_int64 -> name_ok n ->
  map_line m k (show_map_line (st, n))
  = Ok {| byStatus := <[st := n]> (byStatus m); fallback := fallback m |}.
Proof.
  intros Hst Hn. pose proof (name_ok_plain n Hn) as Hp. unfold map_line.
  rewrite show_map_line_trim by (done || lia). unfold show_map_line. simpl.
  destruct (Itoa_head st) as (c & r & E & Hc); [lia|].
  assert (str_eqb (Itoa st +:+ ": " +:+ n) "" || HasPrefix (Itoa st +:+ ": " +:+ n) "#" = false)
    as ->.
  { rewrite E. simpl. rewrite andb_false_iff. left. apply ascii_eqb_false. by intros ->. }
  change (": " +:+ n) with (String ":" (" " +:+ n)).
  rewrite Cut_app by (apply (forallb_no_byte is_digit); [done|apply Itoa_digits; lia]).
  rewrite (TrimSpace_plain (Itoa st)) by (apply Itoa_plain; lia).
  assert (TrimSpace (" " +:+ n) = n) as ->.
  { change (TrimSpace (" " +:+ n)) with (TrimSpace n). by apply TrimSpace_plain. }
  rewrite Trim_none.
  2: { destruct Hn as [_ Hn]. eapply forallb_weaken; [|exact Hn]. intros a. simpl.
       by destruct (plain a), (ascii_eqb a dquote), (ascii_eqb a "'"). }
  assert (str_eqb n "" = false) as -> by by apply str_eqb_false; destruct Hn.
  assert (str_eqb (Itoa st) "default" = false) as ->.
  { rewrite E. apply str_eqb_false. intros [= -> _]. done. }
  by rewrite Atoi_Itoa by (apply in_int64_spec; unfold min_int64; lia).
Qed.

Lemma show_map_lines_read m k entries :
  Forall (fun e => 0 <= e.1 <= max_int64 /\ name_ok e.2) entries ->
  map_lines m k (Split "010" (show_map entries))
  = Ok {| byStatus := foldl (fun b e => <[e.1 := e.2]> b) (byStatus m) entries;
          fallback := fallback m |}.
Proof.
  revert m k. induction entries as [|[st n] entries IH]; intros m k H; simpl.
  { by destruct m. }
  apply list.Forall_cons in H as [[Hst Hn] H]. simpl in *.
  rewrite Split_cons.
  - simpl. rewrite show_map_line_read by done. simpl. by rewrite IH.
  - apply (forallb_no_byte (fun b => plain b || byte_is 32 b)); [done|].
    unfold show_map_line. simpl. rewrite !str_bytes_app, !forallb_app. simpl.
    rewrite !(forallb_weaken plain (fun b => plain b || byte_is 32 b));
      [done| |by apply name_ok_plain| |apply Itoa_plain; lia]; by intros ? ->.
Qed.

(** A status map survives printing and loading: the file of the lines
    [status: name] loads, a status named several times has its last name, and
    every other status has the default one. *)
Lemma LoadStatusMap_show entries
    (H : Forall (fun e => 0 <= e.1 <= max_int64 /\ name_ok e.2) entries) :
  exists m, LoadStatusMap (Some (Ok (show_map entries))) = Ok (Some m)
    /\ (forall st, Name m st
         = default "blocked" (snd <$> List.find (fun e => e.1 =? st) (rev entries))).
Proof.
  unfold LoadStatusMap. rewrite show_map_lines_read by done. simpl. eexists. split; [done|].
  intros st. unfold Name. simpl. f_equal. clear H.
  induction entries as [|[st' n] entries IH] using rev_ind; [done|].
  rewrite foldl_snoc, rev_app_distr. simpl.
  destruct (Z.eqb_spec st' st) as [->|Hne]; [by rewrite lookup_insert_eq|].
  by rewrite lookup_insert_ne.
Qed.

Lemma LoadStatusMap_show_witness :
  let entries := [(403, "blocked"); (413, "too_large"); (403, "denied")] in
  exists m, LoadStatusMap (Some (Ok (show_map entries))) = Ok (Some m)
    /\ (forall st, Name m st
         = default "blocked" (snd <$> List.find (fun e => e.1 =? st) (rev entries))).
Proof.
  apply (LoadStatusMap_show [(403, "blocked"); (413, "too_large"); (403, "denied")]).
  repeat constructor; by vm_compute.
Defined.
