(* ===== verification/Queue.v ===== *)
(** * The task queue: [internal/queue/queue.go]

    A bounded queue between the bus and the workers, which answers for every task
    it takes: the handler is called with it once, to evaluate it or to shed it.

    The goroutines are explicit. [thread] is the program counter of one of them,
    and [run_thread] executes it up to the end of its current critical section or
    to its next call of the handler; what happens between two sections of one
    goroutine is any number of sections of the others. The clock and the choice of
    a [select] are an argument of each section. [step] interleaves the goroutines,
    lets tasks arrive, timers fire and the pool close. *)

From S2P Require Import Prelude GoString Protocol.
From stdpp Require Import options.

Local Open Scope Z_scope.

Definition ReasonQueueLimit : string := "MODSEC_QUEUE_LIMIT".
Definition ReasonDeadlineExceeded : string := "MODSEC_DEADLINE_EXCEEDED".
Definition FullDrop : string := "drop".
Definition FullWait : string := "wait".

Definition millisecond : Z := 1000000.

(** ** Data. Times and durations are in nanoseconds. *)

Record Task := {
  t_Req : Request; t_Reply : string; Personal : bool; Fill : Z; enqueued : Z }.

Record Pool := {
  q : list Task; depth : Z; closed : bool; stop : bool; full : string;
  reserve : Z; minBudget : Z; Accepted : Z; Shed : Z; Expired : Z }.

(** A call of the handler: the task, the budget and the reason for shedding. *)
Record Call := { c_Task : Task; c_Budget : Z; c_Shed : string }.

Definition New (depth reserveMS minBudgetMS : Z) (full : string) : Pool :=
  {| q := []; depth := if depth <? 1 then 1 else depth; closed := false; stop := false;
     full := if str_eqb full "" then FullDrop else full;
     reserve := wrap64 (reserveMS * millisecond);
     minBudget := wrap64 (minBudgetMS * millisecond);
     Accepted := 0; Shed := 0; Expired := 0 |}.

Definition set_q (l : list Task) (p : Pool) : Pool :=
  {| q := l; depth := depth p; closed := closed p; stop := stop p; full := full p;
     reserve := reserve p; minBudget := minBudget p; Accepted := Accepted p;
     Shed := Shed p; Expired := Expired p |}.

Definition count_Expired (p : Pool) : Pool :=
  {| q := q p; depth := depth p; closed := closed p; stop := stop p; full := full p;
     reserve := reserve p; minBudget := minBudget p; Accepted := Accepted p;
     Shed := Shed p; Expired := wrap64 (Expired p + 1) |}.

Definition count_Shed (p : Pool) : Pool :=
  {| q := q p; depth := depth p; closed := closed p; stop := stop p; full := full p;
     reserve := reserve p; minBudget := minBudget p; Accepted := Accepted p;
     Shed := wrap64 (Shed p + 1); Expired := Expired p |}.

Definition qlen (p : Pool) : Z := Z.of_nat (length (q p)).

(** [now.Sub(then)] saturates. *)
Definition time_Sub (now then_ : Z) : Z := Z.max min_int64 (Z.min max_int64 (now - then_)).

(** ** Critical sections *)

Definition leftAt (p : Pool) (t : Task) (now : Z) : Z :=
  wrap64 (wrap64 (wrap64 (DeadlineMS (t_Req t) * millisecond) - time_Sub now (enqueued t))
          - reserve p).

Definition fillLocked (p : Pool) : Z :=
  if depth p <=? qlen p then 100 else (qlen p * 100) / depth p.

Definition enqueueLocked (t : Task) (p : Pool) : Pool :=
  {| q := q p ++ [t]; depth := depth p; closed := closed p; stop := stop p; full := full p;
     reserve := reserve p; minBudget := minBudget p; Accepted := wrap64 (Accepted p + 1);
     Shed := Shed p; Expired := Expired p |}.

Definition is_dead (p : Pool) (now : Z) (t : Task) : bool := leftAt p t now <? minBudget p.

(** [takeExpiredLocked]: the dead tasks, and the pool that keeps the others. *)
Definition takeExpired (p : Pool) (now : Z) : list Task * Pool :=
  (List.filter (is_dead p now) (q p),
   set_q (List.filter (fun t => negb (is_dead p now t)) (q p)) p).

Definition set_enqueued (now : Z) (t : Task) : Task :=
  {| t_Req := t_Req t; t_Reply := t_Reply t; Personal := Personal t; Fill := Fill t;
     enqueued := now |}.

Definition set_Fill (fill : Z) (t : Task) : Task :=
  {| t_Req := t_Req t; t_Reply := t_Reply t; Personal := Personal t; Fill := fill;
     enqueued := enqueued t |}.

(** ** Goroutines *)

Inductive thread :=
| TSubmit (t : Task)                          (* entering [Submit] *)
| TCollect (t : Task)                         (* before [collectExpired] of [Submit] *)
| TLock (t : Task)                            (* before [p.mu.Lock] of [Submit] *)
| TWait (t : Task) (timedOut : bool)          (* in the loop of [submitWaitLocked] *)
| TShed (t : Task)                            (* before [shedLimit] *)
| TReply (owed : list (Task * Z)) (k : thread) (* [expire] for each, then [k] *)
| TSweep                                      (* the loop of [sweep] *)
| TWork                                       (* the loop of [work], before [pop] *)
| TServe (t : Task)                           (* [work] with a task *)
| TStop                                       (* [work] has returned *)
| TDone.                                      (* any other goroutine has returned *)

(** The clock at the three times one section may read it, and the choice of a
    [select] with two ready cases. *)
Record Oracle := { now0 : Z; now1 : Z; now2 : Z; pick : bool }.

Definition owe (dead : list Task) : list (Task * Z) := (fun t => (t, 0)) <$> dead.

(** The section of [Submit] under the lock, up to the wait. *)
Definition submit_locked (now : Z) (t : Task) (p : Pool) : thread * Pool :=
  if closed p then (TReply [(t, 0)] TDone, p)
  else
    let t := set_Fill (fillLocked p) t in
    if qlen p <? depth p then (TDone, enqueueLocked t p)
    else if str_eqb (full p) FullWait then
      let lft := leftAt p t now in
      if lft <? minBudget p then (TReply [(t, lft)] TDone, p) else (TWait t false, p)
    else (TShed t, p).

(** One turn of the loop of [submitWaitLocked], from the lock to [cond.Wait], to
    the unlock before [replyDead], or to the end. *)
Definition wait_turn (now : Z) (t : Task) (timedOut : bool) (p : Pool) : thread * Pool :=
  if (depth p <=? qlen p) && negb timedOut && negb (closed p) then
    let '(dead, p) := takeExpired p now in
    match dead with
    | [] => (TWait t timedOut, p)
    | _ => (TReply (owe dead) (TWait t timedOut), p)
    end
  else if closed p then (TReply [(t, 0)] TDone, p)
  else if qlen p <? depth p then (TDone, enqueueLocked t p)
  else (TReply [(t, 0)] TDone, p).

(** One turn of the loop of [pop]. *)
Definition pop_turn (now : Z) (p : Pool) : thread * Pool :=
  let '(dead, p) := takeExpired p now in
  match q p with
  | t :: rest => (TReply (owe dead) (TServe t), set_q rest p)
  | [] =>
      if closed p then (TReply (owe dead) TStop, p)
      else match dead with
           | [] => (TWork, p)
           | _ => (TReply (owe dead) TWork, p)
           end
  end.

Definition run_thread (o : Oracle) (th : thread) (p : Pool) :
    option (thread * Pool * list Call) :=
  match th with
  | TSubmit t =>
      let t := set_enqueued (now0 o) t in
      if leftAt p t (now1 o) <? minBudget p
      then Some (TReply [(t, leftAt p t (now2 o))] TDone, p, [])
      else Some (TCollect t, p, [])
  | TCollect t =>
      let '(dead, p) := takeExpired p (now0 o) in
      Some (TReply (owe dead) (TLock t), p, [])
  | TLock t => Some (submit_locked (now0 o) t p, [])
  | TWait t timedOut => Some (wait_turn (now0 o) t timedOut p, [])
  | TShed t =>
      Some (TDone, count_Shed p,
            [{| c_Task := t; c_Budget := 0; c_Shed := ReasonQueueLimit |}])
  | TReply ((t, lft) :: owed) k =>
      Some (TReply owed k, count_Expired p,
            [{| c_Task := t; c_Budget := lft; c_Shed := ReasonDeadlineExceeded |}])
  | TReply [] k => Some (k, p, [])
  | TSweep =>
      if stop p && pick o then Some (TDone, p, [])
      else let '(dead, p) := takeExpired p (now0 o) in
           Some (TReply (owe dead) TSweep, p, [])
  | TWork => Some (pop_turn (now0 o) p, [])
  | TServe t =>
      let lft := leftAt p t (now0 o) in
      if lft <? minBudget p
      then Some (TWork, count_Expired p,
                 [{| c_Task := t; c_Budget := lft; c_Shed := ReasonDeadlineExceeded |}])
      else Some (TWork, p, [{| c_Task := t; c_Budget := lft; c_Shed := "" |}])
  | TStop | TDone => None
  end.

(** ** The pool as a step relation *)

Record State := {
  pool : Pool; threads : list thread; calls : list Call;
  (* ghost: the tasks given to [Submit], in order *)
  submitted : list Task }.

Definition start (workers : nat) (depth reserveMS minBudgetMS : Z) (full : string) : State :=
  {| pool := New depth reserveMS minBudgetMS full;
     threads := TSweep :: replicate workers TWork; calls := []; submitted := [] |}.

Definition set_stop (p : Pool) : Pool :=
  {| q := q p; depth := depth p; closed := closed p; stop := true; full := full p;
     reserve := reserve p; minBudget := minBudget p; Accepted := Accepted p;
     Shed := Shed p; Expired := Expired p |}.

Definition set_closed (p : Pool) : Pool :=
  {| q := q p; depth := depth p; closed := true; stop := stop p; full := full p;
     reserve := reserve p; minBudget := minBudget p; Accepted := Accepted p;
     Shed := Shed p; Expired := Expired p |}.

Inductive step : State -> State -> Prop :=
| step_arrive s t :
    step s {| pool := pool s; threads := threads s ++ [TSubmit t]; calls := calls s;
              submitted := submitted s ++ [t] |}
| step_run s l th r o th' p' out :
    threads s = l ++ th :: r -> run_thread o th (pool s) = Some (th', p', out) ->
    step s {| pool := p'; threads := l ++ th' :: r; calls := calls s ++ out;
              submitted := submitted s |}
| step_timer s l t r :
    threads s = l ++ TWait t false :: r ->
    step s {| pool := pool s; threads := l ++ TWait t true :: r; calls := calls s;
              submitted := submitted s |}
| step_stop s :
    step s {| pool := set_stop (pool s); threads := threads s; calls := calls s;
              submitted := submitted s |}
| step_close s :
    stop (pool s) = true ->
    step s {| pool := set_closed (pool s); threads := threads s; calls := calls s;
              submitted := submitted s |}.

#[local] Opaque wrap64 time_Sub.
(** ** Specification *)

(** A task under the identity it keeps: the pool only sets its times and fill. *)
Definition key (t : Task) : Request * string * bool := (t_Req t, t_Reply t, Personal t).

(** The tasks a goroutine still answers for. *)
Fixpoint held (th : thread) : list Task :=
  match th with
  | TSubmit t | TCollect t | TLock t | TWait t _ | TShed t | TServe t => [t]
  | TReply owed k => owed.*1 ++ held k
  | TSweep | TWork | TStop | TDone => []
  end.

Definition all_held (s : State) : list Task := mjoin (held <$> threads s).

(** What a call of the handler promises, by its reason. *)
Definition call_ok (p : Pool) (c : Call) : Prop :=
  (c_Shed c = "" /\ minBudget p <= c_Budget c)
  \/ c_Shed c = ReasonDeadlineExceeded
  \/ (c_Shed c = ReasonQueueLimit /\ c_Budget c = 0 /\ full p <> FullWait
      /\ Fill (c_Task c) = 100).

Fixpoint thread_ok (p : Pool) (th : thread) : Prop :=
  match th with
  | TShed t => full p <> FullWait /\ Fill t = 100
  | TReply _ k => thread_ok p k
  | _ => True
  end.

(** The settings of the pool, which no step changes. *)
Definition conf (p : Pool) : Z * string * Z * Z := (depth p, full p, reserve p, minBudget p).

Definition reason_count (why : string) (l : list Call) : Z :=
  Z.of_nat (length (List.filter (fun c => str_eqb (c_Shed c) why) l)).

Record pool_inv (c : Z * string * Z * Z) (s : State) : Prop := {
  inv_conf : conf (pool s) = c;
  inv_depth : 1 <= depth (pool s);
  inv_bound : qlen (pool s) <= depth (pool s);
  inv_tasks : key <$> submitted s
              ≡ₚ key <$> (all_held s ++ q (pool s) ++ (c_Task <$> calls s));
  inv_threads : Forall (thread_ok (pool s)) (threads s);
  inv_calls : Forall (call_ok (pool s)) (calls s);
  inv_Expired : Expired (pool s) = wrap64 (reason_count ReasonDeadlineExceeded (calls s));
  inv_Shed : Shed (pool s) = wrap64 (reason_count ReasonQueueLimit (calls s)) }.

(** What one section does to the pool and to the tasks of its goroutine. *)
Record section_ok (th : thread) (p : Pool) (th' : thread) (p' : Pool) (out : list Call) : Prop := {
  sec_conf : conf p' = conf p;
  sec_bound : qlen p' <= depth p';
  sec_tasks : key <$> (held th ++ q p) ≡ₚ key <$> (held th' ++ q p' ++ (c_Task <$> out));
  sec_thread : thread_ok p th -> thread_ok p' th';
  sec_calls : thread_ok p th -> Forall (call_ok p) out;
  sec_Expired : wrap64 (Expired p) = Expired p ->
                Expired p' = wrap64 (Expired p + reason_count ReasonDeadlineExceeded out);
  sec_Shed : wrap64 (Shed p) = Shed p ->
             Shed p' = wrap64 (Shed p + reason_count ReasonQueueLimit out) }.

(** ** Lemmas *)

Lemma filter_partition {A} (f : A -> bool) l :
  List.filter f l ++ List.filter (fun x => negb (f x)) l ≡ₚ l.
Proof.
  induction l as [|x l IH]; simpl; [done|]. destruct (f x); simpl; [by rewrite IH|].
  by rewrite <- Permutation_middle, IH.
Qed.

Lemma length_filter_le {A} (f : A -> bool) l : (length (List.filter f l) <= length l)%nat.
Proof. induction l as [|x l IH]; simpl; [lia|]. destruct (f x); simpl; lia. Qed.

Lemma filter_sublist {A} (f : A -> bool) l : List.filter f l `sublist_of` l.
Proof.
  induction l as [|x l IH]; simpl; [done|].
  destruct (f x); [by apply sublist_skip|by apply sublist_cons].
Qed.

Lemma filter_cons_inv {A} (f : A -> bool) l x rest :
  List.filter f l = x :: rest ->
  exists before after, l = before ++ x :: after /\ Forall (fun y => f y = false) before
    /\ f x = true /\ rest = List.filter f after.
Proof.
  induction l as [|y l IH]; simpl; [done|]. destruct (f y) eqn:E.
  - intros [= -> <-]. by exists [], l.
  - intros H. destruct (IH H) as (before & after & -> & ? & ? & ?).
    exists (y :: before), after. auto.
Qed.

Lemma takeExpired_spec p now dead p' :
  takeExpired p now = (dead, p') ->
  exists kept, p' = set_q kept p /\ dead ++ kept ≡ₚ q p
    /\ (length kept <= length (q p))%nat
    /\ Forall (fun t => minBudget p <= leftAt p t now) kept.
Proof.
  unfold takeExpired. intros [= <- <-]. eexists. split_and!; [done|..].
  - apply filter_partition.
  - apply length_filter_le.
  - apply list.Forall_forall. intros t Ht. apply list_elem_of_In, List.filter_In in Ht as [_ Ht].
    unfold is_dead in Ht. bool_prop. lia.
Qed.

Lemma owe_fst dead : (owe dead).*1 = dead.
Proof. unfold owe. rewrite <- list_fmap_compose. by rewrite list_fmap_id. Qed.

Lemma key_set_Fill f t : key (set_Fill f t) = key t.
Proof. done. Qed.

Lemma reason_count_app why l1 l2 :
  reason_count why (l1 ++ l2) = reason_count why l1 + reason_count why l2.
Proof. unfold reason_count. rewrite List.filter_app, length_app. lia. Qed.

Ltac no_calls := intros Hw; change (reason_count _ []) with 0; by rewrite Z.add_0_r.

(** A section that calls nothing and leaves the counters alone. *)
Lemma section_quiet th p th' p' :
  conf p' = conf p -> qlen p' <= depth p' ->
  key <$> (held th ++ q p) ≡ₚ key <$> (held th' ++ q p') ->
  (thread_ok p th -> thread_ok p' th') ->
  Expired p' = Expired p -> Shed p' = Shed p ->
  section_ok th p th' p' [].
Proof.
  intros Hc Hb Ht Hok He Hs. constructor; try done.
  - by rewrite app_nil_r.
  - intros Hw. change (reason_count _ []) with 0. by rewrite Z.add_0_r, He.
  - intros Hw. change (reason_count _ []) with 0. by rewrite Z.add_0_r, Hs.
Qed.

(** A section that takes the expired tasks and answers for them. *)
Lemma section_expired th p now dead p' k :
  takeExpired p now = (dead, p') -> qlen p <= depth p ->
  key <$> held th = key <$> held k -> (thread_ok p th -> thread_ok p' k) ->
  section_ok th p (TReply (owe dead) k) p' [].
Proof.
  intros (kept & -> & Hd & Hl & _)%takeExpired_spec Hb Hk Hok. apply section_quiet; try done.
  - simpl. unfold qlen in *. simpl. lia.
  - simpl held. rewrite owe_fst. simpl q. rewrite <- (assoc_L (++)), <- Hd.
    rewrite !fmap_app, Hk, !(assoc (++)).
    by rewrite (Permutation_app_comm (key <$> held k)).
Qed.

Lemma submit_locked_ok now t p th' p' :
  submit_locked now t p = (th', p') -> qlen p <= depth p ->
  section_ok (TLock t) p th' p' [].
Proof.
  unfold submit_locked. intros H Hb. destruct (closed p); simplify_eq.
  { by apply section_quiet. }
  destruct (Z.ltb_spec (qlen p) (depth p)); simplify_eq.
  { apply section_quiet; try done.
    - unfold qlen in *. simpl. rewrite length_app. simpl. lia.
    - simpl. rewrite fmap_app. simpl. by rewrite <- Permutation_cons_append. }
  assert (fillLocked p = 100) as Hf by (unfold fillLocked; by rewrite (proj2 (Z.leb_le _ _))).
  destruct (str_eqb (full p) FullWait) eqn:Ef.
  - destruct (leftAt _ _ _ <? _); simplify_eq; by apply section_quiet.
  - simplify_eq. apply section_quiet; try done. intros _. simpl. apply str_eqb_false in Ef.
    by rewrite Hf.
Qed.

Lemma wait_turn_ok now t timedOut p th' p' :
  wait_turn now t timedOut p = (th', p') -> qlen p <= depth p ->
  section_ok (TWait t timedOut) p th' p' [].
Proof.
  unfold wait_turn. intros H Hb. destruct (_ && _) eqn:E.
  - destruct (takeExpired p now) as [dead p1] eqn:Et.
    destruct dead as [|d dead]; simplify_eq.
    + apply takeExpired_spec in Et as (kept & -> & Hd & Hl & _). apply section_quiet; try done.
      * unfold qlen in *. simpl. lia.
      * simpl in *. by rewrite Hd.
    + by eapply section_expired.
  - destruct (closed p); simplify_eq; [by apply section_quiet|].
    destruct (Z.ltb_spec (qlen p) (depth p)); simplify_eq; [|by apply section_quiet].
    apply section_quiet; try done.
    + unfold qlen in *. simpl. rewrite length_app. simpl. lia.
    + simpl. rewrite fmap_app. simpl. by rewrite <- Permutation_cons_append.
Qed.

Lemma pop_turn_ok now p th' p' :
  pop_turn now p = (th', p') -> qlen p <= depth p -> section_ok TWork p th' p' [].
Proof.
  unfold pop_turn. intros H Hb. destruct (takeExpired p now) as [dead p1] eqn:Et.
  pose proof (takeExpired_spec _ _ _ _ Et) as (kept & Hp & Hd & Hl & _).
  assert (forall k, (thread_ok p TWork -> thread_ok p1 k) -> held k = [] ->
    section_ok TWork p (TReply (owe dead) k) p1 []) as Hexp.
  { intros k Hok Hk. eapply section_expired; [done..| |done]. by rewrite Hk. }
  subst p1. simpl in H. destruct kept as [|t rest].
  - destruct (closed p); simplify_eq; [by apply Hexp|].
    destruct dead as [|d dead]; simplify_eq; [|by apply Hexp].
    apply section_quiet; try done.
    + unfold qlen in *. simpl. lia.
    + simpl in *. by rewrite <- Hd.
  - simplify_eq. apply section_quiet; try done.
    + unfold qlen in *. simpl in *. lia.
    + simpl. rewrite owe_fst, <- Hd. by rewrite <- (assoc_L (++)).
Qed.

Lemma thread_ok_full p p' th : full p' = full p -> thread_ok p th -> thread_ok p' th.
Proof. intros Hf. induction th; simpl; auto. by rewrite Hf. Qed.

Lemma run_thread_ok o th p th' p' out :
  run_thread o th p = Some (th', p', out) -> qlen p <= depth p ->
  section_ok th p th' p' out.
Proof.
  intros H Hb. destruct th as [t|t|t|t timedOut|t|owed k| | |t| |]; cbn [run_thread] in H; cbv zeta in H.
  - destruct (_ <? _); simplify_eq; by apply section_quiet.
  - destruct (takeExpired p (now0 o)) as [dead p1] eqn:E. simplify_eq. by eapply section_expired.
  - destruct (submit_locked (now0 o) t p) eqn:E. simplify_eq. by eapply submit_locked_ok.
  - destruct (wait_turn (now0 o) t timedOut p) eqn:E. simplify_eq. by eapply wait_turn_ok.
  - simplify_eq. constructor; simpl; try done.
    + by rewrite (fmap_app key (q p)), Permutation_app_comm.
    + intros [??]. constructor; [|done]. right. right. done.
    + intros. by rewrite Z.add_0_r.
  - destruct owed as [|[t lft] owed]; simplify_eq; [by apply section_quiet|].
    constructor; simpl; try done.
    + rewrite (assoc_L (++)), (fmap_app key (_ ++ q p)). simpl.
      by rewrite <- Permutation_cons_append.
    + by apply thread_ok_full.
    + intros _. constructor; [|done]. right. by left.
    + intros. by rewrite Z.add_0_r.
  - destruct (_ && _); simplify_eq; [by apply section_quiet|].
    destruct (takeExpired p (now0 o)) as [dead p1] eqn:E. simplify_eq. by eapply section_expired.
  - destruct (pop_turn (now0 o) p) eqn:E. simplify_eq. by eapply pop_turn_ok.
  - destruct (Z.ltb_spec (leftAt p t (now0 o)) (minBudget p)) as [Hlt|Hge]; simplify_eq;
      constructor; simpl; try done; try (intros; by rewrite Z.add_0_r).
    + by rewrite (fmap_app key (q p)), Permutation_app_comm.
    + intros _. constructor; [|done]. right. by left.
    + by rewrite (fmap_app key (q _)), Permutation_app_comm.
    + intros _. constructor; [|done]. by left.
  - done.
  - done.
Qed.

Lemma thread_ok_conf p p' th : conf p' = conf p -> thread_ok p th -> thread_ok p' th.
Proof. intros [=]. by apply thread_ok_full. Qed.

Lemma call_ok_conf p p' c : conf p' = conf p -> call_ok p c -> call_ok p' c.
Proof. unfold call_ok. intros [= _ -> _ ->]. done. Qed.

Lemma all_held_split l th r :
  mjoin (held <$> (l ++ th :: r)) ≡ₚ held th ++ mjoin (held <$> (l ++ r)).
Proof.
  rewrite !fmap_app, fmap_cons, !join_app. simpl. by rewrite Permutation_app_swap_app.
Qed.

(** A step that changes nothing but one thread, without losing its tasks. *)
Lemma reason_counter why n l out n' :
  n = wrap64 (reason_count why l) ->
  (wrap64 n = n -> n' = wrap64 (n + reason_count why out)) ->
  n' = wrap64 (reason_count why (l ++ out)).
Proof.
  intros -> H. rewrite H by by rewrite wrap64_idemp.
  by rewrite wrap64_add_l, reason_count_app.
Qed.

Lemma perm_regroup {X} (A A' Q Q' O R C : list X) :
  A ++ Q ≡ₚ A' ++ Q' ++ O -> (A ++ R) ++ Q ++ C ≡ₚ (A' ++ R) ++ Q' ++ C ++ O.
Proof.
  intros H. trans ((A ++ Q) ++ (R ++ C)).
  { rewrite <- !(assoc_L (++)). apply Permutation_app_head, Permutation_app_swap_app. }
  rewrite H, <- !(assoc_L (++)). apply Permutation_app_head.
  rewrite (Permutation_app_swap_app R). apply Permutation_app_head.
  rewrite Permutation_app_comm. by rewrite <- (assoc_L (++)).
Qed.

Lemma pool_step_inv c s s' : step s s' -> pool_inv c s -> pool_inv c s'.
Proof.
  intros Hst [Hc Hd Hb Ht Hth Hca He Hs]. destruct Hst.
  - constructor; simpl; try done.
    + unfold all_held in *. simpl. rewrite !fmap_app, join_app. simpl.
      rewrite Ht, !fmap_app. simpl.
      rewrite <- !(assoc_L (++)). apply Permutation_app_head. rewrite (assoc_L (++)).
      apply Permutation_app_comm.
    + apply Forall_app. split; [done|]. by constructor.
  - apply run_thread_ok in H0 as [H1 H2 H3 H4 H5 H6 H7]; [|done].
    rewrite H in Hth. apply Forall_app in Hth as [Hl [Hok Hr]%list.Forall_cons].
    constructor; simpl.
    + by rewrite H1.
    + by injection H1 as -> _ _ _.
    + done.
    + unfold all_held in *. simpl. rewrite H in Ht. rewrite all_held_split in *.
      rewrite Ht, !fmap_app in *. by apply perm_regroup.
    + rewrite Forall_app, list.Forall_cons.
      split_and!; [|auto|]; (eapply list.Forall_impl; [done|]); eauto using thread_ok_conf.
    + apply Forall_app. split; [|specialize (H5 Hok)];
        (eapply list.Forall_impl; [done|]; intros ? Hc'; by eapply call_ok_conf; [|exact Hc']).
    + by eapply reason_counter.
    + by eapply reason_counter.
  - constructor; simpl; try done.
    + unfold all_held in *. simpl. rewrite H in Ht. by rewrite all_held_split in *.
    + rewrite H in Hth. rewrite !Forall_app, !list.Forall_cons in *. naive_solver.
  - constructor; simpl; try done. eapply list.Forall_impl; [done|].
    intros th. by apply thread_ok_full.
  - constructor; simpl; try done. eapply list.Forall_impl; [done|].
    intros th. by apply thread_ok_full.
Qed.

Lemma start_inv workers d r m f :
  pool_inv (conf (New d r m f)) (start workers d r m f).
Proof.
  assert (1 <= depth (New d r m f)) as Hd by (simpl; destruct (Z.ltb_spec d 1); lia).
  constructor; try done.
  - unfold qlen. simpl in *. lia.
  - simpl. unfold all_held. simpl. induction workers; [done|]. simpl. exact IHworkers.
  - simpl. constructor; [done|]. apply Forall_replicate. done.
Qed.

Lemma run_inv workers d r m f s :
  rtc step (start workers d r m f) s -> pool_inv (conf (New d r m f)) s.
Proof.
  intros Hrun. pose proof (start_inv workers d r m f) as Hi.
  remember (conf _) as c eqn:Ec. clear Ec.
  induction Hrun; eauto using pool_step_inv.
Qed.

(** A section ends at the first call of the handler. *)
Lemma run_thread_call o th p th' p' out :
  run_thread o th p = Some (th', p', out) -> (length out <= 1)%nat.
Proof.
  intros H. destruct th as [t|t|t|t b|t|owed k| | |t| |]; cbn [run_thread] in H; cbv zeta in H;
    [destruct (_ <? _)|destruct (takeExpired _ _)| | | |destruct owed as [|[t l] owed]
    |destruct (_ && _); [|destruct (takeExpired _ _)]| |destruct (_ <? _)| |];
    simplify_eq; simpl; lia.
Qed.

(** *** Shutting down *)

(** The goroutine is one of the workers; it is one that stops or has stopped. *)
Fixpoint worker (th : thread) : bool :=
  match th with
  | TWork | TServe _ | TStop => true
  | TReply _ k => worker k
  | _ => false
  end.

Fixpoint stopping (th : thread) : bool :=
  match th with TStop => true | TReply _ k => stopping k | _ => false end.

Definition finished (th : thread) : Prop := th = TStop \/ th = TDone.

Record live_inv (s : State) : Prop := {
  li_stop : closed (pool s) = true -> stop (pool s) = true;
  li_worker : Exists (fun th => worker th = true) (threads s);
  li_stopped : Exists (fun th => stopping th = true) (threads s) ->
               closed (pool s) = true /\ q (pool s) = [] }.

Lemma takeExpired_closed p now dead p' :
  takeExpired p now = (dead, p') ->
  closed p' = closed p /\ stop p' = stop p /\ (q p = [] -> q p' = []).
Proof. unfold takeExpired. intros [= <- <-]. simpl. split_and!; [done..|]. by intros ->. Qed.

(** What one section does to a pool and to the kind of its goroutine. *)
Lemma run_thread_live o th p th' p' out :
  run_thread o th p = Some (th', p', out) ->
  closed p' = closed p /\ stop p' = stop p /\ worker th' = worker th
  /\ (closed p = true -> q p = [] -> q p' = [])
  /\ (stopping th' = true -> stopping th = true \/ (closed p' = true /\ q p' = [])).
Proof.
  intros H. destruct th as [t|t|t|t timedOut|t|owed k| | |t| |]; cbn [run_thread] in H;
    cbv zeta in H.
  - destruct (_ <? _); by simplify_eq.
  - destruct (takeExpired p (now0 o)) as [dead p1] eqn:E. simplify_eq.
    apply takeExpired_closed in E as (? & ? & ?). simpl. split_and!; auto; done.
  - unfold submit_locked in H. cbv zeta in H. destruct (closed p) eqn:Ec; [by simplify_eq|].
    destruct (_ <? _); [by simplify_eq/=|]. destruct (str_eqb _ _); [|by simplify_eq/=].
    destruct (_ <? _); by simplify_eq/=.
  - unfold wait_turn in H. destruct (_ && _).
    + destruct (takeExpired p (now0 o)) as [dead p1] eqn:E.
      apply takeExpired_closed in E as (? & ? & ?). destruct dead; simplify_eq; simpl; split_and!; auto; done.
    + destruct (closed p) eqn:Ec; [by simplify_eq|]. by destruct (_ <? _); simplify_eq/=.
  - by simplify_eq/=.
  - destruct owed as [|[t lft] owed]; simplify_eq/=; split_and!; auto.
  - destruct (_ && _); [by simplify_eq|].
    destruct (takeExpired p (now0 o)) as [dead p1] eqn:E. simplify_eq.
    apply takeExpired_closed in E as (? & ? & ?). simpl. split_and!; auto; done.
  - unfold pop_turn in H. destruct (takeExpired p (now0 o)) as [dead p1] eqn:E.
    apply takeExpired_closed in E as (Hc & Hs & Hq).
    destruct (q p1) as [|t rest] eqn:Eq.
    + destruct (closed p1) eqn:Ec; [simplify_eq|destruct dead; simplify_eq]; simpl;
        split_and!; auto; congruence.
    + simplify_eq. simpl. split_and!; try done. intros ? Hn. by specialize (Hq Hn).
  - destruct (_ <? _); by simplify_eq/=.
  - done.
  - done.
Qed.

Lemma step_live s s' : step s s' -> live_inv s -> live_inv s'.
Proof.
  intros Hst [H1 H2 H3]. destruct Hst; constructor; simpl; try done.
  - rewrite Exists_app. by left.
  - rewrite Exists_app, Exists_cons, Exists_nil. simpl. naive_solver.
  - apply run_thread_live in H0 as (-> & -> & _). done.
  - apply run_thread_live in H0 as (_ & _ & Hw & _). rewrite H in H2.
    rewrite Exists_app, Exists_cons in *. by rewrite Hw.
  - apply run_thread_live in H0 as (Hc & _ & _ & Hq & Hstop). rewrite H in H3.
    rewrite Exists_app, Exists_cons in *. rewrite Hc. rewrite Hc in Hstop.
    assert (closed (pool s) = true /\ q (pool s) = [] -> closed (pool s) = true /\ q p' = [])
      by naive_solver. naive_solver.
  - rewrite H in H2. rewrite Exists_app, Exists_cons in *. naive_solver.
  - rewrite H in H3. rewrite Exists_app, Exists_cons in *. naive_solver.
  - naive_solver.
Qed.

Lemma start_live workers d r m f : (0 < workers)%nat -> live_inv (start workers d r m f).
Proof.
  intros Hw. constructor; simpl; [done| |].
  - apply Exists_cons. right. destruct workers; [lia|]. simpl. by apply Exists_cons; left.
  - rewrite Exists_cons. intros [?|Hex]; [done|]. exfalso.
    apply list.Exists_exists in Hex as (th & Hin & Hst).
    by apply elem_of_replicate in Hin as [-> _].
Qed.

Lemma rtc_live s s' : rtc step s s' -> live_inv s -> live_inv s'.
Proof. induction 1; eauto using step_live. Qed.

(** What a closed pool still has to do: every section of an unfinished goroutine
    can make it less. *)
Fixpoint work_left (th : thread) : nat :=
  match th with
  | TSubmit _ => 6 | TCollect _ => 5 | TLock _ => 3 | TWait _ _ => 3 | TShed _ => 1
  | TReply owed k => length owed + 1 + work_left k
  | TSweep => 1 | TWork => 2 | TServe _ => 3 | TStop | TDone => 0
  end.

Definition total_left (s : State) : nat :=
  sum_list_with work_left (threads s) + 3 * length (q (pool s)).

Lemma takeExpired_length p now dead p' :
  takeExpired p now = (dead, p') ->
  length (q p) = (length dead + length (q p'))%nat
  /\ closed p' = closed p /\ stop p' = stop p.
Proof.
  intros H. pose proof (takeExpired_closed _ _ _ _ H) as (? & ? & _).
  apply takeExpired_spec in H as (kept & -> & Hp & _). simpl in *.
  by rewrite <- Hp, length_app.
Qed.

Lemma progress th p :
  closed p = true -> stop p = true -> ~ finished th ->
  exists o th' p' out, run_thread o th p = Some (th', p', out)
    /\ (work_left th' + 3 * length (q p') < work_left th + 3 * length (q p))%nat.
Proof.
  intros Hc Hs Hf. exists {| now0 := 0; now1 := 0; now2 := 0; pick := true |}.
  destruct th as [t|t|t|t timedOut|t|owed k| | |t| |]; cbn [run_thread now0 pick]; cbv zeta.
  - destruct (_ <? _); repeat eexists; simpl; lia.
  - destruct (takeExpired p 0) as [dead p1] eqn:E. apply takeExpired_length in E as (E & _).
    repeat eexists. simpl. unfold owe. rewrite length_fmap. lia.
  - unfold submit_locked. rewrite Hc. repeat eexists. simpl. lia.
  - unfold wait_turn. rewrite Hc, andb_false_r. repeat eexists. simpl. lia.
  - repeat eexists. simpl. lia.
  - destruct owed as [|[t lft] owed]; repeat eexists; simpl; lia.
  - rewrite Hs. repeat eexists. simpl. lia.
  - unfold pop_turn. destruct (takeExpired p 0) as [dead p1] eqn:E.
    apply takeExpired_length in E as (E & Hc1 & _). rewrite Hc1, Hc.
    destruct (q p1) as [|t rest] eqn:Eq; repeat eexists; simpl in *; unfold owe;
      rewrite length_fmap, ?Eq; simpl; lia.
  - destruct (_ <? _); repeat eexists; simpl; lia.
  - destruct Hf. by left.
  - destruct Hf. by right.
Qed.

Lemma sum_list_with_split {A} (f : A -> nat) l x r :
  sum_list_with f (l ++ x :: r) = (sum_list_with f l + f x + sum_list_with f r)%nat.
Proof. induction l; simpl; lia. Qed.

Lemma finished_dec th : finished th \/ ~ finished th.
Proof. unfold finished. destruct th; intuition congruence. Qed.

Lemma Forall_or_first {A} (P : A -> Prop) l :
  (forall x, P x \/ ~ P x) -> Forall P l \/ exists l1 x l2, l = l1 ++ x :: l2 /\ ~ P x.
Proof.
  intros Hdec. induction l as [|x l IH]; [by left|].
  destruct (Hdec x); [|right; by exists [], x, l].
  destruct IH as [?|(l1 & y & l2 & -> & ?)]; [left; by constructor|].
  right. by exists (x :: l1), y, l2.
Qed.

Lemma closed_completes s :
  closed (pool s) = true -> stop (pool s) = true ->
  exists s', rtc step s s' /\ Forall finished (threads s') /\ submitted s' = submitted s
    /\ closed (pool s') = true.
Proof.
  remember (total_left s) as n eqn:En. revert s En.
  induction (lt_wf n) as [n _ IH]. intros s En Hc Hs.
  destruct (Forall_or_first finished (threads s) finished_dec) as [|(l & th & r & Hth & Hf)].
  { exists s. split_and!; [apply rtc_refl|done..]. }
  destruct (progress th (pool s) Hc Hs Hf) as (o & th' & p' & out & Hrun & Hlt).
  pose proof (run_thread_live _ _ _ _ _ _ Hrun) as (Hc' & Hs' & _).
  set (s1 := {| pool := p'; threads := l ++ th' :: r; calls := calls s ++ out;
                submitted := submitted s |}).
  destruct (IH (total_left s1)) with (s := s1) as (s' & Hr & ? & ? & ?); simpl; try congruence.
  - subst n. unfold total_left, s1. simpl. rewrite Hth, !sum_list_with_split. simpl in *. lia.
  - exists s'. split_and!; [|done..]. eapply rtc_l; [|exact Hr]. by eapply step_run.
Qed.

Lemma run_live workers d r m f s :
  (0 < workers)%nat -> rtc step (start workers d r m f) s -> live_inv s.
Proof. intros Hw Hr. eapply rtc_live; [exact Hr|by apply start_live]. Qed.

(** When all goroutines have returned, nothing waits, and every task has been handed over. *)
Lemma finished_answered workers d r m f s :
  (0 < workers)%nat -> rtc step (start workers d r m f) s -> Forall finished (threads s) ->
  q (pool s) = [] /\ key <$> submitted s ≡ₚ key <$> (c_Task <$> calls s).
Proof.
  intros Hw Hrun Hf. destruct (run_live _ _ _ _ _ _ Hw Hrun) as [_ Hwk Hstop].
  assert (q (pool s) = []) as Hq.
  { apply Hstop. apply list.Exists_exists in Hwk as (th & Hin & Hth).
    apply list.Exists_exists. exists th. split; [done|].
    rewrite list.Forall_forall in Hf. by destruct (Hf th Hin) as [-> | ->]. }
  split; [done|]. apply run_inv in Hrun as [_ _ _ Ht _ _ _ _]. rewrite Ht, Hq.
  assert (all_held s = []) as ->; [|done]. unfold all_held. clear -Hf.
  induction Hf as [|th l Hth _ IH]; [done|]. simpl. destruct Hth as [-> | ->]; exact IH.
Qed.

(** A task that arrives at a pool that then closes, for the examples. *)
Definition sample_task : Task :=
  {| t_Req := sample_request "r1" "request"; t_Reply := "inbox.1"; Personal := false;
     Fill := 0; enqueued := 0 |}.

Definition arrived : State :=
  {| pool := New 4 2 3 "drop"; threads := [TSweep; TWork; TSubmit sample_task]; calls := [];
     submitted := [sample_task] |}.

Definition sample_closed : State :=
  {| pool := set_closed (set_stop (New 4 2 3 "drop"));
     threads := [TSweep; TWork; TSubmit sample_task]; calls := []; submitted := [sample_task] |}.

Lemma sample_arrives : rtc step (start 1 4 2 3 "drop") arrived.
Proof. eapply rtc_l; [apply (step_arrive _ sample_task)|]. apply rtc_refl. Qed.

Lemma sample_closes : rtc step (start 1 4 2 3 "drop") sample_closed.
Proof.
  eapply rtc_r; [eapply rtc_r; [apply sample_arrives|apply step_stop]|].
  apply (step_close {| pool := set_stop (New 4 2 3 "drop"); threads := threads arrived;
                       calls := []; submitted := [sample_task] |}). reflexivity.
Qed.

(** ** Properties *)

(** C12: Every task given to the pool is answered for exactly once: at any moment it
    is in the queue, in the hands of one goroutine, or in one call of the handler.
    The queue never exceeds its depth; a task handed over for evaluation has at
    least the minimal budget; the queue limit is a reason only when the pool drops
    and the queue was full; and the counters count the calls shed, modulo 64 bits. *)
Theorem pool_answers_once workers d reserveMS minMS f s
    (Hrun : rtc step (start workers d reserveMS minMS f) s) :
  key <$> submitted s ≡ₚ key <$> (all_held s ++ q (pool s) ++ (c_Task <$> calls s))
  /\ qlen (pool s) <= Z.max 1 d
  /\ Forall (fun c =>
       c_Shed c = "" /\ wrap64 (minMS * millisecond) <= c_Budget c
       \/ c_Shed c = ReasonDeadlineExceeded
       \/ c_Shed c = ReasonQueueLimit /\ c_Budget c = 0 /\ f <> FullWait
          /\ Fill (c_Task c) = 100) (calls s)
  /\ Expired (pool s) = wrap64 (reason_count ReasonDeadlineExceeded (calls s))
  /\ Shed (pool s) = wrap64 (reason_count ReasonQueueLimit (calls s)).
Proof.
  apply run_inv in Hrun as [Hc Hd Hb Ht Hth Hca He Hs]. injection Hc as Hcd Hcf Hcr Hcm.
  split_and!; try done.
  - rewrite Hcd in Hb. simpl in Hb. destruct (Z.ltb_spec d 1); lia.
  - eapply list.Forall_impl; [done|]. unfold call_ok. rewrite Hcm, Hcf. simpl.
    intros c [?|[?|(? & ? & Hfull & ?)]]; auto. right. right. split_and!; try done.
    intros ->. by destruct Hfull.
Qed.

Lemma pool_answers_once_witness :
  let s := sample_closed in
  key <$> submitted s ≡ₚ key <$> (all_held s ++ q (pool s) ++ (c_Task <$> calls s))
  /\ qlen (pool s) <= Z.max 1 4
  /\ Forall (fun c =>
       c_Shed c = "" /\ wrap64 (3 * millisecond) <= c_Budget c
       \/ c_Shed c = ReasonDeadlineExceeded
       \/ c_Shed c = ReasonQueueLimit /\ c_Budget c = 0 /\ "drop" <> FullWait
          /\ Fill (c_Task c) = 100) (calls s)
  /\ Expired (pool s) = wrap64 (reason_count ReasonDeadlineExceeded (calls s))
  /\ Shed (pool s) = wrap64 (reason_count ReasonQueueLimit (calls s)).
Proof. exact (pool_answers_once 1 4 2 3 "drop" sample_closed sample_closes). Defined.



(** C35: No task overtakes another: any section leaves the tasks that stay in the
    queue in their order, adds at most one, at the end, and a worker gets the first
    task that can still be served, the ones before it having expired. *)
Theorem queue_order o th p th' p' out
    (Hrun : run_thread o th p = Some (th', p', out)) :
  (exists new, (length new <= 1)%nat /\ q p' `sublist_of` q p ++ new)
  /\ forall t, th = TWork -> (exists owed, th' = TReply owed (TServe t)) ->
     exists before after, q p = before ++ t :: after
       /\ Forall (fun t' => leftAt p t' (now0 o) < minBudget p) before
       /\ minBudget p <= leftAt p t (now0 o) /\ q p' `sublist_of` after.
Proof.
  assert (forall now dead p1, takeExpired p now = (dead, p1) -> q p1 `sublist_of` q p) as Htake.
  { intros now dead p1 [= <- <-]. simpl. apply filter_sublist. }
  assert (forall l : list Task, l `sublist_of` q p ->
    exists new, (length new <= 1)%nat /\ l `sublist_of` q p ++ new) as Hkeep.
  { intros l Hl. exists []. rewrite app_nil_r. split; [simpl; lia|done]. }
  split.
  - destruct th as [t|t|t|t timedOut|t|owed k| | |t| |]; cbn [run_thread] in Hrun;
      cbv zeta in Hrun.
    + apply Hkeep. by destruct (_ <? _); simplify_eq.
    + destruct (takeExpired p (now0 o)) eqn:E. simplify_eq. eauto.
    + unfold submit_locked in Hrun. cbv zeta in Hrun.
      destruct (closed p); [simplify_eq; eauto|].
      destruct (_ <? _); [simplify_eq; exists [set_Fill (fillLocked p) t]; by simpl|].
      apply Hkeep. destruct (str_eqb _ _); [destruct (_ <? _)|]; by simplify_eq.
    + unfold wait_turn in Hrun. destruct (_ && _).
      * destruct (takeExpired p (now0 o)) as [dead p1] eqn:E.
        apply Hkeep. destruct dead; simplify_eq; eauto.
      * destruct (closed p); [simplify_eq; eauto|].
        destruct (_ <? _); simplify_eq; [exists [t]; by simpl|eauto].
    + simplify_eq. by apply Hkeep.
    + apply Hkeep. by destruct owed as [|[]]; simplify_eq.
    + apply Hkeep. destruct (_ && _); [by simplify_eq|].
      destruct (takeExpired p (now0 o)) eqn:E. simplify_eq. eauto.
    + apply Hkeep. unfold pop_turn in Hrun.
      destruct (takeExpired p (now0 o)) as [dead p1] eqn:E. apply Htake in E.
      destruct (q p1) as [|t rest] eqn:Eq.
      * destruct (closed p1); [|destruct dead]; simplify_eq; by rewrite Eq.
      * simplify_eq. simpl. etrans; [|exact E]. by apply sublist_cons.
    + apply Hkeep. by destruct (_ <? _); simplify_eq.
    + done.
    + done.
  - intros t -> [owed ->]. cbn [run_thread] in Hrun. unfold pop_turn in Hrun.
    destruct (takeExpired p (now0 o)) as [dead p1] eqn:E. injection E as <- <-.
    simpl in Hrun. destruct (List.filter _ (q p)) as [|t1 rest] eqn:Eq.
    { destruct (closed p); [|destruct (List.filter (is_dead p (now0 o)) (q p))]; simplify_eq. }
    simplify_eq. apply filter_cons_inv in Eq as (before & after & -> & Hb & Ht & ->).
    exists before, after. simpl. unfold is_dead in *. split_and!; [done| | |apply filter_sublist].
    + eapply list.Forall_impl; [done|]. intros t'. simpl. rewrite negb_false_iff. lia.
    + bool_prop. lia.
Qed.

Lemma queue_order_witness :
  let p := set_q [sample_task] (New 4 2 3 "drop") in
  exists th' p' out,
    run_thread {| now0 := 0; now1 := 0; now2 := 0; pick := false |} TWork p
      = Some (th', p', out)
    /\ (exists new, (length new <= 1)%nat /\ q p' `sublist_of` q p ++ new)
    /\ forall t, TWork = TWork -> (exists owed, th' = TReply owed (TServe t)) ->
       exists before after, q p = before ++ t :: after
         /\ Forall (fun t' => leftAt p t' 0 < minBudget p) before
         /\ minBudget p <= leftAt p t 0 /\ q p' `sublist_of` after.
Proof.
  exists (TReply [] (TServe sample_task)), (set_q [] (New 4 2 3 "drop")), [].
  assert (run_thread {| now0 := 0; now1 := 0; now2 := 0; pick := false |} TWork
    (set_q [sample_task] (New 4 2 3 "drop"))
    = Some (TReply [] (TServe sample_task), set_q [] (New 4 2 3 "drop"), [])) as H
    by (vm_compute; reflexivity).
  split; [exact H|]. exact (queue_order _ _ _ _ _ _ H).
Defined.
