(* ===== verification/Sticky.v ===== *)
(** * The registry of kept transactions: [internal/sticky/sticky.go]

    A map from the resume token to a live transaction that waits for the response
    phase. The registry owns what it holds: it hands a state to the one [Take] that
    finds it in time, and closes ([Discard]) every other. An operation returns
    beside its Go results the states it discards; every operation changes the map
    under one mutex, so any use is a sequence of operations. *)

From S2P Require Import Prelude.
From stdpp Require Import options.

Local Open Scope Z_scope.

Definition second : Z := 1000000000.

Section registry.
Context {T : Type}.

(** ** Data. Times and durations are in nanoseconds. *)

Record item := { live : T; expires : Z }.

Record Stats := {
  Parked : Z; Taken : Z; Expired : Z; Refused : Z; Live : Z }.

Record Registry := { max : Z; ttl : Z; items : gmap string item; stats : Stats }.

Definition New (max ttl : Z) : Registry :=
  {| max := max; ttl := ttl; items := ∅;
     stats := {| Parked := 0; Taken := 0; Expired := 0; Refused := 0; Live := 0 |} |}.

Definition set_items (m : gmap string item) (r : Registry) : Registry :=
  {| max := max r; ttl := ttl r; items := m; stats := stats r |}.

(** [r.stats.X += n] for each of the counters; [Live] is set by [Stats_] only. *)
Definition add_stats (parked taken expired refused : Z) (r : Registry) : Registry :=
  let s := stats r in
  {| max := max r; ttl := ttl r; items := items r;
     stats := {| Parked := wrap64 (Parked s + parked); Taken := wrap64 (Taken s + taken);
                 Expired := wrap64 (Expired s + expired);
                 Refused := wrap64 (Refused s + refused); Live := Live s |} |}.

(** ** Operations *)

(** [now.After(it.expires)] *)
Definition late (now : Z) (e : string * item) : Prop := expires e.2 < now.

#[global] Instance late_dec now e : Decision (late now e).
Proof. unfold late. apply _. Defined.

(** The states held by a map, in the order its elements are visited. *)
Definition values (m : gmap string item) : list T := live <$> (map_to_list m).*2.

Definition expired (now : Z) (r : Registry) : list T * Registry :=
  let dead := values (filter (late now) (items r)) in
  (dead, add_stats 0 0 (Z.of_nat (length dead)) 0
           (set_items (filter (fun e => ~ late now e) (items r)) r)).

(** [Park]: the result, the discarded states, and the registry. *)
Definition Park (now : Z) (rid : string) (l : T) (r : Registry) : bool * list T * Registry :=
  let '(dead, r) := expired now r in
  if max r <=? Z.of_nat (size (items r)) then (false, dead, add_stats 0 0 0 1 r)
  else
    let dead := match items r !! rid with Some it => dead ++ [live it] | None => dead end in
    (true, dead,
     add_stats 1 0 0 0
       (set_items (<[rid := {| live := l; expires := now + ttl r |}]> (items r)) r)).

Definition Take (now : Z) (rid : string) (r : Registry) : option T * list T * Registry :=
  match items r !! rid with
  | None => (None, [], r)
  | Some it =>
      let r := set_items (delete rid (items r)) r in
      if expires it <? now then (None, [live it], add_stats 0 0 1 0 r)
      else (Some (live it), [], add_stats 0 1 0 0 r)
  end.

Definition Drop (rid : string) (r : Registry) : list T * Registry :=
  match items r !! rid with
  | Some it => ([live it], set_items (delete rid (items r)) r)
  | None => ([], r)
  end.

Definition Sweep (now : Z) (r : Registry) : Z * list T * Registry :=
  let '(dead, r) := expired now r in (Z.of_nat (length dead), dead, r).

Definition Close (r : Registry) : list T * Registry := (values (items r), set_items ∅ r).

Definition Stats_ (r : Registry) : Stats :=
  let s := stats r in
  {| Parked := Parked s; Taken := Taken s; Expired := Expired s; Refused := Refused s;
     Live := Z.of_nat (size (items r)) |}.

(** The interval of the ticker of [Run]. *)
Definition sweep_interval (r : Registry) : Z :=
  let step := Z.quot (ttl r) 4 in if step <? second then second else step.

(** ** Specification: who owns a state *)

Inductive op :=
| OPark (now : Z) (rid : string) (l : T)
| OTake (now : Z) (rid : string)
| ODrop (rid : string)
| OSweep (now : Z)
| OClose.

(** What has happened to the states: given to the registry, refused, handed out,
    discarded. *)
Record History := { given : list T; refused : list T; taken : list T; gone : list T }.

Definition no_history : History := {| given := []; refused := []; taken := []; gone := [] |}.

Definition run_op (s : Registry * History) (o : op) : Registry * History :=
  let '(r, h) := s in
  match o with
  | OPark now rid l =>
      let '(ok, dead, r) := Park now rid l r in
      (r, {| given := if ok : bool then given h ++ [l] else given h;
             refused := if ok then refused h else refused h ++ [l];
             taken := taken h; gone := gone h ++ dead |})
  | OTake now rid =>
      let '(res, dead, r) := Take now rid r in
      (r, {| given := given h; refused := refused h;
             taken := match res with Some l => taken h ++ [l] | None => taken h end;
             gone := gone h ++ dead |})
  | ODrop rid =>
      let '(dead, r) := Drop rid r in
      (r, {| given := given h; refused := refused h; taken := taken h;
             gone := gone h ++ dead |})
  | OSweep now =>
      let '(_, dead, r) := Sweep now r in
      (r, {| given := given h; refused := refused h; taken := taken h;
             gone := gone h ++ dead |})
  | OClose =>
      let '(dead, r) := Close r in
      (r, {| given := given h; refused := refused h; taken := taken h;
             gone := gone h ++ dead |})
  end.

Definition run_ops (ops : list op) (s : Registry * History) : Registry * History :=
  fold_left run_op ops s.

Record registry_inv (m t : Z) (r : Registry) (h : History) : Prop := {
  ri_max : max r = m;
  ri_ttl : ttl r = t;
  ri_bound : Z.of_nat (size (items r)) <= Z.max 0 m;
  ri_owned : given h ≡ₚ taken h ++ gone h ++ values (items r);
  ri_Parked : Parked (stats r) = wrap64 (Z.of_nat (length (given h)));
  ri_Taken : Taken (stats r) = wrap64 (Z.of_nat (length (taken h)));
  ri_Refused : Refused (stats r) = wrap64 (Z.of_nat (length (refused h)));
  ri_Expired : Expired (stats r) = wrap64 (Expired (stats r)) }.

(** ** Lemmas *)

Lemma values_insert m rid it :
  m !! rid = None -> values (<[rid := it]> m) ≡ₚ live it :: values m.
Proof. intros H. unfold values. by rewrite map_to_list_insert. Qed.

Lemma values_delete m rid it :
  m !! rid = Some it -> live it :: values (delete rid m) ≡ₚ values m.
Proof.
  intros H. unfold values. rewrite <- (map_to_list_delete m rid it) by done. done.
Qed.

Lemma values_filter (P : string * item -> Prop) `{!forall e, Decision (P e)} m :
  values (filter P m) ++ values (filter (fun e => ~ P e) m) ≡ₚ values m.
Proof.
  induction m as [|rid it m Hm IH] using map_ind.
  { by rewrite !map_filter_empty. }
  rewrite values_insert by done. destruct (decide (P (rid, it))) as [HP|HP].
  - rewrite map_filter_insert_True by done.
    rewrite (map_filter_insert_False (fun e => ~ P e)) by naive_solver.
    rewrite delete_id by done. rewrite values_insert; [simpl; by rewrite IH|].
    apply map_lookup_filter_None. by left.
  - rewrite (map_filter_insert_True (fun e => ~ P e)) by done.
    rewrite map_filter_insert_False by done. rewrite delete_id by done.
    rewrite (values_insert (filter (fun e => ~ P e) m)).
    + by rewrite <- Permutation_middle, IH.
    + apply map_lookup_filter_None. by left.
Qed.

Lemma length_values m : length (values m) = size m.
Proof. unfold values. by rewrite !length_fmap, length_map_to_list. Qed.

(** The history with more states discarded. *)
Definition lose (dead : list T) (h : History) : History :=
  {| given := given h; refused := refused h; taken := taken h; gone := gone h ++ dead |}.

Lemma expired_inv m t now r h dead r' :
  expired now r = (dead, r') -> registry_inv m t r h -> registry_inv m t r' (lose dead h).
Proof.
  unfold expired. intros [= <- <-] [Hm Ht Hb Ho Hp Htk Hr He]. constructor; simpl; try done.
  - pose proof (map_size_filter (fun e => ~ late now e) (items r)). lia.
  - rewrite Ho, <- (values_filter (late now) (items r)). by rewrite <- !(assoc_L (++)).
  - by rewrite Hp, Z.add_0_r, wrap64_idemp.
  - by rewrite Htk, Z.add_0_r, wrap64_idemp.
  - by rewrite Hr, Z.add_0_r, wrap64_idemp.
  - by rewrite wrap64_idemp.
Qed.

Lemma wrap_length_snoc {A} n (l : list A) x :
  n = wrap64 (Z.of_nat (length l)) ->
  wrap64 (n + 1) = wrap64 (Z.of_nat (length (l ++ [x]))).
Proof. intros ->. rewrite wrap64_add_l, length_app. simpl. f_equal. lia. Qed.

Lemma counter_keeps {A} n (l : list A) :
  n = wrap64 (Z.of_nat (length l)) -> wrap64 (n + 0) = wrap64 (Z.of_nat (length l)).
Proof. intros ->. by rewrite Z.add_0_r, wrap64_idemp. Qed.

(** Replacing the state of a token, or adding one, in a registry with room. *)
Lemma insert_owned m rid l e :
  let old := match m !! rid with Some it => [live it] | None => [] end in
  values (<[rid := {| live := l; expires := e |}]> m) ++ old ≡ₚ l :: values m.
Proof.
  simpl. destruct (m !! rid) as [it|] eqn:E.
  - rewrite <- insert_delete_eq, values_insert by apply lookup_delete_eq. simpl.
    rewrite <- (values_delete m rid it) by done.
    by rewrite <- Permutation_cons_append.
  - by rewrite app_nil_r, values_insert.
Qed.

Lemma Park_inv m t now rid l r h ok dead r' :
  Park now rid l r = (ok, dead, r') -> registry_inv m t r h ->
  registry_inv m t r'
    {| given := if ok : bool then given h ++ [l] else given h;
       refused := if ok then refused h else refused h ++ [l];
       taken := taken h; gone := gone h ++ dead |}.
Proof.
  unfold Park. destruct (expired now r) as [d1 r1] eqn:Ee. intros H Hi.
  apply (expired_inv _ _ _ _ _ _ _ Ee) in Hi as [Hm Ht Hb Ho Hp Htk Hr He].
  simpl in *. destruct (Z.leb_spec (max r1) (Z.of_nat (size (items r1)))) as [Hf|Hf];
    simplify_eq; constructor; simpl; try done;
    first [by apply counter_keeps|by apply wrap_length_snoc|by rewrite wrap64_idemp|idtac].
  - rewrite map_size_insert. destruct (items r1 !! rid); simpl; lia.
  - rewrite Ho. pose proof (insert_owned (items r1) rid l (now + ttl r1)) as Hins.
    simpl in Hins. rewrite Permutation_app_comm. simpl. destruct (items r1 !! rid) as [it|].
    + rewrite <- !(assoc_L (++)), (Permutation_app_comm [live it]), Hins.
      by rewrite <- !Permutation_middle.
    + rewrite app_nil_r in Hins. rewrite Hins, <- !(assoc_L (++)).
      by rewrite <- !Permutation_middle.
Qed.

Lemma size_delete_le m (rid : string) : (size (delete rid m : gmap string item) <= size m)%nat.
Proof. rewrite map_size_delete. destruct (m !! rid); simpl; lia. Qed.

Lemma Take_inv m t now rid r h res dead r' :
  Take now rid r = (res, dead, r') -> registry_inv m t r h ->
  registry_inv m t r'
    {| given := given h; refused := refused h;
       taken := match res with Some l => taken h ++ [l] | None => taken h end;
       gone := gone h ++ dead |}.
Proof.
  unfold Take. intros H [Hm Ht Hb Ho Hp Htk Hr He].
  destruct (items r !! rid) as [it|] eqn:E.
  - pose proof (values_delete _ _ _ E) as Hv. pose proof (size_delete_le (items r) rid).
    destruct (_ <? _); simplify_eq; constructor; simpl; try done; try lia;
      first [by apply counter_keeps|by apply wrap_length_snoc|by rewrite wrap64_idemp|idtac].
    + rewrite Ho, <- Hv. by rewrite <- !(assoc_L (++)).
    + rewrite Ho, <- Hv, app_nil_r, <- !(assoc_L (++)). simpl.
      by rewrite <- !Permutation_middle.
  - simplify_eq. constructor; simpl; try done. by rewrite app_nil_r.
Qed.

Lemma Drop_inv m t rid r h dead r' :
  Drop rid r = (dead, r') -> registry_inv m t r h -> registry_inv m t r' (lose dead h).
Proof.
  unfold Drop. intros H [Hm Ht Hb Ho Hp Htk Hr He].
  destruct (items r !! rid) as [it|] eqn:E; simplify_eq; constructor; simpl; try done.
  - pose proof (size_delete_le (items r) rid). lia.
  - rewrite Ho, <- (values_delete _ _ _ E). by rewrite <- !(assoc_L (++)).
  - by rewrite app_nil_r.
Qed.

Lemma Close_inv m t r h :
  registry_inv m t r h -> registry_inv m t (Close r).2 (lose (Close r).1 h).
Proof.
  intros [Hm Ht Hb Ho Hp Htk Hr He]. constructor; simpl; try done.
  - rewrite map_size_empty. lia.
  - by rewrite Ho, app_nil_r.
Qed.

Lemma run_op_inv m t o r h r' h' :
  run_op (r, h) o = (r', h') -> registry_inv m t r h -> registry_inv m t r' h'.
Proof.
  intros H Hi. destruct o as [now rid l|now rid|rid|now|]; simpl in H.
  - destruct (Park now rid l r) as [[ok dead] r1] eqn:E. simplify_eq. by eapply Park_inv.
  - destruct (Take now rid r) as [[res dead] r1] eqn:E. simplify_eq. by eapply Take_inv.
  - destruct (Drop rid r) as [dead r1] eqn:E. simplify_eq. by eapply Drop_inv.
  - unfold Sweep in H. destruct (expired now r) as [dead r1] eqn:E. simplify_eq.
    by eapply (expired_inv m t now r h).
  - simplify_eq. by apply Close_inv.
Qed.

Lemma run_ops_inv m t ops r h :
  registry_inv m t r h -> registry_inv m t (run_ops ops (r, h)).1 (run_ops ops (r, h)).2.
Proof.
  revert r h. induction ops as [|o ops IH]; intros r h Hi; [done|]. cbn [run_ops fold_left].
  unfold run_ops in IH. destruct (run_op (r, h) o) as [r1 h1] eqn:E.
  eapply IH, run_op_inv; eauto.
Qed.

(** Conservation of states by single operations, for the clients of the registry. *)
Lemma Park_owned now rid l r ok dead r' :
  Park now rid l r = (ok, dead, r') ->
  values (items r) ++ (if ok : bool then [l] else []) ≡ₚ dead ++ values (items r').
Proof.
  unfold Park, expired. cbv zeta. cbn [items set_items add_stats max ttl stats].
  pose proof (values_filter (late now) (items r)) as Hv.
  set (d := values (filter (late now) (items r))) in *.
  set (m := filter (fun e => ~ late now e) (items r)) in *.
  destruct (_ <=? _); intros H; simplify_eq; simpl.
  - by rewrite app_nil_r, Hv.
  - pose proof (insert_owned m rid l (now + ttl r)) as Hi. simpl in Hi.
    rewrite <- Hv, Permutation_app_comm. simpl. destruct (m !! rid) as [it|].
    + rewrite <- (assoc_L (++)), (Permutation_app_comm [live it]), Hi.
      by rewrite <- Permutation_middle.
    + rewrite app_nil_r in Hi. rewrite Hi. by rewrite <- Permutation_middle.
Qed.

Lemma Take_owned now rid r res dead r' :
  Take now rid r = (res, dead, r') ->
  values (items r) ≡ₚ option_list res ++ dead ++ values (items r').
Proof.
  unfold Take. destruct (items r !! rid) as [it|] eqn:E.
  - pose proof (values_delete _ _ _ E) as Hv.
    destruct (_ <? _); intros H; simplify_eq; simpl; by rewrite <- Hv.
  - intros H. by simplify_eq.
Qed.

Lemma Drop_owned rid r dead r' :
  Drop rid r = (dead, r') -> values (items r) ≡ₚ dead ++ values (items r').
Proof.
  unfold Drop. destruct (items r !! rid) as [it|] eqn:E; intros H; simplify_eq; simpl; [|done].
  by rewrite <- (values_delete _ _ _ E).
Qed.

Lemma Sweep_owned now r k dead r' :
  Sweep now r = (k, dead, r') -> values (items r) ≡ₚ dead ++ values (items r').
Proof. unfold Sweep, expired. cbv zeta. intros [= _ <- <-]. by rewrite <- (values_filter (late now)). Qed.

(** ** Properties *)

(** C18: A kept transaction has one owner: over any sequence of operations, in any
    order of tokens and times, every state that [Park] accepted is either still
    held, or was handed out by one [Take], or was discarded, and only one of these
    and only once; the registry never holds more than its maximum; and the counters
    of parked, taken and refused states count those. *)
Theorem registry_owns m t ops :
  let '(r, h) := run_ops ops (New m t, no_history) in
  given h ≡ₚ taken h ++ gone h ++ values (items r)
  /\ Z.of_nat (size (items r)) <= Z.max 0 m
  /\ Live (Stats_ r) = Z.of_nat (length (values (items r)))
  /\ Parked (Stats_ r) = wrap64 (Z.of_nat (length (given h)))
  /\ Taken (Stats_ r) = wrap64 (Z.of_nat (length (taken h)))
  /\ Refused (Stats_ r) = wrap64 (Z.of_nat (length (refused h))).
Proof.
  assert (registry_inv m t (New m t) no_history) as Hi.
  { constructor; simpl; try done. rewrite map_size_empty. lia. }
  apply (run_ops_inv m t ops) in Hi. destruct (run_ops _ _) as [r h].
  destruct Hi as [_ _ Hb Ho Hp Htk Hr _]. simpl. rewrite length_values. done.
Qed.

(** What is parked is found again: after an accepted [Park], the first [Take]
    of the token returns that state up to the end of its time to live and discards
    it afterwards, and a second [Take] finds nothing; a [Drop] in between discards
    it. Operations on other tokens do not remove it before its time is up. *)
Lemma Park_Take now now' rid l r dead r'
    (Hpark : Park now rid l r = (true, dead, r')) :
  items r' !! rid = Some {| live := l; expires := now + ttl r |}
  /\ (now' <= now + ttl r -> exists r2, Take now' rid r' = (Some l, [], r2)
        /\ forall now2, Take now2 rid r2 = (None, [], r2))
  /\ (now + ttl r < now' -> exists r2, Take now' rid r' = (None, [l], r2)
        /\ forall now2, Take now2 rid r2 = (None, [], r2))
  /\ (exists r2, Drop rid r' = ([l], r2) /\ items r2 !! rid = None)
  /\ (forall rid' l', rid' <> rid -> now' <= now + ttl r ->
       items (Park now' rid' l' r').2 !! rid = items r' !! rid
       /\ items (Take now' rid' r').2 !! rid = items r' !! rid
       /\ items (Drop rid' r').2 !! rid = items r' !! rid
       /\ items (Sweep now' r').2 !! rid = items r' !! rid).
Proof.
  unfold Park in Hpark. destruct (expired now r) as [d1 r1] eqn:Ee.
  assert (ttl r1 = ttl r) as Ht by by injection Ee as _ <-.
  destruct (max r1 <=? _); [done|]. injection Hpark as _ Hr'.
  assert (items r' !! rid = Some {| live := l; expires := now + ttl r |}) as Hit.
  { subst r'. simpl. by rewrite lookup_insert_eq, Ht. }
  assert (forall n, n <= now + ttl r ->
    filter (fun e => ~ late n e) (items r') !! rid = items r' !! rid) as Hkeep.
  { intros n Hn. rewrite Hit. apply map_lookup_filter_Some. split; [done|].
    unfold late. simpl. lia. }
  clear Hr' Ee. split_and!; [done|..].
  - intros Hn. unfold Take. rewrite Hit. simpl. rewrite (proj2 (Z.ltb_ge _ _)) by done.
    eexists. split; [done|]. intros n2. simpl. by rewrite lookup_delete_eq.
  - intros Hn. unfold Take. rewrite Hit. simpl. rewrite (proj2 (Z.ltb_lt _ _)) by done.
    eexists. split; [done|]. intros n2. simpl. by rewrite lookup_delete_eq.
  - unfold Drop. rewrite Hit. eexists. split; [done|]. simpl. by rewrite lookup_delete_eq.
  - intros rid' l' Hne Hn. specialize (Hkeep now' Hn). split_and!.
    + unfold Park. simpl. destruct (_ <=? _); simpl; [done|].
      by rewrite lookup_insert_ne by done.
    + unfold Take. destruct (items r' !! rid') as [it|]; [|done].
      destruct (_ <? _); simpl; by rewrite lookup_delete_ne.
    + unfold Drop. destruct (items r' !! rid'); [|done]. simpl. by rewrite lookup_delete_ne.
    + done.
Qed.
End registry.

Lemma Park_Take_witness :
  let r := New 2 30 in
  exists r', Park 100 "tok" 7%nat r = (true, [], r')
  /\ items r' !! "tok" = Some {| live := 7%nat; expires := 100 + ttl r |}
  /\ (120 <= 100 + ttl r -> exists r2, Take 120 "tok" r' = (Some 7%nat, [], r2)
        /\ forall now2, Take now2 "tok" r2 = (None, [], r2))
  /\ (100 + ttl r < 120 -> exists r2, Take 120 "tok" r' = (None, [7%nat], r2)
        /\ forall now2, Take now2 "tok" r2 = (None, [], r2))
  /\ (exists r2, Drop "tok" r' = ([7%nat], r2) /\ items r2 !! "tok" = None)
  /\ (forall rid' l', rid' <> "tok" -> 120 <= 100 + ttl r ->
       items (Park 120 rid' l' r').2 !! "tok" = items r' !! "tok"
       /\ items (Take 120 rid' r').2 !! "tok" = items r' !! "tok"
       /\ items (Drop rid' r').2 !! "tok" = items r' !! "tok"
       /\ items (Sweep 120 r').2 !! "tok" = items r' !! "tok").
Proof.
  eexists. split; [reflexivity|]. exact (Park_Take 100 120 "tok" 7%nat (New 2 30) [] _ eq_refl).
Defined.
