(* ===== verification/Body.v ===== *)
(** * Loading message objects: [internal/body/body.go] and
    [internal/body/redis.go]

    [Load] fetches, decrypts and checks the object a locator names, and says why
    when there is none; [LoadMany] does it for several locators with one batched
    read where it can.

    The store, the key source, SHA-256, AES-GCM and base64 are arguments. A nonce
    whose length is not that of GCM makes [gcm.Open] panic, so the functions
    return a [run]. *)

From S2P Require Import Prelude GoString Protocol.
From stdpp Require Import options.

Local Open Scope Z_scope.

(** ** Data *)

Record Body := { Data : string; Body_Truncated : bool; Body_Unavailable : string;
                 Body_SHA256 : string }.

Definition no_body : Body :=
  {| Data := ""; Body_Truncated := false; Body_Unavailable := ""; Body_SHA256 := "" |}.

Definition unavailable (why : string) : Body :=
  {| Data := ""; Body_Truncated := false; Body_Unavailable := why; Body_SHA256 := "" |}.

Definition Available (b : Body) : bool := str_eqb (Body_Unavailable b) "".

Definition unavailableNoStore : string := "store_unconfigured".
Definition unavailableStoreError : string := "store_error".
Definition unavailableUnknownDrv : string := "unknown_driver".
Definition unavailableDecryptFail : string := "decrypt_failed".
Definition unavailableDigestFail : string := "digest_mismatch".

Inductive StoreError := ErrUnknownDriver | ErrStore.

(** A store, with the method of [MultiStore] when it has one; a nil slice of bytes
    is [None]. *)
Record StoreOps := {
  Get : string -> string -> string -> res StoreError string;
  GetMany : option (string -> string -> list string -> res StoreError (list (option string))) }.

(** What [finish] uses of the standard library; [aes_ok] accepts the keys that
    [aes.NewCipher] accepts. *)
Record Crypto := {
  sha256 : string -> string;
  aes_ok : string -> bool;
  gcm_nonce_size : Z;
  gcm_Open : string -> string -> string -> option string;
  base64_Decode : string -> option string }.

Record Loader := { store : option StoreOps; keys : option (string -> option string) }.

(** ** Hexadecimal *)

Definition hex_digit (n : Z) : ascii :=
  ascii_of_nat (Z.to_nat (if n <? 10 then 48 + n else 87 + n)).

Fixpoint hex_EncodeToString (s : string) : string :=
  match s with
  | "" => ""
  | String a r =>
      String (hex_digit (byte_val a / 16))
        (String (hex_digit (byte_val a mod 16)) (hex_EncodeToString r))
  end.

(** ** Operations *)

Section loader.
Context (crypto : Crypto) (l : Loader).

(** [decrypt]; [None] is an error. *)
Definition decrypt (enc : Enc) (raw : string) : run (option string) :=
  match keys l with
  | None => Done None
  | Some key_of =>
      if negb (str_eqb (Alg enc) "aes-256-gcm") then Done None
      else
        match key_of (KID enc) with
        | None => Done None
        | Some key =>
            if negb (aes_ok crypto key) then Done None
            else
              match base64_Decode crypto (Nonce enc) with
              | None => Done None
              | Some nonce =>
                  if negb (len nonce =? gcm_nonce_size crypto) then Panic
                  else Done (gcm_Open crypto key nonce raw)
              end
        end
  end.

(** The digest check and the result of [finish] on the plain bytes. *)
Definition check_digest (loc : Locator) (raw : string) : Body :=
  let digest := hex_EncodeToString (sha256 crypto raw) in
  let want :=
    if negb (str_eqb (ProcessedSHA256 loc) "") then ProcessedSHA256 loc
    else if Truncated loc then "" else SHA256 loc in
  if negb (str_eqb want "") && negb (str_eqb want digest)
  then unavailable unavailableDigestFail
  else {| Data := raw; Body_Truncated := Truncated loc; Body_Unavailable := "";
          Body_SHA256 := digest |}.

Definition finish (loc : Locator) (raw : string) : run Body :=
  match loc_Enc loc with
  | Some enc =>
      plain ← decrypt enc raw;
      match plain with
      | None => Done (unavailable unavailableDecryptFail)
      | Some raw => Done (check_digest loc raw)
      end
  | None => Done (check_digest loc raw)
  end.

Definition Load (loc : option Locator) : run Body :=
  match loc with
  | None => Done no_body
  | Some loc =>
      if negb (str_eqb (Unavailable loc) "") then Done (unavailable (Unavailable loc))
      else if negb (str_eqb (Driver loc) "") then
        match store l with
        | None => Done (unavailable unavailableNoStore)
        | Some st =>
            match Get st (Driver loc) (loc_Store loc) (Key loc) with
            | Err ErrUnknownDriver => Done (unavailable unavailableUnknownDrv)
            | Err ErrStore => Done (unavailable unavailableStoreError)
            | Ok raw => finish loc raw
            end
        end
      else Done no_body
  end.

(** *** [LoadMany] *)

(** The variables of the first loop: the results so far, and the batch. *)
Record Batch := {
  out : list Body; b_keys : list string; at_ : list nat; driver : string;
  b_store : string; batched : bool }.

(** The locator is read from the store. *)
Definition stored (loc : option Locator) : option Locator :=
  loc ← loc;
  if negb (str_eqb (Unavailable loc) "") || str_eqb (Driver loc) "" then None else Some loc.

Definition many_step (b : Batch) (i : nat) (loc : option Locator) : run Batch :=
  let load_now :=
    x ← Load loc;
    Done {| out := <[i := x]> (out b); b_keys := b_keys b; at_ := at_ b; driver := driver b;
            b_store := b_store b; batched := batched b |} in
  match stored loc with
  | None => load_now
  | Some lc =>
      if batched b && (negb (str_eqb (Driver lc) (driver b))
                       || negb (str_eqb (loc_Store lc) (b_store b)))
      then load_now
      else Done {| out := out b; b_keys := b_keys b ++ [Key lc]; at_ := at_ b ++ [i];
                   driver := Driver lc; b_store := loc_Store lc; batched := true |}
  end.

Fixpoint many_loop (b : Batch) (i : nat) (locs : list (option Locator)) : run Batch :=
  match locs with
  | [] => Done b
  | loc :: locs => b ← many_step b i loc; many_loop b (S i) locs
  end.

(** [for _, i := range at { out[i] = f(i) }] *)
Fixpoint write_each (f : nat -> run Body) (at_ : list nat) (out : list Body) : run (list Body) :=
  match at_ with
  | [] => Done out
  | i :: at_ => x ← f i; write_each f at_ (<[i := x]> out)
  end.

Definition load_at (locs : list (option Locator)) (i : nat) : run Body :=
  Load (default None (locs !! i)).

(** [for n, i := range at] over the answers of [GetMany]. *)
Fixpoint write_raws (locs : list (option Locator)) (at_ : list nat)
    (raws : list (option string)) (out : list Body) : run (list Body) :=
  match at_, raws with
  | [], _ => Done out
  | _ :: _, [] => Panic
  | i :: at_, raw :: raws =>
      x ← match raw with
          | None => Done (unavailable unavailableStoreError)
          | Some raw =>
              match locs !! i with
              | Some (Some loc) => finish loc raw
              | _ => Panic
              end
          end;
      write_raws locs at_ raws (<[i := x]> out)
  end.

Definition LoadMany (locs : list (option Locator)) : run (list Body) :=
  let zero := replicate (length locs) no_body in
  match store l ≫= GetMany with
  | None => write_each (load_at locs) (seq 0 (length locs)) zero
  | Some getMany =>
      b ← many_loop {| out := zero; b_keys := []; at_ := []; driver := ""; b_store := "";
                       batched := false |} 0 locs;
      if (length (b_keys b) <? 2)%nat then write_each (load_at locs) (at_ b) (out b)
      else
        match getMany (driver b) (b_store b) (b_keys b) with
        | Err ErrUnknownDriver =>
            write_each (fun _ => Done (unavailable unavailableUnknownDrv)) (at_ b) (out b)
        | Err ErrStore =>
            write_each (fun _ => Done (unavailable unavailableStoreError)) (at_ b) (out b)
        | Ok raws => write_raws locs (at_ b) raws (out b)
        end
  end.
End loader.

(** *** [RedisStore]: the client's [Get] and [MGet] are arguments *)

Definition redis_Get (get : string -> option string) (driver store key : string) :
    res StoreError string :=
  if negb (str_eqb driver "redis") then Err ErrUnknownDriver
  else match get key with Some v => Ok v | None => Err ErrStore end.

Definition redis_GetMany (mget : list string -> option (list (option string)))
    (driver store : string) (keys : list string) : res StoreError (list (option string)) :=
  if negb (str_eqb driver "redis") then Err ErrUnknownDriver
  else if bool_decide (keys = []) then Ok []
  else
    match mget keys with
    | None => Err ErrStore
    | Some vals =>
        if negb (length vals =? length keys)%nat then Err ErrStore else Ok vals
    end.

Definition RedisStore (get : string -> option string)
    (mget : list string -> option (list (option string))) : StoreOps :=
  {| Get := redis_Get get; GetMany := Some (redis_GetMany mget) |}.

(** ** Specification *)

(** What a batched read promises to its client: each key has the answer that a
    single read of it has. *)
Class BatchStore (st : StoreOps) : Prop :=
  batch_law : forall getMany, GetMany st = Some getMany -> forall d s ks,
    match getMany d s ks with
    | Ok raws =>
        Forall2 (fun k r => Get st d s k
          = match r with Some v => Ok v | None => Err ErrStore end) ks raws
    | Err e => Forall (fun k => Get st d s k = Err e) ks
    end.

(** A Redis client keeps the promise when [MGET] answers for every key what [GET]
    does. *)
Lemma RedisStore_batch get mget :
  (forall ks, mget ks = Some (get <$> ks)) -> BatchStore (RedisStore get mget).
Proof.
  intros Hm getMany [= <-] d s ks. simpl. unfold redis_GetMany, redis_Get.
  destruct (negb (str_eqb d "redis")) eqn:Ed.
  { apply list.Forall_forall. done. }
  destruct (bool_decide (ks = [])) eqn:E; [bool_prop; by subst|].
  rewrite Hm, length_fmap, Nat.eqb_refl. simpl. apply Forall2_fmap_r, Forall_Forall2_diag.
  apply list.Forall_forall. intros k _. simpl. by destruct (get k).
Qed.

(** ** Lemmas *)

(** Hexadecimal is injective. *)
Lemma byte_val_of_nat n : (n < 256)%nat -> byte_val (ascii_of_nat n) = Z.of_nat n.
Proof. intros. unfold byte_val. by rewrite nat_ascii_embedding. Qed.

Lemma byte_val_range a : 0 <= byte_val a < 256.
Proof. unfold byte_val. pose proof (nat_ascii_bounded a). lia. Qed.

Lemma hex_digit_inj x y : 0 <= x < 16 -> 0 <= y < 16 -> hex_digit x = hex_digit y -> x = y.
Proof.
  intros Hx Hy H. apply (f_equal byte_val) in H. unfold hex_digit in H.
  rewrite !byte_val_of_nat in H by (destruct_ifs; lia).
  revert H. destruct (Z.ltb_spec x 10), (Z.ltb_spec y 10); lia.
Qed.

Lemma hex_EncodeToString_inj s t : hex_EncodeToString s = hex_EncodeToString t -> s = t.
Proof.
  revert t. induction s as [|a s IH]; intros [|b t]; try done. cbn [hex_EncodeToString].
  intros H. injection H as H1 H2 H3. apply IH in H3 as ->. f_equal.
  pose proof (byte_val_range a). pose proof (byte_val_range b).
  apply hex_digit_inj in H1, H2;
    try (split; [|]; try apply Z.mod_pos_bound; try apply Z.div_pos;
         try apply Z.div_lt_upper_bound; lia).
  assert (byte_val a = byte_val b) as Hab by (rewrite (Z.div_mod (byte_val a) 16), (Z.div_mod (byte_val b) 16); lia).
  unfold byte_val in Hab. apply Nat2Z.inj in Hab. apply (f_equal ascii_of_nat) in Hab.
  by rewrite !ascii_nat_embedding in Hab.
Qed.

Section loader_lemmas.
Context (crypto : Crypto) (l : Loader).

Lemma write_each_app f a1 a2 out :
  write_each f (a1 ++ a2) out = (o ← write_each f a1 out; write_each f a2 o).
Proof.
  revert out. induction a1 as [|i a1 IH]; intros out; simpl; [done|].
  destruct (f i); simpl; [apply IH|done].
Qed.

Lemma write_each_perm f a1 a2 out :
  a1 ≡ₚ a2 -> NoDup a1 -> write_each f a1 out = write_each f a2 out.
Proof.
  intros Hp. revert out. induction Hp as [|i a1 a2 Hp IH|i j a|a1 a2 a3 H1 IH1 H2 IH2];
    intros out Hn; simpl.
  - done.
  - apply list.NoDup_cons in Hn as [_ Hn]. destruct (f i); simpl; auto.
  - apply list.NoDup_cons in Hn as [Hij _].
    destruct (f i), (f j); simpl; try done. rewrite list_insert_insert_ne; [done|]. set_solver.
  - rewrite IH1 by done. apply IH2. by rewrite <- H1.
Qed.

Lemma write_each_ext f g a out :
  (forall i, i ∈ a -> f i = g i) -> write_each f a out = write_each g a out.
Proof.
  revert out. induction a as [|i a IH]; intros out H; simpl; [done|].
  rewrite (H i) by set_solver. destruct (g i); simpl; [|done]. apply IH. set_solver.
Qed.

Lemma write_each_length f a out out' :
  write_each f a out = Done out' -> length out' = length out.
Proof.
  revert out. induction a as [|i a IH]; intros out; simpl; [by intros [= <-]|].
  destruct (f i); simpl; [|done]. intros ->%IH. apply length_insert.
Qed.

Lemma write_raws_length locs a raws out out' :
  write_raws crypto l locs a raws out = Done out' -> length out' = length out.
Proof.
  revert raws out. induction a as [|i a IH]; intros [|r raws] out; simpl;
    [by intros [= <-]|by intros [= <-]|done|].
  destruct r as [raw|]; simpl; [|by intros ->%IH; apply length_insert].
  destruct (locs !! i) as [[lc|]|]; simpl; [|done..].
  destruct (finish _ _ _ _); simpl; [|done]. intros ->%IH. apply length_insert.
Qed.

Lemma many_loop_length locs b i b' :
  many_loop crypto l b i locs = Done b' -> length (out b') = length (out b).
Proof.
  revert b i. induction locs as [|loc locs IH]; intros b i; simpl; [by intros [= <-]|].
  destruct (many_step crypto l b i loc) as [b1|] eqn:E; simpl; [|done]. intros ->%IH.
  unfold many_step in E. destruct (stored loc) as [lc|].
  - destruct (_ && _); [|by simplify_eq]. destruct (Load _ _ _); simplify_eq/=.
    apply length_insert.
  - destruct (Load _ _ _); simplify_eq/=. apply length_insert.
Qed.

(** [LoadMany] gives one body for each locator. *)
Lemma LoadMany_length locs got :
  LoadMany crypto l locs = Done got -> length got = length locs.
Proof.
  unfold LoadMany. cbv zeta. destruct (store l ≫= GetMany) as [getMany|].
  - destruct (many_loop _ _ _ _ _) as [b|] eqn:E; simpl; [|done].
    apply many_loop_length in E. simpl in E. rewrite length_replicate in E.
    destruct (_ <? _)%nat; [by intros ->%write_each_length|].
    destruct (getMany _ _ _) as [raws|[]];
      [by intros ->%write_raws_length|by intros ->%write_each_length..].
  - intros ->%write_each_length. apply length_replicate.
Qed.

Definition set_out (o : list Body) (b : Batch) : Batch :=
  {| out := o; b_keys := b_keys b; at_ := at_ b; driver := driver b; b_store := b_store b;
     batched := batched b |}.

(** The batch holds the keys of the locators at its positions, all of one store. *)
Record batch_ok (locs : list (option Locator)) (b : Batch) : Prop := {
  bo_at : Forall2 (fun i k => exists lc, locs !! i = Some (Some lc)
            /\ stored (Some lc) = Some lc /\ Key lc = k /\ Driver lc = driver b
            /\ loc_Store lc = b_store b) (at_ b) (b_keys b);
  bo_batched : at_ b <> [] -> batched b = true }.

Lemma stored_same loc lc : stored loc = Some lc -> loc = Some lc.
Proof.
  unfold stored. destruct loc as [x|]; simpl; [|done]. destruct (_ || _); by intros [= ->].
Qed.

Lemma many_step_spec locs b i loc :
  locs !! i = Some loc -> batch_ok locs b ->
  exists direct defer b', direct ++ defer = [i] /\ at_ b' = at_ b ++ defer
    /\ batch_ok locs b'
    /\ forall o0, many_step crypto l (set_out o0 b) i loc
       = (o ← write_each (load_at crypto l locs) direct o0; Done (set_out o b')).
Proof.
  intros Hi Hbo. pose proof Hbo as [Hat Hb].
  assert ((forall o0, many_step crypto l (set_out o0 b) i loc
      = (x ← Load crypto l loc; Done (set_out (<[i := x]> o0) b))) ->
    exists direct defer b', direct ++ defer = [i] /\ at_ b' = at_ b ++ defer
      /\ batch_ok locs b'
      /\ forall o0, many_step crypto l (set_out o0 b) i loc
         = (o ← write_each (load_at crypto l locs) direct o0; Done (set_out o b'))) as Hnow.
  { intros Hstep. exists [i], [], b. rewrite !app_nil_r. split_and!; [done..|].
    intros o0. rewrite Hstep. simpl. unfold load_at. rewrite Hi. simpl.
    by destruct (Load crypto l loc). }
  destruct (stored loc) as [lc|] eqn:Es.
  2: { apply Hnow. intros o0. unfold many_step. by rewrite Es. }
  destruct (batched b && (negb (str_eqb (Driver lc) (driver b))
                          || negb (str_eqb (loc_Store lc) (b_store b)))) eqn:E.
  { apply Hnow. intros o0. unfold many_step. rewrite Es. simpl. by rewrite E. }
  exists [], [i], {| out := out b; b_keys := b_keys b ++ [Key lc]; at_ := at_ b ++ [i];
                     driver := Driver lc; b_store := loc_Store lc; batched := true |}.
  split_and!; [done..| |].
  - constructor; [|done]. simpl. apply Forall2_app.
    + destruct (decide (at_ b = [])) as [Ea|Ea].
      { rewrite Ea in *. inversion Hat. constructor. }
      rewrite Hb in E by done. simpl in E.
      rewrite orb_false_iff, !negb_false_iff, !str_eqb_true in E. destruct E as [-> ->].
      exact Hat.
    + constructor; [|done]. exists lc. pose proof (stored_same _ _ Es) as ->. done.
  - intros o0. unfold many_step. rewrite Es. simpl. by rewrite E.
Qed.

Lemma many_loop_spec locs b i rest :
  drop i locs = rest -> batch_ok locs b ->
  exists direct defer b', direct ++ defer ≡ₚ seq i (length rest) /\ at_ b' = at_ b ++ defer
    /\ batch_ok locs b'
    /\ forall o0, many_loop crypto l (set_out o0 b) i rest
       = (o ← write_each (load_at crypto l locs) direct o0; Done (set_out o b')).
Proof.
  revert b i. induction rest as [|loc rest IH]; intros b i Hd Hb.
  { exists [], [], b. rewrite !app_nil_r. by split_and!. }
  assert (locs !! i = Some loc) as Hi.
  { rewrite <- (Nat.add_0_r i), <- lookup_drop. by rewrite Hd. }
  assert (drop (S i) locs = rest) as Hd'.
  { apply (f_equal (drop 1)) in Hd. rewrite drop_drop, Nat.add_1_r in Hd. done. }
  destruct (many_step_spec locs b i loc Hi Hb) as (d1 & f1 & b1 & Hp1 & Ha1 & Hb1 & E1).
  destruct (IH b1 (S i) Hd' Hb1) as (d2 & f2 & b2 & Hp2 & Ha2 & Hb2 & E2).
  exists (d1 ++ d2), (f1 ++ f2), b2. split_and!; [| |done|].
  - change (seq i (length (loc :: rest))) with ([i] ++ seq (S i) (length rest)).
    rewrite <- Hp1, <- Hp2, <- !(assoc_L (++)). apply Permutation_app_head.
    by rewrite !(assoc_L (++)), (Permutation_app_comm f1).
  - by rewrite Ha2, Ha1, <- (assoc_L (++)).
  - intros o0. cbn [many_loop]. rewrite E1, write_each_app.
    destruct (write_each _ d1 o0) as [o|]; simpl; [apply E2|done].
Qed.

(** The answers of a batched read are those of single reads. *)
Lemma write_raws_each locs at_ ks raws d s st out :
  store l = Some st ->
  Forall2 (fun i k => exists lc, locs !! i = Some (Some lc)
    /\ stored (Some lc) = Some lc /\ Key lc = k /\ Driver lc = d /\ loc_Store lc = s) at_ ks ->
  Forall2 (fun k r => Get st d s k = match r with Some v => Ok v | None => Err ErrStore end)
    ks raws ->
  write_raws crypto l locs at_ raws out = write_each (load_at crypto l locs) at_ out.
Proof.
  intros Hst Hat. revert raws out.
  induction Hat as [|i k at_ ks (lc & Hi & Hs & Hk & Hd & Hss) Hat IH]; intros raws out Hr;
    inversion Hr as [|? r ? raws' Hg Hr']; subst; simpl; [done|].
  assert (load_at crypto l locs i
    = match r with
      | None => Done (unavailable unavailableStoreError)
      | Some raw => finish crypto l lc raw
      end) as ->.
  { unfold load_at. rewrite Hi. simpl. unfold stored in Hs. simpl in Hs.
    destruct (negb (str_eqb (Unavailable lc) "")); [done|].
    destruct (str_eqb (Driver lc) ""); [done|]. simpl. rewrite Hst, Hg. by destruct r. }
  rewrite Hi. destruct r as [raw|]; simpl; [|by rewrite IH].
  destruct (finish crypto l lc raw); simpl; [by rewrite IH|done].
Qed.

Lemma load_at_error locs i k d s st e :
  store l = Some st -> Get st d s k = Err e ->
  (exists lc, locs !! i = Some (Some lc)
    /\ stored (Some lc) = Some lc /\ Key lc = k /\ Driver lc = d /\ loc_Store lc = s) ->
  load_at crypto l locs i
  = Done (unavailable (match e with ErrUnknownDriver => unavailableUnknownDrv
                                  | ErrStore => unavailableStoreError end)).
Proof.
  intros Hst Hg (lc & Hi & Hs & <- & <- & <-). unfold load_at. rewrite Hi. simpl.
  unfold stored in Hs. simpl in Hs.
  destruct (negb (str_eqb (Unavailable lc) "")); [done|].
  destruct (str_eqb (Driver lc) ""); [done|]. simpl. rewrite Hst, Hg. by destruct e.
Qed.

(** The first loop of [LoadMany] from its initial state. *)
Definition batch0 (n : nat) : Batch :=
  {| out := replicate n no_body; b_keys := []; at_ := []; driver := ""; b_store := "";
     batched := false |}.
End loader_lemmas.

(** A store of one object and a locator of it, for the examples; the digest is the
    text itself in place of SHA-256. *)
Definition sample_get (key : string) : option string :=
  if str_eqb key "k1" then Some "hello" else None.

Definition sample_store : StoreOps := RedisStore sample_get (fun ks => Some (sample_get <$> ks)).

#[export] Instance sample_batch : BatchStore sample_store.
Proof. apply RedisStore_batch. done. Qed.

Definition sample_crypto : Crypto :=
  {| sha256 := fun s => s; aes_ok := fun k => len k =? 32; gcm_nonce_size := 12;
     gcm_Open := fun _ _ _ => None; base64_Decode := fun s => Some s |}.

Definition sample_locator (key : string) : Locator :=
  {| loc_Store := "main"; Driver := "redis"; Key := key; Unavailable := ""; Size := 5;
     DeclaredSize := 5; SHA256 := "68656c6c6f"; ProcessedSHA256 := ""; Transformed := false;
     Complete := true; Truncated := false; Encoding := ""; ExpiresAt := 0; Hint := "";
     loc_Enc := None |}.

Definition sample_loader : Loader := {| store := Some sample_store; keys := None |}.

Definition sample_body : Body :=
  {| Data := "hello"; Body_Truncated := false; Body_Unavailable := "";
     Body_SHA256 := "68656c6c6f" |}.

(** The batched read is the single reads. *)
Lemma LoadMany_each crypto st ks locs (Hst : BatchStore st) :
  let l := {| store := Some st; keys := ks |} in
  LoadMany crypto l locs
  = write_each (load_at crypto l locs) (seq 0 (length locs))
      (replicate (length locs) no_body).
Proof.
  intros l. unfold LoadMany. cbn [store l mbind option_bind].
  destruct (GetMany st) as [getMany|] eqn:Eg; [|done].
  assert (batch_ok locs (batch0 (length locs))) as Hb0 by by constructor.
  destruct (many_loop_spec crypto l locs (batch0 (length locs)) 0 locs eq_refl Hb0)
    as (direct & defer & b & Hp & Ha & [Hat _] & E).
  simpl in Ha. specialize (E (replicate (length locs) no_body)).
  change (set_out _ (batch0 (length locs))) with (batch0 (length locs)) in E.
  fold (batch0 (length locs)). cbv zeta. rewrite E.
  rewrite <- (write_each_perm _ _ _ _ Hp), write_each_app.
  2: { rewrite Hp. apply NoDup_seq. }
  destruct (write_each _ direct _) as [o|]; simpl; [|done]. rewrite Ha in *.
  destruct (length (b_keys b) <? 2)%nat; [done|].
  pose proof (Hst getMany Eg (driver b) (b_store b) (b_keys b)) as Hlaw.
  destruct (getMany _ _ _) as [raws|e].
  - by eapply write_raws_each.
  - rewrite list.Forall_forall in Hlaw.
    assert (forall i, i ∈ defer -> load_at crypto l locs i
      = Done (unavailable (match e with ErrUnknownDriver => unavailableUnknownDrv
                                      | ErrStore => unavailableStoreError end))) as He.
    { intros i (n & Hn)%list_elem_of_lookup.
      destruct (Forall2_lookup_l _ _ _ _ _ Hat Hn) as (k & Hk & Hlc).
      eapply load_at_error; [done| |exact Hlc]. eapply Hlaw, list_elem_of_lookup; eauto. }
    destruct e; apply write_each_ext; intros i Hi; by rewrite He.
Qed.

Lemma write_all f bs pre :
  (forall i b, bs !! i = Some b -> f (length pre + i)%nat = Done b) ->
  write_each f (seq (length pre) (length bs)) (pre ++ replicate (length bs) no_body)
  = Done (pre ++ bs).
Proof.
  revert pre. induction bs as [|b bs IH]; intros pre H; simpl; [done|].
  rewrite <- (Nat.add_0_r (length pre)) at 1. rewrite (H 0%nat b) by done. simpl.
  rewrite <- (Nat.add_0_r (length pre)) at 2. rewrite insert_app_r. simpl.
  specialize (IH (pre ++ [b])). rewrite length_app in IH. simpl in IH.
  rewrite Nat.add_1_r, <- !(assoc_L (++)) in IH. apply IH.
  intros i b' Hi. specialize (H (S i) b' Hi). by rewrite Nat.add_succ_r in H.
Qed.

Lemma LoadMany_loads crypto st ks locs bs (Hst : BatchStore st) :
  let l := {| store := Some st; keys := ks |} in
  Forall2 (fun loc b => Load crypto l loc = Done b) locs bs ->
  LoadMany crypto l locs = Done bs.
Proof.
  intros l H. unfold l. rewrite LoadMany_each by done. fold l.
  rewrite (list.Forall2_length _ _ _ H). apply (write_all _ bs []).
  intros i b Hb. destruct (Forall2_lookup_r _ _ _ _ _ H Hb) as (loc & Hl & Hload).
  unfold load_at. simpl. by rewrite Hl.
Qed.

(** An available body has the digest that the locator gives. *)
Lemma check_digest_available crypto loc plain b :
  check_digest crypto loc plain = b -> Available b = true ->
  Data b = plain
  /\ Body_SHA256 b = hex_EncodeToString (sha256 crypto (Data b))
  /\ (ProcessedSHA256 loc <> "" -> Body_SHA256 b = ProcessedSHA256 loc)
  /\ (ProcessedSHA256 loc = "" -> Truncated loc = false -> SHA256 loc <> "" ->
      Body_SHA256 b = SHA256 loc)
  /\ Body_Truncated b = Truncated loc.
Proof.
  intros <- Hav. unfold check_digest in *. cbv zeta in *.
  set (digest := hex_EncodeToString (sha256 crypto plain)) in *.
  destruct (negb (str_eqb _ "") && negb (str_eqb _ digest)) eqn:E; [done|]. simpl.
  split_and!; [done|done| | |done].
  - intros Hp%str_eqb_false. rewrite Hp in E. simpl in E. rewrite Hp in E. simpl in E.
    by rewrite negb_false_iff, str_eqb_true in E.
  - intros Hp Ht Hs%str_eqb_false. rewrite Hp, Ht in E. simpl in E. rewrite Hs in E. simpl in E.
    by rewrite negb_false_iff, str_eqb_true in E.
Qed.

(** What decrypts was authenticated under the named key and nonce. *)
Lemma decrypt_some crypto l enc raw p :
  decrypt crypto l enc raw = Done (Some p) ->
  Alg enc = "aes-256-gcm"
  /\ exists key_of key nonce, keys l = Some key_of /\ key_of (KID enc) = Some key
     /\ base64_Decode crypto (Nonce enc) = Some nonce
     /\ gcm_Open crypto key nonce raw = Some p.
Proof.
  unfold decrypt. destruct (keys l) as [key_of|]; [|done].
  destruct (str_eqb (Alg enc) "aes-256-gcm") eqn:Ea; [|done]. simpl.
  destruct (key_of (KID enc)) as [key|] eqn:Ek; [|done]. destruct (aes_ok crypto key); [|done]. simpl.
  destruct (base64_Decode crypto (Nonce enc)) as [nonce|] eqn:En; [|done].
  destruct (len nonce =? gcm_nonce_size crypto); [|done]. intros [= Ho].
  apply str_eqb_true in Ea. split; [done|]. by exists key_of, key, nonce.
Qed.

(** ** Properties *)

(** C29: The batched read is an optimisation only: over a store that keeps the
    promise of [BatchStore], [LoadMany] gives what loading each locator on its own
    gives, in the same positions, whatever the mix of locators, drivers and
    stores. *)
Theorem LoadMany_is_Load crypto st ks locs (Hst : BatchStore st) :
  let l := {| store := Some st; keys := ks |} in
  LoadMany crypto l locs
  = write_each (load_at crypto l locs) (seq 0 (length locs))
      (replicate (length locs) no_body).
Proof. exact (LoadMany_each crypto st ks locs Hst). Qed.

Lemma LoadMany_is_Load_witness :
  let locs := [Some (sample_locator "k1"); None; Some (sample_locator "k2")] in
  LoadMany sample_crypto sample_loader locs
  = write_each (load_at sample_crypto sample_loader locs) (seq 0 (length locs))
      (replicate (length locs) no_body).
Proof.
  exact (LoadMany_is_Load sample_crypto sample_store None
    [Some (sample_locator "k1"); None; Some (sample_locator "k2")] sample_batch).
Defined.

(** C17: Nothing is inspected that was not checked: when [Load] gives an available
    body for a stored object, its bytes are the stored ones, or, for an encrypted
    object, what AES-GCM authenticated under the named key and nonce; they have the
    reported digest, which is the one the locator gives, unless it gives none or
    the object was truncated and not processed; and the truncation is passed on. *)
Theorem Load_integrity crypto l loc b
    (Hload : Load crypto l (Some loc) = Done b) (Hav : Available b = true)
    (Hdrv : Driver loc <> "") :
  exists st raw, store l = Some st
    /\ Get st (Driver loc) (loc_Store loc) (Key loc) = Ok raw
    /\ match loc_Enc loc with
       | None => Data b = raw
       | Some enc => Alg enc = "aes-256-gcm"
           /\ exists key_of key nonce, keys l = Some key_of /\ key_of (KID enc) = Some key
              /\ base64_Decode crypto (Nonce enc) = Some nonce
              /\ gcm_Open crypto key nonce raw = Some (Data b)
       end
    /\ Body_SHA256 b = hex_EncodeToString (sha256 crypto (Data b))
    /\ (ProcessedSHA256 loc <> "" -> Body_SHA256 b = ProcessedSHA256 loc)
    /\ (ProcessedSHA256 loc = "" -> Truncated loc = false -> SHA256 loc <> "" ->
        Body_SHA256 b = SHA256 loc)
    /\ Body_Truncated b = Truncated loc.
Proof.
  unfold Load in Hload.
  destruct (negb (str_eqb (Unavailable loc) "")) eqn:Eu.
  { simplify_eq. unfold Available in Hav. simpl in Hav. by rewrite Hav in Eu. }
  apply str_eqb_false in Hdrv. rewrite Hdrv in Hload. simpl in Hload.
  destruct (store l) as [st|]; [|by simplify_eq].
  destruct (Get st _ _ _) as [raw|[]] eqn:Eg; [|by simplify_eq..].
  exists st, raw. do 2 (split; [done|]). unfold finish in Hload.
  destruct (loc_Enc loc) as [enc|];
    [|injection Hload as Hb; by apply check_digest_available in Hb].
  destruct (decrypt crypto l enc raw) as [[p|]|] eqn:Ed; simpl in Hload; [|by simplify_eq|done].
  injection Hload as Hb. apply check_digest_available in Hb as [Hd Hrest]; [|done].
  split; [|done]. rewrite Hd. by apply decrypt_some in Ed.
Qed.

Lemma Load_integrity_witness :
  let loc := sample_locator "k1" in
  let b := sample_body in
  exists st raw, Some sample_store = Some st
    /\ Get st (Driver loc) (loc_Store loc) (Key loc) = Ok raw
    /\ match loc_Enc loc with
       | None => Data b = raw
       | Some enc => Alg enc = "aes-256-gcm"
           /\ exists key_of key nonce, keys sample_loader = Some key_of
              /\ key_of (KID enc) = Some key
              /\ base64_Decode sample_crypto (Nonce enc) = Some nonce
              /\ gcm_Open sample_crypto key nonce raw = Some (Data b)
       end
    /\ Body_SHA256 b = hex_EncodeToString (sha256 sample_crypto (Data b))
    /\ (ProcessedSHA256 loc <> "" -> Body_SHA256 b = ProcessedSHA256 loc)
    /\ (ProcessedSHA256 loc = "" -> Truncated loc = false -> SHA256 loc <> "" ->
        Body_SHA256 b = SHA256 loc)
    /\ Body_Truncated b = Truncated loc.
Proof.
  apply (Load_integrity sample_crypto sample_loader (sample_locator "k1") sample_body);
    [reflexivity|reflexivity|discriminate].
Defined.
