(* ===== verification/Rules.v ===== *)
(** * The profile registry: [internal/rules/rules.go]

    The rule profiles by name, each an engine with its policy. A reload builds a
    whole new set and swaps it in, or fails and leaves the old one. The directory
    listing, the globbing, the engine constructor, the reading of files and the YAML
    decoder are arguments of [build]. *)

From S2P Require Import Prelude GoString Apply PriorRules Policy.
From stdpp Require Import options sorting.

Local Open Scope Z_scope.

Definition DefaultProfile : string := "default".
Definition TreeDir : string := "http".

(** ** Data *)

Record profile := { engine : Engine; policy : PolicyFile }.

Abbreviation Set_ := (gmap string profile).

Record Registry := { dir : string; current : Set_; unknown : gmap string Z }.

Record Selection := { sel_Profile : string; Unknown : bool }.

(** ** Lookup *)

Definition or_default (name : string) : string :=
  if str_eqb name "" then DefaultProfile else name.

(** [r.unknown[profile]++] *)
Definition countUnknown (name : string) (r : Registry) : Registry :=
  {| dir := dir r; current := current r;
     unknown := <[name := wrap64 (default 0 (unknown r !! name) + 1)]> (unknown r) |}.

Definition Select (name : string) (r : Registry) :
    option Engine * Selection * Registry :=
  let name := or_default name in
  match current r !! name with
  | Some p => (Some (engine p), {| sel_Profile := name; Unknown := false |}, r)
  | None => (None, {| sel_Profile := name; Unknown := true |}, countUnknown name r)
  end.

Definition PriorRules_ (name : string) (r : Registry) : list Rule :=
  match current r !! or_default name with
  | Some p => p_Rules (policy p)
  | None => []
  end.

Definition Outcomes_ (name : string) (r : Registry) : list Outcome :=
  match current r !! or_default name with
  | Some p => p_Outcomes (policy p)
  | None => []
  end.

#[global] Instance string_le_dec : RelDecision String.le := fun s t => _.

Definition sort_Strings (l : list string) : list string := merge_sort String.le l.

(** [Names] and [RuleCount] *)
Definition Names_ (s : Set_) : list string := sort_Strings ((map_to_list s).*1).

Definition RuleCount_ (s : Set_) (name : string) : Z :=
  match s !! name with Some p => RuleCount (engine p) | None => 0 end.

(** ** Building *)

(** What the file system and the other packages answer for a directory. *)
Record Sources := {
  readDir : string -> option (list (string * bool));   (* name, is a directory *)
  globConf : string -> option (list string);           (* [*.conf] of a profile *)
  newEngine : list string -> option Engine;
  readFile : string -> option (res unit string);       (* [None]: it does not exist *)
  yaml : string -> option (list Rule * list Outcome) }.

Inductive BuildError :=
| NoTree | BadGlob (name : string) | NoConf (name : string) | BadEngine (name : string)
| BadPolicy (name : string) (e : FileError) | NoDefault.

(** One entry of the loop of [buildTree]. *)
Definition build_entry (src : Sources) (treeDir : string) (s : Set_) (e : string * bool) :
    res BuildError Set_ :=
  let '(name, is_dir) := e in
  if negb is_dir then Ok s
  else
    match globConf src (path_join treeDir name) with
    | None => Err (BadGlob name)
    | Some files =>
        if bool_decide (files = []) then Err (NoConf name)
        else
          match newEngine src (sort_Strings files) with
          | None => Err (BadEngine name)
          | Some eng =>
              match LoadDir (readFile src) (yaml src) (path_join treeDir name) with
              | Err e => Err (BadPolicy name e)
              | Ok policy => Ok (<[name := {| engine := eng; policy := policy |}]> s)
              end
          end
    end.

Fixpoint build_entries (src : Sources) (treeDir : string) (s : Set_)
    (es : list (string * bool)) : res BuildError Set_ :=
  match es with
  | [] => Ok s
  | e :: es => s ← build_entry src treeDir s e; build_entries src treeDir s es
  end.

Definition buildTree (src : Sources) (dir tree : string) : res BuildError Set_ :=
  let treeDir := path_join dir tree in
  match readDir src treeDir with
  | None => Err NoTree
  | Some es => build_entries src treeDir ∅ es
  end.

Definition build (src : Sources) (dir : string) : res BuildError Set_ :=
  s ← buildTree src dir TreeDir;
  fail_if (negb (is_some (s !! DefaultProfile))) NoDefault;;
  mret s.

(** [ReloadFrom]; the error leaves the registry as it was. *)
Definition ReloadFrom (src : Sources) (d : string) (r : Registry) : res BuildError Registry :=
  s ← build src d;
  Ok {| dir := d; current := s; unknown := unknown r |}.

Definition Reload (src : Sources) (r : Registry) : res BuildError Registry :=
  ReloadFrom src (dir r) r.

Definition HasDefault (src : Sources) (d : string) : bool :=
  if str_eqb d "" then false
  else match globConf src (path_join (path_join d TreeDir) DefaultProfile) with
       | Some entries => nonempty entries
       | None => false
       end.

Definition New (src : Sources) (profilesDir dataDir : string) : res BuildError Registry :=
  let d := if HasDefault src dataDir then dataDir else profilesDir in
  Reload src {| dir := d; current := ∅; unknown := ∅ |}.

(** ** Specification *)

(** The profile that an entry of the tree describes. *)
Definition describes (src : Sources) (treeDir name : string) (p : profile) : Prop :=
  exists files, globConf src (path_join treeDir name) = Some files /\ files <> []
    /\ newEngine src (sort_Strings files) = Some (engine p)
    /\ LoadDir (readFile src) (yaml src) (path_join treeDir name) = Ok (policy p).

(** A registry that can serve: the default profile exists. *)
Definition serves (r : Registry) : Prop := is_Some (current r !! DefaultProfile).

(** Every policy of the registry is one that loads. *)
Definition rules_loaded (r : Registry) : Prop :=
  map_Forall (fun _ p => loaded (p_Outcomes (policy p))) (current r).

Lemma loaded_none : loaded [].
Proof. by exists []. Qed.

Lemma LoadDir_loaded read unmarshal dir p :
  LoadDir read unmarshal dir = Ok p -> loaded (p_Outcomes p).
Proof.
  unfold LoadDir. intros ([p' found] & H & [= <-])%res_bind_ok. by apply loadFile_loaded in H as [? _].
Qed.

Lemma build_entries_loaded src treeDir es s0 s :
  map_Forall (fun _ p => loaded (p_Outcomes (policy p))) s0 ->
  build_entries src treeDir s0 es = Ok s ->
  map_Forall (fun _ p => loaded (p_Outcomes (policy p))) s.
Proof.
  revert s0. induction es as [|[name is_dir] es IH]; intros s0 Hs H; simpl in H; [by simplify_eq|].
  apply res_bind_ok in H as (s1 & H1 & H). apply (IH s1); [|done].
  destruct is_dir; simpl in H1; [|by simplify_eq].
  destruct (globConf _ _) as [files|]; [|done]. destruct (bool_decide _); [done|].
  destruct (newEngine _ _) as [eng|]; [|done].
  destruct (LoadDir _ _ _) as [pol|] eqn:Ep; [|done]. simplify_eq.
  apply map_Forall_insert_2; [|done]. by eapply LoadDir_loaded.
Qed.

Lemma ReloadFrom_loaded src d r r' : ReloadFrom src d r = Ok r' -> rules_loaded r'.
Proof.
  unfold ReloadFrom, build, buildTree. intros (s & H & [= <-])%res_bind_ok.
  apply res_bind_ok in H as (s1 & H1 & H). apply res_bind_ok in H as (u & _ & [= <-]).
  destruct (readDir _ _) as [es|]; [|done].
  by apply (build_entries_loaded _ _ _ _ _ (map_Forall_empty _) H1).
Qed.

Lemma Outcomes_loaded name r : rules_loaded r -> loaded (Outcomes_ name r).
Proof.
  intros Hr. unfold Outcomes_. destruct (current r !! or_default name) as [p|] eqn:E; [|apply loaded_none].
  apply (Hr _ _ E).
Qed.

Lemma build_entries_spec src treeDir es s0 s :
  NoDup es.*1 -> build_entries src treeDir s0 es = Ok s ->
  (forall name p, s !! name = Some p ->
     s0 !! name = Some p \/ (name, true) ∈ es /\ describes src treeDir name p)
  /\ (forall name, (name, true) ∈ es -> exists p, s !! name = Some p
       /\ describes src treeDir name p)
  /\ (forall name, name ∉ es.*1 -> s !! name = s0 !! name).
Proof.
  revert s0. induction es as [|[name is_dir] es IH]; intros s0 Hn H; simpl in H.
  { simplify_eq. split; [auto|]. split; [|done]. intros name Hin. by apply elem_of_nil in Hin. }
  simpl in Hn. apply list.NoDup_cons in Hn as [Hname Hn].
  destruct is_dir; simpl in H.
  - destruct (globConf _ _) as [files|] eqn:Eg; [|done].
    destruct (bool_decide _) eqn:Ef; [done|]. apply bool_decide_eq_false in Ef.
    destruct (newEngine _ _) as [eng|] eqn:Ee; [|done].
    destruct (LoadDir _ _ _) as [pol|] eqn:Ep; [|done]. simpl in H.
    set (p0 := {| engine := eng; policy := pol |}) in *.
    assert (describes src treeDir name p0) as Hd by by exists files.
    destruct (IH _ Hn H) as (H1 & H2 & H3). split_and!.
    + intros name' p Hp. destruct (H1 name' p Hp) as [Hin|[? ?]]; [|right; set_solver].
      destruct (decide (name = name')) as [<-|Hne].
      * rewrite lookup_insert_eq in Hin. simplify_eq. right. split; [set_solver|done].
      * rewrite lookup_insert_ne in Hin by done. by left.
    + intros name' [Heq|Hin]%elem_of_cons; [|by apply H2]. simplify_eq.
      exists p0. rewrite H3, lookup_insert_eq by done. done.
    + intros name' Hni. rewrite H3, lookup_insert_ne by set_solver. done.
  - destruct (IH _ Hn H) as (H1 & H2 & H3). split_and!.
    + intros name' p Hp. destruct (H1 name' p Hp) as [|[? ?]]; [by left|right; set_solver].
    + intros name' [Heq|Hin]%elem_of_cons; [done|by apply H2].
    + intros name' Hni. apply H3. set_solver.
Qed.

(** A directory of two profiles and a stray file, for the examples. *)
Definition sample_tree : list (string * bool) :=
  [("default", true); ("README", false); ("strict", true)].

Definition sample_sources : Sources :=
  {| readDir := fun d => if str_eqb d "/p/http" then Some sample_tree else None;
     globConf := fun _ => Some ["b.conf"; "a.conf"];
     newEngine := fun files =>
       if bool_decide (files = ["a.conf"; "b.conf"]) then Some quiet_engine else None;
     readFile := fun _ => None; yaml := fun _ => None |}.

Definition sample_registry : Registry :=
  {| dir := "/old";
     current := {["default" := {| engine := quiet_engine;
                                  policy := {| p_Rules := []; p_Outcomes := [] |} |}]};
     unknown := {["ghost" := 3]} |}.

Lemma sample_loaded : rules_loaded sample_registry.
Proof. apply map_Forall_singleton, loaded_none. Qed.

(** ** Properties *)

(** C19: A reload is atomic: it succeeds only with a set that has the default profile
    and, for every directory of the tree and nothing else, the engine of its sorted
    rule files and its policy; on any error the registry is the one before. A
    registry that serves keeps serving, and keeps the counts of unknown names. *)
Theorem ReloadFrom_spec src d r es
    (Hdir : readDir src (path_join d TreeDir) = Some es) (Hn : NoDup es.*1)
    (Hserves : serves r) :
  let r' := match ReloadFrom src d r with Ok r' => r' | Err _ => r end in
  serves r' /\ unknown r' = unknown r
  /\ (is_ok (ReloadFrom src d r) = true ->
      dir r' = d
      /\ forall name, match current r' !! name with
                     | Some p => (name, true) ∈ es /\ describes src (path_join d TreeDir) name p
                     | None => (name, true) ∉ es
                     end).
Proof.
  cbv zeta. unfold ReloadFrom, build, buildTree. rewrite Hdir.
  destruct (build_entries _ _ _ _) as [s|e] eqn:E; simpl in *; [|done].
  destruct (s !! DefaultProfile) eqn:Ed; simpl in *; [|done].
  split_and!; [by eexists|done|]. intros _. split; [done|].
  intros name. destruct (build_entries_spec _ _ _ _ _ Hn E) as (H1 & H2 & H3).
  destruct (s !! name) as [p'|] eqn:Ep.
  - destruct (H1 name p' Ep) as [Hp'|]; [by rewrite lookup_empty in Hp'|done].
  - intros Hin. destruct (H2 name Hin) as (? & ? & _). congruence.
Qed.

Lemma ReloadFrom_spec_witness :
  let r' := match ReloadFrom sample_sources "/p" sample_registry with
            | Ok r' => r' | Err _ => sample_registry end in
  serves r' /\ unknown r' = unknown sample_registry
  /\ (is_ok (ReloadFrom sample_sources "/p" sample_registry) = true ->
      dir r' = "/p"
      /\ forall name, match current r' !! name with
                     | Some p => (name, true) ∈ sample_tree
                                 /\ describes sample_sources (path_join "/p" TreeDir) name p
                     | None => (name, true) ∉ sample_tree
                     end).
Proof.
  apply (ReloadFrom_spec sample_sources "/p" sample_registry sample_tree).
  - reflexivity.
  - apply (bool_decide_unpack (NoDup sample_tree.*1)). reflexivity.
  - by eexists.
Defined.
