(* ===== verification/Lists.v ===== *)
(** * Writing the live lists: [cmd/modsec/lists.go]

    [writeLists] publishes the bans of a verdict. The address coder and the list
    publisher are arguments; the result says which publications were made, in
    order, and the first error of the coder. *)

From S2P Require Import Prelude GoString PriorRules Policy.
From stdpp Require Import options.

Local Open Scope Z_scope.

Definition second : Z := 1000000000.

(** One call of [lists.AddMany]; its error is only logged. *)
Record Publication := {
  pb_Name : string; pb_Values : list string; pb_TTL : Z; pb_Reason : string }.

(** The coder: which writes need it, and its answer. *)
Record Geo := {
  Networked : string -> bool;
  geo_Write : string -> string -> res string (list string) }.

Definition publication (ban : Ban) (values : list string) : Publication :=
  {| pb_Name := Dataset ban; pb_Values := values; pb_TTL := wrap64 (ban_TTL ban * second);
     pb_Reason := ban_Reason ban |}.

(** One turn of the loop: the first error so far and the publications. *)
Definition write_ban (geo : Geo) (st : option string * list Publication) (ban : Ban) :
    option string * list Publication :=
  let '(failed, out) := st in
  if Networked geo (ban_Write ban) then
    match geo_Write geo (ban_Write ban) (Addr ban) with
    | Err err => (match failed with None => Some err | Some _ => failed end, out)
    | Ok [] => (failed, out)
    | Ok got => (failed, out ++ [publication ban got])
    end
  else (failed, out ++ [publication ban [Addr ban]]).

Definition writeLists (geo : Geo) (bans : list Ban) : option string * list Publication :=
  fold_left (write_ban geo) bans (None, []).

(** ** Specification *)

(** What one ban comes to, independently of the others. *)
Definition ban_values (geo : Geo) (ban : Ban) : res string (list string) :=
  if Networked geo (ban_Write ban) then geo_Write geo (ban_Write ban) (Addr ban)
  else Ok [Addr ban].

Definition ban_publication (geo : Geo) (ban : Ban) : option Publication :=
  match ban_values geo ban with
  | Ok (v :: vs) => Some (publication ban (v :: vs))
  | _ => None
  end.

Definition ban_error (geo : Geo) (ban : Ban) : option string :=
  match ban_values geo ban with Err e => Some e | Ok _ => None end.

(** A publication names a dataset and lists something, for the time of a row. *)
Definition publication_ok (x : Publication) : Prop :=
  nameRe (pb_Name x) = true /\ pb_Values x <> []
  /\ exists ttl, 0 < ttl /\ pb_TTL x = wrap64 (ttl * second).

(** One ban does not depend on another: each ban whose values are known is
    published once, in order, with its dataset, reason and time to live; one the
    coder fails on or knows nothing about is skipped; and the result is the coder's
    first error, so that [writeLists] succeeds exactly when the coder never
    failed. *)
Lemma writeLists_spec geo bans :
  writeLists geo bans
  = (head (omap (ban_error geo) bans), omap (ban_publication geo) bans).
Proof.
  assert (forall failed out, fold_left (write_ban geo) bans (failed, out)
    = (match failed with Some _ => failed | None => head (omap (ban_error geo) bans) end,
       out ++ omap (ban_publication geo) bans)) as H.
  { induction bans as [|ban bans IH]; intros failed out; cbn [fold_left].
    { rewrite app_nil_r. by destruct failed. }
    cbn [omap list_omap]. unfold write_ban at 2, ban_error at 1, ban_publication at 1, ban_values.
    destruct (Networked geo (ban_Write ban)).
    - destruct (geo_Write geo (ban_Write ban) (Addr ban)) as [[|v vs]|e]; rewrite IH;
        rewrite <- ?(assoc_L (++)); [done..|]. by destruct failed.
    - rewrite IH, <- (assoc_L (++)). done. }
  apply (H None []).
Qed.

Lemma writeLists_ok geo addr bans :
  Forall (ban_ok addr) bans -> Forall publication_ok (writeLists geo bans).2.
Proof.
  intros Hb. rewrite writeLists_spec. simpl. apply list.Forall_forall.
  intros x (ban & Hban & Hx)%list_elem_of_omap. rewrite list.Forall_forall in Hb.
  destruct (Hb ban Hban) as (Hn & _ & _ & _ & Ht). unfold ban_publication in Hx.
  destruct (ban_values geo ban) as [[|v vs]|]; [done| |done]. injection Hx as <-.
  split_and!; [done|done|]. by exists (ban_TTL ban).
Qed.
