(* ===== verification/Handler.v ===== *)
(** * The message handler: [cmd/modsec/handler.go], [frame.go], [response.go] and
    [resume.go]

    What the inspector does with one message of the bus: [receive] parses it and
    queues a task; [evaluate], called by the queue's workers, sheds or inspects it,
    in the request, response or frame phase, and sends the reply.

    Code is a program of the monad [M]: a tree of actions on the state it shares with
    other messages. An action is what the code does at once, a critical section or the
    load of an atomic pointer; between two actions other goroutines may run. The
    publications of one verdict on the lists are one action too, and so are the [Discard]s
    of transactions that nobody else has: only the traces show them. [exec]
    runs a program alone. A panic keeps the changes made before it, and [recoverInto]
    turns it into a fallback reply. Logging is not modelled. *)

From Stdlib Require Import QArith_base.
From S2P Require Import Prelude GoString GoFloat Protocol Engine Apply Overload PriorRules.
From S2P Require Import Policy AuditLog Verdict Queue Sticky Body Rules Lists.
From S2P Require AuditSink.
From stdpp Require Import options.

Local Open Scope Z_scope.

Definition codeUnsupportedVersion : string := "MODSEC_UNSUPPORTED_VERSION".
Definition codeMalformed : string := "MODSEC_MALFORMED_REQUEST".
Definition codeInternalError : string := "MODSEC_INTERNAL_ERROR".
Definition codeUnknownProfile : string := "MODSEC_UNKNOWN_PROFILE".
Definition codeWrongPhase : string := "MODSEC_PHASE_NOT_SUPPORTED".
Definition codeBodyUnavailable : string := "MODSEC_BODY_UNAVAILABLE".
Definition codeBodyTruncated : string := "MODSEC_BODY_TRUNCATED".
Definition codeResumeLost : string := "MODSEC_RESUME_LOST".
Definition codeSkipped : string := "MODSEC_SKIPPED".
Definition codeGeoUnavailable : string := "MODSEC_GEO_UNAVAILABLE".
Definition codeFrameBinary : string := "MODSEC_FRAME_BINARY".
Definition frameArg : string := "frame".

(** ** State *)

(** What the handler is built with, and the functions it takes from packages that
    are not in the repository. *)
Record handler := {
  cfg_Name : string; Versions : list Z; inbox : string; opts : Options;
  loader : Loader; crypto : Crypto;
  lists : bool; geo : Geo; audit_connected : bool;
  json_Request : string -> option Request;
  json_Headers : string -> option (list Header);
  json_Reply : Reply -> option string;
  json_Event : Event -> option string }.

(** A live transaction with the engine that answers for it. *)
Abbreviation Kept := (Engine * Apply.Live)%type.

(** The state shared between messages. The last three fields are traces: the
    messages sent on the bus, the publications on the live lists, and the calls of
    every engine transaction that has ended; [created] counts the transactions
    created. *)
Record St := {
  registry : Rules.Registry; sticky : option (Sticky.Registry (T := Kept));
  sink : AuditSink.Sink; sent : list (string * string); published : list Publication;
  ended : list Tx; created : Z }.

(** What the handler reads of the clock. *)
Record Clock := { take_at : Z; park_at : Z; elapsed_us : Z; stamp : string }.

(** ** The monad *)

(** A program has a result, unless it panicked, or acts on the state and goes on with
    what it saw. *)
Inductive M (A : Type) : Type :=
| Ret (r : run A)
| Act (f : St -> St) (k : St -> M A).

Arguments Ret {A} r.
Arguments Act {A} f k.

Global Instance M_ret : MRet M := fun A a => Ret (Done a).
Global Instance M_bind : MBind M := fun A B k =>
  fix bind m :=
    match m with
    | Ret (Done a) => k a
    | Ret Panic => Ret Panic
    | Act f c => Act f (fun s => bind (c s))
    end.

(** The program alone: the state after it, and its result. *)
Fixpoint exec {A} (m : M A) (s : St) : St * run A :=
  match m with
  | Ret r => (s, r)
  | Act f k => exec (k s) (f s)
  end.

Coercion exec : M >-> Funclass.

(** One action with a result. *)
Definition atomic {A} (f : St -> St * A) : M A :=
  Act (fun s => (f s).1) (fun s => Ret (Done (f s).2)).

Definition get : M St := Act (fun s => s) (fun s => Ret (Done s)).
Definition modify (f : St -> St) : M unit := Act f (fun _ => Ret (Done tt)).
Definition lift {A} (r : run A) : M A := Ret r.

(** [m], and [c] if it panics. *)
Fixpoint catch {A} (m c : M A) : M A :=
  match m with
  | Ret (Done a) => Ret (Done a)
  | Ret Panic => c
  | Act f k => Act f (fun s => catch (k s) c)
  end.

Definition set_registry (r : Rules.Registry) (s : St) : St :=
  {| registry := r; sticky := sticky s; sink := sink s; sent := sent s;
     published := published s; ended := ended s; created := created s |}.
Definition set_sticky (r : Sticky.Registry (T := Kept)) (s : St) : St :=
  {| registry := registry s; sticky := Some r; sink := sink s; sent := sent s;
     published := published s; ended := ended s; created := created s |}.
Definition set_sink (k : AuditSink.Sink) (s : St) : St :=
  {| registry := registry s; sticky := sticky s; sink := k; sent := sent s;
     published := published s; ended := ended s; created := created s |}.
Definition add_sent (m : string * string) (s : St) : St :=
  {| registry := registry s; sticky := sticky s; sink := sink s; sent := sent s ++ [m];
     published := published s; ended := ended s; created := created s |}.
Definition add_published (l : list Publication) (s : St) : St :=
  {| registry := registry s; sticky := sticky s; sink := sink s; sent := sent s;
     published := published s ++ l; ended := ended s; created := created s |}.
Definition add_ended (l : list Tx) (s : St) : St :=
  {| registry := registry s; sticky := sticky s; sink := sink s; sent := sent s;
     published := published s; ended := ended s ++ l; created := created s |}.
Definition add_created (n : Z) (s : St) : St :=
  {| registry := registry s; sticky := sticky s; sink := sink s; sent := sent s;
     published := published s; ended := ended s; created := created s + n |}.

(** One operation of the registry of kept transactions; [None] without a registry. *)
Definition with_sticky {A} (op : Sticky.Registry (T := Kept) -> A * Sticky.Registry (T := Kept)) :
    M (option A) :=
  atomic (fun s => match sticky s with
                   | Some reg => let '(a, reg) := op reg in (set_sticky reg s, Some a)
                   | None => (s, None)
                   end).

(** [l.Discard()] for each. *)
Definition discard (ls : list Kept) : M unit :=
  modify (add_ended ((fun l => Discard l.2) <$> ls)).

(** ** Helpers without state *)

Definition input (req : Request) (args : string) (hdr : list Header) (b : Body) : Input :=
  {| in_RID := RID req; in_ClientIP := ClientIP (req_Conn req);
     in_ClientPort := ClientPort (req_Conn req); in_ServerIP := ServerIP (req_Conn req);
     in_ServerPort := ServerPort (req_Conn req); in_Method := Method (req_HTTP req);
     in_URI := URI (req_HTTP req); in_Args := args; in_Version := http_Version (req_HTTP req);
     in_Host := Host (req_HTTP req); in_Headers := hdr; in_Body := Body.Data b;
     in_BodyTruncated := false |}.

(** [bodyError]: the code, empty when the body can be inspected, and why. *)
Definition bodyError (b : Body) : string * string :=
  if negb (Available b) then (codeBodyUnavailable, "unavailable:" +:+ Body_Unavailable b)
  else if Body_Truncated b then (codeBodyTruncated, "truncated")
  else ("", "").

Definition argsOf (b : Body) : string := if Available b then Body.Data b else "".

Definition headers (h : handler) (b : Body) : list Header :=
  if negb (Available b) || (len (Body.Data b) =? 0) then []
  else default [] (json_Headers h (Body.Data b)).

Definition supports (phase : string) : bool :=
  str_eqb phase PhaseRequest || str_eqb phase PhaseResponse || str_eqb phase PhaseFrame.

Definition Supports (h : handler) (v : Z) : bool := existsb (fun have => have =? v) (Versions h).

Definition scoreOf (r : Reply) : Z := default 0 (Score r).

Definition codeOf (r : Reply) : string :=
  match rep_Reason r with Some re => Code re | None => "" end.

Definition applyAsk (ask : Ask) (out : Apply.Outcome) (det : Details) : Details :=
  let det :=
    match Outcomes ask with
    | [] => det
    | os => set_engine "actions" (AnyActions os) det
    end in
  if Percent ask =? 0 then det
  else
    let raw := Calibrate (AnomalyScore out) (Threshold out) in
    set_engine "score_scaled" (AnyInt (ScaleScore raw (Percent ask)))
      (set_engine "score_raw" (AnyInt raw)
         (set_engine "score_scale_percent" (AnyInt (Percent ask)) det)).

Definition scaled (o : Options) (ask : Ask) : Options :=
  {| opt_StatusMap := opt_StatusMap o; opt_Decisive := opt_Decisive o;
     ScalePercent := Percent ask |}.

(** [if len(fired.Names) != 0 { det.Engine["outcomes"] = fired.Names }] *)
Definition note_names (names : list string) (det : Details) : Details :=
  match names with [] => det | _ => set_engine "outcomes" (AnyStrings names) det end.

(** [if len(fired.Actions) != 0 { reply.Actions = fired.Actions }] *)
Definition attach (actions : list Action) (r : Reply) : Reply :=
  match actions with [] => r | _ => set_Actions actions r end.

Definition note_unknown (sel : Selection) (det : Details) : Details :=
  if Unknown sel then set_engine "profile_requested" (AnyString (sel_Profile sel)) det else det.

(** [audit.Details{Engine: map[string]any{...}}] *)
Definition engine_details (l : list (string * any)) : Details := details (list_to_map l).

Definition app_fired (a b : Fired) : Fired :=
  {| f_Actions := f_Actions a ++ f_Actions b; Bans := Bans a ++ Bans b;
     Names := Names a ++ Names b |}.

(** ** Frame input: [frame.go] *)

(** [url.QueryEscape] *)
Definition unreserved (a : ascii) : bool :=
  byte_in 97 122 a || byte_in 65 90 a || byte_in 48 57 a
  || byte_is 45 a || byte_is 95 a || byte_is 46 a || byte_is 126 a.

Definition upper_hex (n : Z) : ascii :=
  ascii_of_nat (Z.to_nat (if n <? 10 then 48 + n else 55 + n)).

Fixpoint QueryEscape (s : string) : string :=
  match s with
  | "" => ""
  | String a r =>
      if byte_is 32 a then String "+" (QueryEscape r)
      else if unreserved a then String a (QueryEscape r)
      else String "%" (String (upper_hex (byte_val a / 16))
             (String (upper_hex (byte_val a mod 16)) (QueryEscape r)))
  end.

(** [strings.EqualFold(s, t)] for a [t] of ASCII lower-case letters other than k:
    the long s, C5 BF in UTF-8, folds to s. *)
Fixpoint EqualFold_lower (s t : string) : bool :=
  match t, s with
  | "", "" => true
  | String c t, String a s1 =>
      if ascii_eqb (lower_byte a) c then EqualFold_lower s1 t
      else if ascii_eqb c "s" && byte_is 197 a
      then match s1 with
           | String b s2 => byte_is 191 b && EqualFold_lower s2 t
           | "" => false
           end
      else false
  | _, _ => false
  end.

Definition frameDropHeaders : list string :=
  ["content-type"; "content-length"; "transfer-encoding"].

Definition frameOpcode (req : Request) : string :=
  match req_Stream req with
  | Some s => if str_eqb (Opcode s) "" then "unknown" else Opcode s
  | None => "unknown"
  end.

Definition frameEngine (req : Request) : list (string * any) :=
  [("phase", AnyString PhaseFrame); ("conn", AnyString (ConnID req));
   ("seq", AnyInt (Seq req)); ("opcode", AnyString (frameOpcode req))]
  ++ match req_Stream req with
     | Some s =>
         [("direction", AnyString (Direction s)); ("fin", AnyBool (Fin s))]
         ++ if str_eqb (Subprotocol s) "" then []
            else [("subprotocol", AnyString (Subprotocol s))]
     | None => []
     end.

Definition frame_payload (b : Body) : string := frameArg +:+ "=" +:+ QueryEscape (Body.Data b).

Definition frame_kept (h : Header) : bool :=
  negb (existsb (str_eqb (ToLower h.1)) frameDropHeaders).

Definition frameInput (req : Request) (hdr : list Header) (b : Body) : Input :=
  let payload := frame_payload b in
  let kept := List.filter frame_kept hdr in
  let hasHost := existsb (fun h => EqualFold_lower h.1 "host") kept in
  let kept :=
    if negb hasHost && negb (str_eqb (Host (req_HTTP req)) "")
    then kept ++ [("Host", Host (req_HTTP req))] else kept in
  {| in_RID := RID req; in_ClientIP := ClientIP (req_Conn req);
     in_ClientPort := ClientPort (req_Conn req); in_ServerIP := ServerIP (req_Conn req);
     in_ServerPort := ServerPort (req_Conn req); in_Method := "POST";
     in_URI := URI (req_HTTP req); in_Args := "";
     in_Version := if str_eqb (http_Version (req_HTTP req)) "" then "HTTP/1.1"
                   else http_Version (req_HTTP req);
     in_Host := Host (req_HTTP req);
     in_Headers := kept ++ [("Content-Type", "application/x-www-form-urlencoded");
                            ("Content-Length", Itoa (len payload))];
     in_Body := payload; in_BodyTruncated := false |}.

(** ** Response input: [response.go] *)

Definition responseHeaders (h : handler) (req : Request) (b : Body) : list Header :=
  match headers h b with
  | [] => match req_Response req with Some r => rsp_Headers r | None => [] end
  | hdr => hdr
  end.

Definition responseStatus (req : Request) : Z :=
  match req_Response req with
  | Some r => if Status r =? 0 then 200 else Status r
  | None => 200
  end.

(** ** Stateful helpers *)

Section handler.
Context (h : handler) (ck : Clock).

(** [Select]: the pointer to the profiles is loaded, then an unknown name is counted. *)
Definition select (name : string) : M (option Engine * Selection) :=
  s ← get;
  match Select name (registry s) with
  | (Some eng, sel, _) => mret (Some eng, sel)
  | (None, sel, _) =>
      modify (fun s => set_registry (countUnknown (sel_Profile sel) (registry s)) s);;
      mret (None, sel)
  end.

Definition prior_rules (name : string) : M (list Rule) :=
  s ← get; mret (PriorRules_ name (registry s)).

Definition outcomes (name : string) : M (list Outcome) :=
  s ← get; mret (Outcomes_ name (registry s)).

Definition load_many (locs : list (option Locator)) : M (list Body) :=
  lift (LoadMany (crypto h) (loader h) locs).

(** The transaction of a call that ends it, and the result. *)
Definition run_ended (r : option Tx * res string Apply.Outcome) :
    M (res string Apply.Outcome) :=
  match r with
  | (Some tx, r) => modify (add_created 1);; modify (add_ended [tx]);; mret r
  | (None, r) => mret r
  end.

(** [engine.ApplyKeep] and [engine.Apply], as [inspect] calls one of them: the
    outcome, and the transaction when it is kept open. *)
Definition apply_keep (eng : Engine) (i : Input) :
    M (res string (Apply.Outcome * option Kept)) :=
  match ApplyKeep eng i (elapsed_us ck) with
  | (Some tx, Err e) => modify (add_created 1);; modify (add_ended [tx]);; mret (Err e)
  | (Some tx, Ok (out, live)) => modify (add_created 1);; mret (Ok (out, Some (eng, live)))
  | (None, Err e) => mret (Err e)
  | (None, Ok (out, live)) => mret (Ok (out, Some (eng, live)))
  end.

Definition apply_only (eng : Engine) (i : Input) :
    M (res string (Apply.Outcome * option Kept)) :=
  r ← run_ended (Apply.Apply eng i (elapsed_us ck));
  mret (match r with Ok out => Ok (out, None) | Err e => Err e end).

Definition run_resume (live : Kept) (rsp : ResponseInput) : M (res string Apply.Outcome) :=
  let '(tx, r) := Apply.Resume live.1 live.2 rsp (elapsed_us ck) in
  modify (add_ended [tx]);; mret r.

Definition discard_opt (live : option Kept) : M unit :=
  match live with Some l => discard [l] | None => mret tt end.

(** [publish]: the error of the coder, if any. *)
Definition publish (bans : list Ban) : M (option string) :=
  if negb (nonempty bans) || negb (lists h) then mret None
  else
    let '(failed, out) := writeLists (geo h) bans in
    modify (add_published out);; mret failed.

(** ** Resuming: [resume.go] *)

Definition wantsResume (st : option (Sticky.Registry (T := Kept))) (req : Request) : bool :=
  is_some st && negb (str_eqb (inbox h) "") && str_eqb (Phase req) PhaseRequest
  && match req_Resume req with
     | Some r => Want r && negb (str_eqb (res_Token r) "")
     | None => false
     end.

Definition offerContinue (req : Request) (reply : Reply) (det : Details) (live : Kept) :
    M (Reply * Details) :=
  if str_eqb (Verdict reply) VerdictDeny || str_eqb (Verdict reply) VerdictRedirect
  then discard [live];; mret (reply, det)
  else
    match req_Resume req with
    | None => lift Panic
    | Some r =>
        parked ← with_sticky (fun reg =>
          let '(ok, dead, reg) := Park (park_at ck) (res_Token r) live reg in
          (ok, dead, ttl reg, reg));
        match parked with
        | None => lift Panic
        | Some (ok, dead, ttl) =>
            discard dead;;
            if ok : bool then
              mret (set_Continue {| Protocol.Subject := inbox h;
                                    TTLMS := Z.quot ttl millisecond |} reply,
                    set_engine "parked" (AnyBool true) det)
            else
              discard [live];;
              mret (reply, set_engine "parked" (AnyBool false) det)
        end
    end.

Definition releaseState (req : Request) : M unit :=
  match req_Release req with
  | None => mret tt
  | Some r =>
      dead ← with_sticky (Drop (rel_Token r));
      match dead with Some dead => discard dead | None => mret tt end
  end.

Definition resumeState (req : Request) : M (option Kept) :=
  match req_Resume req with
  | None => mret None
  | Some r =>
      if str_eqb (res_Token r) "" then mret None
      else
        taken ← with_sticky (Take (take_at ck) (res_Token r));
        match taken with
        | None => mret None
        | Some (live, dead) => discard dead;; mret live
        end
  end.

(** ** Inspection *)

(** Element [i] of the result of [LoadMany]. *)
Definition got_at (got : list Body) (i : nat) : run Body :=
  match got !! i with Some b => Done b | None => Panic end.

Definition skipped (req : Request) : Reply :=
  set_Reason (reason codeSkipped) (NewReply req VerdictAllow).

(** The end of the three inspections: the verdict, its outcomes and details. *)
Definition fired_of (rows : list Outcome) (req : Request) (reply : Reply)
    (out : Apply.Outcome) : Fired :=
  Fire rows (Verdict reply) (scoreOf reply) (Matched out) (ClientIP (req_Conn req))
    (codeOf reply).

Definition geo_failed (req : Request) (det : Details) (err : string) : Reply * Details :=
  (ErrorReply req codeGeoUnavailable, set_engine "geo" (AnyString err) det).

Definition inspectRequest (t : Task) : M (Reply * Details) :=
  let req := t_Req t in
  es ← select (Profile (req_Route req));
  let '(eng, sel) := es in
  match eng with
  | None => mret (ErrorReply req codeUnknownProfile, details ∅)
  | Some eng =>
      rules ← prior_rules (sel_Profile sel);
      let ask := Evaluate (Prior req) rules in
      if Skip ask then
        mret (skipped req,
              engine_details [("skip", AnyBool true); ("actions", AnyActions (Outcomes ask))])
      else
        got ← load_many [st_Headers (req_Store req); st_Args (req_Store req);
                         st_Body (req_Store req)];
        b0 ← lift (got_at got 0); b1 ← lift (got_at got 1); b ← lift (got_at got 2);
        let hdr := headers h b0 in
        let args := argsOf b1 in
        let '(code, why) := bodyError b in
        if negb (str_eqb code "") then
          mret (ErrorReply req code, engine_details [("body", AnyString why)])
        else
          s ← get;
          res ← (if wantsResume (sticky s) req
                 then apply_keep eng (input req args hdr b)
                 else apply_only eng (input req args hdr b));
          match res with
          | Err err =>
              mret (ErrorReply req codeInternalError,
                    engine_details [("error", AnyString err)])
          | Ok (out, live) =>
              let reply := Verdict.From req out (scaled (opts h) ask) in
              let det := note_unknown sel (applyAsk ask out (Detail out)) in
              rows ← outcomes (sel_Profile sel);
              more ← outcomes (sel_Profile sel);
              let fired := app_fired (fired_of rows req reply out)
                             (FireOverload more (Fill t) false (ClientIP (req_Conn req))
                                ReasonQueueLimit) in
              let det := note_names (Names fired) det in
              failed ← publish (Bans fired);
              match failed with
              | Some err => discard_opt live;; mret (geo_failed req det err)
              | None =>
                  let reply := attach (f_Actions fired) reply in
                  match live with
                  | Some live => offerContinue req reply det live
                  | None => mret (reply, det)
                  end
              end
          end
  end.

Definition frame_details (req : Request) (l : list (string * any)) : Details :=
  details (list_to_map (rev (frameEngine req ++ l))).

Definition inspectFrame (req : Request) : M (Reply * Details) :=
  es ← select (Profile (req_Route req));
  let '(eng, sel) := es in
  match eng with
  | None => mret (ErrorReply req codeUnknownProfile, frame_details req [])
  | Some eng =>
      if str_eqb (frameOpcode req) "binary" then
        mret (set_Reason (reason codeFrameBinary) (NewReply req VerdictAllow),
              frame_details req [("skip", AnyString "binary")])
      else
        rules ← prior_rules (sel_Profile sel);
        let ask := Evaluate (Prior req) rules in
        if Skip ask then
          mret (skipped req,
                frame_details req [("skip", AnyBool true);
                                   ("actions", AnyActions (Outcomes ask))])
        else
          got ← load_many [st_Headers (RequestStore req); st_Body (req_Store req)];
          b0 ← lift (got_at got 0); b ← lift (got_at got 1);
          let hdr := headers h b0 in
          let '(code, why) := bodyError b in
          if negb (str_eqb code "") then
            mret (ErrorReply req code, frame_details req [("body", AnyString why)])
          else
            res ← run_ended (Apply.Apply eng (frameInput req hdr b) (elapsed_us ck));
            match res with
            | Err err =>
                mret (ErrorReply req codeInternalError,
                      frame_details req [("error", AnyString err)])
            | Ok out =>
                let reply := Verdict.From req out (scaled (opts h) ask) in
                let det := applyAsk ask out (Detail out) in
                let det := {| EngineMS := EngineMS det; Findings := Findings det;
                              det_Engine := list_to_map (rev (frameEngine req))
                                            ∪ det_Engine det |} in
                let det := note_unknown sel det in
                rows ← outcomes (sel_Profile sel);
                let fired := fired_of rows req reply out in
                let det := note_names (Names fired) det in
                failed ← publish (Bans fired);
                match failed with
                | Some err => mret (geo_failed req det err)
                | None => mret (attach (f_Actions fired) reply, det)
                end
            end
  end.

Definition lost_finding : AuditLog.Finding :=
  {| fd_Code := "modsec-resume-lost"; fd_Severity := SeverityCritical;
     fd_Target := TargetURI; Offset := None; Length := None; fd_Rule := "";
     Confidence := None; Evidence := ""; fd_Message := ""; fd_Tags := [] |}.

Definition requires_resume (req : Request) : bool :=
  match req_Resume req with Some r => Require_ r | None => false end.

(** The part of [inspectResponse] after the state is found or the profile is
    selected: [src] is the kept transaction, or the engine to rebuild it with. *)
Definition respond (req : Request) (personal : bool) (ask : Ask) (sel : Selection)
    (src : Kept + Engine) : M (Reply * Details) :=
  let live := match src with inl live => Some live | inr _ => None end in
  got ← load_many ([st_Headers (req_Store req); st_Body (req_Store req)]
                   ++ match live with
                      | Some _ => []
                      | None => [st_Headers (RequestStore req); st_Args (RequestStore req)]
                      end);
  b0 ← lift (got_at got 0); b ← lift (got_at got 1);
  let '(code, why) := bodyError b in
  if negb (str_eqb code "") then
    discard_opt live;;
    mret (ErrorReply req code, engine_details [("body", AnyString why)])
  else
    let rsp := {| rsp_Status := responseStatus req; rsp_Proto := "";
                  rsp_in_Headers := responseHeaders h req b0;
                  rsp_Body := Body.Data b; rsp_BodyTruncated := false |} in
    res ← match src with
          | inl live => run_resume live rsp
          | inr eng =>
              b2 ← lift (got_at got 2); b3 ← lift (got_at got 3);
              run_ended (ApplyResponse eng (input req (argsOf b3) (headers h b2) no_body)
                           rsp (elapsed_us ck))
          end;
    match res with
    | Err err =>
        mret (ErrorReply req codeInternalError, engine_details [("error", AnyString err)])
    | Ok out =>
        let reply := Verdict.From req out (scaled (opts h) ask) in
        let det := applyAsk ask out (Detail out) in
        let det := set_engine "personal" (AnyBool personal)
                     (set_engine "resumed" (AnyBool (is_some live))
                        (set_engine "phase" (AnyString PhaseResponse) det)) in
        let det := note_unknown sel det in
        rows ← outcomes (sel_Profile sel);
        let fired := fired_of rows req reply out in
        let det := note_names (Names fired) det in
        failed ← publish (Bans fired);
        match failed with
        | Some err => mret (geo_failed req det err)
        | None => mret (attach (f_Actions fired) reply, det)
        end
    end.

Definition inspectResponse (req : Request) (personal : bool) : M (Reply * Details) :=
  live ← resumeState req;
  rules ← prior_rules (Profile (req_Route req));
  let ask := Evaluate (Prior req) rules in
  if Skip ask then
    discard_opt live;;
    mret (skipped req,
          engine_details [("phase", AnyString PhaseResponse); ("skip", AnyBool true);
                          ("actions", AnyActions (Outcomes ask))])
  else
    match live with
    | Some live =>
        respond req personal ask
          {| sel_Profile := Profile (req_Route req); Unknown := false |} (inl live)
    | None =>
        if requires_resume req then
          mret (Deny req codeResumeLost (opts h),
                {| EngineMS := 0; Findings := [lost_finding];
                   det_Engine := list_to_map
                     [("phase", AnyString PhaseResponse); ("resumed", AnyBool false);
                      ("resume", AnyString "lost"); ("personal", AnyBool personal)] |})
        else
          es ← select (Profile (req_Route req));
          match es with
          | (None, _) => mret (ErrorReply req codeUnknownProfile, details ∅)
          | (Some eng, sel) => respond req personal ask sel (inr eng)
          end
    end.

Definition inspect (t : Task) : M (Reply * Details) :=
  if str_eqb (Phase (t_Req t)) PhaseResponse then inspectResponse (t_Req t) (Personal t)
  else if str_eqb (Phase (t_Req t)) PhaseFrame then inspectFrame (t_Req t)
  else inspectRequest t.

(** ** Sending *)

(** The payload of [send]: the reply, or the fallback when it does not encode. *)
Definition payload_of (reply : Reply) : option string :=
  match Marshal (json_Reply h) reply with
  | Ok text => Some text
  | Err _ =>
      match Marshal (json_Reply h)
              (FallbackReply (rep_RID reply) (rep_Inspector reply) codeInternalError) with
      | Ok text => Some text
      | Err _ => None
      end
  end.

(** The critical section of [Add], and the [kick] after it. *)
Definition audit_add (it : AuditSink.item) : M unit :=
  full ← atomic (fun s => let '(full, k) := AuditSink.enqueue it (sink s) in (set_sink k s, full));
  if full : bool then modify (fun s => set_sink (AuditSink.kick (sink s)) s) else mret tt.

Definition send (subject : string) (reply : Reply) (req : option Request) (det : Details) :
    M unit :=
  if str_eqb subject "" then mret tt
  else
    match payload_of reply with
    | None => mret tt
    | Some payload =>
        modify (add_sent (subject, payload));;
        match AuditSink.Add (json_Event h) (stamp ck) (audit_connected h) req (Some reply) det with
        | Ok (Some it) => audit_add it
        | _ => mret tt
        end
    end.

(** [defer h.recoverInto(subject, rid)] around [m]. *)
Definition recoverInto (subject rid : string) (m : M (option Task)) : M (option Task) :=
  catch m
    (if str_eqb subject "" then mret None
     else send subject (FallbackReply rid (cfg_Name h) codeInternalError) None (details ∅);;
          mret None).

(** ** [evaluate], the queue's handler *)

Definition budget_ms (budget : Z) : Q := fl_div (fl_of_int (Z.quot budget 1000)) 1000.

(** The reply to a task that is shed. *)
Definition shed_reply (t : Task) (budget : Z) (shed : string) : M (Reply * Details) :=
  let req := t_Req t in
  let reply := ShedReply req shed in
  let det := engine_details [("shed", AnyString shed); ("budget_ms", AnyFloat (budget_ms budget))] in
  if str_eqb shed ReasonQueueLimit && str_eqb (Phase req) PhaseRequest then
    rows ← outcomes (Profile (req_Route req));
    let fired := FireOverload rows (Fill t) true
                   (ClientIP (req_Conn req)) shed in
    failed ← publish (Bans fired);
    let det := match failed with
               | Some err => set_engine "geo" (AnyString err) det
               | None => det
               end in
    mret (attach (f_Actions fired) reply, note_names (Names fired) det)
  else mret (reply, det).

Definition evaluate (t : Task) (budget : Z) (shed : string) : M (option Task) :=
  recoverInto (t_Reply t) (RID (t_Req t))
    (rd ← (if negb (str_eqb shed "") then shed_reply t budget shed else inspect t);
     send (t_Reply t) rd.1 (Some (t_Req t)) rd.2;;
     mret None).

(** ** [receive], the subscription's handler *)

Record Msg := { m_Subject : string; m_Reply : string; m_Data : string }.

(** The task it submits to the queue, if any; [o1] and [o2] are the iteration
    orders of [Parse]. *)
Definition receive (o1 o2 : list string) (m : Msg) : M (option Task) :=
  recoverInto (m_Reply m) ""
    (match Parse (json_Request h) o1 o2 (m_Data m) with
     | Err pe =>
         send (m_Reply m) (FallbackReply (pe_RID pe) (cfg_Name h) codeMalformed) None (details ∅);;
         mret None
     | Ok req =>
         if negb (Supports h (V req)) then
           send (m_Reply m) (set_V Protocol.Version (ErrorReply req codeUnsupportedVersion))
             (Some req) (details ∅);;
           mret None
         else if is_some (req_Release req) then releaseState req;; mret None
         else if negb (supports (Phase req)) then
           send (m_Reply m) (ErrorReply req codeWrongPhase) (Some req) (details ∅);;
           mret None
         else
           mret (Some {| t_Req := req; t_Reply := m_Reply m;
                         Personal := negb (str_eqb (inbox h) "")
                                     && str_eqb (m_Subject m) (inbox h);
                         Fill := 0; enqueued := 0 |})
     end).
End handler.
