(* ===== verification/HandlerLogic.v ===== *)
(** * A program logic for the handler

    Triples for the monad of [Handler] in which others act between any two actions of the
    program: what a program owns, its open transactions and the messages it has sent, is
    kept apart from the state that all share, and [safe] follows it through every state
    that others may leave. [safe_exec] brings a result back to the program alone. *)

From Stdlib Require Import QArith_base.
From S2P Require Import Prelude GoString Protocol Engine Apply PriorRules Policy AuditLog.
From S2P Require Import Verdict Queue Sticky Body Rules Lists Handler.
From S2P Require AuditSink.
From stdpp Require Import options.

Local Open Scope Z_scope.

(** ** The program alone *)

Lemma exec_bind {A B} (m : M A) (k : A -> M B) s :
  exec (m ≫= k) s = match exec m s with
                    | (s', Done a) => exec (k a) s'
                    | (s', Panic) => (s', Panic)
                    end.
Proof. revert s. induction m as [[a|]|f c IH]; intros s; [done..|]. simpl. apply IH. Qed.

Lemma exec_catch {A} (m c : M A) s :
  exec (catch m c) s = match exec m s with
                       | (s', Done a) => (s', Done a)
                       | (s', Panic) => exec c s'
                       end.
Proof. revert s. induction m as [[a|]|f k IH]; intros s; [done..|]. simpl. apply IH. Qed.

(** ** What is owned *)

Definition complete (tx : Tx) : Prop := lifecycle Created tx Closed.

Definition open_kept (k : Kept) : Prop := lifecycle Created (live_tx k.2) ReqDone.

(** The transactions in the registry. *)
Definition parked (s : St) : list Kept :=
  match sticky s with Some r => values (items r) | None => [] end.

(** The messages sent are [l]; [p] says that there is a registry; every transaction
    that ended went through its lifecycle and was closed, those of the registry are
    open, and [n] more were created than ended or are in the registry; the policies of
    the profiles are valid, and so is what was published on the lists. *)
Record St_ok (l : list (string * string)) (p : bool) (n : Z) (s : St) : Prop := {
  ok_sent : sent s = l;
  ok_sticky : is_some (sticky s) = p;
  ok_ended : Forall complete (ended s);
  ok_parked : Forall open_kept (parked s);
  ok_created : created s = n + Z.of_nat (length (ended s)) + Z.of_nat (length (parked s));
  ok_rules : rules_loaded (registry s);
  ok_published : Forall publication_ok (published s) }.

(** What the handler leaves alone: it counts unknown profiles in the registry of profiles
    and changes nothing else of it, and it does not move the goroutine of the sink. *)
Definition leaves (s s' : St) : Prop :=
  current (registry s') = current (registry s) /\ dir (registry s') = dir (registry s)
  /\ AuditSink.loop_at (sink s') = AuditSink.loop_at (sink s).

(** What a program has to itself while others run: how many transactions it has created
    or taken and not yet ended or parked, and the messages it has sent. *)
Record Own := { held : Z; out : list (string * string) }.

(** ** Triples *)

Section logic.
Context (p : bool).

(** The states that others leave. *)
Definition shared_ok (s : St) : Prop := exists l n, St_ok l p n s.

(** From any state that others leave, [f] changes what the program owns from [g] to [g'],
    and nothing of what others own. *)
Definition does (f : St -> St) (g g' : Own) (s : St) : Prop :=
  forall l n, St_ok l p (held g + n) s ->
  exists new, out g' = out g ++ new /\ St_ok (l ++ new) p (held g' + n) (f s)
    /\ leaves s (f s).

(** The program keeps to what it owns, in whatever states others leave between its
    actions, and ends in [Q]. *)
Fixpoint safe {A} (m : M A) (g : Own) (Q : run A -> Own -> Prop) : Prop :=
  match m with
  | Ret r => Q r g
  | Act f k => forall s, shared_ok s ->
      exists g', does f g g' s /\ safe (k s) g' Q
  end.

(** From [P], [m] returns a value in [Q], or panics in [E]. *)
Definition ends {A} (Q : A -> Own -> Prop) (E : Own -> Prop) (r : run A) (g : Own) : Prop :=
  match r with Done a => Q a g | Panic => E g end.

Definition triple {A} (P : Own -> Prop) (m : M A) (Q : A -> Own -> Prop) (E : Own -> Prop) : Prop :=
  forall g, P g -> safe m g (ends Q E).

Lemma safe_mono {A} (m : M A) g (Q Q' : run A -> Own -> Prop) :
  safe m g Q -> (forall r g', Q r g' -> Q' r g') -> safe m g Q'.
Proof.
  intros Hm HQ. revert g Hm. induction m as [r|f k IH]; intros g Hm; simpl in *; [by apply HQ|].
  intros s Hs. destruct (Hm s Hs) as (g' & Hf & Hk). exists g'. split; [done|]. by apply IH.
Qed.

Lemma safe_bind {A B} (m : M A) (k : A -> M B) g (Q : run B -> Own -> Prop) :
  safe m g (ends (fun a g' => safe (k a) g' Q) (Q Panic)) -> safe (m ≫= k) g Q.
Proof.
  revert g. induction m as [[a|]|f c IH]; intros g Hm; simpl in *; [done..|].
  intros s Hs. destruct (Hm s Hs) as (g' & Hf & Hk). exists g'. split; [done|]. by apply IH.
Qed.

Lemma safe_catch {A} (m c : M A) g (Q : run A -> Own -> Prop) :
  safe m g (ends (fun a => Q (Done a)) (fun g' => safe c g' Q)) -> safe (catch m c) g Q.
Proof.
  revert g. induction m as [[a|]|f k IH]; intros g Hm; simpl in *; [done..|].
  intros s Hs. destruct (Hm s Hs) as (g' & Hf & Hk). exists g'. split; [done|]. by apply IH.
Qed.

(** Alone, the program does what it may do among others. *)
Lemma safe_exec {A} (m : M A) g (Q : run A -> Own -> Prop) l n s :
  safe m g Q -> St_ok l p (held g + n) s ->
  exists g' new, out g' = out g ++ new /\ St_ok (l ++ new) p (held g' + n) (exec m s).1
    /\ Q (exec m s).2 g'.
Proof.
  revert g l s. induction m as [r|f k IH]; intros g l s Hm Hs; simpl in *.
  { exists g, []. by rewrite !app_nil_r. }
  destruct (Hm s (ex_intro _ _ (ex_intro _ _ Hs))) as (g1 & Hf & Hk).
  destruct (Hf l n Hs) as (new & Ho & Hs1 & _).
  destruct (IH s g1 (l ++ new) (f s) Hk Hs1) as (g2 & new2 & Ho2 & Hs2 & HQ).
  exists g2, (new ++ new2). by rewrite !(assoc_L (++)), <- Ho, Ho2.
Qed.

Section rules.
Context {A : Type} (P : Own -> Prop) (E : Own -> Prop).

Lemma triple_ret (a : A) (Q : A -> Own -> Prop) :
  (forall g, P g -> Q a g) -> triple P (mret a) Q E.
Proof. intros H g Hg. by apply H. Qed.

Lemma triple_bind {B} (m : M B) (k : B -> M A) (R : B -> Own -> Prop) (Q : A -> Own -> Prop) :
  triple P m R E -> (forall b, triple (R b) (k b) Q E) -> triple P (m ≫= k) Q E.
Proof.
  intros Hm Hk g Hg. apply safe_bind. eapply safe_mono; [by apply Hm|].
  intros [b|] g'; [apply Hk|done].
Qed.

Lemma triple_lift (r : run A) (Q : A -> Own -> Prop) :
  (forall a g, r = Done a -> P g -> Q a g) -> (forall g, P g -> E g) -> triple P (lift r) Q E.
Proof. intros HQ HE g Hg. destruct r; [by apply HQ|by apply HE]. Qed.

Lemma triple_conseq (P' : Own -> Prop) (m : M A) (Q Q' : A -> Own -> Prop) (E' : Own -> Prop) :
  triple P' m Q' E' -> (forall g, P g -> P' g) -> (forall a g, Q' a g -> Q a g) ->
  (forall g, E' g -> E g) -> triple P m Q E.
Proof.
  intros H HP HQ HE g Hg. eapply safe_mono; [by apply H, HP|]. intros [a|] g'; [apply HQ|apply HE].
Qed.

(** One action. *)
Lemma triple_act f (k : St -> M A) (R : St -> Own -> Prop) (Q : A -> Own -> Prop) :
  (forall s g, shared_ok s -> P g -> exists g', does f g g' s /\ R s g') ->
  (forall s, triple (R s) (k s) Q E) -> triple P (Act f k) Q E.
Proof. intros Hf Hk g Hg s Hs. destruct (Hf s g Hs Hg) as (g' & ? & ?). exists g'. split; [done|]. by apply Hk. Qed.
End rules.

Lemma does_nothing g s : does (fun s => s) g g s.
Proof. intros l n Hs. exists []. by rewrite !app_nil_r. Qed.

Lemma triple_get {A} (P : Own -> Prop) (E : Own -> Prop) (k : St -> M A) (Q : A -> Own -> Prop) :
  (forall s, shared_ok s -> triple P (k s) Q E) -> triple P (get ≫= k) Q E.
Proof.
  intros Hk. apply (triple_act _ _ _ _ (fun s g => shared_ok s /\ P g)).
  - intros s g Hs Hg. exists g. split; [apply does_nothing|done].
  - intros s g [Hs Hg]. by apply Hk.
Qed.

Lemma triple_modify (P P' : Own -> Prop) (E : Own -> Prop) f :
  (forall s g, shared_ok s -> P g -> exists g', does f g g' s /\ P' g') ->
  triple P (modify f) (fun _ => P') E.
Proof. intros H. apply (triple_act _ _ _ _ (fun _ => P')); [done|]. intros s g Hg. done. Qed.

Lemma triple_atomic {B} (P : Own -> Prop) (E : Own -> Prop) (f : St -> St * B) (R : B -> Own -> Prop) :
  (forall s g, shared_ok s -> P g ->
     exists g', does (fun s => (f s).1) g g' s /\ R (f s).2 g') ->
  triple P (atomic f) R E.
Proof. intros H. apply (triple_act _ _ _ _ (fun s => R (f s).2)); [done|]. intros s g Hg. done. Qed.
End logic.

Create HintDb triple.
#[export] Hint Resolve triple_ret : triple.

(** Only the loader panics, and then at most one transaction more is lost. *)
Definition loader_panics (h : handler) : Prop :=
  exists locs, LoadMany (crypto h) (loader h) locs = Panic.

(** The program holds [n] transactions and has sent [l]. *)
Definition owns (l : list (string * string)) (n : Z) (g : Own) : Prop := out g = l /\ held g = n.

Definition one_lost h l n (g : Own) : Prop :=
  loader_panics h /\ (owns l n g \/ owns l (n + 1) g).

(** The reply goes to the request's sender, and asks for nothing malformed. *)
Definition answers (req : Request) (r : Reply) : Prop :=
  rep_V r = V req /\ rep_RID r = RID req /\ rep_Inspector r = Inspector req
  /\ Forall action_ok (Actions r).

(** ** What the actions do *)

Section actions.
Context (p : bool).

Lemma Discards_complete (ks : list Kept) :
  Forall open_kept ks -> Forall complete ((fun k => Discard k.2) <$> ks).
Proof using.
  intros Hk. apply list.Forall_fmap. eapply list.Forall_impl; [exact Hk|]. intros k.
  apply Discard_complete.
Qed.

(** Transactions end; those the program held are [n] fewer. *)
Lemma does_end txs g s :
  Forall complete txs ->
  does p (add_ended txs) g {| held := held g - Z.of_nat (length txs); out := out g |} s.
Proof using.
  intros Hc l n [H1 H2 H3 H4 H5 H6 H7]. exists []. rewrite !app_nil_r. split; [done|]. split; [|done].
  constructor; simpl; try done; [by apply Forall_app|].
  unfold parked in *. simpl. rewrite length_app. lia.
Qed.

Lemma does_discard (ks : list Kept) g s :
  Forall open_kept ks ->
  does p (add_ended ((fun k => Discard k.2) <$> ks)) g
    {| held := held g - Z.of_nat (length ks); out := out g |} s.
Proof using.
  intros Hk. rewrite <- (length_fmap (fun k : Kept => Discard k.2) ks).
  by apply does_end, Discards_complete.
Qed.

Lemma does_create m g s : does p (add_created m) g {| held := held g + m; out := out g |} s.
Proof using.
  intros l n [H1 H2 H3 H4 H5 H6 H7]. exists []. rewrite !app_nil_r. split; [done|]. split; [|done].
  constructor; simpl; try done. unfold parked in *. simpl. lia.
Qed.

Lemma does_publish x g s : Forall publication_ok x -> does p (add_published x) g g s.
Proof using.
  intros Hx l n []. exists []. rewrite !app_nil_r. split; [done|]. split; [|done].
  constructor; try done. simpl. by apply list.Forall_app.
Qed.

Lemma does_sink k g s :
  AuditSink.loop_at k = AuditSink.loop_at (sink s) -> does p (set_sink k) g g s.
Proof using. intros Hk l n []. exists []. by rewrite !app_nil_r. Qed.

Lemma does_send m g s : does p (add_sent m) g {| held := held g; out := out g ++ [m] |} s.
Proof using.
  intros l n [H1 H2 H3 H4 H5 H6 H7]. exists [m]. split; [done|]. split; [|done].
  constructor; simpl; try done. by rewrite H1.
Qed.

(** An operation of the registry moves transactions: [given] to it, [got] from it. *)
Lemma does_sticky s reg reg' given got g :
  sticky s = Some reg -> values (items reg) ++ given ≡ₚ got ++ values (items reg') ->
  Forall open_kept given ->
  does p (set_sticky reg') g
    {| held := held g - Z.of_nat (length given) + Z.of_nat (length got); out := out g |} s.
Proof using.
  intros Es Ho Hg l n [H1 H2 H3 H4 H5 H6 H7]. exists []. rewrite !app_nil_r. split; [done|].
  split; [|done]. unfold parked in *. rewrite Es in *.
  assert (Forall open_kept (got ++ values (items reg'))) as Hall
    by (rewrite <- Ho; by apply Forall_app).
  apply Forall_app in Hall as [_ Hv]. apply Permutation_length in Ho. rewrite !length_app in Ho.
  constructor; simpl; try done; unfold parked; simpl; lia.
Qed.

(** What is in the registry, or comes from it, is open. *)
Lemma shared_open s reg given got rest :
  shared_ok p s -> sticky s = Some reg -> Forall open_kept given ->
  values (items reg) ++ given ≡ₚ got ++ rest -> Forall open_kept got.
Proof using.
  intros (l & n & [_ _ _ H4 _ _ _]) Es Hg Ho. unfold parked in H4. rewrite Es in H4.
  assert (Forall open_kept (got ++ rest)) as Hall by (rewrite <- Ho; by apply Forall_app).
  by apply Forall_app in Hall as [? _].
Qed.

Lemma with_sticky_ok {A} (op : Sticky.Registry (T := Kept) -> A * Sticky.Registry (T := Kept))
    (P : Own -> Prop) (R : option A -> Own -> Prop) (E : Own -> Prop) given (got : A -> list Kept) :
  (forall reg, values (items reg) ++ given ≡ₚ got (op reg).1 ++ values (items (op reg).2)) ->
  Forall open_kept given ->
  (forall g, p = false -> P g -> R None g) ->
  (forall a g, p = true -> P g -> Forall open_kept (got a) ->
     R (Some a) {| held := held g - Z.of_nat (length given) + Z.of_nat (length (got a));
                   out := out g |}) ->
  triple p P (with_sticky op) R E.
Proof using.
  intros Ho Hgiven Hnone Hsome. apply triple_atomic. intros s g Hs Hg.
  assert (is_some (sticky s) = p) as Hp by by destruct Hs as (? & ? & []).
  destruct (sticky s) as [reg|] eqn:Es; simpl in *.
  - specialize (Ho reg). destruct (op reg) as [a reg'] eqn:Eo. simpl in *.
    eexists. split; [|apply Hsome; [done|exact Hg|by eapply shared_open]].
    intros l n Hl. rewrite Es, Eo. by eapply does_sticky.
  - exists g. split; [|by apply Hnone]. intros l n Hl. rewrite Es. by apply does_nothing.
Qed.
End actions.
