(* ===== verification/HandlerSafety.v ===== *)
(** * What the handler guarantees of one message

    Every operation of [Handler] in the logic of [HandlerLogic]: every task is answered
    once, no transaction is left open, and nothing is let through that was not inspected,
    whatever others do meanwhile ([evaluate_ok]). The theorems at the end are on the
    handler alone; [Service] and [Serving] have many at once. *)

From Stdlib Require Import QArith_base.
From S2P Require Import Prelude GoString Protocol Engine Apply PriorRules Policy AuditLog.
From S2P Require Import Verdict Queue Sticky Body Rules Lists Handler HandlerLogic.
From S2P Require AuditSink.
From stdpp Require Import options.

Local Open Scope Z_scope.

Section pieces.
Context (h : handler) (ck : Clock) (l : list (string * string)) (p : bool) (n : Z).

Lemma owns_held g m : owns l n g -> owns l (n + m) {| held := held g + m; out := out g |}.
Proof using. by intros [<- <-]. Qed.

(** A kept transaction, if there is one, is held. *)
Definition owns_live (live : option Kept) (g : Own) : Prop :=
  match live with
  | Some k => open_kept k /\ owns l (n + 1) g
  | None => owns l n g
  end.

Lemma discard_ok (ks : list Kept) m E :
  Forall open_kept ks -> m = n + Z.of_nat (length ks) ->
  triple p (owns l m) (discard ks) (fun _ => owns l n) E.
Proof using.
  intros Hk ->. apply triple_modify. intros s g _ [Hl Hn].
  eexists. split; [by apply does_discard|]. split; simpl; [done|lia].
Qed.

Lemma discard_opt_ok live E :
  triple p (owns_live live) (discard_opt live) (fun _ => owns l n) E.
Proof using.
  destruct live as [k|]; [|by apply triple_ret]. intros g [Hk Hg].
  apply (discard_ok [k] (n + 1)); [by constructor|done|done].
Qed.

Lemma resumeState_ok req :
  triple p (owns l n) (resumeState ck req) owns_live (one_lost h l n).
Proof using.
  unfold resumeState. destruct (req_Resume req) as [r|]; [|by apply triple_ret].
  destruct (str_eqb (res_Token r) ""); [by apply triple_ret|].
  eapply (triple_bind _ _ _ _ _ (fun taken g => match taken with
    | None => owns l n g
    | Some (live, dead) =>
        Forall open_kept (option_list live ++ dead)
        /\ owns l (n + Z.of_nat (length (option_list live ++ dead))) g end)).
  - apply (with_sticky_ok _ _ _ _ _ [] (fun x => option_list x.1 ++ x.2)); [|constructor|done|].
    + intros reg. rewrite app_nil_r. destruct (Take _ _ reg) as [[live dead] reg'] eqn:E.
      simpl. rewrite <- (assoc_L (++)). by eapply Take_owned.
    + intros [live dead] g _ [Hl Hn] Ho. split; [done|]. split; simpl in *; [done|lia].
  - intros [[live dead]|]; [|by apply triple_ret].
    intros g [Ho Hg]. apply Forall_app in Ho as [Hlive Hdead]. rewrite length_app in Hg.
    eapply (triple_bind _ _ _ _ _ (fun _ => owns_live live)); [|intros []; by apply triple_ret|exact Hg].
    apply triple_modify. intros s g' _ [Hl Hn]. eexists. split; [by apply does_discard|].
    destruct live as [k|]; simpl in *; [split; [by inversion Hlive|]|]; (split; simpl; [done|lia]).
Qed.

Lemma releaseState_ok req E : triple p (owns l n) (releaseState req) (fun _ => owns l n) E.
Proof using.
  unfold releaseState. destruct (req_Release req) as [r|]; [|by apply triple_ret].
  eapply (triple_bind _ _ _ _ _ (fun taken g => match taken with
    | None => owns l n g
    | Some dead => Forall open_kept dead /\ owns l (n + Z.of_nat (length dead)) g end)).
  - apply (with_sticky_ok _ _ _ _ _ [] (fun x => x)); [|constructor|done|].
    + intros reg. rewrite app_nil_r. destruct (Drop _ reg) as [dead reg'] eqn:E'. by eapply Drop_owned.
    + intros dead g _ [Hl Hn] Ho. split; [done|]. split; simpl in *; [done|lia].
  - intros [dead|]; [|by apply triple_ret]. intros g [Ho Hg]. by eapply discard_ok.
Qed.

Lemma publish_ok addr bans (R : Own -> Prop) E :
  Forall (ban_ok addr) bans -> triple p R (publish h bans) (fun _ => R) E.
Proof using.
  intros Hb. unfold publish. destruct (_ || _); [by apply triple_ret|].
  pose proof (writeLists_ok (geo h) addr bans Hb) as Hp. destruct (writeLists _ _) as [err pubs].
  eapply (triple_bind _ _ _ _ _ (fun _ => R)); [|intros []; by apply triple_ret].
  apply triple_modify. intros s g _ Hg. exists g. split; [by apply does_publish|done].
Qed.

Lemma select_ok name (R : Own -> Prop) E : triple p R (select name) (fun _ => R) E.
Proof using.
  apply triple_get. intros s _. destruct (Select _ _) as [[[eng|] sel] r]; [by apply triple_ret|].
  eapply (triple_bind _ _ _ _ _ (fun _ => R)); [|intros []; by apply triple_ret].
  apply triple_modify. intros s' g _ Hg. exists g. split; [|done].
  intros l' n' []. exists []. by rewrite !app_nil_r.
Qed.

(** Reading the profiles. *)
Lemma prior_rules_bind {A} name (k : list Rule -> M A) P Q E :
  (forall rules, triple p P (k rules) Q E) -> triple p P (prior_rules name ≫= k) Q E.
Proof using. intros Hk. apply (triple_get p P E). intros s _. apply Hk. Qed.

Lemma outcomes_bind {A} name (k : list Outcome -> M A) P Q E :
  (forall rows, loaded rows -> triple p P (k rows) Q E) -> triple p P (outcomes name ≫= k) Q E.
Proof using.
  intros Hk. apply (triple_get p P E). intros s (l0 & n0 & [_ _ _ _ _ H6 _]).
  by apply Hk, Outcomes_loaded.
Qed.

(** *** Runs of the engine *)

Lemma create_ok E :
  triple p (owns l n) (modify (add_created 1)) (fun _ => owns l (n + 1)) E.
Proof using.
  apply triple_modify. intros s g _ Hg. eexists. split; [apply does_create|by apply owns_held].
Qed.

Lemma end_ok tx E :
  complete tx -> triple p (owns l (n + 1)) (modify (add_ended [tx])) (fun _ => owns l n) E.
Proof using.
  intros Hc. apply triple_modify. intros s g _ [Hl Hn]. eexists.
  split; [apply does_end; by constructor|]. split; simpl; [done|lia].
Qed.

(** A transaction is created, and ended at once. *)
Lemma run_ended_ok r E :
  (forall tx, r.1 = Some tx -> complete tx) ->
  triple p (owns l n) (run_ended r) (fun _ => owns l n) E.
Proof using.
  intros Hr. destruct r as [[tx|] res]; [|by apply triple_ret]. specialize (Hr tx eq_refl).
  eapply triple_bind; [apply create_ok|]. intros [].
  eapply triple_bind; [by apply end_ok|]. intros []. by apply triple_ret.
Qed.

(** The result of a run that may keep its transaction. *)
Definition kept_result (keep : bool) (res : res string (Apply.Outcome * option Kept)) (g : Own) :
    Prop :=
  match res with
  | Ok (_, Some k) => keep = true /\ open_kept k /\ owns l (n + 1) g
  | _ => owns l n g
  end.

Lemma apply_keep_ok eng i E :
  triple p (owns l n) (apply_keep ck eng i) (kept_result true) E.
Proof using.
  unfold apply_keep. pose proof (ApplyKeep_complete eng i (elapsed_us ck)) as Ha.
  destruct (ApplyKeep _ _ _) as [[tx|] [[o live]|e]]; try done; try by apply triple_ret.
  - destruct Ha as [Htx Hl]. eapply triple_bind; [apply create_ok|]. intros [].
    apply triple_ret. intros g Hg. split_and!; [done|by rewrite <- Htx in Hl|apply Hg..].
  - eapply triple_bind; [apply create_ok|]. intros [].
    eapply triple_bind; [by apply end_ok|]. intros []. by apply triple_ret.
Qed.

Lemma apply_only_ok eng i E :
  triple p (owns l n) (apply_only ck eng i) (kept_result false) E.
Proof using.
  unfold apply_only. eapply triple_bind; [apply run_ended_ok, Apply_complete|].
  intros res. apply triple_ret. intros g Hg. by destruct res.
Qed.

Lemma run_resume_ok k rsp E :
  open_kept k ->
  triple p (owns l (n + 1)) (run_resume ck k rsp) (fun _ => owns l n) E.
Proof using.
  intros Hk. unfold run_resume. pose proof (Resume_complete k.1 k.2 rsp (elapsed_us ck) Hk) as Hc.
  destruct (Apply.Resume _ _ _ _) as [tx r].
  eapply triple_bind; [by apply end_ok|]. intros []. by apply triple_ret.
Qed.

End pieces.

Section safety.
Context (h : handler) (ck : Clock) (l : list (string * string)) (p : bool) (n : Z).

(** *** Replies *)

Lemma From_answers req o opts : answers req (Verdict.From req o opts).
Proof using. unfold answers. destruct (From_case req o opts); by split_and!. Qed.

Lemma attach_answers actions req r :
  Forall action_ok actions -> answers req r -> answers req (attach actions r).
Proof using. intros Ha (? & ? & ? & ?). unfold answers. by destruct actions. Qed.

(** What the rows of a loaded policy ask for and ban. *)
Definition fired_ok (addr : string) (f : Fired) : Prop :=
  Forall action_ok (f_Actions f) /\ Forall (ban_ok addr) (Bans f).

Lemma fired_of_ok rows req reply o :
  loaded rows -> fired_ok (ClientIP (req_Conn req)) (fired_of rows req reply o).
Proof using. intros Hl. by apply fire_wellformed. Qed.

Lemma overload_ok rows fill shed addr code :
  loaded rows -> fired_ok addr (FireOverload rows fill shed addr code).
Proof using. intros Hl. by apply fire_wellformed. Qed.

Lemma app_fired_ok addr a b : fired_ok addr a -> fired_ok addr b -> fired_ok addr (app_fired a b).
Proof using. intros [] []. by split; apply list.Forall_app. Qed.

(** What an inspection promises: everything it held is ended or parked, nothing is sent,
    and the reply goes to the sender. *)
Definition inspected (req : Request) (rd : Reply * Details) (g : Own) : Prop :=
  owns l n g /\ answers req rd.1.

Ltac answer := apply triple_ret; intros ? ?; split; [by auto|done].

Lemma offerContinue_ok req reply det live :
  p = true -> is_some (req_Resume req) = true -> open_kept live -> answers req reply ->
  triple p (owns l (n + 1)) (offerContinue h ck req reply det live) (inspected req) (one_lost h l n).
Proof using.
  intros Hp Hr Hl Ha. unfold offerContinue.
  assert (Forall open_kept [live]) as Hlive by by constructor.
  destruct (_ || _).
  { eapply triple_bind; [by apply (discard_ok l p n [live])|]. intros []. answer. }
  destruct (req_Resume req) as [r|]; [|done].
  eapply (triple_bind _ _ _ _ _ (fun x g => match x with
    | None => False
    | Some (ok, dead, _) => Forall open_kept dead
        /\ owns l (n + (if ok : bool then 0 else 1) + Z.of_nat (length dead)) g end)).
  - apply (with_sticky_ok _ _ _ _ _ [live]
      (fun x => x.1.2 ++ if x.1.1 : bool then [] else [live])); [|done|by rewrite Hp|].
    + intros reg. destruct (Park _ _ live reg) as [[ok dead] reg'] eqn:E.
      apply Park_owned in E. simpl. destruct ok; simpl in *; rewrite ?app_nil_r in *; [done|].
      rewrite E. solve_Permutation.
    + intros [[ok dead] t] g _ [Hg Hn] Ho. simpl in *. apply Forall_app in Ho as [Ho _].
      split; [done|]. split; simpl; [done|]. rewrite length_app. destruct ok; simpl; lia.
  - intros [[[ok dead] t]|]; [|by intros g []]. intros g [Ho Hg]. revert g Hg.
    eapply triple_bind; [by eapply (discard_ok l p _ dead)|]. intros [].
    destruct ok; [rewrite Z.add_0_r; answer|].
    eapply triple_bind; [by apply (discard_ok l p n [live])|]. intros []. answer.
Qed.

(** *** The three inspections *)

Lemma load_bind {A} locs (P : Own -> Prop) (k : list Body -> M A) Q :
  (forall g, P g -> owns l n g \/ owns l (n + 1) g) ->
  (forall got, length got = length locs -> triple p P (k got) Q (one_lost h l n)) ->
  triple p P (load_many h locs ≫= k) Q (one_lost h l n).
Proof using.
  intros HP Hk g Hg. unfold load_many, lift. destruct (LoadMany _ _ locs) as [got|] eqn:E.
  - apply Hk; [by eapply LoadMany_length|done].
  - split; [by exists locs|auto].
Qed.

Lemma got_bind {A} got i (P : Own -> Prop) (k : Body -> M A) Q E :
  (i < length got)%nat -> (forall b, triple p P (k b) Q E) ->
  triple p P (lift (got_at got i) ≫= k) Q E.
Proof using.
  intros Hi Hk g Hg. unfold got_at. destruct (lookup_lt_is_Some_2 got i Hi) as [b ->].
  by apply Hk.
Qed.

(** The end of an inspection without a kept transaction. *)
Lemma finish_ok req failed (det : Details) reply fired :
  answers req reply -> Forall action_ok (f_Actions fired) ->
  triple p (owns l n)
    (match failed with
     | Some err => mret (geo_failed req det err)
     | None => mret (attach (f_Actions fired) reply, det)
     end) (inspected req) (one_lost h l n).
Proof using.
  intros Ha Hf. destruct failed; [answer|]. apply triple_ret. intros s Hs. split; [done|].
  by apply attach_answers.
Qed.

Lemma inspectRequest_ok t :
  triple p (owns l n) (inspectRequest h ck t) (inspected (t_Req t)) (one_lost h l n).
Proof using.
  unfold inspectRequest. set (req := t_Req t).
  eapply triple_bind; [apply select_ok|]. intros [eng sel]. destruct eng as [eng|]; [|answer].
  apply prior_rules_bind. intros rules. destruct (Skip _); [answer|].
  apply load_bind; [by left|]. intros got Hgot. simpl in Hgot.
  do 3 (apply got_bind; [lia|]; intros ?).
  destruct (bodyError _) as [code why]. destruct (negb (str_eqb code "")); [answer|].
  apply (triple_get p). intros s0 Hs0.
  eapply (triple_bind _ _ _ _ _ (kept_result l n (wantsResume h (sticky s0) req))).
  { destruct (wantsResume _ _ _); [apply apply_keep_ok|apply apply_only_ok]. }
  intros [[o live]|err]; [|answer]. cbv zeta.
  apply outcomes_bind. intros rows Hrows. apply outcomes_bind. intros more Hmore.
  set (reply := Verdict.From _ _ _). set (fired := app_fired _ _). set (det := note_names _ _).
  assert (answers req reply) as Ha by apply From_answers.
  assert (fired_ok (ClientIP (req_Conn req)) fired) as [Hask Hban]
    by (apply app_fired_ok; [by apply fired_of_ok|by apply overload_ok]).
  destruct live as [k|].
  - eapply triple_bind; [by eapply publish_ok|]. intros failed. destruct failed as [err|].
    + eapply (triple_bind _ _ _ _ _ (fun _ => owns l n)); [|intros []; answer].
      intros g (_ & Hk & Hg). by apply (discard_opt_ok l p n (Some k)).
    + intros g (Hw & Hk & Hg). unfold wantsResume in Hw.
      rewrite !andb_true_iff in Hw. destruct Hw as (((Hst & _) & _) & Hr).
      apply offerContinue_ok; try done; [|by destruct (req_Resume req)|by apply attach_answers].
      by destruct Hs0 as (? & ? & [_ <- _ _ _ _ _]).
  - eapply triple_bind; [by eapply publish_ok|].
    intros failed. destruct failed as [err|].
    + eapply triple_bind; [apply (discard_opt_ok l p n None)|]. intros []. answer.
    + apply triple_ret. intros s Hs. split; [done|]. by apply attach_answers.
Qed.

Lemma inspectFrame_ok req :
  triple p (owns l n) (inspectFrame h ck req) (inspected req) (one_lost h l n).
Proof using.
  unfold inspectFrame. eapply triple_bind; [apply select_ok|]. intros [eng sel].
  destruct eng as [eng|]; [|answer]. destruct (str_eqb _ "binary"); [answer|].
  apply prior_rules_bind. intros rules. destruct (Skip _); [answer|].
  apply load_bind; [by left|]. intros got Hgot. simpl in Hgot.
  do 2 (apply got_bind; [lia|]; intros ?).
  destruct (bodyError _) as [code why]. destruct (negb (str_eqb code "")); [answer|].
  eapply triple_bind; [apply run_ended_ok, Apply_complete|]. intros [o|err]; [|answer].
  cbv zeta. apply outcomes_bind. intros rows Hrows.
  destruct (fired_of_ok rows req (Verdict.From req o (scaled (opts h) (Evaluate (Prior req) rules))) o Hrows).
  eapply triple_bind; [by eapply publish_ok|].
  intros failed. by apply finish_ok; [apply From_answers|].
Qed.

Definition owns_src (src : Kept + Engine) : Own -> Prop :=
  owns_live l n (match src with inl k => Some k | inr _ => None end).

Lemma respond_ok req personal ask sel (src : Kept + Engine) :
  triple p (owns_src src) (respond h ck req personal ask sel src) (inspected req) (one_lost h l n).
Proof using.
  unfold respond. cbv zeta.
  apply load_bind; [intros g Hg; destruct src; [right; apply Hg|by left]|].
  intros got Hgot. rewrite length_app in Hgot. simpl in Hgot.
  do 2 (apply got_bind; [lia|]; intros ?).
  destruct (bodyError _) as [code why]. destruct (negb (str_eqb code "")).
  { eapply triple_bind; [apply discard_opt_ok|]. intros []. answer. }
  eapply (triple_bind _ _ _ _ _ (fun _ => owns l n)).
  - destruct src as [k|eng].
    + intros g [Hk Hg]. by apply run_resume_ok.
    + do 2 (apply got_bind; [simpl in Hgot; lia|]; intros ?).
      apply run_ended_ok, ApplyResponse_complete.
  - intros [o|err]; [|answer]. apply outcomes_bind. intros rows Hrows.
    destruct (fired_of_ok rows req (Verdict.From req o (scaled (opts h) ask)) o Hrows).
    eapply triple_bind; [by eapply publish_ok|]. intros failed.
    by apply finish_ok; [apply From_answers|].
Qed.

Lemma inspectResponse_ok req personal :
  triple p (owns l n) (inspectResponse h ck req personal) (inspected req)
    (one_lost h l n).
Proof using.
  unfold inspectResponse. eapply triple_bind; [apply resumeState_ok|]. intros live.
  apply prior_rules_bind. intros rules. destruct (Skip _).
  { eapply triple_bind; [apply discard_opt_ok|]. intros []. answer. }
  destruct live as [k|]; [apply (respond_ok _ _ _ _ (inl k))|].
  destruct (requires_resume req); [answer|].
  eapply triple_bind; [apply select_ok|]. intros [[eng|] sel]; [|answer].
  apply (respond_ok _ _ _ _ (inr eng)).
Qed.

Lemma inspect_ok t :
  triple p (owns l n) (inspect h ck t) (inspected (t_Req t)) (one_lost h l n).
Proof using.
  unfold inspect. destruct (str_eqb _ PhaseResponse); [apply inspectResponse_ok|].
  destruct (str_eqb _ PhaseFrame); [apply inspectFrame_ok|apply inspectRequest_ok].
Qed.

Lemma shed_reply_ok t budget shed :
  triple p (owns l n) (shed_reply h t budget shed) (inspected (t_Req t))
    (one_lost h l n).
Proof using.
  unfold shed_reply. destruct (_ && _); [|answer]. apply outcomes_bind. intros rows Hrows.
  destruct (overload_ok rows (Fill t) true (ClientIP (req_Conn (t_Req t))) shed Hrows).
  eapply triple_bind; [by eapply publish_ok|].
  intros failed. apply triple_ret. intros s Hs. split; [done|]. by apply attach_answers.
Qed.
End safety.

(** ** Nothing passes uninspected *)

(** The engine ran on the body [b] with the outcome [out]: on a request, a frame,
    or a response, on a kept transaction or a rebuilt one. *)
Inductive ran (req : Request) (us : Z) (b : Body) (out : Apply.Outcome) : Prop :=
| ran_request eng args hdr :
    (Apply.Apply eng (input req args hdr b) us).2 = Ok out -> ran req us b out
| ran_frame eng hdr :
    (Apply.Apply eng (frameInput req hdr b) us).2 = Ok out -> ran req us b out
| ran_kept eng args hdr live :
    (ApplyKeep eng (input req args hdr b) us).2 = Ok (out, live) -> ran req us b out
| ran_resumed eng live rsp :
    rsp_Body rsp = Body.Data b -> (Apply.Resume eng live rsp us).2 = Ok out -> ran req us b out
| ran_rebuilt eng i rsp :
    rsp_Body rsp = Body.Data b -> (ApplyResponse eng i rsp us).2 = Ok out -> ran req us b out.

(** The ways for a message to pass. *)
Inductive let_through (h : handler) (ck : Clock) (req : Request) (r : Reply) : Prop :=
| by_skip rules :
    Skip (Evaluate (Prior req) rules) = true -> r = skipped req -> let_through h ck req r
| by_binary :
    Phase req = PhaseFrame -> frameOpcode req = "binary" ->
    rep_Reason r = Some (reason codeFrameBinary) -> let_through h ck req r
| by_inspection locs got i b out o :
    LoadMany (crypto h) (loader h) locs = Done got -> got !! i = Some b ->
    locs !! i = Some (st_Body (req_Store req)) ->
    Available b = true -> Body_Truncated b = false -> ran req (elapsed_us ck) b out ->
    Verdict r = Verdict (Verdict.From req out o) -> let_through h ck req r.

(** The values a program returns, whatever states it meets. *)
Fixpoint always {A} (m : M A) (phi : A -> Prop) : Prop :=
  match m with
  | Ret (Done a) => phi a
  | Ret Panic => True
  | Act f k => forall s, always (k s) phi
  end.

Section passing.
Context (h : handler) (ck : Clock).

Definition passes (req : Request) (rd : Reply * Details) : Prop :=
  Verdict rd.1 = VerdictAllow \/ Verdict rd.1 = VerdictScore -> let_through h ck req rd.1.

Lemma always_exec {A} (m : M A) (phi : A -> Prop) s :
  always m phi -> match (exec m s).2 with Done a => phi a | Panic => True end.
Proof using. revert s. induction m as [[a|]|f k IH]; intros s Hm; simpl in *; [done..|by apply IH]. Qed.

Lemma always_bind {A B} (m : M B) (k : B -> M A) (phi : B -> Prop) (psi : A -> Prop) :
  always m phi -> (forall b, phi b -> always (k b) psi) -> always (m ≫= k) psi.
Proof using.
  intros Hm Hk. induction m as [[b|]|f c IH]; simpl in *; [by apply Hk|done|].
  intros s. by apply IH.
Qed.

Lemma any_bind {A B} (m : M B) (k : B -> M A) psi :
  (forall b, always (k b) psi) -> always (m ≫= k) psi.
Proof using.
  intros Hk. apply (always_bind _ _ (fun _ => True)); [|done].
  by induction m as [[b|]|f c IH]; simpl.
Qed.

Lemma load_bind_pure {A} locs (k : list Body -> M A) psi :
  (forall got, LoadMany (crypto h) (loader h) locs = Done got -> always (k got) psi) ->
  always (load_many h locs ≫= k) psi.
Proof using. intros Hk. unfold load_many, lift. destruct (LoadMany _ _ _); [by apply Hk|done]. Qed.

Lemma got_bind_pure {A} got i (k : Body -> M A) psi :
  (forall b, got !! i = Some b -> always (k b) psi) -> always (lift (got_at got i) ≫= k) psi.
Proof using. intros Hk. unfold got_at, lift. destruct (got !! i); [by apply Hk|done]. Qed.

Lemma run_ended_bind {A} r (k : res string Apply.Outcome -> M A) psi :
  always (k r.2) psi -> always (run_ended r ≫= k) psi.
Proof using.
  intros Hk. apply (always_bind _ _ (fun x => x = r.2)); [|by intros b ->].
  by destruct r as [[]].
Qed.

Lemma apply_keep_always eng i :
  always (apply_keep ck eng i) (fun x => match x with
    | Ok (o, None) => False
    | Ok (o, Some (e, live)) => e = eng /\ (ApplyKeep eng i (elapsed_us ck)).2 = Ok (o, live)
    | Err _ => True end).
Proof using. unfold apply_keep. by destruct (ApplyKeep _ _ _) as [[tx|] [[o live]|e]]. Qed.

Lemma apply_only_always eng i :
  always (apply_only ck eng i) (fun x => match x with
    | Ok (o, live) => live = None /\ (Apply.Apply eng i (elapsed_us ck)).2 = Ok o
    | Err _ => True end).
Proof using. unfold apply_only. apply run_ended_bind. by destruct (Apply.Apply _ _ _).2. Qed.

Lemma bodyError_ok b :
  (bodyError b).1 = "" <-> Available b = true /\ Body_Truncated b = false.
Proof.
  unfold bodyError. destruct (Available b), (Body_Truncated b); simpl; naive_solver.
Qed.

Ltac fails := intros [?|?]; done.

(** Every end of an inspection but a denial of service to the caller. *)
Lemma finish_passes req failed det reply actions :
  (Verdict reply = VerdictAllow \/ Verdict reply = VerdictScore ->
   forall r, Verdict r = Verdict reply -> let_through h ck req r) ->
  always (match failed with
     | Some err => mret (geo_failed req det err)
     | None => mret (attach actions reply, det)
     end) (passes req).
Proof.
  intros Hr. destruct failed; [fails|]. intros Hv.
  apply Hr; by destruct actions.
Qed.

Lemma offerContinue_passes req reply det live :
  (Verdict reply = VerdictAllow \/ Verdict reply = VerdictScore ->
   forall r, Verdict r = Verdict reply -> let_through h ck req r) ->
  always (offerContinue h ck req reply det live) (passes req).
Proof.
  intros Hr. unfold offerContinue. destruct (_ || _).
  { apply any_bind. intros []. intros Hv. by apply Hr. }
  destruct (req_Resume req) as [r|]; [|done].
  apply any_bind. intros [[[ok dead] t]|]; [|done]. apply any_bind. intros []. destruct ok.
  - intros Hv. by apply Hr.
  - apply any_bind. intros []. intros Hv. by apply Hr.
Qed.

Lemma inspectRequest_passes t : always (inspectRequest h ck t) (passes (t_Req t)).
Proof.
  unfold inspectRequest. set (req := t_Req t). apply any_bind. intros [[eng|] sel]; [|fails].
  apply any_bind. intros rules. destruct (Skip _) eqn:Es.
  { intros _. by eapply by_skip. }
  apply load_bind_pure. intros got Hg. do 3 (apply got_bind_pure; intros ? ?).
  destruct (bodyError _) as [code why] eqn:Eb. destruct (str_eqb code "") eqn:Ec; [|fails].
  apply str_eqb_true in Ec. apply (f_equal fst) in Eb. simpl in Eb. rewrite Ec in Eb.
  apply bodyError_ok in Eb as [Hav Htr]. simpl negb. cbv iota.
  apply any_bind. intros s0.
  assert (forall out, ran req (elapsed_us ck) b1 out -> forall actions r,
    Verdict r = Verdict (attach actions (Verdict.From req out
                  (scaled (opts h) (Evaluate (Prior req) rules)))) -> let_through h ck req r) as Hr.
  { intros out Hran actions r Hv. eapply (by_inspection _ _ _ _ _ got 2 b1); [done..|].
    rewrite Hv. by destruct actions. }
  destruct (wantsResume _ _ _).
  - eapply always_bind; [apply apply_keep_always|]. intros [[out [[e live]|]]|err]; [|done|intros _; fails].
    intros [-> Hrun].
    do 2 (apply any_bind; intros ?). apply any_bind. intros [err|].
    + apply any_bind. intros []. fails.
    + apply offerContinue_passes. intros _. eapply Hr, ran_kept, Hrun.
  - eapply always_bind; [apply apply_only_always|]. intros [[out live]|err]; [|intros _; fails].
    intros [-> Hrun].
    do 2 (apply any_bind; intros ?). apply any_bind. intros [err|].
    + apply any_bind. intros []. fails.
    + intros _. eapply Hr; [by eapply ran_request|done].
Qed.

Lemma inspectFrame_passes req :
  Phase req = PhaseFrame -> always (inspectFrame h ck req) (passes req).
Proof.
  intros Hp. unfold inspectFrame. apply any_bind. intros [[eng|] sel]; [|fails].
  destruct (str_eqb (frameOpcode req) "binary") eqn:Eo.
  { intros _. apply by_binary; first [done | by apply str_eqb_true]. }
  apply any_bind. intros rules. destruct (Skip _) eqn:Es.
  { intros _. by eapply by_skip. }
  apply load_bind_pure. intros got Hg. do 2 (apply got_bind_pure; intros ? ?).
  destruct (bodyError _) as [code why] eqn:Eb. destruct (str_eqb code "") eqn:Ec; [|fails].
  apply str_eqb_true in Ec. apply (f_equal fst) in Eb. simpl in Eb. rewrite Ec in Eb.
  apply bodyError_ok in Eb as [Hav Htr]. simpl negb. cbv iota.
  apply run_ended_bind. destruct (Apply.Apply _ _ _).2 as [out|e] eqn:Er; [|fails].
  do 2 (apply any_bind; intros ?). apply finish_passes. intros _ r Hv.
  eapply (by_inspection _ _ _ _ _ got 1); [done..| |exact Hv]. by eapply ran_frame.
Qed.

Lemma respond_passes req personal ask sel (src : Kept + Engine) :
  always (respond h ck req personal ask sel src) (passes req).
Proof.
  unfold respond. cbv zeta.
  apply load_bind_pure. intros got Hg. do 2 (apply got_bind_pure; intros ? ?).
  destruct (bodyError _) as [code why] eqn:Eb. destruct (str_eqb code "") eqn:Ec.
  2: { apply any_bind. intros []. fails. }
  apply str_eqb_true in Ec. apply (f_equal fst) in Eb. simpl in Eb. rewrite Ec in Eb.
  apply bodyError_ok in Eb as [Hav Htr]. simpl negb. cbv iota.
  apply (always_bind _ _ (fun res => forall out, res = Ok out -> ran req (elapsed_us ck) b0 out)).
  - destruct src as [[eng live]|eng].
    + unfold run_resume. simpl. destruct (Apply.Resume _ _ _ _) as [tx r] eqn:Er. simpl.
      intros _ out ->. eapply (ran_resumed _ _ _ _ eng live); [|by rewrite Er]. done.
    + do 2 (apply any_bind; intros ?). unfold run_ended.
      destruct (ApplyResponse _ _ _ _) as [[tx|] r] eqn:Er; simpl; intros;
        (eapply ran_rebuilt; [|by rewrite Er; simpl; eassumption]; done).
  - intros [out|e] Hran; [|fails]. do 2 (apply any_bind; intros ?). apply finish_passes. intros _ r Hv.
    eapply (by_inspection _ _ _ _ _ got 1); [done..| |exact Hv]. by apply Hran.
Qed.

Lemma inspectResponse_passes req personal :
  always (inspectResponse h ck req personal) (passes req).
Proof.
  unfold inspectResponse. do 2 (apply any_bind; intros ?).
  destruct (Skip _) eqn:Es.
  { apply any_bind. intros []. intros _. by eapply by_skip. }
  destruct b as [live|]; [apply respond_passes|].
  destruct (requires_resume req).
  { unfold passes. simpl. intros [|]; done. }
  apply any_bind. intros [[eng|] sel]; [apply respond_passes|fails].
Qed.

Lemma inspect_passes t : always (inspect h ck t) (passes (t_Req t)).
Proof.
  unfold inspect. destruct (str_eqb _ PhaseResponse); [apply inspectResponse_passes|].
  destruct (str_eqb _ PhaseFrame) eqn:E; [|apply inspectRequest_passes].
  by apply inspectFrame_passes, str_eqb_true.
Qed.

Lemma shed_reply_passes t budget shed :
  always (shed_reply h t budget shed) (passes (t_Req t)).
Proof.
  unfold shed_reply. destruct (_ && _); [|fails]. do 2 (apply any_bind; intros ?).
  unfold passes. simpl. destruct (f_Actions _); intros [|]; done.
Qed.
End passing.

(** A program that does not panic returns one of its values. *)
Lemma safe_always {A} p (m : M A) g Q phi :
  safe p m g Q -> always m phi ->
  safe p m g (fun r g' => Q r g' /\ match r with Done a => phi a | Panic => True end).
Proof.
  revert g. induction m as [[a|]|f k IH]; intros g Hm Hp; simpl in *; [done..|].
  intros s Hs. destruct (Hm s Hs) as (g' & Hf & Hk). exists g'. split; [done|]. by apply IH.
Qed.

(** ** Sending *)

Section sending.
Context (h : handler) (ck : Clock) (p : bool).
Context (Henc : forall r, is_some (json_Reply h r) = true).

Lemma payload_ok reply :
  exists rep text, payload_of h reply = Some text /\ json_Reply h rep = Some text
    /\ rep_RID rep = rep_RID reply /\ rep_Inspector rep = rep_Inspector reply
    /\ (rep = reply \/ Verdict rep = VerdictError /\ Actions rep = []).
Proof using Henc.
  unfold payload_of, Marshal.
  pose proof (Henc reply) as H1. destruct (json_Reply h reply) as [text|] eqn:E1; [|done].
  set (fb := FallbackReply _ _ _). simpl.
  pose proof (Henc fb) as H2. destruct (json_Reply h fb) as [text'|] eqn:E2; [|done].
  destruct (match Score reply with Some s => _ | None => false end).
  - exists fb, text'. by split_and!; auto.
  - exists reply, text. by split_and!; auto.
Qed.

(** One message more is sent, unless there is nobody to reply to. *)
Definition sent_one (l : list (string * string)) (subject : string) (phi : Reply -> Prop)
    (l' : list (string * string)) : Prop :=
  if str_eqb subject "" then l' = l
  else exists rep text, json_Reply h rep = Some text /\ phi rep /\ l' = l ++ [(subject, text)].

Lemma audit_add_ok it (P : Own -> Prop) E : triple p P (audit_add it) (fun _ => P) E.
Proof using.
  eapply (triple_bind _ _ _ _ _ (fun _ => P)).
  - apply triple_atomic. intros s g _ Hg. exists g. split; [|done]. intros l n Hs.
    destruct (AuditSink.enqueue it (sink s)) as [full k] eqn:Ek.
    apply does_sink; [by apply AuditSink.enqueue_rest in Ek as (_ & _ & _ & ? & _)|done].
  - intros []; [|by apply triple_ret]. apply triple_modify. intros s g _ Hg. exists g.
    split; [|done]. intros l n Hs. by apply does_sink.
Qed.

Lemma send_ok l n subject (phi : Reply -> Prop) reply req det E :
  (forall rep, rep_RID rep = rep_RID reply ->
     rep = reply \/ Verdict rep = VerdictError /\ Actions rep = [] -> phi rep) ->
  triple p (owns l n) (send h ck subject reply req det)
    (fun _ g => held g = n /\ sent_one l subject phi (out g)) E.
Proof using Henc.
  intros Hphi. unfold send, sent_one. destruct (str_eqb subject "").
  { apply triple_ret. by intros g []. }
  destruct (payload_ok reply) as (rep & text & -> & Hj & Hr & _ & Hv).
  eapply (triple_bind _ _ _ _ _ (fun _ => owns (l ++ [(subject, text)]) n)).
  { apply triple_modify. intros s g _ [<- Hn]. eexists. split; [apply does_send|done]. }
  assert (forall g, owns (l ++ [(subject, text)]) n g ->
    held g = n /\ exists rep text, json_Reply h rep = Some text /\ phi rep
      /\ out g = l ++ [(subject, text)]) as Hend
    by (intros g [Hl Hn]; split; [done|]; by exists rep, text; auto).
  intros []. destruct (AuditSink.Add _ _ _ _ _ _) as [[it|]|]; [|by apply triple_ret..].
  eapply triple_conseq; [apply (audit_add_ok it (owns (l ++ [(subject, text)]) n) E)|auto..].
Qed.

(** A reply to the request that lets it through for a reason only, and asks for nothing
    malformed. *)
Definition honest (req : Request) (r : Reply) : Prop :=
  rep_RID r = RID req /\ Forall action_ok (Actions r)
  /\ (Verdict r = VerdictAllow \/ Verdict r = VerdictScore -> let_through h ck req r).

(** How [evaluate] ends: it holds nothing more, or one transaction that a panic of the
    loader has lost, and has sent its one reply. *)
Definition evaluated (t : Task) (r : run (option Task)) (g : Own) : Prop :=
  r = Done None /\ (held g = 0 \/ held g = 1 /\ loader_panics h)
  /\ sent_one [] (t_Reply t) (honest (t_Req t)) (out g).

Definition nothing : Own := {| held := 0; out := [] |}.

Lemma evaluate_ok t budget shed : safe p (evaluate h ck t budget shed) nothing (evaluated t).
Proof using Henc.
  set (req := t_Req t). unfold evaluate, recoverInto. apply safe_catch, safe_bind.
  assert (safe p (if negb (str_eqb shed "") then shed_reply h t budget shed else inspect h ck t)
    nothing (ends (inspected [] 0 req) (one_lost h [] 0))) as Hi.
  { assert (owns [] 0 nothing) as Hn by done.
    destruct (negb _); [by apply shed_reply_ok|by apply inspect_ok]. }
  assert (always (if negb (str_eqb shed "") then shed_reply h t budget shed else inspect h ck t)
    (passes h ck req)) as Ha by (destruct (negb _); [apply shed_reply_passes|apply inspect_passes]).
  eapply safe_mono; [exact (safe_always _ _ _ _ _ Hi Ha)|].
  intros [rd|] g [Hg Hpass]; simpl in *.
  - destruct Hg as [Hg (_ & Hrid & _ & Hact)]. apply safe_bind. eapply safe_mono.
    + refine (send_ok [] 0 _ (honest req) _ _ _ (fun _ => False) _ g Hg). intros rep Hr Hv. split; [congruence|].
      destruct Hv as [-> | [Hv ->]]; [done|]. rewrite Hv. split; [done|]. by intros [].
    + intros [[]|] g' Hg'; [|done]. simpl. destruct Hg' as [Hh Hs]. split_and!; auto.
  - assert (exists n, (n = 0 \/ n = 1 /\ loader_panics h) /\ owns [] n g) as (n & Hn & Hg')
      by (destruct Hg as [Hp [Hg|Hg]]; eauto).
    destruct (str_eqb (t_Reply t) "") eqn:Et.
    { destruct Hg' as [Ho Hh]. split_and!; [done| |]; [by rewrite Hh|].
      unfold sent_one. by rewrite Et. }
    apply safe_bind. eapply safe_mono.
    + refine (send_ok [] n _ (honest req) _ _ _ (fun _ => False) _ g Hg'). intros rep Hr Hv. split; [done|].
      destruct Hv as [-> | [Hv ->]]; [split; [done|by intros []]|]. rewrite Hv.
      split; [done|]. by intros [].
    + intros [[]|] g2 Hg2; [|done]. simpl. destruct Hg2 as [Hh Hs]. split_and!; [done| |done].
      by rewrite Hh.
Qed.
End sending.

(** A handler with one quiet profile, for the examples. *)
Definition sample_handler : handler :=
  {| cfg_Name := "modsec"; Versions := [2]; inbox := "modsec.n1";
     opts := {| opt_StatusMap := None;
                opt_Decisive := {| dec_Ranges := []; dec_Tags := ∅ |}; ScalePercent := 0 |};
     loader := {| store := Some sample_store; keys := None |}; crypto := sample_crypto;
     lists := false; geo := {| Networked := fun _ => false; geo_Write := fun _ _ => Ok [] |};
     audit_connected := false; json_Request := fun _ => None; json_Headers := fun _ => None;
     json_Reply := fun r => Some (rep_RID r); json_Event := fun _ => None |}.

Definition sample_clock : Clock :=
  {| take_at := 0; park_at := 0; elapsed_us := 100; stamp := "t" |}.

Definition sample_state : St :=
  {| registry := sample_registry; sticky := Some (Sticky.New 8 30000000000); sink := AuditSink.NewSink;
     sent := []; published := []; ended := []; created := 0 |}.

Lemma sample_state_ok : St_ok [] true 0 sample_state.
Proof. constructor; [done|done|constructor|constructor|done|apply sample_loaded|constructor]. Qed.

Definition wanting : Request :=
  let r := sample_request "r1" "request" in
  {| V := V r; RID := RID r; Ray := Ray r; Phase := Phase r; Wave := Wave r;
     Inspector := Inspector r; DeadlineMS := DeadlineMS r; AuditSubject := AuditSubject r;
     Node := Node r; req_Conn := req_Conn r; req_HTTP := req_HTTP r; Vars := Vars r;
     Needs := Needs r;
     req_Store := {| st_Headers := None; st_Args := None;
                     st_Body := Some (sample_locator "k1") |};
     req_Route := req_Route r; req_Score := req_Score r; Prior := Prior r;
     req_Response := req_Response r; RequestStore := RequestStore r;
     req_Resume := Some {| Want := true; res_Token := "tok"; Require_ := false |};
     req_Release := None; ConnID := ConnID r; Seq := Seq r; req_Stream := req_Stream r |}.

Definition wanting_task : Task :=
  {| t_Req := wanting; t_Reply := "inbox.1"; Personal := false; Fill := 0; enqueued := 0 |}.

(** The task alone. *)
Lemma evaluate_alone h ck t budget shed l p n s
    (Henc : forall r, is_some (json_Reply h r) = true) (Hs : St_ok l p n s) :
  let '(s', r) := evaluate h ck t budget shed s in
  exists new n', r = Done None /\ sent_one h [] (t_Reply t) (honest h ck (t_Req t)) new
  /\ (n' = n \/ n' = n + 1 /\ loader_panics h) /\ St_ok (l ++ new) p n' s'.
Proof.
  destruct (safe_exec p _ _ _ l n s (evaluate_ok h ck p Henc t budget shed) Hs)
    as (g & new & Ho & Hs' & Hr & Hh & Hsent).
  destruct (exec _ s) as [s' r]. simpl in *. subst new. exists (out g), (held g + n).
  split_and!; [done|done| |done]. destruct Hh as [->|[-> ?]]; [left|right; split]; [lia|lia|done].
Qed.

Lemma evaluate_sends h ck t budget shed l p n s
    (Henc : forall r, is_some (json_Reply h r) = true) (Hs : St_ok l p n s) :
  let '(s', r) := evaluate h ck t budget shed s in
  r = Done None
  /\ if str_eqb (t_Reply t) "" then sent s' = sent s
     else exists rep text, sent s' = sent s ++ [(t_Reply t, text)]
            /\ json_Reply h rep = Some text /\ honest h ck (t_Req t) rep.
Proof.
  pose proof (evaluate_alone h ck t budget shed l p n s Henc Hs) as H.
  destruct (exec _ s) as [s' r]. destruct H as (new & n' & -> & H & _ & [Hl _ _ _ _ _ _]).
  split; [done|]. destruct Hs as [Hl0 _ _ _ _ _ _]. subst l. unfold sent_one in H.
  destruct (str_eqb _ _).
  - subst new. by rewrite app_nil_r in Hl.
  - destruct H as (rep & text & ? & ? & ->). by exists rep, text.
Qed.

(** ** Properties *)

(** Every task the queue hands over is answered exactly once: whatever happens,
    a panic included, [evaluate] returns, and has sent one message, to the reply
    subject of the task and with the RID of its request; only a task without a
    reply subject is not answered. *)
Lemma evaluate_answers_once h ck t budget shed l p n s
    (Henc : forall r, is_some (json_Reply h r) = true) (Hs : St_ok l p n s) :
  let '(s', r) := evaluate h ck t budget shed s in
  r = Done None
  /\ sent_one h (sent s) (t_Reply t) (fun rep => rep_RID rep = RID (t_Req t)) (sent s').
Proof.
  pose proof (evaluate_sends h ck t budget shed l p n s Henc Hs) as H.
  destruct (exec _ s) as [s' r]. destruct H as [-> H]. split; [done|]. unfold sent_one.
  destruct (str_eqb _ _); [done|]. destruct H as (rep & text & ? & ? & Hr & _ & _).
  by exists rep, text.
Qed.

Lemma evaluate_answers_once_witness :
  let '(s', r) := evaluate sample_handler sample_clock wanting_task 1000 "" sample_state in
  r = Done None
  /\ sent_one sample_handler (sent sample_state) (t_Reply wanting_task)
       (fun rep => rep_RID rep = RID (t_Req wanting_task)) (sent s').
Proof.
  exact (evaluate_answers_once sample_handler sample_clock wanting_task 1000 "" [] true 0
    sample_state (fun _ => eq_refl) sample_state_ok).
Defined.



(** No transaction is left open or closed twice: every transaction that a task
    created or took from the registry, in any of the phases and on any of the
    error paths, has gone through its lifecycle and been closed once, or is in the
    registry, open. The exception is a panic of the loader, which loses at most
    the one transaction taken from the registry. *)
Lemma evaluate_leaks_nothing h ck t budget shed l p n s
    (Henc : forall r, is_some (json_Reply h r) = true) (Hs : St_ok l p n s) :
  let s' := (evaluate h ck t budget shed s).1 in
  Forall complete (ended s') /\ Forall open_kept (parked s')
  /\ exists lost, created s' - Z.of_nat (length (ended s')) - Z.of_nat (length (parked s'))
       = n + lost /\ (lost = 0 \/ lost = 1 /\ loader_panics h).
Proof.
  pose proof (evaluate_alone h ck t budget shed l p n s Henc Hs) as H.
  destruct (exec _ s) as [s' r]. simpl.
  destruct H as (new & n' & _ & _ & Hn & [H1 H2 H3 H4 H5 _ _]).
  split_and!; [done..|]. exists (n' - n). split; [lia|].
  destruct Hn as [-> | [-> ?]]; [left; lia|right; split; [lia|done]].
Qed.

Lemma evaluate_leaks_nothing_witness :
  let s' := (evaluate sample_handler sample_clock wanting_task 1000 "" sample_state).1 in
  Forall complete (ended s') /\ Forall open_kept (parked s')
  /\ exists lost, created s' - Z.of_nat (length (ended s')) - Z.of_nat (length (parked s'))
       = 0 + lost /\ (lost = 0 \/ lost = 1 /\ loader_panics sample_handler).
Proof.
  exact (evaluate_leaks_nothing sample_handler sample_clock wanting_task 1000 "" [] true 0
    sample_state (fun _ => eq_refl) sample_state_ok).
Defined.
