(* ===== verification/HandlerFlow.v ===== *)
(** * Messages through the handler: [receive], and a request followed by its response

    What becomes of every message of the bus before it reaches the queue; the hand
    over of a transaction from the request phase to the response phase; and the
    form that carries a frame's payload to the engine. *)

From Stdlib Require Import QArith_base.
From S2P Require Import Prelude GoString Protocol Engine Apply PriorRules Policy AuditLog.
From S2P Require Import Verdict Queue Sticky Body Rules Lists Handler HandlerLogic HandlerSafety.
From S2P Require AuditSink.
From stdpp Require Import options.

Local Open Scope Z_scope.

(** ** Parked transactions *)

Lemma Take_found now rid l e (reg : Sticky.Registry (T := Kept)) :
  items reg !! rid = Some {| Sticky.live := l; expires := e |} -> now <= e ->
  exists reg', Take now rid reg = (Some l, [], reg').
Proof.
  intros Hi Hn. unfold Take. rewrite Hi. simpl. rewrite (proj2 (Z.ltb_ge _ _)) by done. eauto.
Qed.

Lemma Park_accepted now rid l (reg : Sticky.Registry (T := Kept)) dead reg' :
  Park now rid l reg = (true, dead, reg') ->
  items reg' !! rid = Some {| Sticky.live := l; expires := now + ttl reg |}
  /\ ttl reg' = ttl reg.
Proof.
  unfold Park, expired. cbv zeta. cbn [items set_items add_stats max ttl stats].
  destruct (_ <=? _); intros H; simplify_eq. simpl. by rewrite lookup_insert_eq.
Qed.

(** What a reply that offers to continue promises: the registry holds, under the
    token of the request and until [expires], the transaction that [ApplyKeep]
    left open on the request, and the offer names the inbox and the time to live. *)
Definition offered (h : handler) (ck : Clock) (req : Request) (c : Protocol.Continue) (s : St) :
    Prop :=
  exists reg r eng args hdr b out live,
    sticky s = Some reg /\ req_Resume req = Some r
    /\ items reg !! res_Token r
       = Some {| Sticky.live := (eng, live); expires := park_at ck + ttl reg |}
    /\ (ApplyKeep eng (input req args hdr b) (elapsed_us ck)).2 = Ok (out, live)
    /\ Protocol.Subject c = inbox h /\ TTLMS c = Z.quot (ttl reg) millisecond.

Definition parks (h : handler) (ck : Clock) (req : Request) (rd : Reply * Details) (s : St) :
    Prop :=
  match rep_Continue rd.1 with Some c => offered h ck req c s | None => True end.

Lemma From_Continue req out o : rep_Continue (Verdict.From req out o) = None.
Proof.
  by destruct (From_case req out o) as [iv H1 H2 H3|iv H1 H2|iv H1 H2 H3|m H1 H2 H3|H1 H2 H3|H1 H2 H3].
Qed.

Section parking.
Context (h : handler) (ck : Clock).

(** The program alone, when it does not panic, ends in [psi]. *)
Definition leads {A} (m : M A) (psi : A -> St -> Prop) : Prop :=
  forall s, match exec m s with (s', Done a) => psi a s' | (_, Panic) => True end.

Lemma leads_bind {A B} (m : M B) (k : B -> M A) (phi : B -> Prop) psi :
  always m phi -> (forall b, phi b -> leads (k b) psi) -> leads (m ≫= k) psi.
Proof using.
  intros Hm Hk s. rewrite exec_bind. pose proof (always_exec m phi s Hm) as Hb.
  destruct (exec m s) as [s' [b|]]; [by apply Hk|done].
Qed.

Lemma leads_any {A B} (m : M B) (k : B -> M A) psi :
  (forall b, leads (k b) psi) -> leads (m ≫= k) psi.
Proof using.
  intros Hk s. rewrite exec_bind. by destruct (exec m s) as [s' [b|]]; [apply Hk|].
Qed.

Lemma offerContinue_parks req reply det eng live args hdr b out :
  rep_Continue reply = None ->
  (ApplyKeep eng (input req args hdr b) (elapsed_us ck)).2 = Ok (out, live) ->
  leads (offerContinue h ck req reply det (eng, live)) (parks h ck req).
Proof.
  intros Hc Hk. unfold offerContinue, parks. destruct (_ || _); [intros s; simpl; by rewrite Hc|].
  destruct (req_Resume req) as [r|] eqn:Er; [|done]. intros s. simpl.
  destruct (sticky s) as [reg|]; [|done].
  destruct (Park _ _ _ _) as [[[] dead] reg'] eqn:Ep; simpl; [|by rewrite Hc].
  apply Park_accepted in Ep as [Hi Ht].
  exists reg', r, eng, args, hdr, b, out, live. simpl. by rewrite Ht.
Qed.

Lemma inspectRequest_parks t : leads (inspectRequest h ck t) (parks h ck (t_Req t)).
Proof.
  unfold inspectRequest. set (req := t_Req t). apply leads_any. intros [[eng|] sel]; [|done].
  apply leads_any. intros rules. destruct (Skip _) eqn:Es; [done|].
  apply leads_any. intros got. do 3 (apply leads_any; intros ?).
  destruct (bodyError _) as [code why]. destruct (negb _); [done|]. apply leads_any. intros s0.
  cbv zeta. assert (forall out o actions, rep_Continue (attach actions (Verdict.From req out o)) = None)
    as Hnone by (intros ? ? []; apply From_Continue).
  destruct (wantsResume _ _ _).
  - eapply leads_bind; [apply apply_keep_always|]. intros [[out [[e live]|]]|err]; [|done|done].
    intros [-> Hrun]. do 2 (apply leads_any; intros ?).
    apply leads_any. intros [err|]; [by apply leads_any|].
    by eapply offerContinue_parks.
  - eapply leads_bind; [apply apply_only_always|]. intros [[out live]|err]; [|done].
    intros [-> Hrun]. do 2 (apply leads_any; intros ?).
    apply leads_any. intros [err|]; [by apply leads_any|].
    intros s. unfold parks. simpl. by rewrite Hnone.
Qed.
End parking.

(** ** Sending and releasing *)

(** [send] changes the bus and the audit sink only. *)
Lemma send_effect (h : handler) ck (Henc : forall r, is_some (json_Reply h r) = true) subject reply req det s :
  exists s', send h ck subject reply req det s = (s', Done tt)
  /\ ended s' = ended s /\ sticky s' = sticky s /\ created s' = created s
  /\ if str_eqb subject "" then sent s' = sent s
     else exists rep text, sent s' = sent s ++ [(subject, text)]
          /\ json_Reply h rep = Some text /\ rep_RID rep = rep_RID reply
          /\ (rep = reply \/ Verdict rep = VerdictError).
Proof.
  unfold send. destruct (str_eqb subject ""); [by exists s|].
  destruct (payload_ok h Henc reply) as (rep & text & -> & Hj & Hr & _ & Hv). simpl.
  assert (exists k, exec (match AuditSink.Add (json_Event h) (stamp ck) (audit_connected h) req
      (Some reply) det with Ok (Some it) => audit_add it | _ => mret tt end)
      (add_sent (subject, text) s) = (set_sink k (add_sent (subject, text) s), Done tt)) as [k ->].
  { destruct (AuditSink.Add _ _ _ _ _ _) as [[it|]|]; [|by exists (sink s)..].
    destruct (AuditSink.enqueue it (sink s)) as [full k] eqn:E. unfold audit_add, atomic.
    rewrite exec_bind. cbn [exec]. change (sink (add_sent _ s)) with (sink s). rewrite E.
    destruct full; [by exists (AuditSink.kick k)|by exists k]. }
  eexists. split; [done|]. split_and!; [done..|]. exists rep, text. split_and!; [done..|].
  by destruct Hv as [-> | [? _]]; [left|right].
Qed.

Lemma releaseState_frees (h : handler) l p n req r s :
  req_Release req = Some r -> St_ok l p n s ->
  exists s', (releaseState req;; mret (A := option Task) None) s = (s', Done None)
  /\ St_ok l p n s' /\ forall reg, sticky s' = Some reg -> items reg !! rel_Token r = None.
Proof.
  intros Hr Hs. rewrite exec_bind.
  destruct (safe_exec p _ _ _ l n s (releaseState_ok [] p 0 req (fun _ => False) nothing
    (conj eq_refl eq_refl)) Hs) as (g & new & Ho & Hs' & Hg).
  assert (forall reg, sticky (exec (releaseState req) s).1 = Some reg ->
    items reg !! rel_Token r = None) as Hfree.
  { unfold releaseState. rewrite Hr. simpl. destruct (sticky s) as [reg|] eqn:E; simpl; [|by rewrite E].
    unfold Drop. destruct (items reg !! rel_Token r) as [it|] eqn:Ei; simpl; intros reg' [= <-]; [|done].
    simpl. by rewrite lookup_delete_eq. }
  destruct (exec (releaseState req) s) as [s' [[]|]]; [|done].
  exists s'. split; [done|]. destruct Hg as [Hl Hn]. simpl in *. subst new. rewrite Hl, Hn, app_nil_r in Hs'.
  by split.
Qed.

(** The two messages carry the same resume token. *)
Definition same_token (req1 req2 : Request) : Prop :=
  exists r1 r2, req_Resume req1 = Some r1 /\ req_Resume req2 = Some r2
    /\ res_Token r1 = res_Token r2 /\ res_Token r1 <> "".

(** The one message sent from [s] to [s'], unless there is nobody to answer, is an
    error reply with that RID. *)
Definition answered_error (h : handler) (subject rid : string) (s s' : St) : Prop :=
  ended s' = ended s /\ sticky s' = sticky s /\ created s' = created s
  /\ if str_eqb subject "" then sent s' = sent s
     else exists rep text, sent s' = sent s ++ [(subject, text)]
          /\ json_Reply h rep = Some text /\ Verdict rep = VerdictError /\ rep_RID rep = rid.

(** The headers of a form with this text. *)
Definition form_headers (text : string) : list Header :=
  [("Content-Type", "application/x-www-form-urlencoded"); ("Content-Length", Itoa (len text))].

(** ** Reading a form back *)

(** The value of a hexadecimal digit. *)
Definition hex_value (a : ascii) : option Z :=
  if byte_in 48 57 a then Some (byte_val a - 48)
  else if byte_in 65 70 a then Some (byte_val a - 55)
  else if byte_in 97 102 a then Some (byte_val a - 87)
  else None.

(** The reader of [application/x-www-form-urlencoded] text: a plus is a space, and
    a percent sign starts a byte in hexadecimal. *)
Fixpoint unescape (s : string) : option string :=
  match s with
  | "" => Some ""
  | String a r =>
      if byte_is 43 a then String " " <$> unescape r
      else if byte_is 37 a then
        match r with
        | String x (String y r) =>
            match hex_value x, hex_value y with
            | Some hi, Some lo =>
                String (ascii_of_nat (Z.to_nat (16 * hi + lo))) <$> unescape r
            | _, _ => None
            end
        | _ => None
        end
      else String a <$> unescape r
  end.

(** A form is a sequence of [name=value], separated by [&]. *)
Definition form_pair (s : string) : option (string * string) :=
  match Cut "=" s with
  | Some (n, v) => n ← unescape n; v ← unescape v; Some (n, v)
  | None => n ← unescape s; Some (n, "")
  end.

Definition parse_form (s : string) : option (list (string * string)) :=
  mapM form_pair (Split "&" s).

(** One byte of the escaped text at a time. *)
Lemma QueryEscape_cons a s : QueryEscape (String a s) = QueryEscape (String a "") +:+ QueryEscape s.
Proof. simpl. destruct (byte_is 32 a); [done|]. by destruct (unreserved a). Qed.

Lemma escape_byte_clean a :
  has_byte "&" (QueryEscape (String a "")) = false
  /\ has_byte "=" (QueryEscape (String a "")) = false.
Proof. by destruct a as [[] [] [] [] [] [] [] []]. Qed.

Lemma escape_clean s :
  has_byte "&" (QueryEscape s) = false /\ has_byte "=" (QueryEscape s) = false.
Proof.
  induction s as [|a s [IH1 IH2]]; [done|]. rewrite QueryEscape_cons, !has_byte_app, IH1, IH2.
  by destruct (escape_byte_clean a) as [-> ->].
Qed.

Lemma unescape_byte a s :
  unescape (QueryEscape (String a "") +:+ s) = String a <$> unescape s.
Proof. by destruct a as [[] [] [] [] [] [] [] []]. Qed.

Lemma unescape_QueryEscape s : unescape (QueryEscape s) = Some s.
Proof.
  induction s as [|a s IH]; [done|]. by rewrite QueryEscape_cons, unescape_byte, IH.
Qed.

Lemma Split_none sep s : has_byte sep s = false -> Split sep s = [s].
Proof.
  unfold has_byte. induction s as [|a s IH]; [done|]. simpl. intros H. bool_prop.
  match goal with H : ascii_eqb a sep = false |- _ => rewrite H end. by rewrite IH.
Qed.

(** What becomes of one message. *)
Lemma receive_ok h ck o1 o2 m l p n s
    (Henc : forall r, is_some (json_Reply h r) = true) (Hs : St_ok l p n s) :
  match receive h ck o1 o2 m s with
  | (s', Done (Some t)) =>
      s' = s /\ Parse (json_Request h) o1 o2 (m_Data m) = Ok (t_Req t)
      /\ Supports h (V (t_Req t)) = true /\ req_Release (t_Req t) = None
      /\ supports (Phase (t_Req t)) = true /\ t_Reply t = m_Reply m
      /\ (Personal t = true <-> inbox h <> "" /\ m_Subject m = inbox h)
  | (s', Done None) =>
      (exists req r, Parse (json_Request h) o1 o2 (m_Data m) = Ok req
         /\ Supports h (V req) = true /\ req_Release req = Some r /\ St_ok l p n s'
         /\ forall reg, sticky s' = Some reg -> items reg !! rel_Token r = None)
      \/ (forall req, Parse (json_Request h) o1 o2 (m_Data m) = Ok req ->
            Supports h (V req) && (is_some (req_Release req) || supports (Phase req)) = false)
         /\ answered_error h (m_Reply m)
           match Parse (json_Request h) o1 o2 (m_Data m) with
           | Ok req => RID req
           | Err pe => pe_RID pe
           end s s'
  | (_, Panic) => False
  end.
Proof.
  assert (forall req reply det, Verdict reply = VerdictError ->
    exists s', (send h ck (m_Reply m) reply req det;; mret (A := option Task) None) s = (s', Done None)
    /\ answered_error h (m_Reply m) (rep_RID reply) s s') as Hsend.
  { intros req reply det Hv.
    destruct (send_effect h ck Henc (m_Reply m) reply req det s) as (s' & E & H1 & H2 & Hc & H3).
    exists s'. rewrite exec_bind, E. split; [done|].
    unfold answered_error. split_and!; [done..|]. destruct (str_eqb _ _); [done|].
    destruct H3 as (rep & text & ? & ? & ? & Hr).
    exists rep, text. split_and!; try done. by destruct Hr as [->|]. }
  unfold receive, recoverInto. rewrite exec_catch. destruct (Parse _ _ _ _) as [req|pe] eqn:Ep.
  2: { destruct (Hsend None (FallbackReply (pe_RID pe) (cfg_Name h) codeMalformed) (details ∅)
         eq_refl) as (s' & -> & Hans). by right; split. }
  destruct (Supports h (V req)) eqn:Ev; simpl.
  2: { edestruct (Hsend (Some req)) as (s' & -> & Hans); [|right; split; [|exact Hans]]; [done|].
    intros ? [= <-]. by rewrite ?Ev, ?Er, ?Eph. }
  destruct (req_Release req) as [r|] eqn:Er; simpl.
  { destruct (releaseState_frees h l p n req r s Er Hs) as (s' & -> & Ho & Hf).
    left. by exists req, r. }
  destruct (supports (Phase req)) eqn:Eph; simpl.
  - split_and!; try done. rewrite andb_true_iff, negb_true_iff, str_eqb_false, str_eqb_true.
    tauto.
  - edestruct (Hsend (Some req)) as (s' & -> & Hans); [|right; split; [|exact Hans]]; [done|].
    intros ? [= <-]. by rewrite ?Ev, ?Er, ?Eph.
Qed.

(** ** [receive] with others running *)

(** How [receive] ends: with the task of a well-formed message; or it has released a state,
    or sent one error. *)
Definition received_as (h : handler) (o1 o2 : list string) (m : Msg) (r : run (option Task))
    (g : Own) : Prop :=
  let parsed := Parse (json_Request h) o1 o2 (m_Data m) in
  held g = 0 /\
  match r with
  | Panic => False
  | Done (Some t) =>
      out g = [] /\ parsed = Ok (t_Req t) /\ Supports h (V (t_Req t)) = true
      /\ req_Release (t_Req t) = None /\ supports (Phase (t_Req t)) = true
      /\ t_Reply t = m_Reply m
  | Done None =>
      match parsed with
      | Ok req =>
          if Supports h (V req) && is_some (req_Release req) then out g = []
          else Supports h (V req) && supports (Phase req) = false
               /\ sent_one h [] (m_Reply m)
                    (fun rep => Verdict rep = VerdictError /\ rep_RID rep = RID req) (out g)
      | Err pe =>
          sent_one h [] (m_Reply m)
            (fun rep => Verdict rep = VerdictError /\ rep_RID rep = pe_RID pe) (out g)
      end
  end.

Lemma receive_safe (h : handler) ck p o1 o2 m
    (Henc : forall r, is_some (json_Reply h r) = true) :
  safe p (receive h ck o1 o2 m) nothing (received_as h o1 o2 m).
Proof.
  assert (forall reply rid req det, Verdict reply = VerdictError -> rep_RID reply = rid ->
    safe p (send h ck (m_Reply m) reply req det;; mret (A := option Task) None) nothing
      (fun r g => r = Done None /\ held g = 0 /\ sent_one h [] (m_Reply m)
        (fun rep => Verdict rep = VerdictError /\ rep_RID rep = rid) (out g))) as Hsend.
  { intros reply rid req det Hv Hr. apply safe_bind. eapply safe_mono.
    - refine (send_ok h ck p Henc [] 0 (m_Reply m)
        (fun rep => Verdict rep = VerdictError /\ rep_RID rep = rid) reply req det (fun _ => False)
        _ nothing (conj eq_refl eq_refl)).
      intros rep Hr' [-> | [? _]]; split; congruence.
    - intros [[]|] g Hg; [|done]. by destruct Hg. }
  unfold receive, recoverInto, received_as. apply safe_catch.
  destruct (Parse _ _ _ _) as [req|pe] eqn:Ep.
  2: { eapply safe_mono; [by apply Hsend|]. by intros r g (-> & Hh & Ho). }
  destruct (Supports h (V req)) eqn:Ev; simpl.
  2: { eapply safe_mono; [by apply Hsend|]. by intros r g (-> & Hh & Ho). }
  destruct (is_some (req_Release req)) eqn:Er; simpl.
  { apply safe_bind. eapply safe_mono.
    - exact (releaseState_ok [] p 0 req (fun _ => False) nothing (conj eq_refl eq_refl)).
    - intros [[]|] g Hg; [|done]. by destruct Hg. }
  destruct (supports (Phase req)) eqn:Eph; simpl.
  - split_and!; try done. by destruct (req_Release req).
  - eapply safe_mono; [by apply Hsend|]. by intros r g (-> & Hh & Ho).
Qed.

(** ** Properties *)

(** C39: The engine reads a text frame as one form argument: the payload that
    [frameInput] builds, read as a form, is the single pair of the name [frame] and
    the bytes of the frame, whatever they are. *)
Theorem frame_payload_roundtrip b : parse_form (frame_payload b) = Some [(frameArg, Body.Data b)].
Proof.
  unfold parse_form, frame_payload. pose proof (escape_clean (Body.Data b)) as [Ha He].
  rewrite Split_none by by rewrite !has_byte_app, Ha. simpl. unfold form_pair.
  change ("=" +:+ QueryEscape (Body.Data b)) with (String "=" (QueryEscape (Body.Data b))).
  rewrite Cut_app by done. change (unescape frameArg) with (Some frameArg). simpl.
  by rewrite unescape_QueryEscape.
Qed.

(** The input of a frame has the headers of the handshake and a form body: none
    of the handshake's content type, content length and transfer encoding is left,
    in any letter case; there is exactly one header of each of the first two, for
    the payload, whose length it gives; every other header of the handshake is
    kept, in order; and there is a Host whenever the request names one. *)
Lemma frameInput_headers req hdr b :
  let i := frameInput req hdr b in
  List.filter (fun x => negb (frame_kept x)) (in_Headers i)
    = form_headers (in_Body i)
  /\ firstn (length (List.filter frame_kept hdr)) (in_Headers i) = List.filter frame_kept hdr
  /\ (Host (req_HTTP req) <> "" ->
      existsb (fun x => EqualFold_lower x.1 "host") (in_Headers i) = true)
  /\ in_Args i = "" /\ in_Method i = "POST" /\ in_Version i <> "".
Proof.
  cbv zeta. unfold frameInput. cbv zeta. cbn [in_Headers in_Body in_Args in_Method in_Version].
  set (kept := List.filter frame_kept hdr).
  set (tail := [("Content-Type", _); ("Content-Length", _)]).
  assert (forall l, Forall (fun x => frame_kept x = true) l ->
    List.filter (fun x => negb (frame_kept x)) l = []) as Hnone.
  { induction 1 as [|x l Hx _ IH]; [done|]. simpl. by rewrite Hx. }
  assert (Forall (fun x => frame_kept x = true) kept) as Hk
    by by apply Forall_forall; intros x [_ Hx]%filter_In.
  set (k2 := if _ && _ then _ else kept).
  assert (exists host, k2 = kept ++ host /\ Forall (fun x => frame_kept x = true) host
    /\ (Host (req_HTTP req) <> "" ->
        existsb (fun x => EqualFold_lower x.1 "host") (kept ++ host) = true)) as (host & -> & Hh & He).
  { subst k2. destruct (existsb _ kept) eqn:Ee; simpl.
    - exists []. rewrite app_nil_r. auto.
    - destruct (str_eqb (Host _) "") eqn:E0; simpl.
      + exists []. rewrite app_nil_r. split_and!; auto. intros Hn. by apply str_eqb_true in E0.
      + eexists. split; [done|]. split; [by repeat constructor|]. intros _.
        rewrite existsb_app. by rewrite orb_true_r. }
  split_and!; [|by rewrite <- app_assoc, take_app_length|..].
  - rewrite !List.filter_app, !Hnone by done. done.
  - intros Hn. by rewrite existsb_app, (He Hn).
  - done.
  - done.
  - destruct (str_eqb (http_Version _) "") eqn:E0; [done|]. by apply str_eqb_false.
Qed.


(** A request that is parked, and the state and reply after it. *)
Definition sample_run : St * run (Reply * Details) :=
  inspectRequest sample_handler sample_clock wanting_task sample_state.

Definition sample_parked : St := sample_run.1.

Definition sample_reply : Reply * Details :=
  match sample_run.2 with Done rd => rd | Panic => (ErrorReply wanting "", details ∅) end.


(** C16: Every message of the bus is accounted for. [receive] does not panic, and does
    one of three things. It queues a task and changes nothing: when the text parses
    to a request of a supported version and phase that is not a release. It drops
    the state that a release names, sends nothing, and the token is free. Or it
    answers once, with an error and the RID it read, or sniffed, from the text. *)
Theorem receive_accounts h ck o1 o2 m l p n s
    (Henc : forall r, is_some (json_Reply h r) = true) (Hs : St_ok l p n s) :
  match receive h ck o1 o2 m s with
  | (s', Done (Some t)) =>
      s' = s /\ Parse (json_Request h) o1 o2 (m_Data m) = Ok (t_Req t)
      /\ Supports h (V (t_Req t)) = true /\ req_Release (t_Req t) = None
      /\ supports (Phase (t_Req t)) = true /\ t_Reply t = m_Reply m
      /\ (Personal t = true <-> inbox h <> "" /\ m_Subject m = inbox h)
  | (s', Done None) =>
      (exists req r, Parse (json_Request h) o1 o2 (m_Data m) = Ok req
         /\ Supports h (V req) = true /\ req_Release req = Some r /\ St_ok l p n s'
         /\ forall reg, sticky s' = Some reg -> items reg !! rel_Token r = None)
      \/ (forall req, Parse (json_Request h) o1 o2 (m_Data m) = Ok req ->
            Supports h (V req) && (is_some (req_Release req) || supports (Phase req)) = false)
         /\ answered_error h (m_Reply m)
           match Parse (json_Request h) o1 o2 (m_Data m) with
           | Ok req => RID req
           | Err pe => pe_RID pe
           end s s'
  | (_, Panic) => False
  end.
Proof. by apply receive_ok. Qed.

Definition sample_msg : Msg := {| m_Subject := "inspect"; m_Reply := "inbox.1"; m_Data := "{" |}.

Lemma receive_accounts_witness :
  exists text,
    sent (receive sample_handler sample_clock [] [] sample_msg sample_state).1
      = [("inbox.1", text)].
Proof.
  pose proof (receive_accounts sample_handler sample_clock [] [] sample_msg [] true 0 sample_state
    (fun _ => eq_refl) sample_state_ok) as H.
  destruct (receive _ _ _ _ _ _) as [s' [[t|]|]] eqn:E; [done| |done].
  destruct H as [(req & r & Hp & _)|(_ & _ & _ & _ & H)]; [done|]. simpl in H.
  destruct H as (rep & text & H & _). exists text. exact H.
Defined.
