(* ===== verification/Pack.v ===== *)
(** * Rule packs: [internal/desired/pack.go], [blobs.go] and [manifest.go]

    The control plane publishes a pack: names of profiles, data and rule files with
    the hashes of their texts. [FetchBlobs] reads the texts from Redis and checks
    the hashes, [Expand] turns pack and texts into the manifest to write to disk.

    Go ranges over a map in any order, another one each time: [visit n m] is the
    order of the [n]-th loop of a function over [m], an argument of the model. *)

From S2P Require Import Prelude GoString Body.
From S2P Require Policy.
From stdpp Require Import options.

Local Open Scope Z_scope.

Definition BlobPrefix : string := "waf.blob.".
Definition packPrefix : string := "pack-".
Definition volumePrefix : string := "crs-prof-".
Definition DefaultProfile : string := "default".

(** ** Data *)

(** [level] is set by [validate]. *)
Record Settings := { LogLevel : string; level : Z }.

Record Pack := {
  p_V : Z; p_Kind : string; p_Rev : Z; p_SHA256 : string; p_Prefix : string;
  p_Files : gmap string string; p_Profiles : gmap string string;
  p_Policies : gmap string string; p_Data : gmap string string;
  p_Blobs : Z; p_Bytes : Z; p_Settings : option Settings }.

Record File := { f_Name : string; f_Text : string }.

Record Profile := { Files : list File }.

Record Manifest := {
  m_V : Z; m_Rev : Z; ConfigHash : string; m_Profiles : gmap string Profile;
  m_Data : gmap string string; m_Settings : option Settings }.

Inductive PackError :=
| BadJSON | BadKind | BadRev | NoHash | EmptyTree | BadLogLevel
| RedisError | RedisMissing (key : string) | RedisType (key : string)
| HashMismatch (key : string)
| ProfileEmpty (name : string) | UnknownFile (name id : string)
| DefaultMissing | UnsafeName (name : string) | DataMissing (name hash : string)
| ProfileMissing (name hash : string) | PolicyMissing (name hash : string)
| FileMissing (id hash : string).

(** The loops over maps: the [n]-th loop visits the entries of [m] in this order. *)
Definition Visits : Type := forall (n : nat) (A : Type), gmap string A -> list (string * A).

Class VisitsAll (visit : Visits) : Prop :=
  visit_perm n A (m : gmap string A) : visit n A m ≡ₚ map_to_list m.

(** ** Parsing: [level_of] is [loglevel.Parse]. *)

Definition validate_settings (level_of : string -> option Z) (s : option Settings) :
    res PackError (option Settings) :=
  match s with
  | None => Ok None
  | Some s =>
      match level_of (LogLevel s) with
      | None => Err BadLogLevel
      | Some l => Ok (Some {| LogLevel := LogLevel s; level := l |})
      end
  end.

Definition ParsePack (unmarshal : string -> option Pack) (level_of : string -> option Z)
    (raw : string) : res PackError Pack :=
  match unmarshal raw with
  | None => Err BadJSON
  | Some p =>
      fail_if (negb (p_V p =? 1) || negb (str_eqb (p_Kind p) "rules-pack")) BadKind;;
      fail_if (p_Rev p <? 1) BadRev;;
      fail_if (str_eqb (p_SHA256 p) "" || negb (HasPrefix (p_SHA256 p) "sha256:")) NoHash;;
      fail_if ((size (p_Files p) =? 0)%nat || (size (p_Profiles p) =? 0)%nat) EmptyTree;;
      settings ← validate_settings level_of (p_Settings p);
      Ok {| p_V := p_V p; p_Kind := p_Kind p; p_Rev := p_Rev p; p_SHA256 := p_SHA256 p;
            p_Prefix := if str_eqb (p_Prefix p) "" then BlobPrefix else p_Prefix p;
            p_Files := p_Files p; p_Profiles := p_Profiles p; p_Policies := p_Policies p;
            p_Data := p_Data p; p_Blobs := p_Blobs p; p_Bytes := p_Bytes p;
            p_Settings := settings |}
  end.

Definition BlobKey (p : Pack) (hash : string) : string :=
  p_Prefix p +:+ TrimPrefix hash "sha256:".

(** ** The profiles that run *)

Definition runtime_step (p : Pack) (out : gmap string string) (e : string * string) :
    gmap string string :=
  let '(name, hash) := e in
  if HasPrefix name volumePrefix then out
  else
    match CutPrefix name packPrefix with
    | Some short =>
        match p_Profiles p !! short with
        | Some _ => out
        | None => <[short := hash]> out
        end
    | None => <[name := hash]> out
    end.

(** [order] is the order of the loop over [p.Profiles]. *)
Definition RuntimeProfiles (order : list (string * string)) (p : Pack) : gmap string string :=
  fold_left (runtime_step p) order ∅.

Definition parseUUIDList (text : string) : list string :=
  List.filter (fun id => negb (str_eqb id "")) (TrimSpace <$> Split "010" text).

Definition safeName (name : string) : bool :=
  negb (str_eqb name "" || str_eqb name "." || str_eqb name ".."
        || has_byte "/" name || has_byte "\" name
        || Contains name "..").

(** ** Fetching *)

Section fetch.
Context (crypto : Crypto) (visit : Visits).

Definition hashOf (body : string) : string := "sha256:" +:+ hex_EncodeToString (sha256 crypto body).

(** [values], with the number of its loop. *)
Definition values (n : nat) (m : gmap string string) : list string := (visit n _ m).*2.

Definition unique_step (st : gset string * list string) (v : string) :
    gset string * list string :=
  let '(seen, out) := st in
  if bool_decide (v ∈ seen) then st else ({[v]} ∪ seen, out ++ [v]).

Definition unique (l : list string) : list string := (fold_left unique_step l (∅, [])).2.

(** A value of the reply to MGET. *)
Inductive mval := MNil | MString (s : string) | MOther.

(** The loop over the values; [keys] and [hashes] are indexed by their positions. *)
Fixpoint mget_loop (p : Pack) (vals : list mval) (hashes : list string)
    (out : gmap string string) : run (res PackError (gmap string string)) :=
  match vals, hashes with
  | [], _ => Done (Ok out)
  | _ :: _, [] => Panic
  | MNil :: _, h :: _ => Done (Err (RedisMissing (BlobKey p h)))
  | MOther :: _, h :: _ => Done (Err (RedisType (BlobKey p h)))
  | MString body :: vals, h :: hashes =>
      if negb (str_eqb (hashOf body) h) then Done (Err (HashMismatch (BlobKey p h)))
      else mget_loop p vals hashes (<[h := body]> out)
  end.

(** [mget] is the client's MGET; [None] is an error. *)
Definition mgetHashes (mget : list string -> option (list mval)) (p : Pack)
    (hashes : list string) : run (res PackError (gmap string string)) :=
  if bool_decide (hashes = []) then Done (Ok ∅)
  else
    match mget (BlobKey p <$> hashes) with
    | None => Done (Err RedisError)
    | Some vals => mget_loop p vals hashes ∅
    end.

(** The hashes of the rule files of one profile. *)
Fixpoint file_hashes (p : Pack) (name : string) (ids : list string) :
    res PackError (list string) :=
  match ids with
  | [] => Ok []
  | id :: ids =>
      match p_Files p !! id with
      | None => Err (UnknownFile name id)
      | Some fhash => rest ← file_hashes p name ids; Ok (fhash :: rest)
      end
  end.

Definition profile_hashes (p : Pack) (out : gmap string string) (e : string * string) :
    res PackError (list string) :=
  let '(name, phash) := e in
  let ids := parseUUIDList (default "" (out !! phash)) in
  if bool_decide (ids = []) then Err (ProfileEmpty name) else file_hashes p name ids.

Fixpoint all_hashes (p : Pack) (out : gmap string string) (l : list (string * string)) :
    res PackError (list string) :=
  match l with
  | [] => Ok []
  | e :: l => hs ← profile_hashes p out e; rest ← all_hashes p out l; Ok (hs ++ rest)
  end.

Definition policy_hashes (p : Pack) (l : list (string * string)) : list string :=
  omap (fun e => p_Policies p !! e.1) l.

Definition FetchBlobs (mget : list string -> option (list mval)) (p : Pack) :
    run (res PackError (gmap string string)) :=
  let runtime := RuntimeProfiles (visit 0%nat _ (p_Profiles p)) p in
  let lists := unique (values 1%nat runtime) in
  first ← mgetHashes mget p lists;
  match first with
  | Err e => Done (Err e)
  | Ok out =>
      let files := values 2%nat (p_Data p) ++ policy_hashes p (visit 3%nat _ runtime) in
      match all_hashes p out (visit 4%nat _ runtime) with
      | Err e => Done (Err e)
      | Ok hs =>
          second ← mgetHashes mget p (unique (files ++ hs));
          match second with
          | Err e => Done (Err e)
          | Ok more => Done (Ok (more ∪ out))
          end
      end
  end.
End fetch.

(** ** Expanding *)

(** [%02d] of a non-negative number. *)
Definition pad2 (i : nat) : string :=
  if (i <? 10)%nat then "0" +:+ Itoa (Z.of_nat i) else Itoa (Z.of_nat i).

Definition conf_name (i : nat) (id : string) : string := pad2 i +:+ "-" +:+ id +:+ ".conf".

(** A loop that fills a map, with an entry for each one it visits, and stops at the
    first error. *)
Fixpoint fill_map {A} (f : string * string -> res PackError A) (m : gmap string A)
    (l : list (string * string)) : res PackError (gmap string A) :=
  match l with
  | [] => Ok m
  | e :: l => v ← f e; fill_map f (<[e.1 := v]> m) l
  end.

Section expand.
Context (visit : Visits) (p : Pack) (blobs : gmap string string).

Definition expand_data (e : string * string) : res PackError string :=
  let '(name, hash) := e in
  if negb (safeName name) then Err (UnsafeName name)
  else match blobs !! hash with
       | None => Err (DataMissing name hash)
       | Some body => Ok body
       end.

(** The rule files of one profile, from the [i]-th. *)
Fixpoint conf_files (name : string) (i : nat) (ids : list string) : res PackError (list File) :=
  match ids with
  | [] => Ok []
  | id :: ids =>
      match p_Files p !! id with
      | None => Err (UnknownFile name id)
      | Some fhash =>
          match blobs !! fhash with
          | None => Err (FileMissing id fhash)
          | Some body =>
              rest ← conf_files name (S i) ids;
              Ok ({| f_Name := conf_name i id; f_Text := body |} :: rest)
          end
      end
  end.

Definition policy_files (name : string) : res PackError (list File) :=
  match p_Policies p !! name with
  | None => Ok []
  | Some hash =>
      match blobs !! hash with
      | None => Err (PolicyMissing name hash)
      | Some body => Ok [{| f_Name := Policy.FileName; f_Text := body |}]
      end
  end.

Definition expand_profile (e : string * string) : res PackError Profile :=
  let '(name, phash) := e in
  match blobs !! phash with
  | None => Err (ProfileMissing name phash)
  | Some text =>
      let ids := parseUUIDList text in
      if bool_decide (ids = []) then Err (ProfileEmpty name)
      else
        policy ← policy_files name;
        confs ← conf_files name 0 ids;
        Ok {| Files := policy ++ confs |}
  end.

Definition Expand : res PackError Manifest :=
  let runtime := RuntimeProfiles (visit 0%nat _ (p_Profiles p)) p in
  fail_if (negb (is_some (runtime !! DefaultProfile))) DefaultMissing;;
  data ← fill_map expand_data ∅ (visit 1%nat _ (p_Data p));
  profiles ← fill_map expand_profile ∅ (visit 2%nat _ runtime);
  Ok {| m_V := 1; m_Rev := p_Rev p; ConfigHash := p_SHA256 p; m_Profiles := profiles;
        m_Data := data; m_Settings := p_Settings p |}.
End expand.

(** ** Lemmas: the profiles that run *)

(** The name a profile runs under, if it does. *)
Definition run_name (p : Pack) (name : string) : option string :=
  if HasPrefix name volumePrefix then None
  else match CutPrefix name packPrefix with
       | Some short => if is_some (p_Profiles p !! short) then None else Some short
       | None => Some name
       end.

Lemma runtime_step_name p out name hash :
  runtime_step p out (name, hash)
  = match run_name p name with Some d => <[d := hash]> out | None => out end.
Proof.
  unfold runtime_step, run_name. destruct (HasPrefix _ _); [done|].
  destruct (CutPrefix _ _); [|done]. by destruct (p_Profiles p !! _).
Qed.

(** No two profiles of the pack run under one name. *)
Lemma run_name_inj p n1 n2 d :
  is_Some (p_Profiles p !! n1) -> is_Some (p_Profiles p !! n2) ->
  run_name p n1 = Some d -> run_name p n2 = Some d -> n1 = n2.
Proof.
  unfold run_name. intros [h1 H1] [h2 H2].
  destruct (HasPrefix n1 _), (HasPrefix n2 _); try done.
  destruct (CutPrefix n1 _) as [s1|] eqn:E1, (CutPrefix n2 _) as [s2|] eqn:E2;
    intros Hd1 Hd2; repeat case_match; simplify_eq/=; try done.
  - apply CutPrefix_spec in E1, E2. congruence.
  - by rewrite H2 in *.
  - by rewrite H1 in *.
Qed.

Lemma runtime_fold p (l : list (string * string)) d h :
  NoDup l.*1 -> (forall e, e ∈ l -> p_Profiles p !! e.1 = Some e.2) ->
  fold_left (runtime_step p) l ∅ !! d = Some h
  <-> exists name, (name, h) ∈ l /\ run_name p name = Some d.
Proof.
  induction l as [|[name hash] l IH] using rev_ind; intros Hnd Hin.
  { simpl. rewrite lookup_empty. split; [done|]. intros (? & ?%not_elem_of_nil & _). done. }
  rewrite fmap_app in Hnd. apply list.NoDup_app in Hnd as (Hnd & Hno & _).
  rewrite fold_left_app. cbn [fold_left]. rewrite runtime_step_name.
  assert (forall e, e ∈ l -> p_Profiles p !! e.1 = Some e.2) as Hin' by set_solver.
  assert (p_Profiles p !! name = Some hash) as Hn by (apply (Hin (name, hash)); set_solver).
  specialize (IH Hnd Hin'). destruct (run_name p name) as [d'|] eqn:Er.
  - destruct (decide (d' = d)) as [->|Hne].
    + rewrite lookup_insert_eq. split.
      * intros [= <-]. exists name. set_solver.
      * intros (n & [Hi|Hi%list_elem_of_singleton]%elem_of_app & Hr); [|by simplify_eq].
        exfalso. assert (n = name) as ->.
        { apply (run_name_inj p _ _ d); [|done..]. pose proof (Hin' _ Hi) as Hh. simpl in Hh. eauto. }
        apply (Hno name); [|set_solver]. apply list_elem_of_fmap. by exists (name, h).
    + rewrite lookup_insert_ne by done. rewrite IH. set_unfold. naive_solver congruence.
  - rewrite IH. set_unfold. naive_solver congruence.
Qed.

(** [hash] runs under the name [d]. *)
Definition runs (p : Pack) (d hash : string) : Prop :=
  exists name, p_Profiles p !! name = Some hash /\ run_name p name = Some d.

Lemma RuntimeProfiles_runs p order d h :
  order ≡ₚ map_to_list (p_Profiles p) ->
  RuntimeProfiles order p !! d = Some h <-> runs p d h.
Proof.
  intros Ho. unfold RuntimeProfiles. rewrite runtime_fold.
  - unfold runs. f_equiv. intros name. rewrite Ho. by rewrite elem_of_map_to_list.
  - rewrite Ho. apply NoDup_fst_map_to_list.
  - intros [n v]. rewrite Ho. by rewrite elem_of_map_to_list.
Qed.

Lemma runs_fun p d h1 h2 : runs p d h1 -> runs p d h2 -> h1 = h2.
Proof.
  intros (n1 & H1 & R1) (n2 & H2 & R2).
  assert (n1 = n2) as -> by (eapply run_name_inj; eauto). congruence.
Qed.

(** ** Lemmas: fetching *)

Section fetch_lemmas.
Context (crypto : Crypto).

(** Every text of the map has the hash it is filed under. *)
Definition hashed (m : gmap string string) : Prop :=
  forall h body, m !! h = Some body -> hashOf crypto body = h.

Lemma hashed_empty : hashed ∅.
Proof. intros h b. by rewrite lookup_empty. Qed.

Lemma hashed_union m1 m2 : hashed m1 -> hashed m2 -> hashed (m1 ∪ m2).
Proof. intros H1 H2 h b. rewrite lookup_union_Some_raw. intros [?|[_ ?]]; auto. Qed.

Lemma hashed_insert m body : hashed m -> hashed (<[hashOf crypto body := body]> m).
Proof. intros Hm h b. rewrite lookup_insert_Some. intros [[<- <-]|[_ ?]]; auto. Qed.

Lemma mget_loop_ok p vals hashes out :
  length vals = length hashes -> hashed out ->
  match mget_loop crypto p vals hashes out with
  | Done (Ok out') => hashed out' /\ forall h, is_Some (out' !! h) <-> h ∈ hashes \/ is_Some (out !! h)
  | Done (Err _) => True
  | Panic => False
  end.
Proof.
  revert hashes out. induction vals as [|v vals IH]; intros [|h hashes] out Hl Ho; try done.
  - simpl. split; [done|]. set_solver.
  - destruct v as [|body|]; simpl; [done| |done].
    destruct (str_eqb _ _) eqn:E; simpl; [|done]. apply str_eqb_true in E. subst h.
    specialize (IH hashes (<[hashOf crypto body := body]> out) (Nat.succ_inj _ _ Hl)
      (hashed_insert _ _ Ho)).
    destruct (mget_loop _ _ _ _ _) as [[out'|]|]; [|done..]. destruct IH as [H1 H2].
    split; [done|]. intros h. rewrite H2, elem_of_cons. rewrite lookup_insert_is_Some'. naive_solver.
Qed.

(** A reply of MGET has a value for each key. *)
Definition answers_all (mget : list string -> option (list mval)) : Prop :=
  forall ks vals, mget ks = Some vals -> length vals = length ks.

Lemma mgetHashes_ok mget p hashes :
  answers_all mget ->
  match mgetHashes crypto mget p hashes with
  | Done (Ok out) => hashed out /\ forall h, is_Some (out !! h) <-> h ∈ hashes
  | Done (Err _) => True
  | Panic => False
  end.
Proof.
  intros Hm. unfold mgetHashes. destruct (bool_decide _) eqn:E.
  { bool_prop. subst. split; [apply hashed_empty|]. intros h. rewrite lookup_empty.
    split; [by intros []|by intros ?%not_elem_of_nil]. }
  destruct (mget _) as [vals|] eqn:Ev; [|done]. apply Hm in Ev. rewrite length_fmap in Ev.
  pose proof (mget_loop_ok p vals hashes ∅ Ev hashed_empty) as H.
  destruct (mget_loop _ _ _ _ _) as [[out|]|]; [|done..]. destruct H as [H1 H2].
  split; [done|]. intros h. rewrite H2, lookup_empty. split; [by intros [?|[]]|auto].
Qed.

Lemma unique_elem x l : x ∈ unique l <-> x ∈ l.
Proof.
  unfold unique. assert (forall st : gset string * list string,
    (forall y, y ∈ st.1 <-> y ∈ st.2) ->
    x ∈ (fold_left unique_step l st).2 <-> x ∈ st.2 \/ x ∈ l) as H.
  { induction l as [|v l IH]; intros [seen out] Hst; [simpl; set_solver|].
    cbn [fold_left]. unfold unique_step at 2. destruct (bool_decide _) eqn:E; bool_prop.
    - rewrite IH by done. simpl in *. set_solver.
    - rewrite IH; simpl in *; set_solver. }
  rewrite H; set_solver.
Qed.

Lemma values_elem visit `{!VisitsAll visit} n m h :
  h ∈ values visit n m <-> exists name, m !! name = Some h.
Proof.
  unfold values. rewrite list_elem_of_fmap. setoid_rewrite (visit_perm n string m).
  split; [intros ([name h'] & -> & Hi%elem_of_map_to_list); eauto|].
  intros [name Hn%elem_of_map_to_list]. by exists (name, h).
Qed.

Lemma file_hashes_ok p name ids hs :
  file_hashes p name ids = Ok hs ->
  forall id, id ∈ ids -> exists h, p_Files p !! id = Some h /\ h ∈ hs.
Proof.
  revert hs. induction ids as [|i ids IH]; intros hs; simpl; [set_solver|].
  destruct (p_Files p !! i) as [h|] eqn:E; [|done]. rewrite res_bind_ok.
  intros (rest & Hr & [= <-]) id [->|Hi]%elem_of_cons; [set_solver|].
  destruct (IH rest Hr id Hi) as (h' & ? & ?). set_solver.
Qed.

Lemma all_hashes_ok p out l hs :
  all_hashes p out l = Ok hs ->
  forall name ph, (name, ph) ∈ l ->
  let ids := parseUUIDList (default "" (out !! ph)) in
  ids <> [] /\ forall id, id ∈ ids -> exists h, p_Files p !! id = Some h /\ h ∈ hs.
Proof.
  revert hs. induction l as [|[n h] l IH]; intros hs; simpl; [set_solver|].
  destruct (bool_decide _) eqn:E; [done|]. bool_prop.
  rewrite res_bind_ok. intros (h1 & H1 & H2). apply res_bind_ok in H2 as (rest & H2 & [= <-]).
  intros name ph [[= -> ->]|Hi]%elem_of_cons.
  - split; [done|]. intros id Hid. destruct (file_hashes_ok _ _ _ _ H1 id Hid) as (x & ? & ?).
    set_solver.
  - destruct (IH rest H2 name ph Hi) as [Hn Hall]. split; [done|]. intros id Hid.
    destruct (Hall id Hid) as (x & ? & ?). set_solver.
Qed.

Lemma policy_hashes_elem p l name ph h :
  (name, ph) ∈ l -> p_Policies p !! name = Some h -> h ∈ policy_hashes p l.
Proof. intros Hi Hp. apply list_elem_of_omap. by exists (name, ph). Qed.

(** What a fetch promises of the texts it returns: each has its hash, and there is
    one for each hash that [Expand] will ask for. *)
Record fetched (p : Pack) (blobs : gmap string string) : Prop := {
  f_hashed : hashed blobs;
  f_data : forall name h, p_Data p !! name = Some h -> is_Some (blobs !! h);
  f_policy : forall name ph h, runs p name ph -> p_Policies p !! name = Some h ->
    is_Some (blobs !! h);
  f_lists : forall name ph, runs p name ph -> exists text,
    hashOf crypto text = ph /\ is_Some (blobs !! ph) /\ parseUUIDList text <> []
    /\ forall id, id ∈ parseUUIDList text ->
         exists h, p_Files p !! id = Some h /\ is_Some (blobs !! h) }.

Lemma FetchBlobs_ok visit `{!VisitsAll visit} mget p :
  answers_all mget ->
  match FetchBlobs crypto visit mget p with
  | Done (Ok blobs) => fetched p blobs
  | Done (Err _) => True
  | Panic => False
  end.
Proof.
  intros Hm. unfold FetchBlobs. cbv zeta.
  set (runtime := RuntimeProfiles (visit 0%nat _ (p_Profiles p)) p).
  assert (forall d h, runtime !! d = Some h <-> runs p d h) as Hrt
    by (intros; apply RuntimeProfiles_runs, visit_perm).
  pose proof (mgetHashes_ok mget p (unique (values visit 1%nat runtime)) Hm) as H1.
  destruct (mgetHashes _ _ _ _) as [[out|e]|]; simpl; [|done..]. destruct H1 as [Ho1 Hd1].
  destruct (all_hashes _ _ _) as [hs|e] eqn:Ea; [|done].
  match goal with |- context [mgetHashes crypto mget p ?l] =>
    pose proof (mgetHashes_ok mget p l Hm) as H2 end.
  destruct (mgetHashes _ _ _ _) as [[more|e]|]; simpl; [|done..]. destruct H2 as [Ho2 Hd2].
  assert (forall h, h ∈ values visit 2%nat (p_Data p) ++ policy_hashes p (visit 3%nat _ runtime)
      \/ h ∈ hs -> is_Some ((more ∪ out) !! h)) as Hin.
  { intros h Hh. apply lookup_union_is_Some. left. apply Hd2. rewrite unique_elem.
    rewrite elem_of_app. tauto. }
  constructor.
  - by apply hashed_union.
  - intros name h Hn. apply Hin. left. apply elem_of_app. left. apply (values_elem _). eauto.
  - intros name ph h Hr Hp. apply Hin. left. apply elem_of_app. right.
    eapply policy_hashes_elem; [|done]. rewrite visit_perm. by apply elem_of_map_to_list, Hrt.
  - intros name ph Hr. apply Hrt in Hr.
    assert (is_Some (out !! ph)) as [text Ht].
    { apply Hd1. rewrite unique_elem. apply (values_elem _). eauto. }
    destruct (all_hashes_ok _ _ _ _ Ea name ph) as [Hne Hids].
    { rewrite visit_perm. by apply elem_of_map_to_list. }
    rewrite Ht in Hne, Hids. exists text. split_and!; [by apply Ho1| |done|].
    + apply lookup_union_is_Some. eauto.
    + intros id Hid. destruct (Hids id Hid) as (h & Hf & Hh). eauto.
Qed.
End fetch_lemmas.

(** ** Lemmas: expanding *)

Section fill.
Context {A : Type} (f : string * string -> res PackError A).

Lemma fill_map_ok l m m' :
  NoDup l.*1 -> fill_map f m l = Ok m' ->
  forall k v, m' !! k = Some v
    <-> (exists h, (k, h) ∈ l /\ f (k, h) = Ok v) \/ (k ∉ l.*1 /\ m !! k = Some v).
Proof.
  revert m. induction l as [|[n h] l IH]; intros m Hnd; cbn [fill_map].
  { intros [= <-] k v. set_solver. }
  rewrite res_bind_ok. intros (a & Ha & Hf) k v.
  cbn in Hnd. apply list.NoDup_cons in Hnd as [Hn Hnd].
  rewrite (IH _ Hnd Hf k v). cbn. setoid_rewrite elem_of_cons.
  destruct (decide (k = n)) as [->|Hne].
  - rewrite lookup_insert_eq. split.
    + intros [(h' & Hi & _)|[_ [= <-]]]; [|by eauto].
      exfalso. apply Hn, list_elem_of_fmap. by exists (n, h').
    + intros [(h' & [[= ->]|Hi] & Hv)|[Hk _]]; [|right|].
      * right. split; [done|]. congruence.
      * exfalso. apply Hn, list_elem_of_fmap. by exists (n, h').
      * exfalso. apply Hk. by left.
  - rewrite lookup_insert_ne by done. naive_solver congruence.
Qed.

Lemma fill_map_each l m m' e : fill_map f m l = Ok m' -> e ∈ l -> is_ok (f e) = true.
Proof.
  revert m. induction l as [|e' l IH]; intros m; cbn [fill_map]; [set_solver|].
  rewrite res_bind_ok. intros (a & Ha & Hf) [->|Hi]%elem_of_cons; [by rewrite Ha|by eapply IH].
Qed.

Lemma fill_map_total l m : (forall e, e ∈ l -> is_ok (f e) = true) -> is_ok (fill_map f m l) = true.
Proof.
  revert m. induction l as [|e l IH]; intros m Hf; [done|]. cbn [fill_map].
  pose proof (Hf e ltac:(set_solver)) as He. destruct (f e); [|done]. apply IH. set_solver.
Qed.
End fill.

Section expand_lemmas.
Context (p : Pack) (blobs : gmap string string).

Lemma conf_files_ok name i ids files :
  conf_files p blobs name i ids = Ok files ->
  length files = length ids
  /\ forall k id, ids !! k = Some id -> exists h body,
       p_Files p !! id = Some h /\ blobs !! h = Some body
       /\ files !! k = Some {| f_Name := conf_name (i + k) id; f_Text := body |}.
Proof.
  revert i files. induction ids as [|id ids IH]; intros i files; cbn [conf_files].
  { intros [= <-]. done. }
  destruct (p_Files p !! id) as [h|] eqn:Eh; [|done].
  destruct (blobs !! h) as [body|] eqn:Eb; [|done]. rewrite res_bind_ok.
  intros (rest & Hr & [= <-]). destruct (IH _ _ Hr) as [Hl Hall]. split; [simpl; congruence|].
  intros [|k] id' Hk; simpl in Hk.
  - injection Hk as <-. exists h, body. by rewrite Nat.add_0_r.
  - destruct (Hall k id' Hk) as (h' & b' & ? & ? & Hf). exists h', b'. split_and!; [done..|].
    simpl. by rewrite Hf, Nat.add_succ_r.
Qed.

Lemma conf_files_total name i ids :
  (forall id, id ∈ ids -> exists h, p_Files p !! id = Some h /\ is_Some (blobs !! h)) ->
  is_ok (conf_files p blobs name i ids) = true.
Proof.
  revert i. induction ids as [|id ids IH]; intros i Hall; [done|]. cbn [conf_files].
  destruct (Hall id ltac:(set_solver)) as (h & -> & [body ->]).
  specialize (IH (S i) ltac:(set_solver)). by destruct (conf_files _ _ _ _ _).
Qed.
End expand_lemmas.

(** ** Specification *)

Section delivers.
Context (crypto : Crypto) (p : Pack).

(** The text is the one the pack names by its hash. *)
Definition is_text (hash text : string) : Prop := hashOf crypto text = hash.

(** The files of a profile: its policy file, if the pack has one under the name it
    runs under, and the rule files of its list, numbered in the order of the list. *)
Definition delivers_profile (name phash : string) (files : list File) : Prop :=
  exists text policy confs,
    is_text phash text /\ files = policy ++ confs
    /\ match p_Policies p !! name with
       | Some h => exists body, is_text h body
                   /\ policy = [{| f_Name := Policy.FileName; f_Text := body |}]
       | None => policy = []
       end
    /\ length confs = length (parseUUIDList text) /\ confs <> []
    /\ forall k id, parseUUIDList text !! k = Some id -> exists h body,
         p_Files p !! id = Some h /\ is_text h body
         /\ confs !! k = Some {| f_Name := conf_name k id; f_Text := body |}.

(** The manifest is the pack with its texts: these profiles and these data, no
    others, and every text under its hash. *)
Record delivers (m : Manifest) : Prop := {
  d_rev : m_Rev m = p_Rev p /\ ConfigHash m = p_SHA256 p /\ m_Settings m = p_Settings p;
  d_default : is_Some (m_Profiles m !! DefaultProfile);
  d_profiles : forall name, match m_Profiles m !! name with
    | Some prof => exists phash, runs p name phash /\ delivers_profile name phash (Files prof)
    | None => forall phash, ~ runs p name phash
    end;
  d_data : forall name, match m_Data m !! name with
    | Some text => safeName name = true
                   /\ exists h, p_Data p !! name = Some h /\ is_text h text
    | None => p_Data p !! name = None
    end }.
End delivers.

Section delivers_lemmas.
Context (crypto : Crypto) (p : Pack) (blobs : gmap string string).
Hypothesis Hf : fetched crypto p blobs.

Lemma expand_profile_delivers name ph prof :
  expand_profile p blobs (name, ph) = Ok prof -> delivers_profile crypto p name ph (Files prof).
Proof using Hf.
  unfold expand_profile. destruct (blobs !! ph) as [text|] eqn:Et; [|done].
  destruct (bool_decide _) eqn:En; [done|]. bool_prop. rewrite res_bind_ok.
  intros (policy & Hp & H). apply res_bind_ok in H as (confs & Hc & [= <-]).
  pose proof (f_hashed _ _ _ Hf) as Hh. apply conf_files_ok in Hc as [Hl Hc].
  exists text, policy, confs. split_and!; [by apply Hh|done| |done| |].
  - unfold policy_files in Hp. destruct (p_Policies p !! name) as [h|]; [|congruence].
    destruct (blobs !! h) as [body|] eqn:Eb; [|done]. injection Hp as <-.
    exists body. split; [by apply Hh|done].
  - intros ->. apply En. by destruct (parseUUIDList text).
  - intros k id Hk. destruct (Hc k id Hk) as (h & body & ? & ? & ?).
    exists h, body. split_and!; [done|by apply Hh|done].
Qed.

Lemma expand_profile_total name ph :
  (forall a b, hashOf crypto a = hashOf crypto b -> a = b) -> runs p name ph ->
  is_ok (expand_profile p blobs (name, ph)) = true.
Proof using Hf.
  intros Hcoll Hr. destruct (f_lists _ _ _ Hf name ph Hr) as (text & Ht & [text' Hb] & Hne & Hids).
  pose proof (f_hashed _ _ _ Hf _ _ Hb) as Ht'. assert (text' = text) as -> by by apply Hcoll; congruence.
  unfold expand_profile. rewrite Hb. rewrite bool_decide_eq_false_2 by done.
  assert (is_ok (policy_files p blobs name) = true) as Hpol.
  { unfold policy_files. destruct (p_Policies p !! name) as [h|] eqn:Eh; [|done].
    by destruct (f_policy _ _ _ Hf _ _ _ Hr Eh) as [body ->]. }
  pose proof (conf_files_total p blobs name 0 _ Hids) as Hconf.
  destruct (policy_files _ _ _); [|done]. simpl. by destruct (conf_files _ _ _ _ _).
Qed.

Lemma expand_data_total name h :
  p_Data p !! name = Some h -> safeName name = true -> is_ok (expand_data blobs (name, h)) = true.
Proof using Hf.
  intros Hd Hs. unfold expand_data. rewrite Hs. simpl.
  by destruct (f_data _ _ _ Hf _ _ Hd) as [body ->].
Qed.

Lemma expand_data_text name h text :
  expand_data blobs (name, h) = Ok text -> safeName name = true /\ is_text crypto h text.
Proof using Hf.
  unfold expand_data. destruct (safeName name); [|done]. simpl.
  destruct (blobs !! h) as [body|] eqn:Eb; [|done]. intros [= <-].
  split; [done|]. by apply (f_hashed _ _ _ Hf).
Qed.

Lemma Expand_delivers visit `{!VisitsAll visit} m :
  Expand visit p blobs = Ok m -> delivers crypto p m.
Proof using Hf.
  unfold Expand. cbv zeta. set (runtime := RuntimeProfiles (visit 0%nat _ (p_Profiles p)) p).
  assert (forall d h, runtime !! d = Some h <-> runs p d h) as Hrt
    by (intros; apply RuntimeProfiles_runs, visit_perm).
  rewrite res_bind_ok. intros (? & Hd & H). apply fail_if_ok, negb_false_iff in Hd.
  apply res_bind_ok in H as (data & Hdata & H). apply res_bind_ok in H as (profs & Hprofs & [= <-]).
  assert (forall A (m : gmap string A) n, NoDup (visit n _ m).*1) as Hnd
    by (intros; rewrite visit_perm; apply NoDup_fst_map_to_list).
  pose proof (fill_map_ok _ _ _ _ (Hnd _ _ _) Hdata) as Hd1.
  pose proof (fill_map_ok _ _ _ _ (Hnd _ _ _) Hprofs) as Hp1.
  setoid_rewrite visit_perm in Hd1. setoid_rewrite visit_perm in Hp1.
  setoid_rewrite elem_of_map_to_list in Hd1. setoid_rewrite elem_of_map_to_list in Hp1.
  assert (forall name ph, runtime !! name = Some ph -> is_Some (profs !! name)) as Hall.
  { intros name ph Hn.
    assert (is_ok (expand_profile p blobs (name, ph)) = true) as Hok.
    { eapply fill_map_each; [exact Hprofs|]. rewrite visit_perm. by apply elem_of_map_to_list. }
    destruct (expand_profile _ _ _) as [prof|] eqn:Ee; [|done]. exists prof. apply Hp1. eauto. }
  constructor; simpl; [done|..].
  - destruct (runtime !! DefaultProfile) eqn:E; [by eapply Hall|done].
  - intros name. destruct (profs !! name) as [prof|] eqn:E.
    + apply Hp1 in E as [(ph & Hn & He)|[_ He]]; [|by rewrite lookup_empty in He].
      exists ph. split; [by apply Hrt|by apply expand_profile_delivers].
    + intros ph Hr. apply Hrt, Hall in Hr as [? ?]. congruence.
  - intros name. destruct (data !! name) as [text|] eqn:E.
    + apply Hd1 in E as [(h & Hn & He)|[_ He]]; [|by rewrite lookup_empty in He].
      apply expand_data_text in He as [? ?]. eauto.
    + destruct (p_Data p !! name) as [h|] eqn:En; [|done].
      assert (is_ok (expand_data blobs (name, h)) = true) as Hok.
      { eapply fill_map_each; [exact Hdata|]. rewrite visit_perm. by apply elem_of_map_to_list. }
      destruct (expand_data _ _) as [text|] eqn:Ee; [|done].
      assert (data !! name = Some text) by (apply Hd1; eauto). congruence.
Qed.

Lemma Expand_total visit `{!VisitsAll visit} :
  (forall a b, hashOf crypto a = hashOf crypto b -> a = b) ->
  (exists ph, runs p DefaultProfile ph) ->
  (forall name, is_Some (p_Data p !! name) -> safeName name = true) ->
  is_ok (Expand visit p blobs) = true.
Proof using Hf.
  intros Hcoll [ph Hdef] Hsafe. unfold Expand. cbv zeta.
  set (runtime := RuntimeProfiles (visit 0%nat _ (p_Profiles p)) p).
  assert (forall d h, runtime !! d = Some h <-> runs p d h) as Hrt
    by (intros; apply RuntimeProfiles_runs, visit_perm).
  apply Hrt in Hdef. rewrite Hdef. simpl.
  assert (is_ok (fill_map (expand_data blobs) ∅ (visit 1%nat _ (p_Data p))) = true) as H1.
  { apply fill_map_total. intros [name h] Hi. rewrite visit_perm in Hi.
    apply elem_of_map_to_list in Hi. apply expand_data_total; [done|apply Hsafe; eauto]. }
  assert (is_ok (fill_map (expand_profile p blobs) ∅ (visit 2%nat _ runtime)) = true) as H2.
  { apply fill_map_total. intros [name h] Hi. rewrite visit_perm in Hi.
    apply elem_of_map_to_list in Hi. apply expand_profile_total; [done|by apply Hrt]. }
  destruct (fill_map _ _ (visit 1%nat _ _)); [|done]. simpl. by destruct (fill_map _ _ _).
Qed.
End delivers_lemmas.

(** ** Properties *)

(** Which profiles run does not depend on the order of the loop: under the name
    [d] runs the profile [d] itself, unless its name says that it is a part of a
    pack or a volume, or else, when the pack has no profile [d], the profile
    [pack-d]. *)
Lemma RuntimeProfiles_spec p order d h (Horder : order ≡ₚ map_to_list (p_Profiles p)) :
  RuntimeProfiles order p !! d = Some h
  <-> (p_Profiles p !! d = Some h /\ HasPrefix d volumePrefix = false
       /\ HasPrefix d packPrefix = false)
      \/ (p_Profiles p !! (packPrefix +:+ d) = Some h /\ p_Profiles p !! d = None).
Proof.
  rewrite RuntimeProfiles_runs by done. unfold runs, run_name. split.
  - intros (name & Hn & H). destruct (HasPrefix name volumePrefix) eqn:Ev; [done|].
    destruct (CutPrefix name packPrefix) as [short|] eqn:Ec.
    + apply CutPrefix_spec in Ec as ->. destruct (p_Profiles p !! short) eqn:Es; [done|].
      simplify_eq/=. by right.
    + apply CutPrefix_none in Ec. simplify_eq. by left.
  - intros [(Hd & Hv & Hp)|[Hd Hn]].
    + exists d. split; [done|]. rewrite Hv. by apply CutPrefix_none in Hp as ->.
    + exists (packPrefix +:+ d). split; [done|].
      assert (CutPrefix (packPrefix +:+ d) packPrefix = Some d) as -> by by apply CutPrefix_spec.
      by rewrite Hn.
Qed.

Definition sample_visits : Visits := fun _ _ m => map_to_list m.

Lemma sample_visits_all : VisitsAll sample_visits.
Proof. intros n A m. reflexivity. Qed.

(** One profile of one file; the hash of a text is the text itself, in hexadecimal. *)
Definition sample_hash (text : string) : string := "sha256:" +:+ hex_EncodeToString text.

Definition sample_pack : Pack :=
  {| p_V := 1; p_Kind := "rules-pack"; p_Rev := 3; p_SHA256 := "sha256:00";
     p_Prefix := BlobPrefix; p_Files := {["u1" := sample_hash "rule"]};
     p_Profiles := {["pack-default" := sample_hash "u1"]}; p_Policies := ∅;
     p_Data := ∅; p_Blobs := 2; p_Bytes := 6; p_Settings := None |}.

Definition sample_mget (ks : list string) : option (list mval) :=
  Some ((fun k => MString (if str_eqb k (BlobKey sample_pack (sample_hash "u1")) then "u1" else "rule")) <$> ks).

Lemma RuntimeProfiles_spec_witness :
  RuntimeProfiles (map_to_list (p_Profiles sample_pack)) sample_pack !! "default"
  = Some (sample_hash "u1").
Proof.
  apply (RuntimeProfiles_spec sample_pack _ "default" (sample_hash "u1") (reflexivity _)).
  right. split; reflexivity.
Defined.

(** C20: What the control plane published is what is written: after a fetch, [Expand]
    fails only for want of a default profile or on a data name that is no file name,
    and otherwise gives the pack with its texts: exactly the profiles that run and
    the data of the pack, the policy file and the numbered rule files of each
    profile, and every text under the hash that the pack gives it. The orders of the
    loops do not matter. It is assumed that no two texts have one hash. *)
Theorem pack_delivered crypto visit1 visit2 mget p blobs
    (Hv1 : VisitsAll visit1) (Hv2 : VisitsAll visit2) (Hm : answers_all mget)
    (Hcoll : forall a b, hashOf crypto a = hashOf crypto b -> a = b)
    (Hfetch : FetchBlobs crypto visit1 mget p = Done (Ok blobs)) :
  match Expand visit2 p blobs with
  | Ok m => delivers crypto p m
  | Err _ => (forall ph, ~ runs p DefaultProfile ph)
             \/ exists name, is_Some (p_Data p !! name) /\ safeName name = false
  end.
Proof.
  pose proof (FetchBlobs_ok crypto visit1 mget p Hm) as Hf. rewrite Hfetch in Hf.
  destruct (Expand visit2 p blobs) as [m|e] eqn:Ee; [by eapply Expand_delivers|].
  destruct (RuntimeProfiles (map_to_list (p_Profiles p)) p !! DefaultProfile) as [ph|] eqn:Ed.
  2: { left. intros ph Hr. apply (RuntimeProfiles_runs p (map_to_list (p_Profiles p))) in Hr; [|done].
       congruence. }
  apply RuntimeProfiles_runs in Ed; [|done]. right.
  destruct (decide (map_Forall (fun name _ => safeName name = true) (p_Data p))) as [Hs|Hs].
  - pose proof (Expand_total crypto p blobs Hf visit2 Hcoll (ex_intro _ ph Ed)) as Ht.
    rewrite Ee in Ht. discriminate Ht. intros name [h Hh]. by eapply Hs.
  - apply map_not_Forall in Hs; [|apply _]. destruct Hs as (name & h & Hn & Hs).
    exists name. split; [eauto|]. by destruct (safeName name).
Qed.

Lemma sample_hash_inj a b : hashOf sample_crypto a = hashOf sample_crypto b -> a = b.
Proof. unfold hashOf. intros H. by apply (inj (String.append _)), hex_EncodeToString_inj in H. Qed.

Definition sample_blobs : gmap string string :=
  {[sample_hash "rule" := "rule"]} ∪ {[sample_hash "u1" := "u1"]}.

Lemma pack_delivered_witness :
  exists m, Expand sample_visits sample_pack sample_blobs = Ok m
  /\ delivers sample_crypto sample_pack m.
Proof.
  assert (answers_all sample_mget) as Hm.
  { intros ks vals [= <-]. apply length_fmap. }
  pose proof (pack_delivered sample_crypto sample_visits sample_visits sample_mget sample_pack
    sample_blobs sample_visits_all sample_visits_all Hm sample_hash_inj) as H.
  assert (FetchBlobs sample_crypto sample_visits sample_mget sample_pack
    = Done (Ok sample_blobs)) as Hf by (vm_compute; reflexivity).
  specialize (H Hf). destruct (Expand _ _ _) as [m|e] eqn:E; [exists m; split; [reflexivity|exact H]|].
  exfalso. vm_compute in E. discriminate E.
Defined.
