(* ===== verification/Deploy.v ===== *)
(** * Deploying a manifest: [internal/desired/apply.go]

    [Apply] writes the profiles of a manifest to a staging directory, swaps it with
    the live one, and reloads the registry from it; on an error it puts the old
    directory back.

    The file system below the data directory is a map from paths, relative to the
    data directory and split at the slashes, to directories and texts. Every call
    on it may fail: the list [faults] says of each call in turn whether it does and
    what it leaves in the directory it was called on. A failed rename has no
    effect. The rule engine reads the same files through [sources]. *)

From S2P Require Import Prelude GoString PriorRules Policy Rules Pack.
From stdpp Require Import options.

Local Open Scope Z_scope.

(** ** The file system *)

Inductive node := Dir | Text (text : string).

#[global] Instance node_eq_dec : EqDecision node.
Proof. solve_decision. Defined.

Inductive errno := ENOENT | EOTHER.

(** [q] is [p] or below it. *)
Definition under (p q : list string) : bool := bool_decide (p `prefix_of` q).

(** What a call that fails leaves below its path. *)
Definition fault : Type := option (gmap (list string) node).

Record World := { disk : gmap (list string) node; faults : list fault; reg : Rules.Registry }.

Definition set_disk (d : gmap (list string) node) (w : World) : World :=
  {| disk := d; faults := faults w; reg := reg w |}.

Definition set_reg (r : Rules.Registry) (w : World) : World :=
  {| disk := disk w; faults := faults w; reg := r |}.

Definition outside (p : list string) (d : gmap (list string) node) : gmap (list string) node :=
  filter (fun e => under p e.1 = false) d.

Definition inside (p : list string) (d : gmap (list string) node) : gmap (list string) node :=
  filter (fun e => under p e.1 = true) d.

(** A call on the tree at [p], with the effect [f] when nothing goes wrong. *)
Definition call (p : list string)
    (f : gmap (list string) node -> res errno (gmap (list string) node)) (w : World) :
    World * option errno :=
  let '(now, rest) := match faults w with [] => (None, []) | x :: l => (x, l) end in
  let w := {| disk := disk w; faults := rest; reg := reg w |} in
  match now with
  | Some junk => (set_disk (outside p (disk w) ∪ inside p junk) w, Some EOTHER)
  | None =>
      match f (disk w) with
      | Ok d => (set_disk d w, None)
      | Err e => (w, Some e)
      end
  end.

(** [os.RemoveAll] *)
Definition RemoveAll (p : list string) : World -> World * option errno :=
  call p (fun d => Ok (outside p d)).

(** The directories on the way to [p], [p] included. *)
Fixpoint prefixes (p : list string) : list (list string) :=
  [] :: match p with [] => [] | x :: p => (x ::.) <$> prefixes p end.

Definition is_text_at (d : gmap (list string) node) (p : list string) : bool :=
  match d !! p with Some (Text _) => true | _ => false end.

Definition mkdirs (l : list (list string)) (d : gmap (list string) node) :
    gmap (list string) node :=
  fold_left (fun d q => <[q := Dir]> d) l d.

(** [os.MkdirAll] of a path below [top]; a failed one may have made some of the
    directories. *)
Definition MkdirAll (top p : list string) : World -> World * option errno :=
  call top (fun d =>
    if existsb (is_text_at d) (prefixes p) then Err EOTHER
    else Ok (mkdirs (prefixes p) d)).

(** [os.MkdirAll] of the data directory itself. *)
Definition MkdirData (w : World) : World * option errno :=
  let '(now, rest) := match faults w with [] => (None, []) | x :: l => (x, l) end in
  let w := {| disk := disk w; faults := rest; reg := reg w |} in
  match now with
  | Some _ => (w, Some EOTHER)
  | None =>
      if is_text_at (disk w) [] then (w, Some EOTHER)
      else (set_disk (<[[] := Dir]> (disk w)) w, None)
  end.

Definition is_dir (d : gmap (list string) node) (p : list string) : bool :=
  match d !! p with Some Dir => true | _ => false end.

(** [os.WriteFile] on the file [name] of the directory [dir]. *)
Definition WriteFile (dir : list string) (name text : string) : World -> World * option errno :=
  call (dir ++ [name]) (fun d =>
    if negb (is_dir d dir) then Err ENOENT
    else if is_dir d (dir ++ [name]) then Err EOTHER
    else Ok (<[dir ++ [name] := Text text]> d)).

Definition is_empty_dir (d : gmap (list string) node) (p : list string) : bool :=
  is_dir d p && bool_decide (inside p d = {[p := Dir]}).

(** The entries of [d] with those below [a] moved to below [b]. *)
Definition rebase (a b q : list string) : list string :=
  if under a q then b ++ drop (length a) q else q.

Definition move (a b : list string) (d : gmap (list string) node) : gmap (list string) node :=
  list_to_map ((fun e => (rebase a b e.1, e.2)) <$> map_to_list (outside b d)).

(** [os.Rename] within the data directory; a failed one has no effect. *)
Definition rename_ok (a b : list string) (d : gmap (list string) node) :
    res errno (gmap (list string) node) :=
  match d !! a with
  | None => Err ENOENT
  | Some n =>
      match d !! b with
      | None => Ok (move a b d)
      | Some _ => if is_dir d a && is_empty_dir d b then Ok (move a b d) else Err EOTHER
      end
  end.

Definition Rename (a b : list string) (w : World) : World * option errno :=
  let '(now, rest) := match faults w with [] => (None, []) | x :: l => (x, l) end in
  let w := {| disk := disk w; faults := rest; reg := reg w |} in
  match now with
  | Some _ => (w, Some EOTHER)
  | None =>
      match rename_ok a b (disk w) with
      | Ok d => (set_disk d w, None)
      | Err e => (w, Some e)
      end
  end.

(** ** Rewriting the rule texts *)

Definition fromFile_names : list string := ["pmFromFile"; "pmf"; "ipMatchFromFile"; "ipMatchF"].

(** The white space of the pattern, and the bytes of its path: neither white space
    nor a double quote. *)
Definition re_space (a : ascii) : bool :=
  byte_is 9 a || byte_is 10 a || byte_is 12 a || byte_is 13 a || byte_is 32 a.

Definition path_byte (a : ascii) : bool := negb (byte_is 34 a || re_space a).

(** The longest prefix of bytes of the class, and the rest. *)
Fixpoint span (f : ascii -> bool) (s : string) : string * string :=
  match s with
  | "" => ("", "")
  | String a r => if f a then let '(x, y) := span f r in (String a x, y) else ("", s)
  end.

(** The match of one alternative after the [@]: the name, the spaces and the path. *)
Definition match_name (s name : string) : option (string * string * string) :=
  match CutPrefix s name with
  | None => None
  | Some r =>
      let '(spaces, r) := span re_space r in
      let '(path, _) := span path_byte r in
      if str_eqb spaces "" || str_eqb path "" then None else Some (name, spaces, path)
  end.

(** The first alternative that matches wins. *)
Fixpoint match_names (s : string) (names : list string) : option (string * string * string) :=
  match names with
  | [] => None
  | n :: names =>
      match match_name s n with Some m => Some m | None => match_names s names end
  end.

(** [filepath.Base] of a non-empty path. *)
Fixpoint after_slash (s : string) : option string :=
  match s with
  | "" => None
  | String a r =>
      match after_slash r with
      | Some t => Some t
      | None => if ascii_eqb a "/" then Some r else None
      end
  end.

Definition Base (s : string) : string :=
  let s := String.rev (trim_set_left ["/"%char] (String.rev s)) in
  if str_eqb s "" then "/" else default s (after_slash s).

Section deploy.
Context (dataDir : string).

(** The path [p] below the data directory as a string. *)
Definition show_path (p : list string) : string := dataDir +:+ String.concat "" (String "/" <$> p).

(** [filepath.Join] of a directory with the result of [Base]. *)
Definition join_base (p : list string) (base : string) : string :=
  if str_eqb base "/" || str_eqb base "." then show_path p
  else if str_eqb base ".." then show_path (removelast p)
  else show_path (p ++ [base]).

(** [rewriteFromFile]: [skip] bytes are part of the last match. *)
Fixpoint rewrite_from (p : list string) (skip : nat) (text : string) : string :=
  match text with
  | "" => ""
  | String a r =>
      match skip with
      | S k => rewrite_from p k r
      | O =>
          match (if ascii_eqb a "@" then match_names r fromFile_names else None) with
          | Some (name, spaces, path) =>
              "@" +:+ name +:+ " " +:+ join_base p (Base path)
              +:+ rewrite_from p (String.length name + String.length spaces
                                  + String.length path) r
          | None => String a (rewrite_from p 0 r)
          end
      end
  end.

Definition rewriteFromFile (text : string) (p : list string) : string := rewrite_from p 0 text.

(** ** Writing the tree *)

Inductive ApplyError :=
| EUnsafe (name : string) | EWrite (e : errno) | EDataDir (e : errno) | EPark (e : errno)
| EPromote (e : errno) | EReload (e : Rules.BuildError).

Definition lift_io (r : World * option errno) : World * option ApplyError :=
  (r.1, match r.2 with Some e => Some (EWrite e) | None => None end).

(** A loop whose body may fail. *)
Fixpoint each {A} (f : A -> World -> World * option ApplyError) (l : list A) (w : World) :
    World * option ApplyError :=
  match l with
  | [] => (w, None)
  | x :: l =>
      match f x w with
      | (w, None) => each f l w
      | (w, Some e) => (w, Some e)
      end
  end.

Definition write_named (dir : list string) (name text : string) (w : World) :
    World * option ApplyError :=
  if negb (safeName name) then (w, Some (EUnsafe name))
  else lift_io (WriteFile dir name text w).

Definition write_profile (visit : list (string * string)) (root : list string)
    (e : string * Profile) (w : World) : World * option ApplyError :=
  let '(name, profile) := e in
  if negb (safeName name) then (w, Some (EUnsafe name))
  else
    let dir := root ++ [TreeDir; name] in
    match lift_io (MkdirAll root dir w) with
    | (w, Some e) => (w, Some e)
    | (w, None) =>
        match each (fun d => write_named dir d.1 d.2) visit w with
        | (w, Some e) => (w, Some e)
        | (w, None) =>
            each (fun f => write_named dir (f_Name f)
                             (rewriteFromFile (f_Text f) [TreeDir; name])) (Files profile) w
        end
    end.

(** The loop over [m.Data] in each round of the loop over [m.Profiles] has an order of
    its own. *)
Fixpoint write_profiles (visit : Visits) (n : nat) (root : list string)
    (data : gmap string string) (l : list (string * Profile)) (w : World) :
    World * option ApplyError :=
  match l with
  | [] => (w, None)
  | e :: l =>
      match write_profile (visit n _ data) root e w with
      | (w, None) => write_profiles visit (S n) root data l w
      | (w, Some e) => (w, Some e)
      end
  end.

Definition writeTree (visit : Visits) (root : list string) (m : Manifest) (w : World) :
    World * option ApplyError :=
  match lift_io (RemoveAll root w) with
  | (w, Some e) => (w, Some e)
  | (w, None) =>
      write_profiles visit 1 root (m_Data m) (visit 0%nat _ (m_Profiles m)) w
  end.

(** ** [Apply] *)

Definition staging : list string := [".next"].
Definition prev : list string := [".prev"].
Definition live : list string := [TreeDir].

(** [sources] is what the reload reads in a file system. *)
Context (sources : gmap (list string) node -> Rules.Sources).

Definition reload (w : World) : World * option Rules.BuildError :=
  match Rules.ReloadFrom (sources (disk w)) dataDir (reg w) with
  | Ok r => (set_reg r w, None)
  | Err e => (w, Some e)
  end.

(** The part of [Apply] after the old tree is parked. *)
Definition promote (liveExisted : bool) (w : World) : World * option ApplyError :=
  match Rename (staging ++ live) live w with
  | (w, Some e) =>
      let w := if liveExisted then (Rename prev live w).1 else w in
      ((RemoveAll staging w).1, Some (EPromote e))
  | (w, None) =>
      let w := (RemoveAll staging w).1 in
      match reload w with
      | (w, Some e) =>
          let w := (RemoveAll live w).1 in
          let w :=
            if liveExisted then
              match Rename prev live w with
              | (w, None) => (reload w).1
              | (w, Some _) => w
              end
            else w in
          (w, Some (EReload e))
      | (w, None) => ((RemoveAll prev w).1, None)
      end
  end.

Definition Apply (visit : Visits) (m : Manifest) (w : World) : World * option ApplyError :=
  match MkdirData w with
  | (w, Some e) => (w, Some (EDataDir e))
  | (w, None) =>
      match writeTree visit staging m w with
      | (w, Some e) => ((RemoveAll staging w).1, Some e)
      | (w, None) =>
          let w := (RemoveAll prev w).1 in
          match Rename live prev w with
          | (w, None) => promote true w
          | (w, Some ENOENT) => promote false w
          | (w, Some EOTHER) => ((RemoveAll staging w).1, Some (EPark EOTHER))
          end
      end
  end.
End deploy.

(** ** Lemmas: paths *)

Lemma under_spec p q : under p q = true <-> exists r, q = p ++ r.
Proof. unfold under. rewrite bool_decide_eq_true. done. Qed.

Lemma under_app p q : under p (p ++ q) = true.
Proof. apply under_spec. eauto. Qed.

Lemma lookup_outside p d q : outside p d !! q = if under p q then None else d !! q.
Proof.
  unfold outside. destruct (under p q) eqn:E.
  - apply map_lookup_filter_None. right. intros n _. simpl. congruence.
  - destruct (d !! q) as [n|] eqn:En.
    + by apply map_lookup_filter_Some.
    + apply map_lookup_filter_None. by left.
Qed.

Lemma lookup_inside p d q : inside p d !! q = if under p q then d !! q else None.
Proof.
  unfold inside. destruct (under p q) eqn:E.
  - destruct (d !! q) as [n|] eqn:En.
    + by apply map_lookup_filter_Some.
    + apply map_lookup_filter_None. by left.
  - apply map_lookup_filter_None. right. intros n _. simpl. congruence.
Qed.

Lemma elem_of_prefixes q p : q ∈ prefixes p <-> q `prefix_of` p.
Proof.
  revert q. induction p as [|x p IH]; intros q; cbn [prefixes].
  - rewrite list_elem_of_singleton. split; [intros ->; apply prefix_nil|apply prefix_nil_inv].
  - rewrite elem_of_cons, list_elem_of_fmap. split.
    + intros [->|(r & -> & Hr)]; [apply prefix_nil|]. apply IH in Hr. by apply prefix_cons.
    + destruct q as [|y q]; [by left|]. intros Hp. right.
      pose proof (prefix_cons_inv_1 _ _ _ _ Hp) as ->. apply prefix_cons_inv_2 in Hp.
      exists q. split; [done|]. by apply IH.
Qed.

Lemma lookup_mkdirs (d : gmap (list string) node) (l : list (list string)) q :
  mkdirs l d !! q = if bool_decide (q ∈ l) then Some Dir else d !! q.
Proof.
  revert d. induction l as [|p l IH]; intros d; [done|].
  change (mkdirs (p :: l) d) with (mkdirs l (<[p := Dir]> d)). rewrite IH.
  destruct (decide (q ∈ l)) as [Hl|Hl].
  - rewrite !bool_decide_eq_true_2 by set_solver. done.
  - rewrite (bool_decide_eq_false_2 (q ∈ l)) by done.
    destruct (decide (q = p)) as [->|Hne].
    + rewrite lookup_insert_eq, bool_decide_eq_true_2 by set_solver. done.
    + rewrite lookup_insert_ne by done. rewrite bool_decide_eq_false_2 by set_solver. done.
Qed.

Lemma rebase_under a b q : rebase a b (a ++ q) = b ++ q.
Proof. unfold rebase. by rewrite under_app, drop_app_length. Qed.

Lemma lookup_move a b d q :
  under a b = false -> under b a = false ->
  move a b d !! q
  = if under b q then d !! (a ++ drop (length b) q)
    else if under a q then None else d !! q.
Proof.
  intros Hab Hba. unfold move. apply option_eq. intros n.
  assert (NoDup ((fun e : list string * node => (rebase a b e.1, e.2)) <$> map_to_list (outside b d)).*1) as Hnd.
  { rewrite <- list_fmap_compose. apply (NoDup_fmap_2_strong _ _); [|apply NoDup_map_to_list].
    intros [q1 n1] [q2 n2] H1 H2. simpl. intros Heq.
    apply elem_of_map_to_list in H1, H2. rewrite lookup_outside in H1, H2.
    destruct (under b q1) eqn:B1; [done|]. destruct (under b q2) eqn:B2; [done|].
    assert (q1 = q2) as ->; [|congruence].
    unfold rebase in Heq. destruct (under a q1) eqn:A1, (under a q2) eqn:A2; simplify_eq.
    - apply under_spec in A1 as [r1 ->]. apply under_spec in A2 as [r2 ->].
      rewrite !drop_app_length in Heq. by subst.
    - by rewrite under_app in B2.
    - by rewrite under_app in B1.
    - done. }
  rewrite <- elem_of_list_to_map by done. rewrite list_elem_of_fmap. split.
  - intros ([q0 n0] & [= -> ->] & Hi%elem_of_map_to_list). rewrite lookup_outside in Hi. simpl in *.
    destruct (under b q0) eqn:B0; [done|]. unfold rebase. destruct (under a q0) eqn:A0.
    + apply under_spec in A0 as [r ->]. rewrite drop_app_length, under_app. by rewrite drop_app_length.
    + by rewrite B0, A0.
  - destruct (under b q) eqn:B; [|destruct (under a q) eqn:A; [done|]].
    + apply under_spec in B as [r ->]. rewrite drop_app_length. intros Hn.
      exists (a ++ r, n). split; [simpl; by rewrite rebase_under|]. apply elem_of_map_to_list.
      rewrite lookup_outside. simpl. destruct (under b (a ++ r)) eqn:E; [|done].
      apply under_spec in E as [t Ht].
      assert (under a b = true \/ under b a = true) as [|]; [|congruence..].
      rewrite !under_spec. clear -Ht. revert b Ht. induction a as [|x a IH]; intros [|y b] Ht; eauto.
      simpl in Ht. injection Ht as -> Ht. destruct (IH _ Ht) as [[u ->]|[u ->]]; eauto.
    + intros Hn. exists (q, n). split; [unfold rebase; simpl; by rewrite A|].
      apply elem_of_map_to_list. rewrite lookup_outside. by rewrite B.
Qed.

(** ** Specification: the tree of a manifest *)

(** The last text that is written under a name. *)
Definition last_of (f : string) (l : list (string * string)) : option string :=
  fold_left (fun acc e => if str_eqb e.1 f then Some e.2 else acc) l None.

Section written.
Context (dataDir : string) (data : gmap string string).

(** What a profile writes: the data, then its files, with their references to data
    pointing to the live directory. *)
Definition profile_writes (name : string) (prof : Profile) : list (string * string) :=
  (fun f => (f_Name f, rewriteFromFile dataDir (f_Text f) [TreeDir; name])) <$> Files prof.

Definition text_in (name : string) (prof : Profile) (f : string) : option string :=
  match last_of f (profile_writes name prof) with Some t => Some t | None => data !! f end.

(** The tree below the live directory. *)
Definition written (ps : gmap string Profile) (q : list string) : option node :=
  match q with
  | [] => Some Dir
  | [name] => if is_some (ps !! name) then Some Dir else None
  | [name; f] => prof ← ps !! name; t ← text_in name prof f; Some (Text t)
  | _ => None
  end.

(** The tree below the staging directory, which exists once a profile is written. *)
Definition staged (ps : gmap string Profile) (q : list string) : option node :=
  if bool_decide (ps = ∅) then None
  else match q with
       | [] => Some Dir
       | x :: q => if str_eqb x TreeDir then written ps q else None
       end.
End written.

(** ** Lemmas: calls that succeed *)

Lemma call_none p f w w' :
  call p f w = (w', None) -> f (disk w) = Ok (disk w') /\ reg w' = reg w.
Proof. unfold call. destruct (faults w) as [|[]]; simpl; repeat case_match; intros; by simplify_eq/=. Qed.

Lemma lift_io_none r w' : lift_io r = (w', None) -> r = (w', None).
Proof. unfold lift_io. destruct r as [w [e|]]; simpl; congruence. Qed.

Lemma write_named_none dir name text w w' :
  write_named dir name text w = (w', None) ->
  safeName name = true /\ reg w' = reg w
  /\ disk w' = <[dir ++ [name] := Text text]> (disk w).
Proof.
  unfold write_named. destruct (safeName name); [|done]. simpl. intros H.
  apply lift_io_none, call_none in H as [H Hr].
  destruct (negb _); [done|]. destruct (is_dir _ _); [done|]. by injection H as <-.
Qed.

(** Writing several files of one directory. *)
Definition write_all (dir : list string) (l : list (string * string))
    (d : gmap (list string) node) : gmap (list string) node :=
  fold_left (fun d e => <[dir ++ [e.1] := Text e.2]> d) l d.

Lemma each_write_none {A} dir (name text : A -> string) l w w' :
  each (fun a => write_named dir (name a) (text a)) l w = (w', None) ->
  Forall (fun a => safeName (name a) = true) l /\ reg w' = reg w
  /\ disk w' = write_all dir ((fun a => (name a, text a)) <$> l) (disk w).
Proof.
  revert w. induction l as [|a l IH]; intros w; cbn [each].
  { intros [= <-]. split_and!; [constructor|done..]. }
  destruct (write_named _ _ _ _) as [w1 [e|]] eqn:E; [done|]. intros H.
  apply write_named_none in E as (Hs & Hr & Hd). apply IH in H as (Hss & Hr' & Hd').
  split_and!; [by constructor|congruence|]. rewrite Hd', Hd. done.
Qed.

Lemma lookup_write_all dir l d q :
  write_all dir l d !! q
  = match drop (length dir) q with
    | [f] => if under dir q then
               match last_of f l with Some t => Some (Text t) | None => d !! q end
             else d !! q
    | _ => d !! q
    end.
Proof.
  unfold write_all, last_of. induction l as [|[n t] l IH] using rev_ind.
  { simpl. destruct (drop _ _) as [|? []]; [done| |done]. by destruct (under dir q). }
  rewrite !fold_left_app. cbn [fold_left fst snd].
  destruct (decide (q = dir ++ [n])) as [->|Hne].
  - rewrite lookup_insert_eq, drop_app_length, under_app, fold_left_app. simpl.
    by rewrite str_eqb_refl.
  - rewrite lookup_insert_ne by done. rewrite IH.
    destruct (drop (length dir) q) as [|f []] eqn:Ed; [done| |done].
    destruct (under dir q) eqn:Eu; [|done]. rewrite fold_left_app. simpl.
    destruct (str_eqb n f) eqn:En; [|done]. apply str_eqb_true in En as ->. exfalso.
    apply under_spec in Eu as [r ->]. rewrite drop_app_length in Ed. by subst.
Qed.

Lemma MkdirAll_none top p w w' :
  MkdirAll top p w = (w', None) ->
  reg w' = reg w
  /\ forall q, disk w' !! q = if bool_decide (q `prefix_of` p) then Some Dir else disk w !! q.
Proof.
  unfold MkdirAll. intros H. apply call_none in H as [H Hr]. destruct (existsb _ _); [done|].
  injection H as H. split; [done|]. intros q. rewrite <- H, lookup_mkdirs.
  do 2 case_bool_decide; try done; by rewrite elem_of_prefixes in *.
Qed.

Lemma last_of_app f l1 l2 :
  last_of f (l1 ++ l2) = match last_of f l2 with Some t => Some t | None => last_of f l1 end.
Proof.
  unfold last_of. rewrite fold_left_app.
  induction l2 as [|e l2 IH] using rev_ind; [done|].
  rewrite !fold_left_app. cbn [fold_left]. by destruct (str_eqb _ _).
Qed.

Lemma last_of_map f (m : gmap string string) l :
  l ≡ₚ map_to_list m -> last_of f l = m !! f.
Proof.
  intros Hl. assert (NoDup l.*1) as Hnd by (rewrite Hl; apply NoDup_fst_map_to_list).
  rewrite <- (list_to_map_to_list m), <- (list_to_map_proper l); [|done..]. clear Hl.
  induction l as [|[n t] l IH]; [done|]. cbn in Hnd. apply list.NoDup_cons in Hnd as [Hn Hnd].
  change ((n, t) :: l) with ([(n, t)] ++ l). rewrite last_of_app, (IH Hnd).
  cbn [app list_to_map]. simpl. unfold last_of. simpl.
  destruct (str_eqb n f) eqn:E.
  - apply str_eqb_true in E as ->. rewrite lookup_insert_eq.
    by rewrite not_elem_of_list_to_map_1 by done.
  - apply str_eqb_false in E. rewrite lookup_insert_ne by done. by destruct (_ !! f).
Qed.

Section writing.
Context (dataDir : string) (data : gmap string string).

Lemma write_profile_none order root name prof w w' :
  order ≡ₚ map_to_list data ->
  write_profile dataDir order root (name, prof) w = (w', None) ->
  reg w' = reg w
  /\ forall q, disk w' !! q
     = if bool_decide (q `prefix_of` root ++ [TreeDir; name]) then Some Dir
       else match drop (length (root ++ [TreeDir; name])) q with
            | [f] => if under (root ++ [TreeDir; name]) q then
                       match text_in dataDir data name prof f with
                       | Some t => Some (Text t)
                       | None => disk w !! q
                       end
                     else disk w !! q
            | _ => disk w !! q
            end.
Proof.
  intros Ho. unfold write_profile. destruct (safeName name); [|done]. simpl negb. cbv iota zeta.
  destruct (lift_io _) as [w1 [e|]] eqn:E1; [done|]. apply lift_io_none, MkdirAll_none in E1 as [R1 D1].
  destruct (each _ order w1) as [w2 [e|]] eqn:E2; [done|].
  apply (each_write_none _ fst snd) in E2 as (_ & R2 & D2). intros E3.
  apply (each_write_none _ f_Name) in E3 as (_ & R3 & D3).
  split; [congruence|]. intros q. rewrite D3, D2, lookup_write_all, lookup_write_all, D1.
  assert (((fun a : string * string => (a.1, a.2)) <$> order) = order) as ->.
  { rewrite <- (list_fmap_id order) at 2. apply list_fmap_ext. by intros _ [] _. }
  fold (profile_writes dataDir name prof). unfold text_in.
  set (dir := root ++ [TreeDir; name]).
  destruct (bool_decide (q `prefix_of` dir)) eqn:Ep.
  - bool_prop. destruct Ep as [r Hr].
    assert (drop (length dir) q = []) as ->; [|done].
    apply drop_ge. rewrite Hr, length_app. lia.
  - destruct (drop (length dir) q) as [|f []]; [done| |done].
    destruct (under dir q); [|done]. by rewrite (last_of_map f data order Ho);
      destruct (last_of f (profile_writes _ _ _)).
Qed.

(** [ps] are the profiles written so far below [root]. *)
Definition staging_inv (root : list string) (ps : gmap string Profile)
    (d0 d : gmap (list string) node) : Prop :=
  (forall q, d !! (root ++ q) = staged dataDir data ps q)
  /\ forall q, under root q = false -> d !! q = d0 !! q.

Lemma staged_insert_other ps name prof q :
  match q with
  | [] => True
  | [x] => x <> TreeDir
  | x :: n :: _ => x <> TreeDir \/ n <> name
  end ->
  (ps <> ∅ \/ q <> []) ->
  staged dataDir data (<[name := prof]> ps) q = staged dataDir data ps q.
Proof.
  intros Hq Hne. unfold staged. rewrite (bool_decide_eq_false_2 (<[name := prof]> ps = ∅)) by apply insert_non_empty.
  destruct (bool_decide (ps = ∅)) eqn:Ee.
  - bool_prop. subst. destruct q as [|x q]; [naive_solver|].
    destruct (str_eqb x TreeDir) eqn:Ex; [|done]. apply str_eqb_true in Ex.
    destruct q as [|n [|f [|? ?]]]; simpl; try naive_solver;
      rewrite lookup_insert_ne by naive_solver; done.
  - destruct q as [|x q]; [done|]. destruct (str_eqb x TreeDir) eqn:Ex; [|done].
    apply str_eqb_true in Ex.
    destruct q as [|n [|f [|? ?]]]; simpl; try naive_solver;
      rewrite lookup_insert_ne by naive_solver; done.
Qed.

(** One more profile, as [write_profile] changes the tree. *)
Lemma staged_insert ps name prof q :
  ps !! name = None ->
  (if bool_decide (q `prefix_of` [TreeDir; name]) then Some Dir
   else match drop 2 q with
        | [f] => if under [TreeDir; name] q then
                   match text_in dataDir data name prof f with
                   | Some t => Some (Text t)
                   | None => staged dataDir data ps q
                   end
                 else staged dataDir data ps q
        | _ => staged dataDir data ps q
        end)
  = staged dataDir data (<[name := prof]> ps) q.
Proof.
  intros Hn. destruct (bool_decide (q `prefix_of` _)) eqn:Ep; bool_prop.
  { unfold staged. rewrite (bool_decide_eq_false_2 (<[name := prof]> ps = ∅)) by apply insert_non_empty.
    apply elem_of_prefixes in Ep. simpl in Ep. set_unfold in Ep.
    destruct Ep as [->|[->|[->|[]]]]; simpl; try done. by rewrite lookup_insert_eq. }
  assert (q <> []) as Hq by (intros ->; apply Ep, prefix_nil).
  destruct (under [TreeDir; name] q) eqn:Eu.
  - apply under_spec in Eu as [r ->]. simpl. unfold staged.
    rewrite (bool_decide_eq_false_2 (<[name := prof]> ps = ∅)) by apply insert_non_empty.
    destruct r as [|f [|? ?]]; [by destruct Ep| |simpl; by destruct (bool_decide _)].
    simpl. rewrite lookup_insert_eq. simpl.
    destruct (text_in _ _ _ _ _); [done|]. rewrite Hn. by destruct (bool_decide _).
  - rewrite staged_insert_other; [by destruct (drop 2 q) as [|? []]| |by right].
    destruct q as [|x [|n q]]; [done| |].
    + intros ->. apply Ep. by exists [name].
    + destruct (decide (x = TreeDir)) as [->|]; [|by left]. right. intros ->.
      apply bool_decide_eq_false in Eu. apply Eu. by exists q.
Qed.

Lemma write_profile_inv order root name prof ps d0 w w' :
  order ≡ₚ map_to_list data -> ps !! name = None -> root <> [] -> 
  (forall q, q `prefix_of` root -> q <> root -> d0 !! q = Some Dir) ->
  write_profile dataDir order root (name, prof) w = (w', None) ->
  staging_inv root ps d0 (disk w) ->
  reg w' = reg w /\ staging_inv root (<[name := prof]> ps) d0 (disk w').
Proof.
  intros Ho Hn Hroot Hanc Hw [Hin Hout].
  apply write_profile_none in Hw as [Hr Hd]; [|done]. split; [done|]. split.
  - intros q. rewrite Hd. set (dir := root ++ [TreeDir; name]).
    assert (drop (length dir) (root ++ q) = drop 2 q) as ->.
    { subst dir. rewrite length_app, <- drop_drop, drop_app_length. done. }
    assert (bool_decide (root ++ q `prefix_of` dir) = bool_decide (q `prefix_of` [TreeDir; name])) as ->.
    { subst dir. apply bool_decide_ext. split; [apply prefix_app_inv|apply prefix_app]. }
    assert (under dir (root ++ q) = under [TreeDir; name] q) as ->.
    { subst dir. unfold under. apply bool_decide_ext. split; [apply prefix_app_inv|apply prefix_app]. }
    rewrite Hin. by apply staged_insert.
  - intros q Hq. rewrite Hd. destruct (bool_decide _) eqn:Ep.
    + bool_prop. destruct (prefix_weak_total q root (root ++ [TreeDir; name])) as [Hp|Hp];
        [done|by exists [TreeDir; name]| |].
      * symmetry. apply Hanc; [done|]. intros ->. rewrite <- (app_nil_r root) in Hq at 2.
        by rewrite under_app in Hq.
      * apply bool_decide_eq_false in Hq. done.
    + rewrite <- Hout by done. destruct (drop _ q) as [|f []]; [done| |done].
      destruct (under (root ++ [TreeDir; name]) q) eqn:Eu; [|done]. exfalso.
      apply under_spec in Eu as [r ->]. rewrite <- app_assoc, under_app in Hq. done.
Qed.
End writing.

(** The loop over the profiles, and the whole tree. *)
Section tree.
Context (dataDir : string) (visit : Visits) `{!VisitsAll visit}.

Lemma write_profiles_inv data n l ps d0 w w' :
  NoDup l.*1 -> (forall name, name ∈ l.*1 -> ps !! name = None) -> d0 !! [] = Some Dir ->
  write_profiles dataDir visit n staging data l w = (w', None) ->
  staging_inv dataDir data staging ps d0 (disk w) ->
  reg w' = reg w /\ staging_inv dataDir data staging (list_to_map l ∪ ps) d0 (disk w').
Proof using VisitsAll0.
  intros Hnd Hps Hroot. revert n ps w Hnd Hps.
  induction l as [|[name prof] l IH]; intros n ps w Hnd Hps; cbn [write_profiles].
  { intros [= <-] Hi. split; [done|]. by rewrite list_to_map_nil, (left_id_L ∅ (∪)). }
  destruct (write_profile _ _ _ _ _) as [w1 [e|]] eqn:E; [done|]. intros Hw Hi.
  cbn in Hnd. apply list.NoDup_cons in Hnd as [Hn Hnd].
  assert (forall q, q `prefix_of` staging -> q <> staging -> d0 !! q = Some Dir) as Hanc.
  { intros q Hq Hne. apply elem_of_prefixes in Hq. simpl in Hq. set_unfold in Hq.
    by destruct Hq as [->|[->|[]]]. }
  destruct (write_profile_inv dataDir data (visit n _ data) staging name prof ps d0 w w1
    (visit_perm n _ data) (Hps name ltac:(set_solver)) ltac:(done) Hanc E Hi) as [R1 I1].
  destruct (IH (S n) (<[name:=prof]> ps) w1 Hnd) as [R2 I2]; [|done|done|].
  { intros m Hm. rewrite lookup_insert_ne; [apply Hps; set_solver|]. by intros ->. }
  split; [congruence|]. rewrite list_to_map_cons.
  enough (<[name:=prof]> (list_to_map l) ∪ ps = list_to_map l ∪ <[name:=prof]> ps) as -> by done.
  rewrite <- insert_union_l. apply insert_union_r. by apply not_elem_of_list_to_map_1.
Qed.

Lemma writeTree_none m w w' :
  disk w !! [] = Some Dir -> writeTree dataDir visit staging m w = (w', None) ->
  reg w' = reg w
  /\ (forall q, disk w' !! (staging ++ q) = staged dataDir (m_Data m) (m_Profiles m) q)
  /\ forall q, under staging q = false -> disk w' !! q = disk w !! q.
Proof using VisitsAll0.
  intros Hroot. unfold writeTree. destruct (lift_io _) as [w1 [e|]] eqn:E; [done|]. intros Hw.
  apply lift_io_none, call_none in E as [[= E] R1].
  apply (write_profiles_inv _ _ _ ∅ (disk w)) in Hw as [R2 [I1 I2]].
  - split; [congruence|]. split; [|done]. intros q. rewrite I1, (right_id_L ∅ (∪)).
    rewrite (list_to_map_proper _ (map_to_list (m_Profiles m))), list_to_map_to_list; [done| |].
    + rewrite visit_perm. apply NoDup_fst_map_to_list.
    + apply visit_perm.
  - rewrite visit_perm. apply NoDup_fst_map_to_list.
  - intros. apply lookup_empty.
  - done.
  - rewrite <- E. split; intros q; rewrite lookup_outside; [by rewrite under_app|by intros ->].
Qed.
End tree.

(** ** Lemmas: calls with faults *)

Lemma RemoveAll_any p w :
  let w' := (RemoveAll p w).1 in
  reg w' = reg w /\ (forall q, under p q = false -> disk w' !! q = disk w !! q)
  /\ (faults w = [] -> faults w' = [] /\ forall q, under p q = true -> disk w' !! q = None).
Proof.
  unfold RemoveAll, call. destruct (faults w) as [|[junk|] l] eqn:Ef; simpl;
    (split; [done|]); split; try done; try (intros q Hq; rewrite ?lookup_union, ?lookup_outside,
      ?lookup_inside, ?Hq; try done).
  - intros _. split; [done|]. intros q Hq. by rewrite lookup_outside, Hq.
  - by destruct (disk w !! q).
Qed.

Lemma Rename_some a b w w' e : Rename a b w = (w', Some e) -> reg w' = reg w /\ disk w' = disk w.
Proof.
  unfold Rename. destruct (faults w) as [|[]]; simpl; repeat case_match; intros; by simplify_eq/=.
Qed.

Lemma Rename_none a b w w' :
  under a b = false -> under b a = false -> Rename a b w = (w', None) ->
  reg w' = reg w /\ is_Some (disk w !! a)
  /\ (forall q, disk w' !! (b ++ q) = disk w !! (a ++ q))
  /\ (forall q, under a q = true -> disk w' !! q = None)
  /\ (forall q, under a q = false -> under b q = false -> disk w' !! q = disk w !! q).
Proof.
  intros Hab Hba H.
  assert (reg w' = reg w /\ is_Some (disk w !! a) /\ disk w' = move a b (disk w)) as (Hr & Ha & Hd).
  { unfold Rename, rename_ok in H.
    destruct (faults w) as [|[]]; simpl in *; repeat case_match; simplify_eq/=; eauto. }
  split_and!; [done..| | |]; rewrite Hd.
  - intros q. by rewrite lookup_move, under_app, drop_app_length.
  - intros q Hq. rewrite lookup_move, Hq by done. destruct (under b q) eqn:E; [|done].
    exfalso. apply under_spec in Hq as [r ->]. apply under_spec in E as [t Ht].
    destruct (prefix_weak_total a b (a ++ r)) as [Hp|Hp].
    + by apply prefix_app_r.
    + rewrite Ht. by apply prefix_app_r.
    + apply bool_decide_eq_false in Hab. done.
    + apply bool_decide_eq_false in Hba. done.
  - intros q Hqa Hqb. by rewrite lookup_move, Hqa, Hqb.
Qed.

Lemma MkdirData_none w w' :
  MkdirData w = (w', None) ->
  reg w' = reg w /\ disk w' !! [] = Some Dir /\ (forall q, q <> [] -> disk w' !! q = disk w !! q).
Proof.
  unfold MkdirData. destruct (faults w) as [|[]]; simpl; repeat case_match; intros; simplify_eq/=;
    (split; [done|]); split; try apply lookup_insert_eq; intros; by rewrite lookup_insert_ne.
Qed.

Lemma MkdirData_some w w' e :
  MkdirData w = (w', Some e) -> reg w' = reg w
  /\ (faults w = [] -> is_text_at (disk w) [] = true).
Proof.
  unfold MkdirData. destruct (faults w) as [|[]] eqn:F; simpl; repeat case_match; intros;
    by simplify_eq/=.
Qed.

Lemma MkdirData_faults w w' : MkdirData w = (w', None) -> faults w = [] -> faults w' = [].
Proof.
  unfold MkdirData. intros H Hf. rewrite Hf in H. by case_match; simplify_eq/=.
Qed.

(** ** Lemmas: what writing leaves alone *)

Lemma under_head x y p q : x <> y -> under (x :: p) (y :: q) = false.
Proof.
  intros Hne. apply bool_decide_eq_false. intros Hp. by apply prefix_cons_inv_1 in Hp.
Qed.

(** Only the staging directory changes, and faults are not made up. *)
Definition frame (w w' : World) : Prop :=
  reg w' = reg w /\ (forall q, under staging q = false -> disk w' !! q = disk w !! q)
  /\ (faults w = [] -> faults w' = []).

#[export] Instance frame_preorder : PreOrder frame.
Proof.
  split; [done|]. intros w1 w2 w3 (R1 & D1 & F1) (R2 & D2 & F2). split_and!; [congruence| |auto].
  intros q Hq. by rewrite D2, D1.
Qed.

Lemma frame_root w w' : frame w w' -> disk w !! [] = Some Dir -> disk w' !! [] = Some Dir.
Proof. intros (_ & D & _) Hw. by rewrite D. Qed.

Lemma call_frame p f w :
  under staging p = true ->
  (forall d, f (disk w) = Ok d -> forall q, under staging q = false -> d !! q = disk w !! q) ->
  frame w (call p f w).1.
Proof.
  intros Hp Hf. unfold call.
  assert (forall q, under staging q = false -> under p q = false) as Hout.
  { intros q Hq. apply bool_decide_eq_false. apply bool_decide_eq_true in Hp.
    apply bool_decide_eq_false in Hq. intros Hpq. apply Hq. by etrans. }
  destruct (faults w) as [|[junk|] l] eqn:Ef; simpl.
  - destruct (f (disk w)) eqn:E; simpl; (split; [done|]); (split; [|done]); intros q Hq;
      [by eapply Hf|done].
  - split; [done|]. split; [|simpl; congruence]. intros q Hq. simpl.
    rewrite lookup_union, lookup_outside, lookup_inside, (Hout q Hq). by destruct (disk w !! q).
  - destruct (f (disk w)) eqn:E; simpl; (split; [done|]); (split; [|simpl; congruence]);
      intros q Hq; [by eapply Hf|done].
Qed.

Lemma lift_io_frame w r : frame w r.1 -> frame w (lift_io r).1.
Proof. done. Qed.

Lemma each_frame {A} (f : A -> World -> World * option ApplyError) l w :
  (forall x w, disk w !! [] = Some Dir -> frame w (f x w).1) ->
  disk w !! [] = Some Dir -> frame w (each f l w).1.
Proof.
  intros Hf. revert w. induction l as [|x l IH]; intros w Hw; cbn [each]; [done|].
  pose proof (Hf x w Hw) as H1. destruct (f x w) as [w1 [e|]]; simpl in *; [done|].
  etrans; [done|]. apply IH. by eapply frame_root.
Qed.

Lemma write_named_frame dir name text w :
  under staging dir = true -> frame w (write_named dir name text w).1.
Proof.
  intros Hd. unfold write_named. destruct (safeName name); simpl; [|done].
  apply call_frame.
  - apply bool_decide_eq_true in Hd. apply bool_decide_eq_true. by apply prefix_app_r.
  - intros d H q Hq. destruct (negb _); [done|]. destruct (is_dir _ _); [done|].
    injection H as <-. apply lookup_insert_ne. intros <-. apply bool_decide_eq_false in Hq.
    apply Hq. apply bool_decide_eq_true in Hd. by apply prefix_app_r.
Qed.

Section frames.
Context (dataDir : string).

Lemma write_profile_frame order e w :
  disk w !! [] = Some Dir -> frame w (write_profile dataDir order staging e w).1.
Proof.
  intros Hw. destruct e as [name prof]. unfold write_profile.
  destruct (safeName name); simpl negb; cbv iota zeta; [|done].
  set (dir := staging ++ [TreeDir; name]).
  assert (under staging dir = true) as Hd by apply under_app.
  assert (frame w (lift_io (MkdirAll staging dir w)).1) as H1.
  { apply lift_io_frame, call_frame; [by apply bool_decide_eq_true|].
    intros d H q Hq. destruct (existsb _ _); [done|]. assert (d = mkdirs (prefixes dir) (disk w)) as -> by congruence.
    rewrite lookup_mkdirs. case_bool_decide as Hi; [|done]. apply elem_of_prefixes, elem_of_prefixes in Hi.
    simpl in Hi. set_unfold in Hi.
    destruct Hi as [->|[->|[->|[->|[]]]]]; [done|..]; by vm_compute in Hq. }
  destruct (lift_io _) as [w1 [e|]]; [done|]. simpl in H1.
  pose proof (each_frame (fun d => write_named dir d.1 d.2) order w1
    (fun x w _ => write_named_frame dir x.1 x.2 w Hd) (frame_root _ _ H1 Hw)) as H2.
  destruct (each _ order w1) as [w2 [e|]]; simpl in H2; [by etrans|].
  etrans; [exact H1|]. etrans; [exact H2|]. apply each_frame.
  - intros x w0 _. by apply write_named_frame.
  - eapply frame_root, frame_root; eauto.
Qed.

Lemma write_profiles_frame visit n data l w :
  disk w !! [] = Some Dir ->
  frame w (write_profiles dataDir visit n staging data l w).1.
Proof.
  revert n w. induction l as [|e l IH]; intros n w Hw; cbn [write_profiles]; [done|].
  pose proof (write_profile_frame (visit n _ data) e w Hw) as H1.
  destruct (write_profile _ _ _ _ _) as [w1 [err|]]; simpl in *; [done|].
  etrans; [done|]. apply IH. by eapply frame_root.
Qed.

Lemma writeTree_frame visit m w :
  disk w !! [] = Some Dir -> frame w (writeTree dataDir visit staging m w).1.
Proof.
  intros Hw. unfold writeTree.
  assert (frame w (lift_io (RemoveAll staging w)).1) as H1.
  { apply lift_io_frame, call_frame; [done|]. intros d [= <-] q Hq. by rewrite lookup_outside, Hq. }
  destruct (lift_io _) as [w1 [e|]]; [done|]. etrans; [done|].
  apply write_profiles_frame. by eapply frame_root.
Qed.
End frames.

(** The errors of [writeTree] are its own. *)
Definition tree_error (e : option ApplyError) : Prop :=
  match e with None | Some (EUnsafe _) | Some (EWrite _) => True | Some _ => False end.

Lemma lift_io_error r : tree_error (lift_io r).2.
Proof. by destruct r as [w [e|]]. Qed.

Lemma each_error {A} (f : A -> World -> World * option ApplyError) l w :
  (forall x w, tree_error (f x w).2) -> tree_error (each f l w).2.
Proof.
  intros Hf. revert w. induction l as [|x l IH]; intros w; [done|]. simpl.
  pose proof (Hf x w) as Hx. by destruct (f x w) as [w1 [e1|]].
Qed.

Lemma write_named_error dir name text w : tree_error (write_named dir name text w).2.
Proof. unfold write_named. case_match; [done|apply lift_io_error]. Qed.

Lemma write_profile_error dataDir order root e w :
  tree_error (write_profile dataDir order root e w).2.
Proof.
  destruct e as [name prof]. unfold write_profile. destruct (negb (safeName name)); [exact I|].
  pose proof (lift_io_error (MkdirAll root (root ++ [TreeDir; name]) w)) as H.
  destruct (lift_io _) as [w1 [e1|]]; [exact H|].
  pose proof (each_error (fun d => write_named (root ++ [TreeDir; name]) d.1 d.2) order w1
    (fun _ _ => write_named_error _ _ _ _)) as H2.
  destruct (each _ order w1) as [w2 [e2|]]; [exact H2|].
  apply each_error. intros. apply write_named_error.
Qed.

Lemma writeTree_error dataDir visit root m w : tree_error (writeTree dataDir visit root m w).2.
Proof.
  unfold writeTree. pose proof (lift_io_error (RemoveAll root w)) as H.
  destruct (lift_io _) as [w1 [e1|]]; [exact H|]. clear.
  generalize 1%nat, (visit 0%nat _ (m_Profiles m)). intros n l. revert n w1.
  induction l as [|e l IH]; intros n w; [exact I|]. cbn [write_profiles].
  pose proof (write_profile_error dataDir (visit n _ (m_Data m)) root e w) as H.
  destruct (write_profile _ _ _ _ _) as [w1 [e1|]]; [exact H|apply IH].
Qed.

(** ** Lemmas: without faults only an unsafe name stops the writing *)

Definition only_unsafe (e : option ApplyError) : Prop :=
  match e with None => True | Some (EUnsafe n) => safeName n = false | Some _ => False end.

(** A directory of files. *)
Definition flat_dir (dir : list string) (d : gmap (list string) node) : Prop :=
  d !! dir = Some Dir /\ forall x, d !! (dir ++ [x]) <> Some Dir.

Lemma write_named_clean dir name text w :
  faults w = [] -> flat_dir dir (disk w) ->
  let '(w', e) := write_named dir name text w in
  only_unsafe e /\ faults w' = [] /\ (e = None -> flat_dir dir (disk w')).
Proof.
  intros Hf [Hd Hx]. unfold write_named. destruct (safeName name) eqn:Es; simpl; [|done].
  unfold WriteFile, call, is_dir. rewrite Hf. simpl. rewrite Hd. simpl.
  destruct (disk w !! (dir ++ [name])) as [[|t]|] eqn:Ex; [by destruct (Hx name)|..]; simpl;
    (split; [done|]; split; [done|]; intros _; split; simpl).
  1,3: rewrite lookup_insert_ne; [done|]; intros Heq; apply (f_equal length) in Heq;
    rewrite length_app in Heq; simpl in Heq; lia.
  all: intros x; destruct (decide (x = name)) as [->|Hne]; [by rewrite lookup_insert_eq|];
    rewrite lookup_insert_ne; [apply Hx|]; intros Heq; apply app_inv_head in Heq; congruence.
Qed.

Lemma each_write_clean {A} dir (name text : A -> string) l w :
  faults w = [] -> flat_dir dir (disk w) ->
  let '(w', e) := each (fun a => write_named dir (name a) (text a)) l w in
  only_unsafe e /\ faults w' = [] /\ (e = None -> flat_dir dir (disk w')).
Proof.
  revert w. induction l as [|a l IH]; intros w Hf Hd; cbn [each]; [done|].
  pose proof (write_named_clean dir (name a) (text a) w Hf Hd) as H.
  destruct (write_named _ _ _ _) as [w1 [e|]]; [exact H|]. destruct H as (_ & H1 & H2).
  apply IH; [done|]. by apply H2.
Qed.

Section clean.
Context (dataDir : string) (data : gmap string string).

(** Nothing but directories on the way to a new profile, and nothing below it. *)
Lemma staging_fresh ps d0 d name :
  staging_inv dataDir data staging ps d0 d -> d0 !! [] = Some Dir -> ps !! name = None ->
  existsb (is_text_at d) (prefixes (staging ++ [TreeDir; name])) = false
  /\ forall x, d !! ((staging ++ [TreeDir; name]) ++ [x]) = None.
Proof.
  intros [Hin Hout] H0 Hn.
  assert (forall q, d !! (staging ++ q) = staged dataDir data ps q) as Hin' by done.
  split.
  - simpl. unfold is_text_at. rewrite (Hout []) by done. rewrite H0.
    pose proof (Hin' []) as E1. pose proof (Hin' [TreeDir]) as E2.
    pose proof (Hin' [TreeDir; name]) as E3. simpl in E1, E2, E3. rewrite E1, E2, E3.
    unfold staged. simpl. rewrite Hn. by destruct (bool_decide _).
  - intros x. rewrite <- app_assoc, Hin'. unfold staged. simpl. rewrite Hn.
    by destruct (bool_decide _).
Qed.

Lemma write_profile_clean order ps d0 name prof w :
  faults w = [] -> staging_inv dataDir data staging ps d0 (disk w) -> d0 !! [] = Some Dir ->
  ps !! name = None ->
  let '(w', e) := write_profile dataDir order staging (name, prof) w in
  only_unsafe e /\ faults w' = [].
Proof.
  intros Hf Hi H0 Hn. destruct (staging_fresh ps d0 _ name Hi H0 Hn) as [Ht Hx].
  unfold write_profile. destruct (safeName name) eqn:Es; simpl negb; cbv iota zeta; [|done].
  set (dir := staging ++ [TreeDir; name]) in *.
  destruct (lift_io (MkdirAll staging dir w)) as [w1 e] eqn:E.
  assert (e = None /\ faults w1 = []) as [-> Hf1].
  { revert E. unfold lift_io, MkdirAll, call. rewrite Hf. simpl disk. rewrite Ht. simpl.
    intros [= <- <-]. done. }
  apply lift_io_none, MkdirAll_none in E as [_ D1].
  assert (flat_dir dir (disk w1)) as Hd.
  { split; [by rewrite D1, bool_decide_eq_true_2|]. intros x. rewrite D1.
    rewrite bool_decide_eq_false_2; [by rewrite Hx|].
    intros Hp%prefix_length. rewrite length_app in Hp. simpl in Hp. lia. }
  pose proof (each_write_clean dir fst snd order w1 Hf1 Hd) as H2.
  destruct (each _ order w1) as [w2 [e|]]; [by destruct H2 as (? & ? & _)|].
  destruct H2 as (_ & Hf2 & Hd2).
  pose proof (each_write_clean dir f_Name (fun f => rewriteFromFile dataDir (f_Text f) [TreeDir; name])
    (Files prof) w2 Hf2 (Hd2 eq_refl)) as H3.
  destruct (each _ (Files prof) w2) as [w3 e]. by destruct H3 as (? & ? & _).
Qed.

Lemma write_profiles_clean visit `{!VisitsAll visit} n l ps d0 w :
  NoDup l.*1 -> (forall name, name ∈ l.*1 -> ps !! name = None) ->
  faults w = [] -> staging_inv dataDir data staging ps d0 (disk w) -> d0 !! [] = Some Dir ->
  let '(w', e) := write_profiles dataDir visit n staging data l w in
  only_unsafe e /\ faults w' = [].
Proof.
  intros Hnd Hps Hf Hi H0. revert n ps w Hnd Hps Hf Hi.
  induction l as [|[name prof] l IH]; intros n ps w Hnd Hps Hf Hi; cbn [write_profiles]; [done|].
  cbn in Hnd. apply list.NoDup_cons in Hnd as [Hn Hnd].
  pose proof (write_profile_clean (visit n _ data) ps d0 name prof w Hf Hi H0
    (Hps name ltac:(set_solver))) as H1.
  destruct (write_profile _ _ _ _ _) as [w1 [e|]] eqn:E; [done|]. destruct H1 as [_ Hf1].
  assert (forall q, q `prefix_of` staging -> q <> staging -> d0 !! q = Some Dir) as Hanc.
  { intros q Hq Hne. apply elem_of_prefixes in Hq. simpl in Hq. set_unfold in Hq.
    by destruct Hq as [->|[->|[]]]. }
  destruct (write_profile_inv dataDir data (visit n _ data) staging name prof ps d0 w w1
    (visit_perm n _ data) (Hps name ltac:(set_solver)) ltac:(done) Hanc E Hi) as [_ I1].
  apply (IH (S n) (<[name:=prof]> ps) w1); [done| |done|done].
  intros m Hm. rewrite lookup_insert_ne; [apply Hps; set_solver|]. by intros ->.
Qed.
End clean.

Lemma writeTree_clean dataDir visit `{!VisitsAll visit} m w :
  faults w = [] -> disk w !! [] = Some Dir ->
  let '(w', e) := writeTree dataDir visit staging m w in
  only_unsafe e /\ faults w' = [].
Proof.
  intros Hf H0. unfold writeTree, lift_io, RemoveAll, call. rewrite Hf. simpl.
  apply (write_profiles_clean dataDir (m_Data m) visit 1%nat _ ∅ (disk w)); try done.
  - rewrite visit_perm. apply NoDup_fst_map_to_list.
  - split; intros q.
    + change (outside staging (disk w) !! (staging ++ q) = None).
      by rewrite lookup_outside, under_app.
    + intros Hq. change (outside staging (disk w) !! q = disk w !! q).
      by rewrite lookup_outside, Hq.
Qed.

(** ** Lemmas: the swap *)

(** The reload reads the live directory and nothing else. *)
Class ReadsLive (dataDir : string) (sources : gmap (list string) node -> Rules.Sources) : Prop :=
  reads_live d1 d2 r : (forall q, d1 !! (live ++ q) = d2 !! (live ++ q)) ->
    Rules.ReloadFrom (sources d1) dataDir r = Rules.ReloadFrom (sources d2) dataDir r.

Section swap.
Context (dataDir : string) (sources : gmap (list string) node -> Rules.Sources).
Context `{!ReadsLive dataDir sources}.

(** The three directories are apart. *)
Lemma apart q :
  under staging (live ++ q) = false /\ under staging (prev ++ q) = false
  /\ under prev (live ++ q) = false /\ under prev (staging ++ q) = false
  /\ under live (prev ++ q) = false /\ under live (staging ++ q) = false.
Proof. split_and!; by apply under_head. Qed.

(** What the end of [Apply] says of the registry and of the live tree: [new] is the
    tree that was staged and [old] the one that was parked. *)
Definition swapped (new old : list string -> option node) (r : Rules.Registry) (w' : World)
    (e : option ApplyError) : Prop :=
  match e with
  | None => (forall q, disk w' !! (live ++ q) = new q)
            /\ Rules.ReloadFrom (sources (disk w')) dataDir r = Ok (reg w')
  | Some (EReload err) =>
      (exists d, (forall q, d !! (live ++ q) = new q)
         /\ Rules.ReloadFrom (sources d) dataDir r = Err err)
      /\ (reg w' = r
          \/ exists d, (forall q, d !! (live ++ q) = old q)
               /\ Rules.ReloadFrom (sources d) dataDir r = Ok (reg w'))
  | Some _ => reg w' = r
  end.

Lemma reload_any w :
  match Rules.ReloadFrom (sources (disk w)) dataDir (reg w) with
  | Ok r => reload dataDir sources w = (set_reg r w, None)
  | Err e => reload dataDir sources w = (w, Some e)
  end.
Proof. unfold reload. by destruct (Rules.ReloadFrom _ _ _). Qed.

Lemma promote_any ex w w' e new old :
  promote dataDir sources ex w = (w', e) ->
  (forall q, disk w !! (staging ++ live ++ q) = new q) ->
  (ex = true -> forall q, disk w !! (prev ++ q) = old q) ->
  swapped new old (reg w) w' e.
Proof using ReadsLive0.
  intros Hp Hnew Hold. unfold promote in Hp.
  destruct (Rename (staging ++ live) live w) as [w1 [e1|]] eqn:E1.
  { apply Rename_some in E1 as [R1 _]. simplify_eq/=.
    destruct (RemoveAll_any staging (if ex then (Rename prev live w1).1 else w1)) as (R2 & _).
    rewrite R2. destruct ex; [|done].
    destruct (Rename prev live w1) as [w2 [e2|]] eqn:E2; simpl.
    - apply Rename_some in E2 as [-> _]. done.
    - apply Rename_none in E2 as [-> _]; done. }
  apply Rename_none in E1 as (R1 & _ & D1 & _ & O1); [|done..].
  destruct (RemoveAll_any staging w1) as (R2 & O2 & _).
  set (w2 := (RemoveAll staging w1).1) in *.
  assert (forall q, disk w2 !! (live ++ q) = new q) as Hlive.
  { intros q. rewrite O2 by apply apart. rewrite D1, <- app_assoc. apply Hnew. }
  pose proof (reload_any w2) as Hl. rewrite R2, R1 in Hl.
  destruct (Rules.ReloadFrom _ _ _) as [r|err] eqn:Er; rewrite Hl in Hp; simpl in Hp; simplify_eq.
  - destruct (RemoveAll_any prev (set_reg r w2)) as (R3 & O3 & _).
    assert (forall q, disk (RemoveAll prev (set_reg r w2)).1 !! (live ++ q) = new q) as Hl3.
    { intros q. rewrite O3 by apply apart. apply Hlive. }
    split; [done|]. rewrite R3. simpl. rewrite <- Er. apply reads_live. intros q.
    by rewrite Hl3, Hlive.
  - split; [by exists (disk w2)|]. destruct (RemoveAll_any live w2) as (R3 & O3 & _).
    set (w3 := (RemoveAll live w2).1) in *.
    destruct ex; [|left; congruence].
    destruct (Rename prev live w3) as [w4 [e4|]] eqn:E4; simplify_eq/=.
    { apply Rename_some in E4 as [-> _]. left. congruence. }
    apply Rename_none in E4 as (R4 & _ & D4 & _); [|done..].
    pose proof (reload_any w4) as Hl4. rewrite R4, R3, R2, R1 in Hl4. revert Hl4.
    destruct (Rules.ReloadFrom (sources (disk w4)) dataDir (reg w)) as [r|] eqn:Er4;
      intros ->; simpl; [|left; congruence].
    right. exists (disk w4). split; [|done]. intros q.
    change (TreeDir :: q) with (live ++ q). rewrite D4, O3 by apply apart.
    rewrite O2 by apply apart. rewrite O1 by by apply under_head. by apply Hold.
Qed.

Lemma promote_missing ex w w' e :
  promote dataDir sources ex w = (w', e) -> disk w !! (staging ++ live) = None ->
  exists err, e = Some (EPromote err) /\ reg w' = reg w.
Proof using.
  unfold promote. intros Hp Hn. destruct (Rename (staging ++ live) live w) as [w1 [e1|]] eqn:E1.
  - apply Rename_some in E1 as [R1 _]. simplify_eq. exists e1. split; [done|].
    etrans; [apply RemoveAll_any|]. destruct ex; [|done].
    destruct (Rename prev live w1) as [w2 [e2|]] eqn:E2; simpl.
    + apply Rename_some in E2 as [-> _]. done.
    + apply Rename_none in E2 as [-> _]; done.
  - apply Rename_none in E1 as (_ & [n Ha] & _); [congruence|done..].
Qed.

Lemma Rename_clean a b w :
  faults w = [] -> disk w !! b = None ->
  match disk w !! a with
  | None => Rename a b w = (w, Some ENOENT)
  | Some _ => exists w', Rename a b w = (w', None) /\ faults w' = []
  end.
Proof using.
  destruct w as [d fs r]. simpl. intros -> Hb. unfold Rename, rename_ok. simpl.
  destruct (d !! a); [rewrite Hb; eauto|done].
Qed.

Lemma reload_disk w :
  disk (reload dataDir sources w).1 = disk w /\ faults (reload dataDir sources w).1 = faults w.
Proof using. unfold reload. by destruct (Rules.ReloadFrom _ _ _). Qed.

(** The swap when no call fails by itself: the staging directory is gone, and an error
    leaves below the live directory what was parked. *)
Lemma promote_clean (ex : bool) w w' e :
  promote dataDir sources ex w = (w', e) -> faults w = [] ->
  (forall q, disk w !! (live ++ q) = None) -> (ex = true -> is_Some (disk w !! prev)) ->
  (forall q, disk w' !! (staging ++ q) = None)
  /\ match e with
     | None => forall q, disk w' !! (prev ++ q) = None
     | Some err =>
         (forall q, disk w' !! (live ++ q) = if ex then disk w !! (prev ++ q) else None)
         /\ match err with
            | EPromote _ => disk w !! (staging ++ live) = None
            | EReload _ => True
            | _ => False
            end
     end.
Proof using.
  intros Hp Hf Hl Hprev. unfold promote in Hp.
  pose proof (Rename_clean (staging ++ live) live w Hf (Hl [])) as HR.
  destruct (disk w !! (staging ++ live)) eqn:Ea.
  - destruct HR as (w1 & E1 & F1). rewrite E1 in Hp.
    apply Rename_none in E1 as (_ & _ & _ & _ & O1); [|done..].
    destruct (RemoveAll_any staging w1) as (_ & O2 & C2). destruct (C2 F1) as [F2 S2].
    set (w2 := (RemoveAll staging w1).1) in *.
    destruct (reload_disk w2) as [D3 F3]. rewrite F2 in F3.
    destruct (reload dataDir sources w2) as [w3 [e3|]]; simpl in D3, F3; simplify_eq.
    + destruct (RemoveAll_any live w3) as (_ & O4 & C4). destruct (C4 F3) as [F4 L4].
      set (w4 := (RemoveAll live w3).1) in *.
      assert (forall q, disk w4 !! (staging ++ q) = None) as S4.
      { intros q. rewrite O4, D3 by apply apart. apply S2, under_app. }
      assert (forall q, disk w4 !! (prev ++ q) = disk w !! (prev ++ q)) as P4.
      { intros q. rewrite O4, D3, O2 by apply apart. by apply O1; apply under_head. }
      destruct ex; [|split; [done|]; split; [|done]; intros q; apply L4, under_app].
      pose proof (Rename_clean prev live w4 F4 (L4 live eq_refl)) as HR.
      destruct (Hprev eq_refl) as [nd Hn]. pose proof (P4 []) as P5. rewrite app_nil_r, Hn in P5.
      rewrite P5 in HR. destruct HR as (w5 & E5 & F5). rewrite E5.
      apply Rename_none in E5 as (_ & _ & D5 & _ & O5); [|done..].
      rewrite (proj1 (reload_disk w5)). split; [intros q; by rewrite O5 by apply apart|].
      split; [intros q; by rewrite D5, P4|done].
    + destruct (RemoveAll_any prev w3) as (_ & O4 & C4). destruct (C4 F3) as [F4 P4].
      split; intros q; [|apply P4, under_app].
      rewrite O4, D3 by apply apart. apply S2, under_app.
  - rewrite HR in Hp. simplify_eq. set (w1 := if ex then _ else _).
    assert (faults w1 = [] /\ forall q, disk w1 !! (live ++ q)
      = if ex then disk w !! (prev ++ q) else None) as [F1 L1].
    { unfold w1. destruct ex; [|done]. pose proof (Rename_clean prev live w Hf (Hl [])) as H1.
      destruct (Hprev eq_refl) as [nd Hn]. rewrite Hn in H1. destruct H1 as (w2 & E2 & F2).
      rewrite E2. by apply Rename_none in E2 as (_ & _ & D2 & _). }
    destruct (RemoveAll_any staging w1) as (_ & O2 & C2). destruct (C2 F1) as [F2 S2].
    split; [intros q; apply S2, under_app|]. split; [|done]. intros q.
    by rewrite O2 by apply apart.
Qed.

Lemma staged_live_none data ps : staged dataDir data ps live = None -> ps = ∅.
Proof using.
  unfold staged. case_bool_decide; [done|]. simpl. discriminate.
Qed.

(** With the staging directory of a manifest. *)
Lemma promote_staged ex w w' e old data ps :
  promote dataDir sources ex w = (w', e) ->
  (forall q, disk w !! (staging ++ live ++ q) = staged dataDir data ps (live ++ q)) ->
  (ex = true -> forall q, disk w !! (prev ++ q) = old q) ->
  swapped (written dataDir data ps) old (reg w) w' e /\ (e = None -> ps <> ∅).
Proof using ReadsLive0.
  intros Hp Hs Hold. destruct (decide (ps = ∅)) as [->|Hne].
  - destruct (promote_missing _ _ _ _ Hp (Hs [])) as (err & -> & R). done.
  - split; [|done]. apply (promote_any _ _ _ _ _ _ Hp); [|done]. intros q. rewrite Hs.
    unfold staged. by rewrite bool_decide_eq_false_2.
Qed.
End swap.

(** ** Lemmas: the whole of [Apply] *)

(** Also used where what has been applied is tracked over many calls. *)
Lemma Apply_swaps dataDir sources visit `{!VisitsAll visit} `{!ReadsLive dataDir sources}
    m w w' e :
  Apply dataDir sources visit m w = (w', e) ->
  swapped dataDir sources (written dataDir (m_Data m) (m_Profiles m))
    (fun q => disk w !! (live ++ q)) (reg w) w' e
  /\ (e = None -> m_Profiles m <> ∅).
Proof.
  unfold Apply. intros Hp. destruct (MkdirData w) as [w1 [e1|]] eqn:E1.
  { apply MkdirData_some in E1 as [<- _]. by simplify_eq. }
  apply MkdirData_none in E1 as (R1 & Root & D1).
  pose proof (writeTree_frame dataDir visit m w1 Root) as (R2 & O2 & _).
  pose proof (writeTree_error dataDir visit staging m w1) as T2.
  destruct (writeTree dataDir visit staging m w1) as [w2 [e2|]] eqn:E2; simpl in R2, O2, T2.
  { simplify_eq. destruct (RemoveAll_any staging w2) as [R3 _].
    assert (reg (RemoveAll staging w2).1 = reg w) by congruence. by destruct e2. }
  apply writeTree_none in E2 as (_ & S2 & _); [|done|done].
  destruct (RemoveAll_any prev w2) as (R3 & O3 & _). set (w3 := (RemoveAll prev w2).1) in *.
  assert (forall q, disk w3 !! (live ++ q) = disk w !! (live ++ q)) as L3.
  { intros q. rewrite O3, O2 by apply apart. by apply D1. }
  assert (forall q, disk w3 !! (staging ++ live ++ q)
    = staged dataDir (m_Data m) (m_Profiles m) (live ++ q)) as S3.
  { intros q. rewrite O3 by apply apart. apply S2. }
  destruct (Rename live prev w3) as [w4 [e4|]] eqn:E4.
  - apply Rename_some in E4 as [R4 D4]. destruct e4.
    + rewrite <- R1, <- R2, <- R3, <- R4. apply (promote_staged dataDir sources false _ _ _ _ _ _ Hp); [|done].
      intros q. by rewrite D4.
    + simplify_eq. destruct (RemoveAll_any staging w4) as [R5 _]. simpl. split; [congruence|done].
  - apply Rename_none in E4 as (R4 & _ & D4 & _ & O4); [|done..].
    rewrite <- R1, <- R2, <- R3, <- R4. apply (promote_staged dataDir sources true _ _ _ _ _ _ Hp).
    + intros q. by rewrite O4 by by apply under_head.
    + intros _ q. by rewrite D4.
Qed.

Lemma Apply_settles dataDir sources visit `{!VisitsAll visit} m w w' e :
  faults w = [] -> is_text_at (disk w) [] = false ->
  (disk w !! live = None -> forall q, disk w !! (live ++ q) = None) ->
  Apply dataDir sources visit m w = (w', e) ->
  (forall q, disk w' !! (staging ++ q) = None)
  /\ match e with
     | None => forall q, disk w' !! (prev ++ q) = None
     | Some err =>
         (forall q, disk w' !! (live ++ q) = disk w !! (live ++ q))
         /\ match err with
            | EUnsafe n => safeName n = false
            | EPromote _ => m_Profiles m = ∅
            | EReload _ => True
            | _ => False
            end
     end.
Proof.
  unfold Apply. intros Hf Hroot Hlive Hp. destruct (MkdirData w) as [w1 [e1|]] eqn:E1.
  { apply MkdirData_some in E1 as [_ H]. by rewrite H in Hroot. }
  pose proof (MkdirData_faults w w1 E1 Hf) as F1.
  apply MkdirData_none in E1 as (_ & Root & D1).
  pose proof (writeTree_frame dataDir visit m w1 Root) as (_ & O2 & _).
  pose proof (writeTree_clean dataDir visit m w1 F1 Root) as C2.
  destruct (writeTree dataDir visit staging m w1) as [w2 e2] eqn:E2. destruct C2 as [C2 F2].
  simpl in O2. destruct e2 as [e2|].
  { simplify_eq. destruct (RemoveAll_any staging w2) as (_ & O3 & C3). destruct (C3 F2) as [F3 S3].
    split; [intros q; apply S3, under_app|]. split; [|by destruct e2].
    intros q. rewrite O3, O2 by apply apart. by apply D1. }
  apply writeTree_none in E2 as (_ & S2 & _); [|done|done].
  destruct (RemoveAll_any prev w2) as (_ & O3 & C3). destruct (C3 F2) as [F3 P3].
  set (w3 := (RemoveAll prev w2).1) in *.
  assert (forall q, disk w3 !! (live ++ q) = disk w !! (live ++ q)) as L3.
  { intros q. rewrite O3, O2 by apply apart. by apply D1. }
  assert (disk w3 !! (staging ++ live) = None -> m_Profiles m = ∅) as S3.
  { rewrite O3, S2 by done. apply staged_live_none. }
  pose proof (Rename_clean live prev w3 F3 (P3 prev eq_refl)) as HR.
  destruct (disk w3 !! live) as [nd|] eqn:El.
  - destruct HR as (w4 & E4 & F4). rewrite E4 in Hp.
    apply Rename_none in E4 as (_ & _ & D4 & G4 & O4); [|done..].
    apply promote_clean in Hp as [Hs Hp]; [|done| |].
    + split; [done|]. destruct e as [err|]; [|done]. destruct Hp as [Hq He]. split.
      * intros q. by rewrite Hq, D4.
      * rewrite O4 in He by done. by destruct err; try done; apply S3.
    + intros q. apply G4, under_app.
    + intros _. specialize (D4 []). rewrite !app_nil_r, El in D4. eauto.
  - rewrite HR in Hp. pose proof (Hlive (eq_trans (eq_sym (L3 [])) El)) as Hn.
    apply promote_clean in Hp as [Hs Hp]; [|done| |done].
    + split; [done|]. destruct e as [err|]; [|done]. destruct Hp as [Hq He]. split.
      * intros q. by rewrite Hq, Hn.
      * by destruct err; try done; apply S3.
    + intros q. by rewrite L3.
Qed.

(** The data directory itself stays a directory. *)
Lemma RemoveAll_root x p w : disk (RemoveAll (x :: p) w).1 !! [] = disk w !! [].
Proof. apply RemoveAll_any. apply bool_decide_eq_false. by intros [? [=]]. Qed.

Lemma Rename_root x p y q w :
  x <> y -> disk (Rename (x :: p) (y :: q) w).1 !! [] = disk w !! [].
Proof.
  intros Hne. destruct (Rename (x :: p) (y :: q) w) as [w1 [e1|]] eqn:E; simpl.
  - by apply Rename_some in E as [_ ->].
  - apply Rename_none in E as (_ & _ & _ & _ & O); [|by apply under_head; congruence..].
    apply O; apply bool_decide_eq_false; by intros [? [=]].
Qed.

Lemma promote_root dataDir sources ex w :
  disk (promote dataDir sources ex w).1 !! [] = disk w !! [].
Proof.
  unfold promote. pose proof (Rename_root ".next" live TreeDir [] w ltac:(done)) as H1.
  change (Rename (".next" :: live) [TreeDir] w) with (Rename (staging ++ live) live w) in H1.
  destruct (Rename (staging ++ live) live w) as [w1 [e1|]]; simpl in H1 |- *.
  - unfold staging. rewrite RemoveAll_root. destruct ex; [|done].
    unfold prev, live. by rewrite Rename_root.
  - set (w2 := (RemoveAll staging w1).1). assert (disk w2 !! [] = disk w !! []) as H2.
    { unfold w2, staging. by rewrite RemoveAll_root. }
    pose proof (proj1 (reload_disk dataDir sources w2)) as H3.
    destruct (reload dataDir sources w2) as [w3 [e3|]]; simpl in H3 |- *.
    + destruct ex; [|unfold live; rewrite RemoveAll_root; congruence].
      pose proof (Rename_root ".prev" [] TreeDir [] (RemoveAll live w3).1 ltac:(done)) as H4.
      unfold live in H4 at 2. rewrite RemoveAll_root in H4. unfold prev, live in *.
      destruct (Rename [".prev"] [TreeDir] _) as [w4 [e4|]]; simpl in H4 |- *;
        rewrite ?(proj1 (reload_disk _ _ _)); congruence.
    + unfold prev. rewrite RemoveAll_root. congruence.
Qed.

Lemma dir_not_text d p : d !! p = Some Dir -> is_text_at d p = false.
Proof. unfold is_text_at. by intros ->. Qed.

Lemma Apply_root dataDir sources visit `{!VisitsAll visit} m w :
  is_text_at (disk w) [] = false ->
  is_text_at (disk (Apply dataDir sources visit m w).1) [] = false.
Proof.
  intros Hw. unfold Apply. destruct (MkdirData w) as [w1 [e1|]] eqn:E1.
  { revert E1. unfold MkdirData. destruct (faults w) as [|[]]; simpl; rewrite ?Hw;
      intros; by simplify_eq/=. }
  apply MkdirData_none in E1 as (_ & Root & _).
  apply dir_not_text.
  pose proof (frame_root _ _ (writeTree_frame dataDir visit m w1 Root) Root) as H2.
  destruct (writeTree dataDir visit staging m w1) as [w2 [e2|]]; simpl in H2 |- *.
  { unfold staging. by rewrite RemoveAll_root. }
  pose proof (Rename_root TreeDir [] ".prev" [] (RemoveAll prev w2).1 ltac:(done)) as H3.
  unfold prev in H3 at 2. rewrite RemoveAll_root in H3.
  change (Rename [TreeDir] [".prev"]) with (Rename live prev) in H3.
  destruct (Rename live prev _) as [w3 [[]|]]; simpl in H3 |- *; rewrite ?promote_root; try congruence.
  unfold staging. rewrite RemoveAll_root. congruence.
Qed.

(** ** Sample *)

(** A reader of the live tree. *)
Definition sample_reads (d : gmap (list string) node) : Rules.Sources :=
  let l := map_to_list (inside live d) in
  {| Rules.readDir := fun p =>
       if str_eqb p "/data/http" && is_dir d live
       then Some (omap (fun e => match e.1 with
                                 | [_; n] => Some (n, bool_decide (e.2 = Dir))
                                 | _ => None
                                 end) l)
       else None;
     Rules.globConf := fun p =>
       Some (omap (fun e => match e.1 with
                            | [_; n; f] => if str_eqb p ("/data/http/" +:+ n) then Some f else None
                            | _ => None
                            end) l);
     Rules.newEngine := fun _ => Some Apply.quiet_engine;
     Rules.readFile := fun _ => None; Rules.yaml := fun _ => None |}.

Lemma sample_reads_live : ReadsLive "/data" sample_reads.
Proof.
  intros d1 d2 r H. enough (sample_reads d1 = sample_reads d2) as -> by done.
  assert (inside live d1 = inside live d2) as Hi.
  { apply map_eq. intros q. rewrite !lookup_inside. destruct (under live q) eqn:E; [|done].
    apply under_spec in E as [t ->]. apply H. }
  unfold sample_reads, is_dir. rewrite Hi. by rewrite (H [] : d1 !! live = d2 !! live).
Qed.

Definition sample_manifest : Manifest :=
  {| m_V := 1; m_Rev := 3; ConfigHash := "sha256:00"; m_Settings := None;
     m_Data := {["ips.data" := "10.0.0.1"]};
     m_Profiles := {["default" := {| Files :=
       [{| f_Name := "10-base.conf"; f_Text := "SecRule X @pmf a/ips.data" |}] |}]} |}.

Definition sample_world : World :=
  {| disk := list_to_map [([], Dir); (live, Dir); ([TreeDir; "default"], Dir);
                          ([TreeDir; "default"; "old.conf"], Text "old")];
     faults := [];
     reg := {| Rules.dir := "/data"; Rules.current := ∅; Rules.unknown := ∅ |} |}.

(** ** Properties *)

(** C10: Whatever calls fail, the registry and the live tree change together: [Apply]
    succeeds only when the live directory holds exactly the tree of the manifest and the
    registry is the reload of it; a reload that fails was of that tree, and the registry
    is then the one before or a reload of the restored tree; any other error leaves the
    registry as it was. *)
Theorem Apply_commits dataDir sources visit `{!VisitsAll visit} `{!ReadsLive dataDir sources}
    m w w' e :
  Apply dataDir sources visit m w = (w', e) ->
  swapped dataDir sources (written dataDir (m_Data m) (m_Profiles m))
    (fun q => disk w !! (live ++ q)) (reg w) w' e
  /\ (e = None -> m_Profiles m <> ∅).
Proof. by apply Apply_swaps. Qed.

Definition sample_result : World * option ApplyError :=
  Apply "/data" sample_reads sample_visits sample_manifest sample_world.

Lemma Apply_commits_witness :
  sample_result.2 = None
  /\ swapped "/data" sample_reads (written "/data" (m_Data sample_manifest) (m_Profiles sample_manifest))
       (fun q => disk sample_world !! (live ++ q)) (reg sample_world) sample_result.1 sample_result.2
  /\ disk sample_result.1 !! [TreeDir; "default"; "10-base.conf"]
     = Some (Text "SecRule X @pmf /data/http/default/ips.data").
Proof.
  split; [vm_compute; reflexivity|]. split; [|vm_compute; reflexivity].
  exact (proj1 (@Apply_commits "/data" sample_reads sample_visits sample_visits_all sample_reads_live
    sample_manifest sample_world _ _ (surjective_pairing sample_result))).
Defined.

(** C21: When no call of the system fails by itself, an error of [Apply] is an unsafe name,
    a manifest without profiles or a failed reload; it leaves the live directory as it
    was, and the staging directory is gone in any case; a success also removes the
    parked tree. *)
Theorem Apply_clean dataDir sources visit `{!VisitsAll visit} m w w' e :
  faults w = [] -> is_text_at (disk w) [] = false ->
  (disk w !! live = None -> forall q, disk w !! (live ++ q) = None) ->
  Apply dataDir sources visit m w = (w', e) ->
  (forall q, disk w' !! (staging ++ q) = None)
  /\ match e with
     | None => forall q, disk w' !! (prev ++ q) = None
     | Some err =>
         (forall q, disk w' !! (live ++ q) = disk w !! (live ++ q))
         /\ match err with
            | EUnsafe n => safeName n = false
            | EPromote _ => m_Profiles m = ∅
            | EReload _ => True
            | _ => False
            end
     end.
Proof. by apply Apply_settles. Qed.

Definition sample_unsafe : Manifest :=
  {| m_V := 1; m_Rev := 3; ConfigHash := "sha256:00"; m_Settings := None; m_Data := ∅;
     m_Profiles := {["../x" := {| Files := [] |}]} |}.

Lemma Apply_clean_witness :
  let r := Apply "/data" sample_reads sample_visits sample_unsafe sample_world in
  r.2 = Some (EUnsafe "../x") /\ disk r.1 !! [TreeDir; "default"; "old.conf"] = Some (Text "old")
  /\ forall q, disk r.1 !! (staging ++ q) = None.
Proof.
  split; [vm_compute; reflexivity|]. split; [vm_compute; reflexivity|].
  refine (proj1 (@Apply_clean "/data" sample_reads sample_visits sample_visits_all sample_unsafe
    sample_world _ _ (reflexivity _) _ _ (surjective_pairing _))).
  - vm_compute. reflexivity.
  - intros H. exfalso. revert H. vm_compute. discriminate.
Defined.
