(* ===== verification/Watch.v ===== *)
(** * Watching for packs: [internal/desired/watch.go], [settings.go]

    The goroutine of [Watch] waits for three things: an entry of the key-value
    store, the end of the timer it armed, and the end of the process. [step] is one
    round of its loop; [Served] stands for the requests the message handler selects
    profiles for, which share the registry. What the store answers, which calls of
    the system fail and in which order the maps are visited is part of each event.
    The lines written to the log are kept, because the code reports there what
    became of each pack. *)

From S2P Require Import Prelude GoString PriorRules Policy Body Rules Pack Deploy.
From stdpp Require Import options.

Local Open Scope Z_scope.

Definition ApplyOK : string := "ok".
Definition ApplyFailed : string := "apply_failed".

(** [Names] of a manifest. *)
Definition Names (m : Manifest) : list string := sort_Strings (map_to_list (m_Profiles m)).*1.

Record Applied := { hash : string; rev : Z; apply : string; names : list string }.

Inductive LogLine :=
| FetchFailedLine (r : Z) (h : string) (e : PackError)
| ExpandFailedLine (r : Z) (h : string) (e : PackError)
| ApplyFailedLine (r : Z) (h : string) (e : ApplyError)
| AppliedLine (r : Z) (h : string) (profiles : list string)
| RejectedLine (e : PackError)
| LevelLine (l : Z).

(** The variables of the goroutine, what it shares, and the level of the log, which
    may be missing. *)
Record Watcher := {
  applied : Applied; pending : option Pack; retry : bool;
  world : World; level_var : option Z; log : list LogLine }.

(** What happens around one round of the loop. *)
Record Env := {
  e_mget : list string -> option (list mval);
  e_faults : list fault;
  e_fetch : Visits; e_expand : Visits; e_apply : Visits }.

Inductive event :=
| Tick (env : Env)                   (* [<-retry] *)
| Entry (env : Env) (raw : string)   (* an update of the key *)
| Marker                             (* a delete or a purge *)
| Synced                             (* a nil entry: the end of the history *)
| Served (name : string).            (* a request for the profile [name] *)

Section watch.
Context (crypto : Crypto) (dataDir : string).
Context (sources : gmap (list string) node -> Rules.Sources).
Context (unmarshal : string -> option Pack) (level_of : string -> option Z).

(** [apply] of the settings. *)
Definition apply_settings (s : option Settings) (w : Watcher) : Watcher :=
  match s, level_var w with
  | Some s, Some l =>
      if l =? level s then w
      else {| applied := applied w; pending := pending w; retry := retry w; world := world w;
              level_var := Some (level s); log := log w ++ [LevelLine (level s)] |}
  | _, _ => w
  end.

Definition set_applied (a : Applied) (line : LogLine) (w : Watcher) : Watcher :=
  {| applied := a; pending := pending w; retry := retry w; world := world w;
     level_var := level_var w; log := log w ++ [line] |}.

Definition set_world (wd : World) (w : Watcher) : Watcher :=
  {| applied := applied w; pending := pending w; retry := retry w; world := wd;
     level_var := level_var w; log := log w |}.

Definition set_pending (p : option Pack) (r : bool) (w : Watcher) : Watcher :=
  {| applied := applied w; pending := p; retry := r; world := world w;
     level_var := level_var w; log := log w |}.

(** [applied.set] after a failure: the hash and the revision stay. *)
Definition failed (w : Watcher) : Applied :=
  {| hash := hash (applied w); rev := rev (applied w); apply := ApplyFailed;
     names := Names_ (current (reg (world w))) |}.

Definition with_faults (env : Env) (w : World) : World :=
  {| disk := disk w; faults := e_faults env; reg := reg w |}.

(** The closure [handle]: whether the pack is to be tried again. *)
Definition handle (env : Env) (p : Pack) (w : Watcher) : run (Watcher * bool) :=
  let a := applied w in
  if str_eqb (apply a) ApplyOK && str_eqb (hash a) (p_SHA256 p) && (rev a =? p_Rev p)
  then Done (w, false)
  else
    blobs ← FetchBlobs crypto (e_fetch env) (e_mget env) p;
    match blobs with
    | Err e => Done (set_applied (failed w) (FetchFailedLine (p_Rev p) (p_SHA256 p) e) w, true)
    | Ok blobs =>
        match Expand (e_expand env) p blobs with
        | Err e =>
            Done (set_applied (failed w) (ExpandFailedLine (p_Rev p) (p_SHA256 p) e) w, false)
        | Ok m =>
            match Apply dataDir sources (e_apply env) m (with_faults env (world w)) with
            | (wd, Some e) =>
                let w := set_world wd w in
                Done (set_applied (failed w) (ApplyFailedLine (p_Rev p) (p_SHA256 p) e) w, false)
            | (wd, None) =>
                let w := apply_settings (m_Settings m) (set_world wd w) in
                Done (set_applied {| hash := p_SHA256 p; rev := p_Rev p; apply := ApplyOK;
                                     names := Names m |}
                                  (AppliedLine (p_Rev p) (p_SHA256 p) (Names m)) w, false)
            end
        end
    end.

(** One round of the loop. Without an armed timer no [Tick] is received. *)
Definition step (ev : event) (w : Watcher) : run Watcher :=
  match ev with
  | Tick env =>
      if negb (retry w) then Done w
      else
        let w := set_pending (pending w) false w in
        match pending w with
        | None => Done w
        | Some p =>
            '(w, again) ← handle env p w;
            Done (if (again : bool) then set_pending (Some p) true w else set_pending None false w)
        end
  | Entry env raw =>
      match ParsePack unmarshal level_of raw with
      | Err e => Done (set_applied (applied w) (RejectedLine e) w)
      | Ok p =>
          '(w, again) ← handle env p (set_pending None false w);
          Done (if (again : bool) then set_pending (Some p) true w else w)
      end
  | Marker | Synced => Done w
  | Served name =>
      Done (set_world (set_reg (Select name (reg (world w))).2 (world w)) w)
  end.

Fixpoint rounds (evs : list event) (w : Watcher) : run Watcher :=
  match evs with
  | [] => Done w
  | ev :: evs => w ← step ev w; rounds evs w
  end.

(** [Watch] before the goroutine starts; the registry and the files are those the
    process started with. *)
Definition Watch (wd : World) (level : option Z) : Watcher :=
  {| applied := {| hash := ""; rev := 0; apply := ""; names := [] |};
     pending := None; retry := false; world := wd; level_var := level; log := [] |}.
End watch.

(** ** Specification *)

(** The store answers every key it is asked for, or not at all, and the loops over
    maps visit every entry. *)
Class good_env (env : Env) : Prop := {
  g_mget : answers_all (e_mget env);
  g_fetch :: VisitsAll (e_fetch env);
  g_expand :: VisitsAll (e_expand env);
  g_apply :: VisitsAll (e_apply env) }.

Definition good_event (ev : event) : Prop :=
  match ev with Tick env | Entry env _ => good_env env | _ => True end.

Definition no_faults (ev : event) : Prop :=
  match ev with Tick env | Entry env _ => e_faults env = [] | _ => True end.

Section spec.
Context (crypto : Crypto) (dataDir : string).
Context (sources : gmap (list string) node -> Rules.Sources).
Context (unmarshal : string -> option Pack) (level_of : string -> option Z).

Definition accepted (ev : event) : option Pack :=
  match ev with
  | Entry _ raw => match ParsePack unmarshal level_of raw with Ok p => Some p | Err _ => None end
  | _ => None
  end.

(** What the replica reports is what it runs: the hash and the revision are those of
    [p], the live directory holds exactly the tree of the manifest of [p], and the
    registry was loaded from it. *)
Record in_force (p : Pack) (m : Manifest) (w : Watcher) : Prop := {
  i_hash : hash (applied w) = p_SHA256 p;
  i_rev : rev (applied w) = p_Rev p;
  i_delivers : delivers crypto p m;
  i_live : forall q, disk (world w) !! (live ++ q) = written dataDir (m_Data m) (m_Profiles m) q;
  i_dir : dir (reg (world w)) = dataDir;
  i_current : build (sources (disk (world w))) dataDir = Ok (current (reg (world w))) }.

Definition level_follows (m : Manifest) (w : Watcher) : Prop :=
  match m_Settings m with
  | Some s => level_var w = None \/ level_var w = Some (level s)
  | None => True
  end.

(** The pack got through to the expansion or to the files, and was refused there. *)
Definition refused (p : Pack) (w : Watcher) : Prop :=
  exists line, line ∈ log w /\ ((exists e, line = ExpandFailedLine (p_Rev p) (p_SHA256 p) e)
                              \/ (exists e, line = ApplyFailedLine (p_Rev p) (p_SHA256 p) e)).

(** What has become of the newest pack. *)
Definition settled (newest : option Pack) (w : Watcher) : Prop :=
  retry w = is_some (pending w)
  /\ match newest with
     | None => pending w = None /\ apply (applied w) = ""
     | Some p =>
         (apply (applied w) = ApplyOK /\ hash (applied w) = p_SHA256 p
          /\ rev (applied w) = p_Rev p /\ pending w = None)
         \/ (apply (applied w) = ApplyFailed /\ pending w = Some p)
         \/ (apply (applied w) = ApplyFailed /\ pending w = None /\ refused p w)
     end.

Definition newest (last : option Pack) (evs : list event) : option Pack :=
  fold_left (fun last ev => match accepted ev with Some p => Some p | None => last end) evs last.

(** ** Lemmas *)

(** The five outcomes of [handle]. *)
Inductive handled (env : Env) (p : Pack) (w : Watcher) : Watcher -> bool -> Prop :=
| h_skip : apply (applied w) = ApplyOK -> hash (applied w) = p_SHA256 p ->
    rev (applied w) = p_Rev p -> handled env p w w false
| h_fetch e : handled env p w
    (set_applied (failed w) (FetchFailedLine (p_Rev p) (p_SHA256 p) e) w) true
| h_expand e : handled env p w
    (set_applied (failed w) (ExpandFailedLine (p_Rev p) (p_SHA256 p) e) w) false
| h_apply m wd e : delivers crypto p m ->
    Apply dataDir sources (e_apply env) m (with_faults env (world w)) = (wd, Some e) ->
    handled env p w (set_applied (failed (set_world wd w))
      (ApplyFailedLine (p_Rev p) (p_SHA256 p) e) (set_world wd w)) false
| h_ok m wd : delivers crypto p m ->
    Apply dataDir sources (e_apply env) m (with_faults env (world w)) = (wd, None) ->
    handled env p w
      (set_applied {| hash := p_SHA256 p; rev := p_Rev p; apply := ApplyOK; names := Names m |}
         (AppliedLine (p_Rev p) (p_SHA256 p) (Names m))
         (apply_settings (m_Settings m) (set_world wd w))) false.

Lemma handle_cases env p w :
  good_env env ->
  exists w' again, handle crypto dataDir sources env p w = Done (w', again)
                   /\ handled env p w w' again.
Proof.
  intros Hg. unfold handle. cbv zeta. destruct (_ && _) eqn:E.
  { bool_prop. do 2 eexists. split; [done|].
    apply h_skip; [by apply str_eqb_true..|lia]. }
  pose proof (FetchBlobs_ok crypto (e_fetch env) (e_mget env) p g_mget) as Hf.
  destruct (FetchBlobs crypto (e_fetch env) (e_mget env) p) as [[blobs|err]|]; [| |done]; simpl.
  - destruct (Expand (e_expand env) p blobs) as [m|err] eqn:Ee.
    + apply (Expand_delivers crypto) in Ee; [|done|apply Hg].
      destruct (Apply _ _ _ m _) as [wd [e|]] eqn:Ea.
      * do 2 eexists. split; [done|]. by eapply h_apply.
      * do 2 eexists. split; [done|]. by eapply h_ok.
    + do 2 eexists. split; [done|]. apply h_expand.
  - do 2 eexists. split; [done|]. apply h_fetch.
Qed.

(** What the rounds of the loop keep, an event at a time. *)
Lemma rounds_keep (I : Watcher -> Prop) (Q : event -> Prop) evs w :
  (forall ev w, Q ev -> I w ->
     exists w', step crypto dataDir sources unmarshal level_of ev w = Done w' /\ I w') ->
  Forall Q evs -> I w ->
  exists w', rounds crypto dataDir sources unmarshal level_of evs w = Done w' /\ I w'.
Proof using.
  intros Hs Hq. revert w. induction Hq as [|ev evs Hev Hevs IH]; intros w Hw; [by exists w|].
  destruct (Hs _ _ Hev Hw) as (w1 & E1 & H1). simpl. rewrite E1. by apply IH.
Qed.

Lemma handled_pending env p w w' again q r :
  handled env p w w' again ->
  handled env p (set_pending q r w) (set_pending q r w') again.
Proof using.
  destruct 1.
  - by apply h_skip.
  - apply (h_fetch env p (set_pending q r w) e).
  - apply (h_expand env p (set_pending q r w) e).
  - by apply (h_apply env p (set_pending q r w) m wd e).
  - pose proof (h_ok env p (set_pending q r w) m wd) as H1.
    unfold apply_settings in *. simpl in *.
    destruct (m_Settings m) as [s|], (level_var w) as [l|]; try by apply H1.
    destruct (l =? level s); by apply H1.
Qed.

Lemma handled_keeps_pending env p w w' again :
  handled env p w w' again -> set_pending (pending w) (retry w) w' = w'.
Proof using.
  destruct 1; try (by destruct w). unfold apply_settings. simpl.
  destruct (m_Settings m) as [s|], (level_var w) as [l|]; try done. by destruct (l =? level s).
Qed.

(** The rounds: one that leaves everything, one of the message handler, one that
    rejects an entry, and those that handle a pack with the timer off, and arm it when
    the pack is to be tried again. *)
Lemma step_cases (I : Watcher -> Prop) ev w :
  good_event ev -> (retry w = true -> pending w <> None) ->
  (accepted ev = None -> I w) ->
  (forall r, accepted ev = None -> current r = current (reg (world w)) -> dir r = dir (reg (world w)) ->
     I (set_world (set_reg r (world w)) w)) ->
  (forall e, accepted ev = None -> I (set_applied (applied w) (RejectedLine e) w)) ->
  (forall env p w' again, good_env env -> (no_faults ev -> e_faults env = []) ->
     (accepted ev = Some p \/ accepted ev = None /\ pending w = Some p) ->
     handled env p (set_pending None false w) w' again ->
     I (if again : bool then set_pending (Some p) true w' else w')) ->
  exists w', step crypto dataDir sources unmarshal level_of ev w = Done w' /\ I w'.
Proof using.
  intros Hg Hr Hw Hserved Hline Hh. destruct ev as [env|env raw| | |name]; simpl in *;
    try (by eexists; split; [reflexivity|auto]).
  - destruct (retry w) eqn:Er; simpl; [|exists w; by auto]. destruct (pending w) as [p|] eqn:Ep;
      [|by destruct Hr].
    destruct (handle_cases env p (set_pending (Some p) false w) Hg) as (w' & again & -> & H).
    simpl. eexists. split; [done|]. apply (handled_pending _ _ _ _ _ None false) in H.
    specialize (Hh env p (set_pending None false w') again). simpl in Hh.
    destruct again; apply Hh; auto.
  - destruct (ParsePack unmarshal level_of raw) as [p|e] eqn:Ep; [|eexists; split; by auto].
    destruct (handle_cases env p (set_pending None false w) Hg) as (w' & again & -> & H).
    simpl. eexists. split; [done|]. apply Hh with env; auto.
  - eexists. split; [done|]. apply Hserved; [done|unfold Select; by case_match..].
Qed.

Lemma log_last a line w : line ∈ log (set_applied a line w).
Proof using. simpl. apply list_elem_of_In, in_or_app. right. by left. Qed.

Lemma settled_step last ev w :
  good_event ev -> settled last w ->
  exists w', step crypto dataDir sources unmarshal level_of ev w = Done w'
             /\ settled (newest last [ev]) w'.
Proof using.
  intros Hg [Hr Hw]. unfold newest. simpl.
  apply step_cases; [done| |intros ->|intros r ->|intros e ->|].
  - rewrite Hr. by destruct (pending w).
  - done.
  - intros _ _. split; [done|]. destruct last; exact Hw.
  - split; [done|]. destruct last as [p|]; [|exact Hw].
    destruct Hw as [Hw|[Hw|(Ha & Hn & line & Hin & Hl)]]; [by left|by right; left|].
    do 2 right. split_and!; [done..|]. exists line. split; [|done]. simpl. set_solver.
  - intros env p w' again _ _ Hp Hh.
    assert (match accepted ev with Some p => Some p | None => last end = Some p) as ->.
    { destruct Hp as [->|[-> Hp]]; [done|]. destruct last as [p'|]; [|naive_solver congruence].
      destruct Hw as [Hw|[Hw|Hw]]; naive_solver congruence. }
    destruct again.
    + split; [done|]. inversion Hh; subst. right. left. done.
    + pose proof (handled_keeps_pending _ _ _ _ _ Hh) as Hk.
      assert (pending w' = None /\ retry w' = false) as [Hn Hf] by (by rewrite <- Hk).
      split; [by rewrite Hf, Hn|]. inversion Hh; subst.
      * by left.
      * do 2 right. split_and!; [done..|]. eexists. split; [apply log_last|eauto].
      * do 2 right. split_and!; [done..|]. eexists. split; [apply log_last|eauto].
      * by left.
Qed.

Definition reported (P : Pack -> Prop) (w : Watcher) : Prop :=
  (retry w = true -> pending w <> None) /\ (forall p, pending w = Some p -> P p)
  /\ (apply (applied w) = ApplyOK ->
      exists p m, P p /\ in_force p m w /\ names (applied w) = Names m /\ level_follows m w).

Lemma apply_settings_world s w : world (apply_settings s w) = world w.
Proof using. unfold apply_settings. by repeat case_match. Qed.

Lemma level_applied m w a line :
  level_follows m (set_applied a line (apply_settings (m_Settings m) w)).
Proof using.
  unfold level_follows, apply_settings. destruct (m_Settings m) as [s|]; [|done].
  destruct (level_var w) as [l|] eqn:E; [|by left]. right.
  destruct (l =? level s) eqn:El; simpl; [|done]. rewrite E. f_equal. lia.
Qed.

Lemma in_force_applied `{!ReadsLive dataDir sources} env p m w wd names :
  good_env env -> delivers crypto p m ->
  Apply dataDir sources (e_apply env) m (with_faults env (world w)) = (wd, None) ->
  in_force p m
    (set_applied {| hash := p_SHA256 p; rev := p_Rev p; apply := ApplyOK; names := names |}
       (AppliedLine (p_Rev p) (p_SHA256 p) names) (apply_settings (m_Settings m) (set_world wd w))).
Proof using.
  intros Hg Hd Ha.
  pose proof (Apply_swaps dataDir sources (e_apply env) m _ _ _ Ha) as [[Hl Hr] _].
  apply res_bind_ok in Hr as (s & Hb & [= Hs]).
  split; try done; simpl; rewrite apply_settings_world; simpl; rewrite <- ?Hs; done.
Qed.

Lemma reported_step (P : Pack -> Prop) `{!ReadsLive dataDir sources} ev w :
  good_event ev /\ (forall p, accepted ev = Some p -> P p) -> reported P w ->
  exists w', step crypto dataDir sources unmarshal level_of ev w = Done w' /\ reported P w'.
Proof using.
  intros [Hg HP] (Hr & Hpend & Hok). apply step_cases; [done|done| | | |].
  - done.
  - intros r _ Hc Hd. split_and!; [done..|]. intros Ha.
    destruct (Hok Ha) as (p & m & Hp & [] & Hn & Hl). exists p, m. split_and!; [done| |done|done].
    split; simpl; try done; congruence.
  - intros e _. split_and!; [done..|]. intros Ha.
    destruct (Hok Ha) as (p & m & Hp & [] & Hn & Hl). exists p, m. by split_and!.
  - intros env p w' again He _ Hp Hh.
    assert (P p) as HPp by (destruct Hp as [Hp|[_ Hp]]; eauto).
    destruct again.
    { split_and!; [done|by intros ? [= <-]|]. inversion Hh; subst. done. }
    pose proof (handled_keeps_pending _ _ _ _ _ Hh) as Hk.
    assert (pending w' = None /\ retry w' = false) as [Hn Hf] by (by rewrite <- Hk).
    unfold reported. rewrite Hn, Hf. split_and!; [done..|]. inversion Hh; subst; try done.
    + intros _. simpl in *. destruct Hok as (q & m & Hq & [] & Hl & Hv); [done|].
      exists q, m. by split_and!.
    + intros _. exists p, m. split; [done|]. split; [by eapply in_force_applied|].
      split; [done|apply level_applied].
Qed.

(** *** Without failing calls *)

Lemma build_live `{!ReadsLive dataDir sources} d1 d2 :
  (forall q, d1 !! (live ++ q) = d2 !! (live ++ q)) ->
  build (sources d1) dataDir = build (sources d2) dataDir.
Proof using.
  intros H. pose proof (reads_live d1 d2 {| dir := ""; current := ∅; unknown := ∅ |} H) as Hr.
  unfold ReloadFrom in Hr. destruct (build (sources d1) dataDir), (build (sources d2) dataDir);
    simpl in Hr; congruence.
Qed.

(** What an application that fails leaves in force. *)
Lemma in_force_kept `{!ReadsLive dataDir sources} env p m w m' wd e a line :
  good_env env -> in_force p m w -> hash a = hash (applied w) -> rev a = rev (applied w) ->
  Apply dataDir sources (e_apply env) m' (with_faults env (world w)) = (wd, Some e) ->
  (forall q, disk wd !! (live ++ q) = disk (world w) !! (live ++ q)) ->
  in_force p m (set_applied a line (set_world wd w)).
Proof using.
  intros Hg [H1 H2 H3 H4 H5 H6] Ea Er Ha Hlive.
  pose proof (Apply_swaps dataDir sources (e_apply env) m' _ _ _ Ha) as [Hs _].
  assert (dir (reg wd) = dataDir /\ Ok (E := BuildError) (current (reg wd)) = Ok (current (reg (world w))))
    as [Hd Hc].
  { destruct e; simpl in Hs; try (rewrite Hs; done).
    destruct Hs as [_ [Hs|(d & Hdq & Hs)]]; [rewrite Hs; done|].
    unfold ReloadFrom in Hs. rewrite (build_live _ (disk (world w))), H6 in Hs by done.
    injection Hs as <-. done. }
  split; simpl; try congruence.
  - intros q. etrans; [apply Hlive|apply H4].
  - rewrite (build_live _ (disk (world w))) by done. congruence.
Qed.

Definition live_shape (d : gmap (list string) node) : Prop :=
  d !! live = None -> forall q, d !! (live ++ q) = None.

(** [tree] is the live directory the process started with. *)
Definition runs_reported (P : Pack -> Prop) (tree : list string -> option node) (w : Watcher) : Prop :=
  (hash (applied w) = "" /\ rev (applied w) = 0
   /\ forall q, disk (world w) !! (live ++ q) = tree q)
  \/ exists p m, P p /\ in_force p m w.

Lemma runs_reported_shape P tree w :
  (tree [] = None -> forall q, tree q = None) -> runs_reported P tree w ->
  live_shape (disk (world w)).
Proof using.
  intros Ht [(_ & _ & H)|(p & m & _ & [])] Hl q.
  - rewrite H. apply Ht. by rewrite <- H.
  - specialize (i_live0 []). rewrite app_nil_r, Hl in i_live0. discriminate i_live0.
Qed.

Lemma runs_reported_same P tree w w' :
  hash (applied w') = hash (applied w) -> rev (applied w') = rev (applied w) ->
  world w' = world w -> runs_reported P tree w -> runs_reported P tree w'.
Proof using.
  intros H1 H2 H3 [(Hh & Hv & Hl)|(p & m & Hp & [])]; [left|right; exists p, m; split; [done|split]];
    rewrite ?H1, ?H2, ?H3; done.
Qed.

Definition runs_inv (P : Pack -> Prop) (tree : list string -> option node) (w : Watcher) : Prop :=
  (retry w = true -> pending w <> None) /\ (forall p, pending w = Some p -> P p)
  /\ is_text_at (disk (world w)) [] = false /\ runs_reported P tree w.

Lemma runs_step (P : Pack -> Prop) tree `{!ReadsLive dataDir sources} ev w :
  (tree [] = None -> forall q, tree q = None) ->
  good_event ev /\ no_faults ev /\ (forall p, accepted ev = Some p -> P p) -> runs_inv P tree w ->
  exists w', step crypto dataDir sources unmarshal level_of ev w = Done w' /\ runs_inv P tree w'.
Proof using.
  intros Ht (Hg & Hf & HP) (Hr & Hpend & Hroot & Hw). apply step_cases; [done|done|done| | |].
  - intros r _ Hc Hd. split_and!; [done..|]. destruct Hw as [Hw|(p & m & Hp & [])]; [by left|].
    right. exists p, m. split; [done|]. split; simpl; try done; congruence.
  - intros e _. split_and!; [done..|by apply (runs_reported_same P tree w)].
  - intros env p w' again He Hef Hp Hh.
    assert (P p) as HPp by (destruct Hp as [Hp|[_ Hp]]; eauto).
    assert (is_text_at (disk (world w')) [] = false /\ runs_reported P tree w') as [Hroot' Hw'].
    { destruct Hh as [| | |m wd e Hd Ha|m wd Hd Ha].
      1-3: by split; [|apply (runs_reported_same P tree w)].
      all: pose proof (Apply_root dataDir sources (e_apply env) m (with_faults env (world w)) Hroot)
        as Hroot'; simpl in Ha; rewrite Ha in Hroot'; simpl in Hroot'.
      - split; [done|]. destruct (Apply_settles dataDir sources (e_apply env) m
          (with_faults env (world w)) _ _ (Hef Hf) Hroot (runs_reported_shape P tree w Ht Hw) Ha) as [_ [Hlive _]].
        destruct Hw as [(H1 & H2 & H3)|(q & n & Hq & Hn)].
        + left. split_and!; [done..|]. intros x. etrans; [apply Hlive|apply H3].
        + right. exists q, n. split; [done|].
          apply (in_force_kept env q n (set_pending None false w) m wd e); try done.
          by destruct Hn; split.
      - split; [simpl; by rewrite apply_settings_world|].
        right. exists p, m. split; [done|by apply (in_force_applied env)]. }
    destruct again.
    { split_and!; [done|by intros ? [= <-]|done|by apply (runs_reported_same P tree w')]. }
    pose proof (handled_keeps_pending _ _ _ _ _ Hh) as Hk.
    assert (pending w' = None /\ retry w' = false) as [Hn Hfl] by (by rewrite <- Hk).
    unfold runs_inv. rewrite Hn, Hfl. by split_and!.
Qed.
End spec.

(** ** Sample *)

Definition sample_env (mget : list string -> option (list mval)) : Env :=
  {| e_mget := mget; e_faults := []; e_fetch := sample_visits; e_expand := sample_visits;
     e_apply := sample_visits |}.

Lemma sample_env_good mget : answers_all mget -> good_env (sample_env mget).
Proof. intros H. split; [done|apply sample_visits_all..]. Qed.

Definition sample_unmarshal (raw : string) : option Pack :=
  if str_eqb raw "pack" then Some sample_pack else None.

(** An entry that is no pack, a pack while the store does not answer, and the retry. *)
Definition sample_events : list event :=
  [Synced; Entry (sample_env sample_mget) "x"; Entry (sample_env (fun _ => None)) "pack";
   Served "ghost"; Tick (sample_env sample_mget)].

Lemma sample_events_good : Forall good_event sample_events.
Proof.
  assert (answers_all sample_mget) as H1 by (intros ks vals [= <-]; apply length_fmap).
  assert (answers_all (fun _ => None)) as H2 by by intros ks vals.
  repeat (apply list.Forall_cons; split); simpl; try done; try (by apply sample_env_good).
Qed.

Definition sample_run (evs : list event) : run Watcher :=
  rounds sample_crypto "/data" sample_reads sample_unmarshal (fun _ => None) evs
    (Watch sample_world (Some 0)).

(** ** Properties *)

(** C8: Whatever the store answers and whatever calls fail, the goroutine does not panic,
    and while the replica reports success it runs what it reports: a pack that was
    accepted, under its hash and revision, with every text under the hash the pack
    gives it; its tree and no other file is in the live directory; the registry was
    loaded from that tree; the names and the level of the log are those of the pack. *)
Theorem snapshot_true crypto dataDir sources unmarshal level_of `{!ReadsLive dataDir sources}
    evs wd lvl (Hg : Forall good_event evs) :
  exists w, rounds crypto dataDir sources unmarshal level_of evs (Watch wd lvl) = Done w
  /\ (apply (applied w) = ApplyOK ->
      exists ev p m, ev ∈ evs /\ accepted unmarshal level_of ev = Some p
        /\ in_force crypto dataDir sources p m w
        /\ names (applied w) = Names m /\ level_follows m w).
Proof.
  set (P p := exists ev, ev ∈ evs /\ accepted unmarshal level_of ev = Some p).
  destruct (rounds_keep crypto dataDir sources unmarshal level_of (reported crypto dataDir sources P)
    (fun ev => good_event ev /\ forall p, accepted unmarshal level_of ev = Some p -> P p)
    evs (Watch wd lvl)) as (w & E & _ & _ & Hok).
  - intros ev w. by apply reported_step.
  - apply list.Forall_forall. intros ev Hev.
    split; [by eapply list.Forall_forall|]. intros p Hp. by exists ev.
  - done.
  - exists w. split; [done|]. intros Ha.
    destruct (Hok Ha) as (p & m & (ev & Hev & Hp) & Hi & Hn & Hl). by exists ev, p, m.
Qed.

Lemma snapshot_true_witness :
  exists w, sample_run sample_events = Done w /\ apply (applied w) = ApplyOK
  /\ exists p m, in_force sample_crypto "/data" sample_reads p m w /\ names (applied w) = ["default"].
Proof.
  destruct (@snapshot_true sample_crypto "/data" sample_reads sample_unmarshal (fun _ => None)
    sample_reads_live sample_events sample_world (Some 0) sample_events_good) as (w & E & H).
  exists w. split; [exact E|].
  assert (match sample_run sample_events with
          | Done w => apply (applied w) = ApplyOK /\ names (applied w) = ["default"]
          | Panic => False end) as Hc by (vm_compute; split; reflexivity).
  unfold sample_run in Hc. rewrite E in Hc. destruct Hc as [Ha Hn]. split; [exact Ha|].
  destruct (H Ha) as (_ & p & m & _ & _ & Hi & _). exists p, m. split; [exact Hi|exact Hn].
Defined.

(** C9: The newest pack is never forgotten, and no older one replaces it: after any
    events the newest accepted pack is the one reported as applied, or it is pending
    with the timer armed because the store failed, or it was refused for good and the
    log says so; the timer is armed exactly while a pack is pending. *)
Theorem newest_settles crypto dataDir sources unmarshal level_of evs wd lvl
    (Hg : Forall good_event evs) :
  exists w, rounds crypto dataDir sources unmarshal level_of evs (Watch wd lvl) = Done w
  /\ settled (newest unmarshal level_of None evs) w.
Proof.
  assert (settled None (Watch wd lvl)) as Hw by done. revert Hw.
  generalize (Watch wd lvl), (@None Pack). clear wd lvl.
  induction Hg as [|ev evs Hev _ IH]; intros w last Hw; [by exists w|].
  destruct (settled_step crypto dataDir sources unmarshal level_of last ev w Hev Hw)
    as (w1 & E1 & H1). simpl. rewrite E1. by apply IH.
Qed.

Lemma newest_settles_witness :
  exists w, sample_run (firstn 4%nat sample_events) = Done w
  /\ pending w = Some (default sample_pack (newest sample_unmarshal (fun _ => None) None (firstn 4%nat sample_events)))
  /\ retry w = true /\ settled (newest sample_unmarshal (fun _ => None) None (firstn 4%nat sample_events)) w.
Proof.
  destruct (newest_settles sample_crypto "/data" sample_reads sample_unmarshal (fun _ => None)
    (firstn 4%nat sample_events) sample_world (Some 0)
    (list.Forall_take _ 4%nat _ sample_events_good)) as (w & E & H).
  exists w. split; [exact E|].
  assert (match sample_run (firstn 4%nat sample_events) with
          | Done w => apply (applied w) = ApplyFailed /\ retry w = true
          | Panic => False end) as Hc by (vm_compute; split; reflexivity).
  unfold sample_run in Hc. rewrite E in Hc. destruct Hc as [Ha Hr].
  split; [|split; [exact Hr|exact H]]. revert H. vm_compute (newest _ _ _ _).
  intros [Hr2 [[H _]|[[_ H]|[_ [H _]]]]].
  - rewrite Ha in H. discriminate H.
  - exact H.
  - rewrite Hr, H in Hr2. discriminate Hr2.
Defined.

(** C11: When no call of the system fails by itself, the replica always runs what it
    reports, also after a pack that failed: the hash and the revision are those of an
    accepted pack whose tree is the live directory and the source of the registry;
    before the first success they are empty and the live directory is as it was. *)
Theorem runs_what_it_reports crypto dataDir sources unmarshal level_of
    `{!ReadsLive dataDir sources} evs wd lvl
    (Hg : Forall good_event evs) (Hf : Forall no_faults evs)
    (Hroot : is_text_at (disk wd) [] = false) (Hlive : live_shape (disk wd)) :
  exists w, rounds crypto dataDir sources unmarshal level_of evs (Watch wd lvl) = Done w
  /\ runs_reported crypto dataDir sources
       (fun p => exists ev, ev ∈ evs /\ accepted unmarshal level_of ev = Some p)
       (fun q => disk wd !! (live ++ q)) w.
Proof.
  set (P p := exists ev, ev ∈ evs /\ accepted unmarshal level_of ev = Some p).
  set (tree q := disk wd !! (live ++ q)).
  destruct (rounds_keep crypto dataDir sources unmarshal level_of
    (runs_inv crypto dataDir sources P tree)
    (fun ev => good_event ev /\ no_faults ev
               /\ forall p, accepted unmarshal level_of ev = Some p -> P p)
    evs (Watch wd lvl)) as (w & E & _ & _ & _ & H).
  - intros ev w. by apply (runs_step crypto dataDir sources unmarshal level_of P tree ev w Hlive).
  - apply list.Forall_forall. intros ev Hev. split; [by eapply list.Forall_forall|].
    split; [by eapply list.Forall_forall|]. intros p Hp. by exists ev.
  - split_and!; [done..|]. by left.
  - by exists w.
Qed.

Lemma runs_what_it_reports_witness :
  exists w, sample_run (sample_events ++ [Entry (sample_env sample_mget) "y"]) = Done w
  /\ hash (applied w) = p_SHA256 sample_pack
  /\ exists p m, in_force sample_crypto "/data" sample_reads p m w.
Proof.
  destruct (@runs_what_it_reports sample_crypto "/data" sample_reads sample_unmarshal (fun _ => None)
    sample_reads_live (sample_events ++ [Entry (sample_env sample_mget) "y"]) sample_world (Some 0))
    as (w & E & H).
  - apply list.Forall_app. split; [exact sample_events_good|].
    constructor; [|constructor]. apply sample_env_good. intros ks vals [= <-]. apply length_fmap.
  - repeat constructor.
  - vm_compute. reflexivity.
  - intros Hn. exfalso. revert Hn. vm_compute. discriminate.
  - exists w. split; [exact E|].
    assert (match sample_run (sample_events ++ [Entry (sample_env sample_mget) "y"]) with
            | Done w => hash (applied w) = p_SHA256 sample_pack
            | Panic => False end) as Hc by (vm_compute; reflexivity).
    unfold sample_run in Hc. rewrite E in Hc. split; [exact Hc|].
    destruct H as [[H _]|(p & m & _ & H)]; [rewrite Hc in H; discriminate H|by exists p, m].
Defined.
