(* ===== verification/Coraza.v ===== *)
(** * The engine adapter: [internal/engine/coraza/coraza.go]

    The rule engine itself is a library. [WAF] is what the adapter sees of it: the
    answers of a transaction of the library, each a function of the calls the
    transaction has received. [New] wraps it into the interface [Engine] that the
    rest of the program uses ([Apply.v]): interruptions become interventions,
    matches are described by the place they were found in, and the anomaly score is
    read from the variables of the transaction. The theorems carry the wrapping
    through to the verdict ([Verdict.v]). *)

From S2P Require Import Prelude GoString Protocol Engine Apply Policy Verdict.
From stdpp Require Import options.

Local Open Scope Z_scope.

(** ** What the library answers *)

(** [types.Interruption] *)
Record Interruption := {
  it_RuleID : Z; it_Action : string; it_Status : Z; it_Data : string }.

(** [types.MatchData]: the name of the variable and the key. *)
Record MatchData := { d_Variable : string; d_Key : string }.

(** [types.MatchedRule] with its rule. *)
Record RuleMatch := {
  r_ID : Z; r_Phase : Z; r_Severity : string; r_Tags : list string;
  m_Message : string; m_Data : string; m_Datas : list MatchData }.

(** [vars] is the collection TX, if the transaction shows its variables; a body call
    returns an interruption and an error, either of which may be missing. *)
Record WAF := {
  w_RequestHeaders : Tx -> option Interruption;
  w_WriteRequestBody : Tx -> option string;
  w_RequestBody : Tx -> option Interruption * option string;
  w_ResponseHeaders : Tx -> option Interruption;
  w_WriteResponseBody : Tx -> option string;
  w_ResponseBody : Tx -> option Interruption * option string;
  w_Matched : Tx -> list RuleMatch;
  vars : Tx -> option (string -> list string);
  RulesCount : option Z }.

(** ** Translation *)

Definition disruptive (action : string) : bool :=
  negb (str_eqb action "") && negb (str_eqb action "pass") && negb (str_eqb action "allow").

Definition convert (it : option Interruption) : option Intervention :=
  match it with
  | None => None
  | Some it =>
      Some {| iv_Status := it_Status it; Pause := 0;
              iv_URL := if str_eqb (it_Action it) "redirect" then it_Data it else "";
              Log := ""; Disruptive := disruptive (it_Action it);
              iv_Action := it_Action it; RuleID := it_RuleID it |}
  end.

(** The names of the variables, by the part of the request they are about. *)
Inductive place := InHeader | InCookie | InArgs | InBody | InURI.

Definition names_of (p : place) : list string :=
  match p with
  | InHeader => ["REQUEST_HEADERS"; "REQUEST_HEADERS_NAMES"]
  | InCookie => ["REQUEST_COOKIES"; "REQUEST_COOKIES_NAMES"]
  | InArgs => ["ARGS"; "ARGS_GET"; "ARGS_GET_NAMES"; "ARGS_NAMES"; "QUERY_STRING"]
  | InBody => ["ARGS_POST"; "ARGS_POST_NAMES"; "REQUEST_BODY"; "FILES"; "FILES_NAMES";
               "MULTIPART_PART_HEADERS"; "JSON"; "XML"]
  | InURI => ["REQUEST_URI"; "REQUEST_URI_RAW"; "REQUEST_FILENAME"; "REQUEST_BASENAME";
              "REQUEST_LINE"]
  end.

(** The switch of [target], whose cases are tried in this order. *)
Definition place_of (name : string) : option place :=
  List.find (fun p => existsb (str_eqb name) (names_of p)) [InHeader; InCookie; InArgs; InBody; InURI].

Fixpoint target (datas : list MatchData) : string :=
  match datas with
  | [] => ""
  | d :: datas =>
      let key := ToLower (d_Key d) in
      match place_of (d_Variable d) with
      | Some InHeader => if str_eqb key "" then "" else "header:" +:+ key
      | Some InCookie => if str_eqb key "" then "" else "cookie:" +:+ key
      | Some InArgs => "args"
      | Some InBody => "body"
      | Some InURI => "uri"
      | None => target datas
      end
  end.

Definition matched_rule (m : RuleMatch) : MatchedRule :=
  {| ID := r_ID m; rule_Phase := r_Phase m; Severity := r_Severity m; Tags := r_Tags m;
     Message := m_Message m; Data := m_Data m; Target := target (m_Datas m) |}.

(** ** The anomaly score *)

Definition anomalyVars : list string :=
  ["blocking_inbound_anomaly_score"; "inbound_anomaly_score"; "detection_inbound_anomaly_score"].

Definition anomalyOutVars : list string :=
  ["blocking_outbound_anomaly_score"; "outbound_anomaly_score"; "detection_outbound_anomaly_score"].

Definition firstInt (values : list string) : option Z :=
  match values with [] => None | v :: _ => Atoi v end.

Fixpoint first_score (tx : string -> list string) (names : list string) : Z :=
  match names with
  | [] => 0
  | name :: names =>
      match firstInt (tx name) with Some v => v | None => first_score tx names end
  end.

Definition anomaly (waf : WAF) (names : list string) (threshold : string) (tx : Tx) : Z * Z :=
  match vars waf tx with
  | None => (0, 0)
  | Some vs => (first_score vs names, default 0 (firstInt (vs threshold)))
  end.

(** ** The engine *)

(** The results of a body call, as [begin] and [finish] take them: the error first. *)
Definition body_result (r : option Interruption * option string) :
    res string (option Intervention) :=
  match r.2 with Some err => Err err | None => Ok (convert r.1) end.

Definition adapter (waf : WAF) : Engine :=
  {| NewTransaction := fun _ => None;
     on_RequestHeaders := fun tx => convert (w_RequestHeaders waf tx);
     on_WriteRequestBody := w_WriteRequestBody waf;
     on_RequestBody := fun tx => body_result (w_RequestBody waf tx);
     on_ResponseHeaders := fun tx => convert (w_ResponseHeaders waf tx);
     on_WriteResponseBody := w_WriteResponseBody waf;
     on_ResponseBody := fun tx => body_result (w_ResponseBody waf tx);
     matched := fun tx => matched_rule <$> w_Matched waf tx;
     Anomaly := anomaly waf anomalyVars "inbound_anomaly_score_threshold";
     AnomalyOutbound := anomaly waf anomalyOutVars "outbound_anomaly_score_threshold";
     RuleCount := default 0 (RulesCount waf) |}.

(** [New]: [compile] is [coraza.NewWAF] on the rule files. *)
Definition New (compile : list string -> option WAF) (files : list string) : option Engine :=
  match files with
  | [] => None
  | _ => adapter <$> compile files
  end.

(** ** Specification *)

(** [d] is the first of the data that is about a part of the request. *)
Definition first_place (datas : list MatchData) (p : place) (d : MatchData) : Prop :=
  exists before after, datas = before ++ d :: after /\ d_Variable d ∈ names_of p
    /\ Forall (fun d => forall p, d_Variable d ∉ names_of p) before.

Definition described (p : place) (d : MatchData) : string :=
  let keyed prefix := if str_eqb (ToLower (d_Key d)) "" then "" else prefix +:+ ToLower (d_Key d) in
  match p with
  | InHeader => keyed "header:" | InCookie => keyed "cookie:"
  | InArgs => "args" | InBody => "body" | InURI => "uri"
  end.

(** The interruption of the request phase: that of the headers if there is one, else
    that of the body, from a transaction that received the calls [tx]. *)
Definition request_interruption (waf : WAF) (tx : Tx) (it : option Interruption) : Prop :=
  exists before body, tx = (before ++ [ProcessRequestHeaders]) ++ body ++ [ProcessRequestBody]
    /\ (w_RequestBody waf tx).2 = None
    /\ it = match w_RequestHeaders waf (before ++ [ProcessRequestHeaders]) with
            | Some it => Some it
            | None => (w_RequestBody waf tx).1
            end.

Definition passes (it : option Interruption) : Prop :=
  match it with None => True | Some it => it_Action it ∈ [""; "pass"; "allow"] end.

(** The rules of the request phases that matched. *)
Definition request_matches (waf : WAF) (tx : Tx) (m : RuleMatch) : Prop :=
  m ∈ w_Matched waf tx /\ 1 <= r_Phase m <= 2.

(** The score is in the first of the variables that holds a number. *)
Inductive score_of (vs : string -> list string) : list string -> Z -> Prop :=
| score_none : score_of vs [] 0
| score_here name names v rest z :
    vs name = v :: rest -> Atoi v = Some z -> score_of vs (name :: names) z
| score_skip name names z :
    (forall v rest, vs name = v :: rest -> Atoi v = None) ->
    score_of vs names z -> score_of vs (name :: names) z.

(** ** Lemmas *)

Lemma place_of_spec name p : place_of name = Some p <-> name ∈ names_of p.
Proof.
  split.
  - unfold place_of. intros H. apply List.find_some in H as [_ H].
    apply existsb_exists in H as (n & Hn & He). apply str_eqb_true in He as <-.
    by apply list_elem_of_In.
  - intros H. destruct p; unfold names_of in H;
      repeat (apply elem_of_cons in H as [->|H]; [reflexivity|]); by apply not_elem_of_nil in H.
Qed.

Lemma place_of_none name : place_of name = None <-> forall p, name ∉ names_of p.
Proof.
  split.
  - intros H p Hp. apply place_of_spec in Hp. congruence.
  - intros H. destruct (place_of name) as [p|] eqn:E; [|done].
    by apply place_of_spec, H in E.
Qed.

Lemma disruptive_spec a : disruptive a = true <-> a ∉ [""; "pass"; "allow"].
Proof.
  unfold disruptive. rewrite !andb_true_iff, !negb_true_iff, !str_eqb_false. set_solver.
Qed.

Lemma blocks_not_pass a :
  a = "redirect" \/ a ∈ ["deny"; "block"; "drop"] -> a ∉ [""; "pass"; "allow"].
Proof.
  intros [->|H]; [|repeat (apply elem_of_cons in H as [->|H]); [..|by apply not_elem_of_nil in H]];
    by apply disruptive_spec.
Qed.

Lemma first_score_spec vs names z : first_score vs names = z <-> score_of vs names z.
Proof.
  split.
  - intros <-. induction names as [|name names IH]; simpl; [constructor|].
    unfold firstInt. destruct (vs name) as [|v rest] eqn:E.
    + apply score_skip; [by rewrite E|done].
    + destruct (Atoi v) as [z|] eqn:Ez; [by eapply score_here|].
      apply score_skip; [|done]. intros v' rest' H. congruence.
  - induction 1 as [|name names v rest z Hv Hz|name names z Hn _ IH]; simpl; [done| |].
    + unfold firstInt. by rewrite Hv, Hz.
    + unfold firstInt. destruct (vs name) as [|v rest] eqn:E; [done|].
      by rewrite (Hn v rest eq_refl).
Qed.

Lemma convert_first a b :
  first_iv (convert a) (convert b) = convert (match a with Some it => Some it | None => b end).
Proof. by destruct a. Qed.

Lemma begin_adapter waf i tx it :
  begin (adapter waf) i = Running tx it ->
  exists it', request_interruption waf tx it' /\ it = convert it'.
Proof.
  unfold begin. cbn [NewTransaction adapter]. cbv zeta. intros H.
  destruct (if 0 <? len (in_Body i) then _ else _) as [tx' [e|]] eqn:E; [done|].
  cbn [on_RequestHeaders on_RequestBody adapter] in H. unfold body_result in H.
  destruct (w_RequestBody waf (tx' ++ [ProcessRequestBody])) as [r [e|]] eqn:Eb; [done|].
  simpl in H. injection H as <- <-. rewrite convert_first.
  eexists. split; [|reflexivity].
  eexists _, (if 0 <? len (in_Body i) then [WriteRequestBody (in_Body i)] else []).
  split_and!; [|by rewrite Eb|by rewrite Eb].
  destruct (0 <? len (in_Body i)); simplify_eq; [by rewrite <- (app_assoc _ [_])|done].
Qed.

Lemma stopped_convert out it :
  out_Intervention out = convert it ->
  (stopped out = None <-> passes it)
  /\ forall iv, stopped out = Some iv <->
       exists x, it = Some x /\ convert it = Some iv /\ ~ passes it.
Proof.
  intros H. unfold stopped. rewrite H. destruct it as [x|]; simpl.
  2: { split; [done|]. intros iv. split; [done|]. by intros (? & ? & _). }
  pose proof (disruptive_spec (it_Action x)) as Hd. unfold disruptive in *.
  destruct (_ && _); split.
  - split; [done|]. intros Hp. by apply Hd in Hp.
  - intros iv. split; [intros [= <-]; exists x; split_and!; [done..|by apply Hd]|].
    by intros (? & [= <-] & [= <-] & _).
  - split; [|done]. intros _. apply dec_stable. intros Hp. by apply Hd in Hp.
  - intros iv. split; [done|]. intros (? & [= <-] & _ & Hp). by apply Hd in Hp.
Qed.

(** What an outcome of the request phase holds. *)
Lemma request_outcome waf i us out :
  (Apply (adapter waf) i us).2 = Ok out \/ (exists l, (ApplyKeep (adapter waf) i us).2 = Ok (out, l)) ->
  exists tx log it, request_interruption waf tx it /\ out_Intervention out = convert it
    /\ log ∈ [[]; [ProcessLogging]]
    /\ (forall m, m ∈ Matched out <-> exists r, request_matches waf (tx ++ log) r /\ m = matched_rule r)
    /\ (AnomalyScore out, Threshold out)
       = anomaly waf anomalyVars "inbound_anomaly_score_threshold" (tx ++ log).
Proof.
  unfold Apply, ApplyKeep. intros H.
  destruct (begin (adapter waf) i) as [|tx e|tx it] eqn:E;
    [naive_solver..|]. apply begin_adapter in E as (it' & Hi & ->).
  assert (exists log, log ∈ [[]; [ProcessLogging]]
    /\ out = outcome (adapter waf) (tx ++ log) (convert it') 1 2 (Anomaly (adapter waf)) us)
    as (log & Hlog & ->).
  { destruct H as [[= <-]|[l [= <- _]]]; [exists [ProcessLogging]|exists []]; rewrite ?app_nil_r;
      (split; [set_solver|done]). }
  exists tx, log, it'. split_and!; [done..| |].
  - intros m. simpl. unfold matchedPhases. rewrite list_elem_of_In, List.filter_In, <- list_elem_of_In.
    cbn [matched adapter]. rewrite list_elem_of_fmap. unfold request_matches. split.
    + intros [(r & -> & Hr) Hp]. exists r. bool_prop. simpl in *. split_and!; try done; lia.
    + intros (r & [Hr Hp] & ->). split; [by exists r|]. simpl. lia.
  - simpl. by destruct (anomaly _ _ _ _).
Qed.

(** ** Sample *)

(** A WAF that denies in the headers phase and has an anomaly score. *)
Definition sample_waf : WAF :=
  {| w_RequestHeaders := fun _ => Some {| it_RuleID := 949110; it_Action := "deny";
                                          it_Status := 403; it_Data := "" |};
     w_WriteRequestBody := fun _ => None;
     w_RequestBody := fun _ => (None, None);
     w_ResponseHeaders := fun _ => None;
     w_WriteResponseBody := fun _ => None;
     w_ResponseBody := fun _ => (None, None);
     w_Matched := fun _ => [{| r_ID := 942100; r_Phase := 2; r_Severity := "critical"; r_Tags := [];
       m_Message := "SQLi"; m_Data := "1"; m_Datas := [{| d_Variable := "TX"; d_Key := "x" |};
         {| d_Variable := "REQUEST_HEADERS"; d_Key := "User-Agent" |}] |}];
     vars := fun _ => Some (fun n => if str_eqb n "inbound_anomaly_score" then ["5"] else []);
     RulesCount := Some 1 |}.

Definition sample_options : Options :=
  {| opt_StatusMap := None; opt_Decisive := {| dec_Ranges := []; dec_Tags := ∅ |};
     ScalePercent := 0 |}.

(** ** Properties *)

(** C14: The verdict on a request in terms of what the rule engine answered, whether the
    transaction is kept or not. The first interruption counts, that of the headers
    before that of the body; one without an action, or with pass or allow, does not
    stop anything. The verdict is a denial exactly when that interruption denies,
    blocks or drops, or when nothing stops the request and a rule of the request
    phases is decisive; a redirect when it redirects to somewhere; a score when
    nothing stops the request, no rule is decisive and the first of the score
    variables that holds a number holds a positive one. *)
Theorem waf_verdict waf i us out req opt
    (Hran : (Apply (adapter waf) i us).2 = Ok out
            \/ exists l, (ApplyKeep (adapter waf) i us).2 = Ok (out, l)) :
  exists tx log it score,
    request_interruption waf tx it /\ log ∈ [[]; [ProcessLogging]]
    /\ match vars waf (tx ++ log) with
       | Some vs => score_of vs anomalyVars score
       | None => score = 0
       end
    /\ let decides m := request_matches waf (tx ++ log) m
                        /\ match_ (opt_Decisive opt) (matched_rule m) = true in
       let r := Verdict (From req out opt) in
       (r = VerdictDeny <->
          (exists x, it = Some x /\ it_Action x ∈ ["deny"; "block"; "drop"])
          \/ passes it /\ exists m, decides m)
       /\ (r = VerdictRedirect <->
             exists x, it = Some x /\ it_Action x = "redirect" /\ it_Data x <> "")
       /\ (r = VerdictScore <-> passes it /\ 0 < score /\ forall m, ~ decides m)
       /\ r ∈ [VerdictAllow; VerdictScore; VerdictDeny; VerdictRedirect].
Proof.
  destruct (request_outcome waf i us out Hran) as (tx & log & it & Hi & Ho & Hlog & Hm & Hs).
  exists tx, log, it, (AnomalyScore out). split_and!; [done..| |].
  { revert Hs. unfold anomaly. destruct (vars waf _) as [vs|]; intros [= H _]; [|done].
    by apply first_score_spec. }
  destruct (stopped_convert out it Ho) as [Hpass Hstop].
  destruct (From_verdict req out opt) as (Hr & Hd & Hsc & Hall).
  assert (forall x, it = Some x -> ~ passes it <-> it_Action x ∉ [""; "pass"; "allow"]) as Hx
    by by intros x ->.
  assert ((exists m, m ∈ Matched out /\ match_ (opt_Decisive opt) m = true) <->
    exists m, request_matches waf (tx ++ log) m
      /\ match_ (opt_Decisive opt) (matched_rule m) = true) as Hdec.
  { split.
    - intros (m & (r & Hq & ->)%Hm & Ht). by exists r.
    - intros (r & Hq & Ht). exists (matched_rule r). split; [apply Hm; by exists r|done]. }
  cbv zeta. split_and!; [| | |exact Hall].
  - rewrite Hd, Hpass, Hdec. apply or_iff_compat_r. split.
    + intros (iv & (x & -> & [= <-] & _)%Hstop & Ha). by exists x.
    + intros (x & -> & Ha). eexists. split; [apply Hstop; exists x; split_and!; [done..|]|exact Ha].
      apply Hx; [done|]. apply blocks_not_pass. by right.
  - rewrite Hr. split.
    + intros (iv & (x & -> & [= <-] & _)%Hstop & Ha & Hu). exists x. simpl in Ha, Hu.
      rewrite Ha, str_eqb_refl in Hu. done.
    + intros (x & -> & Ha & Hu). eexists. split; [apply Hstop; exists x; split_and!; [done..|]|].
      * apply Hx; [done|]. apply blocks_not_pass. by left.
      * simpl. by rewrite Ha, str_eqb_refl.
  - rewrite Hsc, Hpass, list.Forall_forall. apply and_iff_compat_l, and_iff_compat_l. split.
    + intros H m [Hq Ht]. specialize (H (matched_rule m)). rewrite H in Ht; [done|].
      apply Hm. by exists m.
    + intros H m (r & Hq & ->)%Hm. destruct (match_ _ _) eqn:E; [|done]. by destruct (H r).
Qed.

Lemma waf_verdict_witness :
  exists out tx it, (Apply (adapter sample_waf) sample_input 7).2 = Ok out
  /\ request_interruption sample_waf tx it
  /\ Verdict (From (sample_request "r1" "request") out sample_options) = VerdictDeny.
Proof.
  destruct ((Apply (adapter sample_waf) sample_input 7).2) as [out|e] eqn:E; [|discriminate E].
  destruct (waf_verdict sample_waf sample_input 7 out (sample_request "r1" "request") sample_options
    (or_introl E)) as (tx & log & it & score & Hi & _ & _ & Hd & _).
  exists out, tx, it. split; [reflexivity|]. split; [exact Hi|]. apply Hd. left.
  destruct Hi as (before & body & _ & _ & ->). eexists. split; [reflexivity|]. left.
Defined.

(** The place a match is reported at is that of the first of its data that is about
    a part of the request; a header or a cookie is named in lower case, one without a
    name has no place. Data of other variables do not matter, and the cases of the
    switch do not overlap. *)
Lemma target_spec datas t :
  (target datas = t <->
     (exists p d, first_place datas p d /\ t = described p d)
     \/ (t = "" /\ Forall (fun d => forall p, d_Variable d ∉ names_of p) datas))
  /\ forall name p, place_of name = Some p <-> name ∈ names_of p.
Proof.
  split; [|exact place_of_spec].
  induction datas as [|d datas IH]; cbn [target].
  - split; [intros <-; by right|]. intros [(p & d & (b & a & H & _) & _)|[-> _]]; [|done].
    by destruct b.
  - destruct (place_of (d_Variable d)) as [p|] eqn:E.
    + transitivity (described p d = t); [by destruct p|]. apply place_of_spec in E. split.
      * intros <-. left. exists p, d. split; [|done]. exists [], datas. by split_and!.
      * intros [(p' & d' & (b & a & H & Hp & Hb) & ->)|[_ H]].
        -- destruct b as [|d0 b]; simplify_eq/=.
           ++ apply place_of_spec in E, Hp. congruence.
           ++ apply list.Forall_cons in Hb as [Hb _]. by destruct (Hb p).
        -- apply list.Forall_cons in H as [H _]. by destruct (H p).
    + rewrite IH. pose proof (proj1 (place_of_none _) E) as Ep. clear E. rename Ep into E. split.
      * intros [(p & d' & (b & a & -> & Hp & Hb) & ->)|[-> H]]; [left|by right; rewrite list.Forall_cons].
        exists p, d'. split; [|done]. exists (d :: b), a. by rewrite list.Forall_cons.
      * intros [(p & d' & (b & a & H & Hp & Hb) & ->)|[-> H]].
        -- destruct b as [|d0 b]; simplify_eq/=; [by destruct (E p)|].
           apply list.Forall_cons in Hb as [_ Hb]. left. exists p, d'. split; [|done].
           by exists b, a.
        -- right. by apply list.Forall_cons in H as [_ H].
Qed.
