(* ===== verification/GoOS.v ===== *)
(** * Go's clock, paths and runes, as the settings use them

    [time.ParseDuration], [filepath.Abs] on a Unix system and the runes a loop over
    a string sees. A duration is a number of nanoseconds. *)

From Stdlib Require Import QArith_base Qround.
From S2P Require Import Prelude GoString GoFloat.
From stdpp Require Import options.

Local Open Scope Z_scope.

(** ** Package time *)

(** [leadingInt]: the digits a string starts with, and the rest; [None] when the
    number exceeds [1 << 63]. *)
Fixpoint leadingInt (x : Z) (s : string) : option (Z * string) :=
  match s with
  | String a r =>
      if is_digit a then
        if 2 ^ 63 / 10 <? x then None
        else let x := x * 10 + (byte_val a - 48) in
             if 2 ^ 63 <? x then None else leadingInt x r
      else Some (x, s)
  | "" => Some (x, "")
  end.

(** [leadingFraction]: digits that no longer fit are skipped; the scale is a power of
    ten, exact in float64 up to the nineteen digits that fit. *)
Fixpoint leadingFraction (x scale : Z) (overflow : bool) (s : string) : Z * Z * string :=
  match s with
  | String a r =>
      if is_digit a then
        if overflow then leadingFraction x scale true r
        else if max_int64 / 10 <? x then leadingFraction x scale true r
        else let y := x * 10 + (byte_val a - 48) in
             if 2 ^ 63 <? y then leadingFraction x scale true r
             else leadingFraction y (scale * 10) false r
      else (x, scale, s)
  | "" => (x, scale, "")
  end.

(** The unit: everything up to the next digit or dot. *)
Fixpoint leadingUnit (s : string) : string * string :=
  match s with
  | String a r =>
      if byte_is 46 a || is_digit a then ("", s)
      else let '(u, rest) := leadingUnit r in (String a u, rest)
  | "" => ("", "")
  end.

(** [unitMap]; the micro sign is U+00B5 or the letter U+03BC. *)
Definition unit_ns (u : string) : option Z :=
  if str_eqb u "ns" then Some 1
  else if str_eqb u "us" || str_eqb u "µs" || str_eqb u "μs" then Some 1000
  else if str_eqb u "ms" then Some (10 ^ 6)
  else if str_eqb u "s" then Some (10 ^ 9)
  else if str_eqb u "m" then Some (60 * 10 ^ 9)
  else if str_eqb u "h" then Some (3600 * 10 ^ 9)
  else None.

(** One number with its unit. *)
Definition duration_part (s : string) : option (Z * string) :=
  match s with
  | "" => None
  | String a _ =>
      if negb (byte_is 46 a || is_digit a) then None
      else
        vs ← leadingInt 0 s;
        let '(v, s1) := vs : Z * string in
        let pre := negb (String.length s1 =? String.length s)%nat in
        let '(f, scale, s2, post) :=
          match s1 with
          | String "." r =>
              let '(f, scale, s2) := leadingFraction 0 1 false r in
              (f, scale, s2, negb (String.length s2 =? String.length r)%nat)
          | _ => (0, 1, s1, false)
          end in
        if negb pre && negb post then None
        else
          let '(u, rest) := leadingUnit s2 in
          if str_eqb u "" then None
          else
            unit ← unit_ns u;
            if 2 ^ 63 / unit <? v then None
            else
              let v := v * unit in
              if f <=? 0 then Some (v, rest)
              else
                let v := v + Qfloor (fl_mul (fl_of_int f) (fl_div (fl_of_int unit) (fl_of_int scale))) in
                if 2 ^ 63 <? v then None else Some (v, rest)
  end.

Fixpoint duration_loop (fuel : nat) (d : Z) (s : string) : option Z :=
  match s with
  | "" => Some d
  | _ =>
      match fuel with
      | O => None
      | S fuel =>
          vs ← duration_part s;
          let '(v, rest) := vs : Z * string in
          let d := (d + v) mod 2 ^ 64 in
          if 2 ^ 63 <? d then None else duration_loop fuel d rest
      end
  end.

Definition ParseDuration (s : string) : option Z :=
  let '(neg, s) := match s with
                   | String "-" r => (true, r)
                   | String "+" r => (false, r)
                   | _ => (false, s)
                   end in
  if str_eqb s "0" then Some 0
  else if str_eqb s "" then None
  else
    d ← duration_loop (String.length s) 0 s;
    if neg : bool then Some (- d) else if max_int64 <? d then None else Some d.

(** ** Package filepath *)

(** The elements of a rooted path, innermost first. *)
Definition clean_step (acc : list string) (e : string) : list string :=
  if str_eqb e "" || str_eqb e "." then acc
  else if str_eqb e ".." then tail acc else e :: acc.

Definition show_elems (l : list string) : string := String.concat "" ((String "/") <$> l).

(** [filepath.Clean] of a rooted path. *)
Definition Clean (path : string) : string :=
  match fold_left clean_step (Split "/" path) [] with
  | [] => "/"
  | l => show_elems (reverse l)
  end.

Definition IsAbs (path : string) : bool := HasPrefix path "/".

(** [filepath.Abs]; [cwd] is the working directory, which is rooted. *)
Definition Abs (cwd : option string) (path : string) : option string :=
  if IsAbs path then Some (Clean path)
  else match cwd with
       | None => None
       | Some d => Some (Clean (d +:+ "/" +:+ path))
       end.

(** ** The runes of a string *)

Definition cont (a : ascii) : bool := byte_in 128 191 a.
Definition low6 (a : ascii) : Z := byte_val a - 128.

Definition lead3 (a b : ascii) : bool :=
  (byte_is 224 a && byte_in 160 191 b) || (byte_is 237 a && byte_in 128 159 b)
  || ((byte_in 225 236 a || byte_in 238 239 a) && cont b).

Definition lead4 (a b : ascii) : bool :=
  (byte_is 240 a && byte_in 144 191 b) || (byte_is 244 a && byte_in 128 143 b)
  || (byte_in 241 243 a && cont b).

Definition RuneError : Z := 65533.

(** [for _, r := range s]: a byte that starts no rune is U+FFFD. *)
Fixpoint runes (s : string) : list Z :=
  match s with
  | "" => []
  | String a r =>
      if byte_val a <? 128 then byte_val a :: runes r
      else
        match r with
        | "" => [RuneError]
        | String b r2 =>
            if byte_in 194 223 a && cont b then ((byte_val a - 192) * 64 + low6 b) :: runes r2
            else
              match r2 with
              | "" => RuneError :: runes r
              | String c r3 =>
                  if lead3 a b && cont c
                  then ((byte_val a - 224) * 4096 + low6 b * 64 + low6 c) :: runes r3
                  else
                    match r3 with
                    | "" => RuneError :: runes r
                    | String d r4 =>
                        if lead4 a b && cont c && cont d
                        then ((byte_val a - 240) * 262144 + low6 b * 4096 + low6 c * 64 + low6 d)
                               :: runes r4
                        else RuneError :: runes r
                    end
              end
        end
  end.

(** ** Lemmas *)

Lemma ParseDuration_samples :
  ParseDuration "1h2m3.5s" = Some (3723500 * 10 ^ 6) /\ ParseDuration "-1.5us" = Some (-1500)
  /\ ParseDuration ".5" = None /\ ParseDuration "9223372036854775808ns" = None
  /\ ParseDuration "-9223372036854775808ns" = Some min_int64.
Proof. vm_compute. by split_and!. Qed.

Lemma runes_sample : runes "aµ€x" = [97; 181; 8364; 120].
Proof. vm_compute. reflexivity. Qed.

(** *** The loop of [ParseDuration] ends *)

Lemma leadingInt_length x s v r :
  leadingInt x s = Some (v, r) -> (String.length r <= String.length s)%nat.
Proof.
  revert x. induction s as [|a s IH]; simpl; intros x H; [by simplify_eq|].
  destruct (is_digit a); [|by simplify_eq]. destruct (_ <? x); [done|].
  destruct (_ <? _); [done|]. apply IH in H. lia.
Qed.

Lemma leadingFraction_length x sc o s :
  (String.length (leadingFraction x sc o s).2 <= String.length s)%nat.
Proof.
  revert x sc o. induction s as [|a s IH]; simpl; intros x sc o; [lia|].
  destruct (is_digit a); [|simpl; lia].
  destruct o; [specialize (IH x sc true); lia|].
  destruct (_ <? x); [specialize (IH x sc true); lia|].
  destruct (_ <? _); [specialize (IH x sc true); lia|].
  specialize (IH (x * 10 + (byte_val a - 48)) (sc * 10) false). lia.
Qed.

Lemma leadingUnit_split s : s = (leadingUnit s).1 +:+ (leadingUnit s).2.
Proof.
  induction s as [|a s IH]; [done|]. simpl. destruct (_ || _); [done|].
  destruct (leadingUnit s). simpl in *. by rewrite IH at 1.
Qed.

Lemma duration_part_shorter s v rest :
  duration_part s = Some (v, rest) -> (String.length rest < String.length s)%nat.
Proof.
  unfold duration_part. destruct s as [|a s]; [done|]. set (s0 := String a s).
  destruct (negb _); [done|]. destruct (leadingInt 0 s0) as [[x s1]|] eqn:E1; [|done]. simpl.
  apply leadingInt_length in E1. cbv zeta.
  destruct (match s1 with String "." _ => _ | _ => _ end) as [[[f sc] s2] post] eqn:E2.
  assert (String.length s2 <= String.length s1)%nat as H2.
  { revert E2. destruct s1 as [|c s1]; [by intros; simplify_eq|].
    destruct (ascii_dec c ".") as [->|Hc].
    - pose proof (leadingFraction_length 0 1 false s1) as H.
      destruct (leadingFraction 0 1 false s1) as [[f' sc'] s'].
      intros; simplify_eq/=. lia.
    - intros E2. enough (s2 = String c s1) as -> by done.
      revert E2. destruct c as [[] [] [] [] [] [] [] []]; by intros; simplify_eq. }
  destruct (_ && _); [done|]. pose proof (leadingUnit_split s2) as Hu.
  destruct (leadingUnit s2) as [u r]. simpl in Hu. destruct (str_eqb u "") eqn:Eu; [done|].
  apply str_eqb_false in Eu. intros H.
  assert (rest = r) as -> by (destruct (unit_ns u); simpl in H; [|done]; by repeat case_match; simplify_eq).
  assert (0 < String.length u)%nat by (destruct u; [done|simpl; lia]).
  rewrite Hu, str_length_app in H2. unfold s0 in E1. simpl in E1. lia.
Qed.

(** More fuel than bytes does not change the result: running out of it is never the
    reason for [None]. *)
Lemma duration_loop_fuel fuel d s :
  (String.length s <= fuel)%nat -> duration_loop fuel d s = duration_loop (String.length s) d s.
Proof.
  remember (String.length s) as n eqn:Hn. revert fuel d s Hn.
  induction n as [n IH] using (well_founded_induction lt_wf). intros fuel d s -> Hf.
  destruct s as [|a s]; [by destruct fuel|]. destruct fuel as [|fuel]; [simpl in Hf; lia|].
  cbn [duration_loop String.length].
  destruct (duration_part (String a s)) as [[v rest]|] eqn:E; [|done]. cbn [mbind option_bind].
  apply duration_part_shorter in E. simpl in E, Hf. destruct (_ <? _); [done|].
  rewrite (IH (String.length rest)) by (simpl; lia).
  symmetry. apply (IH (String.length rest)); simpl; lia.
Qed.

(** *** Paths *)

Lemma Abs_rooted cwd path p :
  Abs cwd path = Some p -> IsAbs p = true.
Proof.
  intros H. assert (exists q, p = Clean q) as [q ->].
  { unfold Abs in H. repeat case_match; simplify_eq; eauto. }
  unfold Clean. destruct (fold_left _ _ _) as [|e l]; [done|].
  destruct (reverse (e :: l)) as [|x r] eqn:E; [|destruct r; apply HasPrefix_spec; by eexists].
  apply (f_equal length) in E. rewrite length_reverse in E. done.
Qed.
