(* ===== verification/ConfFile.v ===== *)
(** * The file [inspector.conf]: [internal/config/file.go]

    The parser of the file is a loop over its lines with the block it is in and the
    directives it has seen; [conf_line] is one round of it. Settings of the
    environment win over those of the file; [exchangeRedis] and [internalRedis] say
    so for the addresses, [Config.v] for the rest.

    [redis_url] is what [url.Parse] makes of an address: its scheme and its host.
    [unicode_word] says which runes outside ASCII are letters or digits. *)

From S2P Require Import Prelude GoString GoOS.
From stdpp Require Import options.

Local Open Scope Z_scope.

Definition QueueFullDrop : string := "drop".
Definition QueueFullWait : string := "wait".
Definition QueueExpandOff : string := "off".
Definition QueueExpandAsk : string := "ask".
Definition InternalFromExchange : string := "exchange".

Record queueFile := {
  f_Max : option Z; f_Full : string; f_Expand : string;
  f_RedisURL : string; f_RedisInternal : string }.

Record queueSettings := { Max : Z; Full : string; Expand : string }.

Inductive LineError :=
| UnexpectedClose | UnknownBlock (head : string) | BlockTwice (head : string)
| NoSemicolon | EmptyDirective | NoValue (stmt : string) | BadName (key : string)
| OneValue (key : string) | SetTwice (key : string)
| BadMax (v : string) | BadFull (v : string) | BadExpand (v : string)
| UnknownDirective (key : string)
| RedisTwice (key : string) | UnknownRedisKey (key : string) | BadRedisURL (key v : string)
| NotClosed (block : string).

(** The variables of the loop. *)
Record Parser := { out : queueFile; seen : gset string; block : string; opened : Z }.

Section conf.
Context (parse_url : string -> option (string * string)) (unicode_word : Z -> bool).

(** ** Lines and statements *)

Definition confText (line : string) : string :=
  TrimSpace (match Cut "#" line with Some (before, _) => before | None => line end).

Definition requireSemicolon (text : string) : res LineError string :=
  if negb (HasSuffix text ";") then Err NoSemicolon else Ok (TrimSpace (TrimSuffix text ";")).

Definition word_rune (r : Z) : bool :=
  (r =? 95) || (if r <? 128 then ((97 <=? r) && (r <=? 122)) || ((65 <=? r) && (r <=? 90))
                                 || ((48 <=? r) && (r <=? 57))
                else unicode_word r).

Definition isConfName (s : string) : bool :=
  negb (str_eqb s "") && forallb word_rune (runes s).

Definition splitDirective (stmt : string) : res LineError (string * string) :=
  let stmt := TrimSpace stmt in
  if str_eqb stmt "" then Err EmptyDirective
  else
    match Cut " " stmt with
    | None => Err (NoValue stmt)
    | Some (key, rest) =>
        if negb (isConfName key) then Err (BadName key)
        else
          let value := TrimSpace rest in
          if str_eqb value "" || has_byte " " value || has_byte "009" value
          then Err (OneValue key)
          else Ok (key, value)
    end.

Definition directive (text : string) : res LineError (string * string) :=
  stmt ← requireSemicolon text; splitDirective stmt.

Definition isRedisURL (s : string) : bool :=
  match parse_url s with
  | None => false
  | Some (scheme, host) =>
      negb (str_eqb host "") && (str_eqb scheme "redis" || str_eqb scheme "rediss")
  end.

(** ** The loop *)

Definition set_out (o : queueFile) (p : Parser) : Parser :=
  {| out := o; seen := seen p; block := block p; opened := opened p |}.

Definition mark (key : string) (p : Parser) : Parser :=
  {| out := out p; seen := {[key]} ∪ seen p; block := block p; opened := opened p |}.

Definition enter (b : string) (n : Z) (p : Parser) : Parser :=
  {| out := out p; seen := seen p; block := b; opened := n |}.

Definition has_seen (key : string) (p : Parser) : bool := bool_decide (key ∈ seen p).

Definition parseRedisKey (text : string) (p : Parser) : res LineError Parser :=
  '(key, value) ← directive text;
  let id := "redis." +:+ key in
  fail_if (has_seen id p) (RedisTwice key);;
  let p := mark id p in
  fail_if (negb (str_eqb key "url") && negb (str_eqb key "internal")) (UnknownRedisKey key);;
  fail_if (negb (isRedisURL value)) (BadRedisURL key value);;
  let o := out p in
  Ok (set_out
        (if str_eqb key "url"
         then {| f_Max := f_Max o; f_Full := f_Full o; f_Expand := f_Expand o;
                 f_RedisURL := value; f_RedisInternal := f_RedisInternal o |}
         else {| f_Max := f_Max o; f_Full := f_Full o; f_Expand := f_Expand o;
                 f_RedisURL := f_RedisURL o; f_RedisInternal := value |}) p).

(** The switch over the key of a directive. *)
Definition set_key (key value : string) (o : queueFile) : res LineError queueFile :=
  if str_eqb key "queue_max" then
    match Atoi value with
    | Some v =>
        if v <? 1 then Err (BadMax value)
        else Ok {| f_Max := Some v; f_Full := f_Full o; f_Expand := f_Expand o;
                   f_RedisURL := f_RedisURL o; f_RedisInternal := f_RedisInternal o |}
    | None => Err (BadMax value)
    end
  else if str_eqb key "queue_full" then
    if str_eqb value QueueFullDrop || str_eqb value QueueFullWait
    then Ok {| f_Max := f_Max o; f_Full := value; f_Expand := f_Expand o;
               f_RedisURL := f_RedisURL o; f_RedisInternal := f_RedisInternal o |}
    else Err (BadFull value)
  else if str_eqb key "queue_expand" then
    if str_eqb value QueueExpandOff || str_eqb value QueueExpandAsk
    then Ok {| f_Max := f_Max o; f_Full := f_Full o; f_Expand := value;
               f_RedisURL := f_RedisURL o; f_RedisInternal := f_RedisInternal o |}
    else Err (BadExpand value)
  else Err (UnknownDirective key).

Definition open_block (text : string) (n : Z) (p : Parser) : res LineError Parser :=
  let head := TrimSpace (TrimSuffix text "{") in
  fail_if (negb (str_eqb head "redis")) (UnknownBlock head);;
  fail_if (has_seen head p) (BlockTwice head);;
  Ok (enter head n (mark head p)).

(** One round: line [n]. *)
Definition conf_line (n : Z) (line : string) (p : Parser) : res LineError Parser :=
  let text := confText line in
  if str_eqb text "" then Ok p
  else if negb (str_eqb (block p) "") then
    if str_eqb text "}" then Ok (enter "" (opened p) p) else parseRedisKey text p
  else if str_eqb text "}" then Err UnexpectedClose
  else if HasSuffix text "{" then open_block text n p
  else
    '(key, value) ← directive text;
    fail_if (has_seen key p) (SetTwice key);;
    o ← set_key key value (out p);
    Ok (set_out o (mark key p)).

Fixpoint conf_lines (n : Z) (lines : list string) (p : Parser) : res (Z * LineError) Parser :=
  match lines with
  | [] => Ok p
  | line :: lines =>
      match conf_line n line p with
      | Err e => Err (n, e)
      | Ok p => conf_lines (n + 1) lines p
      end
  end.

Definition start : Parser :=
  {| out := {| f_Max := None; f_Full := ""; f_Expand := ""; f_RedisURL := ""; f_RedisInternal := "" |};
     seen := ∅; block := ""; opened := 0 |}.

(** The error carries the number of its line. *)
Definition parseQueueFile (src : string) : res (Z * LineError) queueFile :=
  p ← conf_lines 1 (Split "010" src) start;
  fail_if (negb (str_eqb (block p) "")) (opened p, NotClosed (block p));;
  Ok (out p).
End conf.

(** ** The settings of the file and of the environment *)

Definition applyQueueFile (c : queueSettings) (file : queueFile) : queueSettings :=
  {| Max := default (Max c) (f_Max file);
     Full := if str_eqb (f_Full file) "" then Full c else f_Full file;
     Expand := if str_eqb (f_Expand file) "" then Expand c else f_Expand file |}.

(** [os.LookupEnv] with the value trimmed, if that leaves anything. *)
Definition lookup_trimmed (LookupEnv : string -> option string) (name : string) : option string :=
  match LookupEnv name with
  | Some v => if str_eqb (TrimSpace v) "" then None else Some (TrimSpace v)
  | None => None
  end.

Definition envOverride (LookupEnv : string -> option string) (name current : string) : string :=
  default current (lookup_trimmed LookupEnv name).

Definition exchangeRedis (LookupEnv : string -> option string) (file : queueFile) : string :=
  default (f_RedisURL file) (lookup_trimmed LookupEnv "REDIS_URL").

(** The address and where it comes from. *)
Definition internalRedis (LookupEnv : string -> option string) (path : string) (file : queueFile)
    (exchange : string) : string * string :=
  match lookup_trimmed LookupEnv "REDIS_INTERNAL_URL" with
  | Some v => (v, "REDIS_INTERNAL_URL")
  | None =>
      if negb (str_eqb (f_RedisInternal file) "") then (f_RedisInternal file, path)
      else if negb (str_eqb exchange "") then (exchange, InternalFromExchange)
      else ("", "")
  end.

(** [is_file] is [os.Stat] without an error on something that is no directory. *)
Definition confPath (LookupEnv : string -> option string) (is_file : string -> bool)
    (envName : string) : string :=
  match lookup_trimmed LookupEnv envName with
  | Some v => v
  | None => default "" (List.find is_file ["inspector.conf"; "/app/inspector.conf"])
  end.

(** ** Specification *)

Section spec.
Context (parse_url : string -> option (string * string)) (unicode_word : Z -> bool).

(** What a file may say. *)
Record file_ok (f : queueFile) : Prop := {
  k_Max : match f_Max f with Some z => 1 <= z <= max_int64 | None => True end;
  k_Full : f_Full f ∈ [""; QueueFullDrop; QueueFullWait];
  k_Expand : f_Expand f ∈ [""; QueueExpandOff; QueueExpandAsk];
  k_URL : f_RedisURL f = "" \/ isRedisURL parse_url (f_RedisURL f) = true;
  k_Internal : f_RedisInternal f = "" \/ isRedisURL parse_url (f_RedisInternal f) = true }.

(** An address that can be written in a file: printable, without a comment. *)
Definition writable (v : string) : bool :=
  forallb (fun a => plain a && negb (ascii_eqb a "#")) (str_bytes v).

(** The text of a file. *)
Definition stmt (key v : string) : string := key +:+ " " +:+ v +:+ ";".

Definition stmt_unless_empty (key v : string) : list string :=
  if str_eqb v "" then [] else [stmt key v].

Definition show_lines (f : queueFile) : list string :=
  match f_Max f with Some z => [stmt "queue_max" (Itoa z)] | None => [] end
  ++ stmt_unless_empty "queue_full" (f_Full f)
  ++ stmt_unless_empty "queue_expand" (f_Expand f)
  ++ ["redis {"] ++ stmt_unless_empty "url" (f_RedisURL f)
  ++ stmt_unless_empty "internal" (f_RedisInternal f) ++ ["}"].

Definition show_text (lines : list string) : string :=
  foldr (fun line text => line +:+ String "010" text) "" lines.

(** ** Lemmas *)

Lemma conf_line_ok n line p p' :
  file_ok (out p) -> conf_line parse_url unicode_word n line p = Ok p' -> file_ok (out p').
Proof using.
  intros Hp. unfold conf_line. cbv zeta. destruct (str_eqb _ ""); [by intros [= <-]|].
  destruct (negb (str_eqb (block p) "")).
  - destruct (str_eqb _ "}"); [by intros [= <-]|]. unfold parseRedisKey.
    rewrite res_bind_ok. intros ([key value] & _ & H). cbv zeta in H.
    apply res_bind_ok in H as (_ & _ & H). apply res_bind_ok in H as (_ & _ & H).
    apply res_bind_ok in H as (u & Hu & [= <-]). apply fail_if_ok in Hu. bool_prop.
    destruct Hp. destruct (str_eqb key "url"); split; simpl; auto.
  - destruct (str_eqb _ "}"); [done|]. destruct (HasSuffix _ "{").
    + unfold open_block. cbv zeta. intros H. apply res_bind_ok in H as (_ & _ & H).
      by apply res_bind_ok in H as (_ & _ & [= <-]).
    + rewrite res_bind_ok. intros ([key value] & _ & H).
      apply res_bind_ok in H as (_ & _ & H). apply res_bind_ok in H as (o & Ho & [= <-]).
      simpl. destruct Hp as [H1 H2 H3 H4 H5]. unfold set_key in Ho.
      destruct (str_eqb key "queue_max").
      { destruct (Atoi value) as [v|] eqn:Ev; [|done]. apply Atoi_range in Ev.
        destruct (v <? 1) eqn:El; simplify_eq. split; try done. simpl. lia. }
      destruct (str_eqb key "queue_full").
      { destruct (_ || _) eqn:Ev; simplify_eq. split; try done. simpl.
        rewrite orb_true_iff, !str_eqb_true in Ev. destruct Ev as [->| ->]; set_solver. }
      destruct (str_eqb key "queue_expand"); [|done].
      destruct (_ || _) eqn:Ev; simplify_eq. split; try done. simpl.
      rewrite orb_true_iff, !str_eqb_true in Ev. destruct Ev as [->| ->]; set_solver.
Qed.

Lemma conf_lines_ok n lines p p' :
  file_ok (out p) -> conf_lines parse_url unicode_word n lines p = Ok p' -> file_ok (out p').
Proof using.
  revert n p. induction lines as [|line lines IH]; simpl; intros n p Hp H; [by simplify_eq|].
  destruct (conf_line _ _ n line p) as [p1|e] eqn:E; [|done].
  eapply IH; [|exact H]. by eapply conf_line_ok.
Qed.

Lemma conf_lines_app n l1 l2 p :
  conf_lines parse_url unicode_word n (l1 ++ l2) p
  = match conf_lines parse_url unicode_word n l1 p with
    | Ok p => conf_lines parse_url unicode_word (n + Z.of_nat (length l1)) l2 p
    | Err e => Err e
    end.
Proof using.
  revert n p. induction l1 as [|line l1 IH]; simpl; intros n p; [by rewrite Z.add_0_r|].
  destruct (conf_line _ _ n line p) as [p1|e]; [|done]. rewrite IH.
  replace (n + 1 + Z.of_nat (length l1)) with (n + Z.of_nat (S (length l1))) by lia. done.
Qed.

Lemma parsed_ok src f :
  parseQueueFile parse_url unicode_word src = Ok f -> file_ok f.
Proof using.
  unfold parseQueueFile. rewrite res_bind_ok. intros (p & Hp & H).
  apply res_bind_ok in H as (_ & _ & [= <-]). eapply conf_lines_ok; [|exact Hp].
  split; simpl; try done; try set_solver; by left.
Qed.

(** *** A statement as it is printed *)

Lemma TrimSuffix_one s c : HasSuffix (s +:+ String c "") (String c "") = true
  /\ TrimSuffix (s +:+ String c "") (String c "") = s.
Proof using.
  assert (HasSuffix (s +:+ String c "") (String c "") = true) as H.
  { unfold HasSuffix. rewrite str_rev_app. apply HasPrefix_spec. by eexists. }
  split; [done|]. unfold TrimSuffix. rewrite H, str_length_app. simpl.
  replace (String.length s + 1 - 1)%nat with (String.length s) by lia.
  clear H. induction s as [|a s IH]; [done|]. simpl. by rewrite IH.
Qed.

Lemma writable_plain v : writable v = true -> forallb plain (str_bytes v) = true.
Proof using. apply forallb_weaken. intros a H. by bool_prop. Qed.

Lemma writable_no v c : (plain c && negb (ascii_eqb c "#")) = false -> writable v = true ->
  has_byte c v = false.
Proof using. intros. by apply (forallb_no_byte (fun a => plain a && negb (ascii_eqb a "#"))). Qed.

Lemma stmt_text key v :
  key <> "" -> writable key = true -> v <> "" -> writable v = true ->
  confText (stmt key v) = stmt key v.
Proof using.
  intros Hk Hkw Hv Hvw. unfold confText. rewrite Cut_none.
  - apply TrimSpace_ends.
    + apply writable_plain in Hkw. destruct key; [done|]. simpl in *. by bool_prop.
    + unfold stmt. rewrite !str_rev_app. done.
  - unfold stmt. by rewrite !has_byte_app, (writable_no key "#"), (writable_no v "#").
Qed.

Lemma stmt_directive key v :
  isConfName unicode_word key = true -> writable key = true -> v <> "" -> writable v = true ->
  directive unicode_word (stmt key v) = Ok (key, v).
Proof using.
  intros Hk Hkw Hv Hvw. unfold directive, requireSemicolon, stmt.
  assert (key <> "") as Hk0 by (by intros ->).
  rewrite (str_app_assoc " " v), (str_app_assoc key).
  destruct (TrimSuffix_one (key +:+ (" " +:+ v)) ";") as [-> ->].
  cbn [negb]. change (" " +:+ v) with (String " " v).
  assert (TrimSpace (key +:+ String " " v) = key +:+ String " " v) as Ht.
  { apply TrimSpace_ends.
    - apply writable_plain in Hkw. destruct key; [done|]. simpl in *. by bool_prop.
    - change (String " " v) with (" " +:+ v). rewrite !str_rev_app.
      apply writable_plain in Hvw. apply head_plain_rev_all in Hvw.
      destruct (String.rev v) eqn:E; [|exact Hvw].
      exfalso. apply Hv. rewrite <- (str_rev_involutive v), E. done. }
  rewrite Ht. cbn [mbind res_bind]. unfold splitDirective. rewrite Ht. cbv zeta.
  rewrite (proj2 (str_eqb_false _ _)) by (destruct key; [done|discriminate]).
  rewrite Cut_app by by apply writable_no. rewrite Hk. simpl.
  rewrite TrimSpace_plain by by apply writable_plain.
  rewrite (proj2 (str_eqb_false v "")) by done.
  by rewrite !writable_no by done.
Qed.

Lemma stmt_line key v :
  key <> "" -> writable key = true -> v <> "" -> writable v = true ->
  confText (stmt key v) = stmt key v /\ stmt key v <> "" /\ stmt key v <> "}"
  /\ HasSuffix (stmt key v) "{" = false.
Proof using.
  intros Hk Hkw Hv Hvw. split; [by apply stmt_text|]. unfold stmt.
  destruct key as [|a key]; [done|]. split; [done|]. split.
  - intros [= -> H]. destruct key; discriminate.
  - unfold HasSuffix. rewrite !str_rev_app. reflexivity.
Qed.

(** A directive outside a block. *)
Lemma conf_line_stmt n key v p o :
  key ∈ ["queue_max"; "queue_full"; "queue_expand"] -> v <> "" -> writable v = true ->
  block p = "" -> key ∉ seen p -> set_key key v (out p) = Ok o ->
  conf_line parse_url unicode_word n (stmt key v) p = Ok (set_out o (mark key p)).
Proof using.
  intros Hk Hv Hvw Hb Hs Ho.
  assert (key <> "" /\ writable key = true /\ isConfName unicode_word key = true) as (Hk0 & Hkw & Hkn).
  { apply elem_of_cons in Hk as [->|Hk]; [done|]. apply elem_of_cons in Hk as [->|Hk]; [done|].
    by apply list_elem_of_singleton in Hk as ->. }
  destruct (stmt_line key v) as (Ht & He & Hc & Hx); [done..|].
  unfold conf_line. rewrite Ht, Hx, Hb. cbv zeta. apply str_eqb_false in He, Hc. rewrite He, Hc.
  cbn [negb]. rewrite str_eqb_refl. cbn [negb]. rewrite stmt_directive by done. cbn [mbind res_bind].
  unfold has_seen. rewrite bool_decide_eq_false_2 by done. cbn. by rewrite Ho.
Qed.

(** One inside the block. *)
Lemma conf_line_redis n key v p :
  key ∈ ["url"; "internal"] -> v <> "" -> writable v = true -> isRedisURL parse_url v = true ->
  block p = "redis" -> "redis." +:+ key ∉ seen p ->
  exists p', conf_line parse_url unicode_word n (stmt key v) p = Ok p'
    /\ block p' = "redis" /\ seen p' = {["redis." +:+ key]} ∪ seen p
    /\ f_Max (out p') = f_Max (out p) /\ f_Full (out p') = f_Full (out p)
    /\ f_Expand (out p') = f_Expand (out p)
    /\ f_RedisURL (out p') = (if str_eqb key "url" then v else f_RedisURL (out p))
    /\ f_RedisInternal (out p') = (if str_eqb key "url" then f_RedisInternal (out p) else v).
Proof using.
  intros Hk Hv Hvw Hu Hb Hs.
  assert (key <> "" /\ writable key = true /\ isConfName unicode_word key = true
    /\ negb (str_eqb key "url") && negb (str_eqb key "internal") = false) as (Hk0 & Hkw & Hkn & Hkk).
  { apply elem_of_cons in Hk as [->|Hk]; [done|]. by apply list_elem_of_singleton in Hk as ->. }
  destruct (stmt_line key v) as (Ht & He & Hc & Hx); [done..|].
  unfold conf_line. rewrite Ht, Hb. cbv zeta. apply str_eqb_false in He, Hc. rewrite He, Hc.
  change (negb (str_eqb "redis" "")) with true. cbn [negb]. unfold parseRedisKey.
  rewrite stmt_directive by done. cbn [mbind res_bind]. cbv zeta.
  unfold has_seen. rewrite bool_decide_eq_false_2 by done. cbn [fail_if mbind res_bind].
  rewrite Hkk, Hu. cbn. eexists. split; [done|]. by destruct (str_eqb key "url").
Qed.

(** Directives that are printed only when they say something. *)
Lemma conf_lines_one n line p :
  conf_lines parse_url unicode_word n [line] p
  = match conf_line parse_url unicode_word n line p with Ok p => Ok p | Err e => Err (n, e) end.
Proof using. simpl. by destruct (conf_line _ _ n line p). Qed.

Lemma conf_stmt_unless n key v p o :
  key ∈ ["queue_max"; "queue_full"; "queue_expand"] -> block p = "" -> key ∉ seen p ->
  (v = "" -> o = out p) ->
  (v <> "" -> writable v = true /\ set_key key v (out p) = Ok o) ->
  exists p', conf_lines parse_url unicode_word n (stmt_unless_empty key v) p = Ok p'
    /\ out p' = o /\ block p' = "" /\ forall k, k ∈ seen p' -> k = key \/ k ∈ seen p.
Proof using.
  intros Hk Hb Hs He Hv. unfold stmt_unless_empty. destruct (str_eqb v "") eqn:E.
  - apply str_eqb_true in E. exists p. split_and!; [done|by rewrite He|done|by right].
  - apply str_eqb_false in E. destruct (Hv E) as [Hw Ho].
    rewrite conf_lines_one, (conf_line_stmt n key v p o) by done.
    eexists. split_and!; [done..|]. simpl. intros k [Hk'%elem_of_singleton|Hk']%elem_of_union; auto.
Qed.

Lemma redis_unless n key v p :
  key ∈ ["url"; "internal"] -> block p = "redis" -> "redis." +:+ key ∉ seen p ->
  (v = "" \/ isRedisURL parse_url v = true) -> (v <> "" -> writable v = true) ->
  (if str_eqb key "url" then f_RedisURL (out p) else f_RedisInternal (out p)) = "" ->
  exists p', conf_lines parse_url unicode_word n (stmt_unless_empty key v) p = Ok p'
    /\ block p' = "redis" /\ (forall k, k ∈ seen p' -> k = "redis." +:+ key \/ k ∈ seen p)
    /\ f_Max (out p') = f_Max (out p) /\ f_Full (out p') = f_Full (out p)
    /\ f_Expand (out p') = f_Expand (out p)
    /\ f_RedisURL (out p') = (if str_eqb key "url" then v else f_RedisURL (out p))
    /\ f_RedisInternal (out p') = (if str_eqb key "url" then f_RedisInternal (out p) else v).
Proof using.
  intros Hk Hb Hs Hu Hw Hz. unfold stmt_unless_empty. destruct (str_eqb v "") eqn:E.
  - apply str_eqb_true in E as ->. exists p. split_and!; [done|done|by right|done..| |];
      by destruct (str_eqb key "url").
  - apply str_eqb_false in E. destruct Hu as [Hu|Hu]; [done|]. rewrite conf_lines_one.
    destruct (conf_line_redis n key v p) as (p' & -> & Hb' & Hs' & H); auto.
    exists p'. split_and!; [done..| |apply H|apply H|apply H|apply H|apply H].
    rewrite Hs'. intros k [Hk'%elem_of_singleton|Hk']%elem_of_union; auto.
Qed.

Lemma Split_show_text lines :
  Forall (fun l => has_byte "010" l = false) lines -> Split "010" (show_text lines) = lines ++ [""].
Proof using.
  induction 1 as [|line lines H _ IH]; [done|]. simpl. rewrite Split_cons by done. by rewrite IH.
Qed.

Lemma Itoa_writable z : 0 <= z -> writable (Itoa z) = true /\ Itoa z <> "".
Proof using.
  intros Hz. split.
  - unfold writable. eapply forallb_weaken; [|by apply Itoa_digits]. intros a Ha.
    rewrite (digit_plain a Ha). apply negb_true_iff, ascii_eqb_false. intros ->. discriminate Ha.
  - intros H. destruct (Itoa_head z Hz) as (a & r & E & _). congruence.
Qed.

Lemma show_lines_flat f :
  file_ok f -> writable (f_RedisURL f) = true -> writable (f_RedisInternal f) = true ->
  Forall (fun l => has_byte "010" l = false) (show_lines f).
Proof using.
  intros [Hm Hf He _ _] Hu Hi.
  assert (forall key v, has_byte "010" key = false -> writable v = true ->
    Forall (fun l => has_byte "010" l = false) (stmt_unless_empty key v)) as H.
  { intros key v Hk Hv. unfold stmt_unless_empty. destruct (str_eqb v ""); [done|].
    apply list.Forall_singleton. unfold stmt.
    by rewrite !has_byte_app, Hk, (writable_no v "010") by done. }
  assert (forall v l, v ∈ l -> Forall (fun v => writable v = true) l -> writable v = true) as Hw.
  { intros v l Hv Hl. rewrite list.Forall_forall in Hl. by apply Hl. }
  unfold show_lines. rewrite !list.Forall_app. split_and!.
  - destruct (f_Max f) as [z|]; [|done]. apply list.Forall_singleton. unfold stmt.
    rewrite !has_byte_app. destruct (Itoa_writable z) as [Hz _]; [lia|].
    by rewrite (writable_no (Itoa z) "010").
  - apply H; [done|]. eapply Hw; [exact Hf|]. by repeat constructor.
  - apply H; [done|]. eapply Hw; [exact He|]. by repeat constructor.
  - by repeat constructor.
  - by apply H.
  - by apply H.
  - by repeat constructor.
Qed.

Lemma conf_line_open n p :
  block p = "" -> "redis" ∉ seen p ->
  conf_line parse_url unicode_word n "redis {" p = Ok (enter "redis" n (mark "redis" p)).
Proof using.
  intros Hb Hs. unfold conf_line. change (confText "redis {") with "redis {". cbv zeta. rewrite Hb.
  change (open_block "redis {" n p = Ok (enter "redis" n (mark "redis" p))).
  unfold open_block. change (TrimSpace (TrimSuffix "redis {" "{")) with "redis". cbv zeta.
  unfold has_seen. by rewrite bool_decide_eq_false_2.
Qed.

Lemma conf_line_close n p :
  block p = "redis" -> conf_line parse_url unicode_word n "}" p = Ok (enter "" (opened p) p).
Proof using.
  intros Hb. unfold conf_line. change (confText "}") with "}". cbv zeta. by rewrite Hb.
Qed.

Lemma set_full v o : v <> "" -> v ∈ [""; QueueFullDrop; QueueFullWait] ->
  writable v = true /\ set_key "queue_full" v o
    = Ok {| f_Max := f_Max o; f_Full := v; f_Expand := f_Expand o;
            f_RedisURL := f_RedisURL o; f_RedisInternal := f_RedisInternal o |}.
Proof using.
  intros Hne Hv. apply elem_of_cons in Hv as [?|Hv]; [done|].
  apply elem_of_cons in Hv as [->|Hv]; [done|]. by apply list_elem_of_singleton in Hv as ->.
Qed.

Lemma set_expand v o : v <> "" -> v ∈ [""; QueueExpandOff; QueueExpandAsk] ->
  writable v = true /\ set_key "queue_expand" v o
    = Ok {| f_Max := f_Max o; f_Full := f_Full o; f_Expand := v;
            f_RedisURL := f_RedisURL o; f_RedisInternal := f_RedisInternal o |}.
Proof using.
  intros Hne Hv. apply elem_of_cons in Hv as [?|Hv]; [done|].
  apply elem_of_cons in Hv as [->|Hv]; [done|]. by apply list_elem_of_singleton in Hv as ->.
Qed.

(** The lines of the number, the first ones. *)
Lemma show_max_parse f n :
  file_ok f ->
  let l := match f_Max f with Some z => [stmt "queue_max" (Itoa z)] | None => [] end in
  exists p, conf_lines parse_url unicode_word n l start = Ok p
    /\ out p = {| f_Max := f_Max f; f_Full := ""; f_Expand := ""; f_RedisURL := "";
                  f_RedisInternal := "" |}
    /\ block p = "" /\ forall k, k ∈ seen p -> k = "queue_max".
Proof using.
  intros [Hm _ _ _ _]. cbv zeta. destruct (f_Max f) as [z|]; [|by exists start].
  destruct (Itoa_writable z) as [Hz Hz0]; [lia|]. rewrite conf_lines_one.
  rewrite (conf_line_stmt n "queue_max" (Itoa z) start
    {| f_Max := Some z; f_Full := ""; f_Expand := ""; f_RedisURL := ""; f_RedisInternal := "" |});
    try done.
  - eexists. split_and!; [done..|]. simpl. intros k [Hk%elem_of_singleton|Hk]%elem_of_union; done.
  - left.
  - unfold set_key. rewrite str_eqb_refl, Atoi_Itoa.
    + by rewrite (proj2 (Z.ltb_ge z 1)) by lia.
    + unfold in_int64, min_int64. unfold max_int64 in *. lia.
Qed.

Lemma show_lines_parse f n :
  file_ok f -> writable (f_RedisURL f) = true -> writable (f_RedisInternal f) = true ->
  exists p, conf_lines parse_url unicode_word n (show_lines f) start = Ok p
    /\ block p = "" /\ out p = f.
Proof using.
  intros Hok Huw Hiw. unfold show_lines. rewrite conf_lines_app.
  destruct (show_max_parse f n Hok) as (p1 & -> & O1 & B1 & S1). destruct Hok as [Hm Hf He Hu Hi].
  set (l1 := match f_Max f with Some z => _ | None => _ end).
  rewrite conf_lines_app.
  destruct (conf_stmt_unless (n + Z.of_nat (length l1)) "queue_full" (f_Full f) p1
    {| f_Max := f_Max f; f_Full := f_Full f; f_Expand := ""; f_RedisURL := ""; f_RedisInternal := "" |})
    as (p2 & -> & O2 & B2 & S2); [set_solver|done|by intros H%S1|by intros ->| |].
  { intros Hne. rewrite O1. by apply set_full. }
  rewrite conf_lines_app.
  match goal with |- context [conf_lines _ _ ?m (stmt_unless_empty "queue_expand" _)] =>
    destruct (conf_stmt_unless m "queue_expand" (f_Expand f) p2
    {| f_Max := f_Max f; f_Full := f_Full f; f_Expand := f_Expand f; f_RedisURL := "";
       f_RedisInternal := "" |}) as (p3 & -> & O3 & B3 & S3) end;
    [set_solver|done|by intros [?|?%S1]%S2|intros ->; by rewrite O2| |].
  { intros Hne. rewrite O2. by apply set_expand. }
  rewrite conf_lines_app, conf_lines_one. rewrite conf_line_open by first [done|by intros [?|[?|?%S1]%S2]%S3].
  set (p4 := enter _ _ _). rewrite conf_lines_app.
  match goal with |- context [conf_lines _ _ ?m (stmt_unless_empty "url" _)] =>
    destruct (redis_unless m "url" (f_RedisURL f) p4)
    as (p5 & -> & B5 & S5 & M5 & F5 & E5 & U5 & I5) end; try done.
  { left. }
  { simpl. intros [Hk%elem_of_singleton|[?|[?|?%S1]%S2]%S3]%elem_of_union; done. }
  { by simpl; rewrite O3. }
  rewrite conf_lines_app.
  match goal with |- context [conf_lines _ _ ?m (stmt_unless_empty "internal" _)] =>
    destruct (redis_unless m "internal" (f_RedisInternal f) p5)
    as (p6 & -> & B6 & S6 & M6 & F6 & E6 & U6 & I6) end; try done.
  { right. left. }
  { intros [?|[Hk%elem_of_singleton|[?|[?|?%S1]%S2]%S3]%elem_of_union]%S5; done. }
  { simpl. by rewrite I5; simpl; rewrite O3. }
  rewrite conf_lines_one, conf_line_close by done. eexists. split; [done|]. split; [done|].
  simpl. destruct (out p6) as [m6 f6 e6 u6 i6], f as [m0 f0 e0 u0 i0]. simpl in *.
  rewrite O3 in *. simpl in *. congruence.
Qed.

(** *** Where an error is *)

(** An error comes from one line, after those before it went well. *)
Lemma conf_lines_err n lines p m e :
  conf_lines parse_url unicode_word n lines p = Err (m, e) ->
  exists before line after p', lines = before ++ line :: after
    /\ m = n + Z.of_nat (length before)
    /\ conf_lines parse_url unicode_word n before p = Ok p'
    /\ conf_line parse_url unicode_word m line p' = Err e.
Proof using.
  revert n p. induction lines as [|line lines IH]; simpl; intros n p H; [done|].
  destruct (conf_line _ _ n line p) as [p1|e1] eqn:E.
  - destruct (IH _ _ H) as (before & line' & after & p' & -> & -> & H1 & H2).
    exists (line :: before), line', after, p'. split_and!; [done|simpl; lia| |done].
    simpl. by rewrite E.
  - simplify_eq. exists [], line, lines, p. split_and!; try done. simpl. lia.
Qed.

(** An open block was opened at the line the parser remembers. *)
Definition opened_at (lines : list string) (p : Parser) : Prop :=
  block p <> "" -> exists before line after, lines = before ++ line :: after
    /\ opened p = 1 + Z.of_nat (length before) /\ HasSuffix (confText line) "{" = true.

Lemma conf_line_block n line p p' :
  conf_line parse_url unicode_word n line p = Ok p' -> block p' <> "" ->
  (block p <> "" /\ opened p' = opened p)
  \/ (opened p' = n /\ HasSuffix (confText line) "{" = true).
Proof using.
  unfold conf_line. cbv zeta. destruct (str_eqb _ "") eqn:E0; [intros [= <-]; auto|].
  destruct (negb (str_eqb (block p) "")) eqn:Eb.
  - apply negb_true_iff, str_eqb_false in Eb. destruct (str_eqb _ "}"); [by intros [= <-]|].
    unfold parseRedisKey.
    rewrite res_bind_ok. intros ([key value] & _ & H). cbv zeta in H.
    apply res_bind_ok in H as (_ & _ & H). apply res_bind_ok in H as (_ & _ & H).
    apply res_bind_ok in H as (_ & _ & [= <-]). by left.
  - apply negb_false_iff, str_eqb_true in Eb. destruct (str_eqb _ "}"); [done|].
    destruct (HasSuffix _ "{") eqn:Ex.
    + unfold open_block. cbv zeta. intros H. apply res_bind_ok in H as (_ & _ & H).
      apply res_bind_ok in H as (_ & _ & [= <-]). by right.
    + rewrite res_bind_ok. intros ([key value] & _ & H).
      apply res_bind_ok in H as (_ & _ & H). by apply res_bind_ok in H as (o & _ & [= <-]).
Qed.

Lemma conf_lines_block done_lines lines p p' :
  opened_at done_lines p ->
  conf_lines parse_url unicode_word (1 + Z.of_nat (length done_lines)) lines p = Ok p' ->
  opened_at (done_lines ++ lines) p'.
Proof using.
  revert done_lines p. induction lines as [|line lines IH]; simpl; intros dl p Hp H.
  { simplify_eq. by rewrite app_nil_r. }
  destruct (conf_line _ _ _ line p) as [p1|e] eqn:E; [|done].
  change (line :: lines) with ([line] ++ lines). rewrite (app_assoc dl). apply (IH _ p1).
  - intros Hb. destruct (conf_line_block _ _ _ _ E Hb) as [[Hb0 Ho]|[Ho Hx]].
    + destruct (Hp Hb0) as (b & l & a & -> & Hl & Hx). exists b, l, (a ++ [line]).
      split_and!; [by rewrite <- app_assoc|congruence|done].
    + by exists dl, line, [].
  - rewrite length_app. simpl. by replace (1 + Z.of_nat (length dl + 1))
      with (1 + Z.of_nat (length dl) + 1) by lia.
Qed.
End spec.

(** ** Sample *)

Definition sample_url (s : string) : option (string * string) :=
  match Cut ":" s with
  | Some (scheme, rest) => Some (scheme, TrimPrefix rest "//")
  | None => None
  end.

Definition sample_file : queueFile :=
  {| f_Max := Some 256; f_Full := "drop"; f_Expand := ""; f_RedisURL := "redis://redis:6379";
     f_RedisInternal := "" |}.

(** ** Properties *)

(** Whatever the text, a file that is accepted says only what the queue and the
    stores can use: a positive queue length in the range of the machine, the words for
    a full queue and for its expansion, addresses of the Redis schemes with a host. *)
Lemma parseQueueFile_ok parse_url unicode_word src f :
  parseQueueFile parse_url unicode_word src = Ok f -> file_ok parse_url f.
Proof. apply parsed_ok. Qed.

Lemma parseQueueFile_ok_witness :
  exists f, parseQueueFile sample_url (fun _ => false) (show_text (show_lines sample_file)) = Ok f
  /\ file_ok sample_url f.
Proof.
  destruct (parseQueueFile sample_url (fun _ => false) (show_text (show_lines sample_file)))
    as [f|e] eqn:E; [|vm_compute in E; discriminate E].
  exists f. split; [reflexivity|]. exact (parseQueueFile_ok sample_url (fun _ => false) _ f E).
Defined.

(** C30: What is printed for the settings of a file is read back, whichever of them are
    given, as long as the addresses can be written on a line. *)
Theorem parseQueueFile_show parse_url unicode_word f :
  file_ok parse_url f -> writable (f_RedisURL f) = true -> writable (f_RedisInternal f) = true ->
  parseQueueFile parse_url unicode_word (show_text (show_lines f)) = Ok f.
Proof.
  intros Hok Hu Hi. destruct (show_lines_parse parse_url unicode_word f 1 Hok Hu Hi)
    as (p & Hp & Hb & Ho). unfold parseQueueFile.
  rewrite Split_show_text by by apply (show_lines_flat parse_url).
  rewrite conf_lines_app, Hp, conf_lines_one. simpl. by rewrite Hb, Ho.
Qed.

Lemma parseQueueFile_show_witness :
  file_ok sample_url sample_file
  /\ parseQueueFile sample_url (fun _ => false) (show_text (show_lines sample_file)) = Ok sample_file.
Proof.
  assert (file_ok sample_url sample_file) as H.
  { split; simpl.
    - unfold max_int64. lia.
    - right. left.
    - left.
    - right. vm_compute. reflexivity.
    - left. reflexivity. }
  split; [exact H|]. apply (parseQueueFile_show sample_url (fun _ => false) sample_file H).
  - vm_compute. reflexivity.
  - vm_compute. reflexivity.
Defined.

(** C31: An error names the line it is on: the lines before it are accepted and any other
    text that starts with the same lines up to this one has the same error; a block
    that is not closed is reported at the line that opens it. *)
Theorem parseQueueFile_error parse_url unicode_word src n e :
  parseQueueFile parse_url unicode_word src = Err (n, e) ->
  exists before line after, Split "010" src = before ++ line :: after
  /\ n = 1 + Z.of_nat (length before)
  /\ is_ok (conf_lines parse_url unicode_word 1 before start) = true
  /\ ((forall src' after', Split "010" src' = before ++ line :: after' ->
          parseQueueFile parse_url unicode_word src' = Err (n, e))
      \/ (exists b, e = NotClosed b) /\ HasSuffix (confText line) "{" = true).
Proof.
  unfold parseQueueFile. intros H. apply res_bind_err in H as [H|(p & Hp & H)].
  - apply conf_lines_err in H as (before & line & after & p' & Hl & -> & H1 & H2).
    exists before, line, after. rewrite H1. split_and!; [done..|]. left. intros src' after' ->.
    rewrite conf_lines_app, H1. simpl. by rewrite H2.
  - apply res_bind_err in H as [H|(u & _ & H)]; [|done].
    destruct (negb (str_eqb (block p) "")) eqn:Eb; simplify_eq/=.
    apply negb_true_iff, str_eqb_false in Eb.
    destruct (conf_lines_block parse_url unicode_word [] (Split "010" src) start p)
      as (before & line & after & Hl & Hn & Hx); [by intros []|exact Hp|exact Eb|].
    simpl in Hl. rewrite Hl, conf_lines_app in Hp.
    destruct (conf_lines parse_url unicode_word 1 before start) as [p1|] eqn:E1; [|done].
    exists before, line, after. rewrite E1. split_and!; [done..|]. right. eauto.
Qed.

Lemma parseQueueFile_error_witness :
  let src := "queue_max 5;" +:+ String "010" "queue_full never;" in
  exists n e, parseQueueFile sample_url (fun _ => false) src = Err (n, e)
  /\ exists before line after, Split "010" src = before ++ line :: after
       /\ n = 1 + Z.of_nat (length before).
Proof.
  cbv zeta. destruct (parseQueueFile sample_url (fun _ => false)
    ("queue_max 5;" +:+ String "010" "queue_full never;")) as [f|[n e]] eqn:E;
    [vm_compute in E; discriminate E|].
  exists n, e. split; [reflexivity|].
  destruct (parseQueueFile_error sample_url (fun _ => false) _ n e E)
    as (before & line & after & Hl & Hn & _).
  exists before, line, after. split; [exact Hl|exact Hn].
Defined.
