(* ===== verification/Config.v ===== *)
(** * The settings of the process: [internal/config/config.go], [logship.go]

    [Load] reads the environment and the file, in this order of strength, and checks
    the result. What the system answers is the record [System]; [level_of] is the
    parser of log levels of the shared module, and [parse_url] and [unicode_word]
    are as in [ConfFile.v]. A duration is a number of nanoseconds. *)

From S2P Require Import Prelude GoString GoOS ConfFile.
From stdpp Require Import options.

Local Open Scope Z_scope.

Record Config := {
  Servers : list string; Subject : string; cfg_Name : string; Queue : string;
  ProfilesDir : string; DataDir : string;
  Workers : Z; QueueDepth : Z; QueueFull : string; QueueExpand : string; ConfPath : string;
  ReserveMS : Z; MinBudgetMS : Z;
  DenyRuleIDs : list string; DenyTags : list string;
  RedisURL : string; InternalURL : string; InternalFrom : string;
  GeoAddr : string; GeoTimeout : Z; GeoNegMax : Z; SecretsDir : string; StatusMapPath : string;
  Versions : list Z; LogLevel : Z; HeartbeatEvery : Z; ResumeMax : Z; ResumeTTL : Z }.

Inductive ConfigError :=
| NotInt (name : string) | NotDuration (name : string) | NotPositive (name : string)
| NoFile (path : string) | BadLine (path : string) (line : Z) (e : LineError)
| BadLevel | NoServers | EmptyName | BadWorkers | BadDepth | BadQueueFull | BadQueueExpand
| NegativeResume | NoResumeTTL | NegativeBudget | NoVersions
| NoProfilesDir | NoDataDir.

(** What the system answers; a value of the environment may be set and empty. *)
Record System := {
  LookupEnv : string -> option string;
  ReadFile : string -> option string;
  is_file : string -> bool;
  Getwd : option string;
  Hostname : option string;
  GOMAXPROCS : Z }.

Section config.
Context (parse_url : string -> option (string * string)) (unicode_word : Z -> bool).
Context (level_of : string -> option Z) (sys : System).

(** ** Reading one setting *)

(** A value that is set and not empty. *)
Definition lookup (name : string) : option string :=
  match LookupEnv sys name with
  | Some v => if str_eqb v "" then None else Some v
  | None => None
  end.

Definition env (name def : string) : string := default def (lookup name).

Definition envInt (name : string) (def : Z) : res ConfigError Z :=
  match lookup name with
  | None => Ok def
  | Some raw => match Atoi (TrimSpace raw) with Some v => Ok v | None => Err (NotInt name) end
  end.

Definition splitList (s : string) : list string :=
  List.filter (fun part => negb (str_eqb part "")) (TrimSpace <$> Split "," s).

Fixpoint parse_ints (name : string) (parts : list string) : res ConfigError (list Z) :=
  match parts with
  | [] => Ok []
  | part :: parts =>
      match Atoi part with
      | None => Err (NotInt name)
      | Some v => vs ← parse_ints name parts; Ok (v :: vs)
      end
  end.

Definition envIntList (name : string) (def : list Z) : res ConfigError (list Z) :=
  match lookup name with
  | None => Ok def
  | Some raw => parse_ints name (splitList raw)
  end.

Definition envDuration (name : string) (def : Z) : res ConfigError Z :=
  match lookup name with
  | None => Ok def
  | Some raw =>
      match ParseDuration (TrimSpace raw) with
      | None => Err (NotDuration name)
      | Some d => if d <=? 0 then Err (NotPositive name) else Ok d
      end
  end.

Definition parseLevel (s : string) : res ConfigError Z :=
  match level_of s with Some l => Ok l | None => Err BadLevel end.

Definition loadQueueFile (path : string) : res ConfigError queueFile :=
  match ReadFile sys path with
  | None => Err (NoFile path)
  | Some raw =>
      match parseQueueFile parse_url unicode_word raw with
      | Ok f => Ok f
      | Err (n, e) => Err (BadLine path n e)
      end
  end.

(** ** Checking *)

Definition validate (c : Config) : res ConfigError Config :=
  fail_if (length (Servers c) =? 0)%nat NoServers;;
  fail_if (str_eqb (Subject c) "" || str_eqb (cfg_Name c) "" || str_eqb (Queue c) "") EmptyName;;
  fail_if (Workers c <? 1) BadWorkers;;
  fail_if (QueueDepth c <? 1) BadDepth;;
  fail_if (negb (str_eqb (QueueFull c) QueueFullDrop || str_eqb (QueueFull c) QueueFullWait))
    BadQueueFull;;
  fail_if (negb (str_eqb (QueueExpand c) QueueExpandOff || str_eqb (QueueExpand c) QueueExpandAsk))
    BadQueueExpand;;
  fail_if (ResumeMax c <? 0) NegativeResume;;
  fail_if ((0 <? ResumeMax c) && (ResumeTTL c <=? 0)) NoResumeTTL;;
  fail_if ((ReserveMS c <? 0) || (MinBudgetMS c <? 0)) NegativeBudget;;
  fail_if (length (Versions c) =? 0)%nat NoVersions;;
  match Abs (Getwd sys) (ProfilesDir c) with
  | None => Err NoProfilesDir
  | Some abs =>
      let data := if str_eqb (DataDir c) "" then abs +:+ ".applied" else DataDir c in
      match Abs (Getwd sys) data with
      | None => Err NoDataDir
      | Some data =>
          Ok {| Servers := Servers c; Subject := Subject c; cfg_Name := cfg_Name c; Queue := Queue c;
                ProfilesDir := abs; DataDir := data;
                Workers := Workers c; QueueDepth := QueueDepth c; QueueFull := QueueFull c;
                QueueExpand := QueueExpand c; ConfPath := ConfPath c;
                ReserveMS := ReserveMS c; MinBudgetMS := MinBudgetMS c;
                DenyRuleIDs := DenyRuleIDs c; DenyTags := DenyTags c;
                RedisURL := RedisURL c; InternalURL := InternalURL c; InternalFrom := InternalFrom c;
                GeoAddr := GeoAddr c; GeoTimeout := GeoTimeout c; GeoNegMax := GeoNegMax c;
                SecretsDir := SecretsDir c; StatusMapPath := StatusMapPath c;
                Versions := Versions c; LogLevel := LogLevel c; HeartbeatEvery := HeartbeatEvery c;
                ResumeMax := ResumeMax c; ResumeTTL := ResumeTTL c |}
      end
  end.

(** ** Loading *)

Definition queue_defaults : queueSettings :=
  {| Max := 256; Full := QueueFullDrop; Expand := QueueExpandOff |}.

Definition no_queue_file : queueFile :=
  {| f_Max := None; f_Full := ""; f_Expand := ""; f_RedisURL := ""; f_RedisInternal := "" |}.

Definition Load : res ConfigError Config :=
  let name := env "WAF_MODSEC_NAME" "modsec" in
  workers ← envInt "WAF_MODSEC_WORKERS" (GOMAXPROCS sys);
  let path := confPath (LookupEnv sys) (is_file sys) "WAF_MODSEC_CONF" in
  file ← (if str_eqb path "" then Ok no_queue_file else loadQueueFile path);
  let q := if str_eqb path "" then queue_defaults else applyQueueFile queue_defaults file in
  let redis := exchangeRedis (LookupEnv sys) file in
  let '(internal, from) := internalRedis (LookupEnv sys) path file redis in
  depth ← envInt "WAF_MODSEC_QUEUE_DEPTH" (Max q);
  reserve ← envInt "WAF_MODSEC_RESERVE_MS" 2;
  min_budget ← envInt "WAF_MODSEC_MIN_BUDGET_MS" 3;
  versions ← envIntList "WAF_MODSEC_VERSIONS" [2];
  level ← parseLevel (env "WAF_MODSEC_LOG" "info");
  geo_timeout ← envDuration "WAF_MODSEC_GEO_TIMEOUT" (500 * 10 ^ 6);
  geo_neg ← envInt "WAF_MODSEC_GEO_NEG_MAX" 0;
  beat ← envDuration "WAF_HEARTBEAT_EVERY" (4 * 10 ^ 9);
  resume_max ← envInt "WAF_MODSEC_RESUME_MAX" (wrap64 (depth * 4));
  resume_ttl ← envDuration "WAF_MODSEC_RESUME_TTL" (30 * 10 ^ 9);
  validate
    {| Servers := splitList (env "NATS_URL" "nats://127.0.0.1:4222");
       Subject := env "WAF_MODSEC_SUBJECT" "waf.req.modsec";
       cfg_Name := name; Queue := env "WAF_MODSEC_QUEUE" name;
       ProfilesDir := env "WAF_MODSEC_PROFILES" "./profiles";
       DataDir := env "WAF_MODSEC_DATA" "";
       Workers := workers; QueueDepth := depth;
       QueueFull := envOverride (LookupEnv sys) "WAF_MODSEC_QUEUE_FULL" (Full q);
       QueueExpand := envOverride (LookupEnv sys) "WAF_MODSEC_QUEUE_EXPAND" (Expand q);
       ConfPath := path; ReserveMS := reserve; MinBudgetMS := min_budget;
       DenyRuleIDs := splitList (env "WAF_MODSEC_DENY_RULE_IDS" "");
       DenyTags := splitList (env "WAF_MODSEC_DENY_TAGS" "");
       RedisURL := redis; InternalURL := internal; InternalFrom := from;
       GeoAddr := env "WAF_MODSEC_GEO_ADDR" ""; GeoTimeout := geo_timeout; GeoNegMax := geo_neg;
       SecretsDir := env "WAF_MODSEC_SECRETS" "";
       StatusMapPath := env "WAF_MODSEC_STATUS_MAP" "./status_map.yaml";
       Versions := versions; LogLevel := level; HeartbeatEvery := beat;
       ResumeMax := resume_max; ResumeTTL := resume_ttl |}.

Definition Supports (c : Config) (v : Z) : bool := existsb (fun known => known =? v) (Versions c).

(** ** Shipping of the log *)

Definition Getenv (name : string) : string := default "" (LookupEnv sys name).

Definition LogShip : bool :=
  negb (existsb (str_eqb (ToLower (TrimSpace (Getenv "WAF_LOG_SHIP")))) ["off"; "0"; "no"; "false"]).

Definition LogWriter (fallback : string) : string :=
  let v := TrimSpace (Getenv "WAF_LOG_WRITER") in
  if negb (str_eqb v "") then v
  else match Hostname sys with
       | Some name => if negb (str_eqb name "") then name else fallback
       | None => fallback
       end.
End config.

(** ** Specification *)

Section spec.
Context (parse_url : string -> option (string * string)) (unicode_word : Z -> bool).
Context (level_of : string -> option Z) (sys : System).

(** What the rest of the program relies on: the pool has workers and room, the
    registry of kept transactions has a time limit, no ticker has a period that is not
    positive, and the directories do not depend on the working directory. *)
Record config_ok (c : Config) : Prop := {
  v_Servers : Servers c <> [] /\ Forall (fun s => s <> "") (Servers c);
  v_names : Subject c <> "" /\ cfg_Name c <> "" /\ Queue c <> "";
  v_Workers : 1 <= Workers c;
  v_QueueDepth : 1 <= QueueDepth c <= max_int64;
  v_QueueFull : QueueFull c ∈ [QueueFullDrop; QueueFullWait];
  v_QueueExpand : QueueExpand c ∈ [QueueExpandOff; QueueExpandAsk];
  v_budget : 0 <= ReserveMS c /\ 0 <= MinBudgetMS c;
  v_Versions : Versions c <> [];
  v_Resume : 0 <= ResumeMax c <= max_int64 /\ 0 < ResumeTTL c;
  v_clocks : 0 < HeartbeatEvery c /\ 0 < GeoTimeout c;
  v_dirs : IsAbs (ProfilesDir c) = true /\ IsAbs (DataDir c) = true }.

(** The file that [Load] reads, if there is one. *)
Definition file_read (f : queueFile) : Prop :=
  let path := confPath (LookupEnv sys) (is_file sys) "WAF_MODSEC_CONF" in
  if str_eqb path "" then f = no_queue_file
  else exists raw, ReadFile sys path = Some raw
       /\ parseQueueFile parse_url unicode_word raw = Ok f.

(** ** Lemmas *)

Lemma envInt_ok name def v :
  envInt sys name def = Ok v ->
  match lookup sys name with Some raw => Atoi (TrimSpace raw) = Some v | None => v = def end.
Proof using.
  unfold envInt. destruct (lookup sys name); [|by intros [= <-]].
  destruct (Atoi _); by intros [= <-].
Qed.

Lemma envInt_range name def v :
  envInt sys name def = Ok v -> min_int64 <= def <= max_int64 -> min_int64 <= v <= max_int64.
Proof using.
  intros H Hd. apply envInt_ok in H. destruct (lookup sys name); [by eapply Atoi_range|by subst].
Qed.

Lemma envDuration_pos name def d :
  envDuration sys name def = Ok d -> 0 < def -> 0 < d.
Proof using.
  unfold envDuration. destruct (lookup sys name); [|by intros [= <-]].
  destruct (ParseDuration _) as [z|]; [|done]. destruct (z <=? 0) eqn:E; [done|].
  intros [= <-] _. lia.
Qed.

Lemma splitList_nonempty s : Forall (fun x => x <> "") (splitList s).
Proof using.
  apply list.Forall_forall. intros x Hx. apply list_elem_of_In, List.filter_In in Hx as [_ Hx].
  apply negb_true_iff in Hx. by apply str_eqb_false.
Qed.

(** What [Load] has read when it calls [validate]. *)
Lemma Load_reads c :
  Load parse_url unicode_word level_of sys = Ok c ->
  exists c0 file, validate sys c0 = Ok c /\ file_read file
    /\ Forall (fun s => s <> "") (Servers c0)
    /\ QueueDepth c0 <= max_int64 /\ ResumeMax c0 <= max_int64
    /\ 0 < ResumeTTL c0 /\ 0 < HeartbeatEvery c0 /\ 0 < GeoTimeout c0
    /\ (match lookup sys "WAF_MODSEC_QUEUE_DEPTH" with
        | Some raw => Atoi (TrimSpace raw) = Some (QueueDepth c0)
        | None => QueueDepth c0 = default 256 (f_Max file)
        end)
    /\ QueueFull c0 = envOverride (LookupEnv sys) "WAF_MODSEC_QUEUE_FULL"
         (if str_eqb (f_Full file) "" then QueueFullDrop else f_Full file)
    /\ QueueExpand c0 = envOverride (LookupEnv sys) "WAF_MODSEC_QUEUE_EXPAND"
         (if str_eqb (f_Expand file) "" then QueueExpandOff else f_Expand file)
    /\ RedisURL c0 = exchangeRedis (LookupEnv sys) file
    /\ (InternalURL c0, InternalFrom c0)
       = internalRedis (LookupEnv sys) (ConfPath c0) file (RedisURL c0)
    /\ (lookup sys "WAF_MODSEC_RESUME_MAX" = None -> ResumeMax c0 = wrap64 (QueueDepth c0 * 4)).
Proof using.
  unfold Load. cbv zeta. rewrite res_bind_ok. intros (workers & Hw & H).
  apply res_bind_ok in H as (file & Hfile & H).
  set (path := confPath _ _ _) in *.
  destruct (internalRedis _ _ _ _) as [internal from] eqn:Ei.
  apply res_bind_ok in H as (depth & Hdepth & H). apply res_bind_ok in H as (reserve & _ & H).
  apply res_bind_ok in H as (min_budget & _ & H). apply res_bind_ok in H as (versions & _ & H).
  apply res_bind_ok in H as (lvl & _ & H). apply res_bind_ok in H as (geo & Hgeo & H).
  apply res_bind_ok in H as (neg & _ & H). apply res_bind_ok in H as (beat & Hbeat & H).
  apply res_bind_ok in H as (rmax & Hrmax & H). apply res_bind_ok in H as (ttl & Httl & H).
  assert (file_read file /\ (if str_eqb path "" then queue_defaults else applyQueueFile queue_defaults file)
    = applyQueueFile queue_defaults file /\ min_int64 <= default 256 (f_Max file) <= max_int64)
    as (Hf & Hq & Hmax).
  { unfold file_read. cbv zeta. fold path. unfold loadQueueFile in Hfile.
    destruct (str_eqb path ""); [by simplify_eq|].
    destruct (ReadFile sys path) as [raw|]; [|done].
    destruct (parseQueueFile _ _ raw) as [f|[n e]] eqn:Ep; simplify_eq.
    split; [by exists raw|]. split; [done|]. apply parsed_ok, k_Max in Ep.
    destruct (f_Max file); simpl; unfold min_int64, max_int64 in *; lia. }
  rewrite Hq in *. eexists _, file. split; [exact H|]. simpl.
  split_and!; try done.
  - apply splitList_nonempty.
  - by eapply envInt_range.
  - eapply envInt_range; [exact Hrmax|]. apply wrap64_range.
  - by eapply envDuration_pos.
  - by eapply envDuration_pos.
  - by eapply envDuration_pos.
  - by apply envInt_ok in Hdepth.
  - intros Hn. apply envInt_ok in Hrmax. by rewrite Hn in Hrmax.
Qed.
End spec.

(** ** Sample *)

Definition sample_level (s : string) : option Z := if str_eqb s "info" then Some 0 else None.

Definition sample_system : System :=
  {| LookupEnv := fun n => if str_eqb n "WAF_MODSEC_QUEUE_FULL" then Some " wait " else None;
     ReadFile := fun p => if str_eqb p "inspector.conf"
                          then Some (show_text (show_lines sample_file)) else None;
     is_file := str_eqb "inspector.conf"; Getwd := Some "/srv/waf"; Hostname := Some "h";
     GOMAXPROCS := 8 |}.

Definition sample_load : res ConfigError Config :=
  Load sample_url (fun _ => false) sample_level sample_system.

Lemma validate_settled sys c c' :
  validate sys c = Ok c' ->
  Forall (fun s => s <> "") (Servers c) -> QueueDepth c <= max_int64 -> ResumeMax c <= max_int64 ->
  0 < ResumeTTL c -> 0 < HeartbeatEvery c -> 0 < GeoTimeout c ->
  config_ok c'
  /\ QueueDepth c' = QueueDepth c /\ QueueFull c' = QueueFull c /\ QueueExpand c' = QueueExpand c
  /\ RedisURL c' = RedisURL c /\ InternalURL c' = InternalURL c /\ InternalFrom c' = InternalFrom c
  /\ ConfPath c' = ConfPath c /\ ResumeMax c' = ResumeMax c.
Proof.
  unfold validate. intros H Hs Hd Hr Ht Hb Hg.
  repeat match type of H with
  | (fail_if _ _ ;; _) = Ok _ => apply res_bind_ok in H as (? & ?%fail_if_ok & H)
  end.
  destruct (Abs (Getwd sys) (ProfilesDir c)) as [abs|] eqn:E1; [|done]. cbv zeta in H.
  destruct (Abs (Getwd sys) _) as [data|] eqn:E2 in H; [|done]. injection H as <-.
  apply Abs_rooted in E1, E2. bool_prop. rewrite ?str_eqb_false, ?orb_true_iff, ?str_eqb_true in *.
  split; [|done]. split; simpl; try done; try lia.
  - split; [|done]. by destruct (Servers c).
  - set_unfold. tauto.
  - set_unfold. tauto.
  - by destruct (Versions c).
Qed.

(** Also used for the start of the process. *)
Lemma Load_config_ok parse_url unicode_word level_of sys c :
  Load parse_url unicode_word level_of sys = Ok c -> config_ok c.
Proof.
  intros H. apply Load_reads in H as (c0 & file & Hv & _ & Hs & Hd & Hr & Ht & Hb & Hg & _).
  by apply (validate_settled sys c0 c).
Qed.

(** ** Properties *)

(** C22: Whatever the environment and the file say, settings that load are settings the
    program can run on: there is a server, the names are not empty, the pool has
    workers and room, the words are known, the times and the budgets are in range,
    every ticker has a positive period, and the directories are absolute. *)
Theorem Load_ok parse_url unicode_word level_of sys c :
  Load parse_url unicode_word level_of sys = Ok c -> config_ok c.
Proof. apply Load_config_ok. Qed.

Lemma Load_ok_witness :
  exists c, sample_load = Ok c /\ config_ok c.
Proof.
  unfold sample_load.
  destruct (Load sample_url (fun _ => false) sample_level sample_system) as [c|e] eqn:E;
    [|vm_compute in E; discriminate E].
  exists c. split; [reflexivity|]. exact (Load_ok _ _ _ _ c E).
Defined.

(** C32: Where a setting comes from: the environment before the file before the default,
    for the queue and for the addresses; the internal address falls back to that of
    the exchange and says so; the number of kept transactions is four times the length
    of the queue, in 64 bits, unless it is set. *)
Theorem Load_precedence parse_url unicode_word level_of sys c :
  Load parse_url unicode_word level_of sys = Ok c ->
  exists file, file_read parse_url unicode_word sys file
  /\ (match lookup sys "WAF_MODSEC_QUEUE_DEPTH" with
      | Some raw => Atoi (TrimSpace raw) = Some (QueueDepth c)
      | None => QueueDepth c = default 256 (f_Max file)
      end)
  /\ (QueueFull c = default (if str_eqb (f_Full file) "" then QueueFullDrop else f_Full file)
        (lookup_trimmed (LookupEnv sys) "WAF_MODSEC_QUEUE_FULL"))
  /\ (QueueExpand c = default (if str_eqb (f_Expand file) "" then QueueExpandOff else f_Expand file)
        (lookup_trimmed (LookupEnv sys) "WAF_MODSEC_QUEUE_EXPAND"))
  /\ (RedisURL c = default (f_RedisURL file) (lookup_trimmed (LookupEnv sys) "REDIS_URL"))
  /\ (match lookup_trimmed (LookupEnv sys) "REDIS_INTERNAL_URL" with
      | Some v => InternalURL c = v /\ InternalFrom c = "REDIS_INTERNAL_URL"
      | None =>
          (f_RedisInternal file <> "" /\ InternalURL c = f_RedisInternal file
             /\ InternalFrom c = ConfPath c)
          \/ (f_RedisInternal file = "" /\ InternalURL c = RedisURL c
             /\ InternalFrom c = if str_eqb (RedisURL c) "" then "" else InternalFromExchange)
      end)
  /\ (lookup sys "WAF_MODSEC_RESUME_MAX" = None -> ResumeMax c = wrap64 (QueueDepth c * 4)).
Proof.
  intros H. apply Load_reads in H as (c0 & file & Hv & Hf & Hs & Hd & Hr & Ht & Hb & Hg
    & H1 & H2 & H3 & H4 & H5 & H6).
  destruct (validate_settled sys c0 c) as (_ & E1 & E2 & E3 & E4 & E5 & E6 & E7 & E8); [done..|].
  exists file. rewrite E1, E2, E3, E4, E5, E6, E7, E8. split_and!; [done..| |done].
  revert H5. unfold internalRedis.
  destruct (lookup_trimmed _ "REDIS_INTERNAL_URL") as [v|]; [by intros [= -> ->]|].
  destruct (str_eqb (f_RedisInternal file) "") eqn:Ei; cbn [negb].
  - apply str_eqb_true in Ei. right. split; [done|].
    destruct (str_eqb (RedisURL c0) "") eqn:Er; cbn [negb] in H5; injection H5 as -> ->.
    + by apply str_eqb_true in Er.
    + done.
  - apply str_eqb_false in Ei. intros [= -> ->]. by left.
Qed.

Lemma Load_precedence_witness :
  exists c, sample_load = Ok c /\ QueueDepth c = 256 /\ QueueFull c = "wait"
  /\ InternalURL c = "redis://redis:6379" /\ InternalFrom c = "exchange" /\ ResumeMax c = 1024.
Proof.
  unfold sample_load.
  destruct (Load sample_url (fun _ => false) sample_level sample_system) as [c|e] eqn:E;
    [|vm_compute in E; discriminate E].
  exists c. split; [reflexivity|].
  destruct (Load_precedence _ _ _ _ c E) as (file & Hf & Hd & Hfull & _ & Hu & Hi & Hr).
  assert (file = sample_file) as ->.
  { unfold file_read in Hf. vm_compute (str_eqb (confPath _ _ _) "") in Hf.
    destruct Hf as (raw & Hraw & Hp). vm_compute in Hraw. injection Hraw as <-.
    vm_compute in Hp. injection Hp as <-. reflexivity. }
  assert (QueueDepth c = 256) as Hd' by (vm_compute; exact Hd).
  assert (QueueFull c = "wait") as Hfull' by (vm_compute; exact Hfull).
  assert (RedisURL c = "redis://redis:6379") as Hu' by (vm_compute; exact Hu).
  rewrite Hd' in Hr. split; [exact Hd'|]. split; [exact Hfull'|].
  change (lookup_trimmed _ _) with (@None string) in Hi.
  destruct Hi as [[Hx _]|(_ & Hi & Hj)]; [by destruct Hx|].
  rewrite Hu' in Hi, Hj. split; [exact Hi|]. split; [exact Hj|]. apply Hr. reflexivity.
Defined.

(** With nothing in the environment and no file the settings are the documented
    defaults. *)
Lemma Load_defaults parse_url unicode_word level_of sys d l :
  (forall n, LookupEnv sys n = None) -> (forall p, is_file sys p = false) ->
  Getwd sys = Some d -> level_of "info" = Some l -> 1 <= GOMAXPROCS sys ->
  exists profiles data,
    Abs (Some d) "./profiles" = Some profiles /\ Abs (Some d) (profiles +:+ ".applied") = Some data
    /\ Load parse_url unicode_word level_of sys = Ok
    {| Servers := ["nats://127.0.0.1:4222"]; Subject := "waf.req.modsec"; cfg_Name := "modsec";
       Queue := "modsec"; ProfilesDir := profiles; DataDir := data;
       Workers := GOMAXPROCS sys; QueueDepth := 256; QueueFull := "drop"; QueueExpand := "off";
       ConfPath := ""; ReserveMS := 2; MinBudgetMS := 3; DenyRuleIDs := []; DenyTags := [];
       RedisURL := ""; InternalURL := ""; InternalFrom := "";
       GeoAddr := ""; GeoTimeout := 500 * 10 ^ 6; GeoNegMax := 0; SecretsDir := "";
       StatusMapPath := "./status_map.yaml"; Versions := [2]; LogLevel := l;
       HeartbeatEvery := 4 * 10 ^ 9; ResumeMax := 4 * 256; ResumeTTL := 30 * 10 ^ 9 |}.
Proof.
  intros He Hf Hd Hl Hw.
  assert (forall n, lookup sys n = None) as Hlook by (intros n; unfold lookup; by rewrite He).
  assert (forall n, lookup_trimmed (LookupEnv sys) n = None) as Htrim
    by (intros n; unfold lookup_trimmed; by rewrite He).
  assert (forall p, exists q, Abs (Some d) p = Some q) as Habs
    by (intros p; unfold Abs; destruct (IsAbs p); eauto).
  destruct (Habs "./profiles") as [profiles Hp].
  destruct (Habs (profiles +:+ ".applied")) as [data Hdata].
  exists profiles, data. split; [done|]. split; [done|].
  unfold Load, env, envInt, envIntList, envDuration, envOverride, exchangeRedis, internalRedis, confPath.
  rewrite !Hlook, !Htrim. cbv zeta. cbn [List.find default]. rewrite !Hf.
  unfold parseLevel. cbn [default]. rewrite Hl. cbn [mbind res_bind str_eqb].
  unfold validate. cbn [Servers Subject cfg_Name Queue Workers QueueDepth QueueFull QueueExpand
    ResumeMax ResumeTTL ReserveMS MinBudgetMS Versions ProfilesDir DataDir default].
  rewrite Hd, Hp, (proj2 (Z.ltb_ge (GOMAXPROCS sys) 1)) by done. cbv zeta.
  change (str_eqb "" "") with true. cbv iota. rewrite Hdata. reflexivity.
Qed.

Lemma Load_defaults_witness :
  let sys := {| LookupEnv := fun _ => None; ReadFile := fun _ => None; is_file := fun _ => false;
                Getwd := Some "/app"; Hostname := None; GOMAXPROCS := 2 |} in
  exists c, Load sample_url (fun _ => false) sample_level sys = Ok c
  /\ ProfilesDir c = "/app/profiles" /\ DataDir c = "/app/profiles.applied" /\ QueueDepth c = 256.
Proof.
  intros sys.
  destruct (Load_defaults sample_url (fun _ => false) sample_level sys "/app" 0)
    as (p & q & Hp & Hq & HL).
  - reflexivity.
  - reflexivity.
  - reflexivity.
  - reflexivity.
  - simpl. lia.
  - eexists. split; [exact HL|]. simpl. vm_compute in Hp. injection Hp as <-.
    vm_compute in Hq. injection Hq as <-. split; [reflexivity|]. split; reflexivity.
Defined.
