(* ===== verification/Main.v ===== *)
(** * Start-up and wiring: [cmd/modsec/main.go]

    [run] loads the settings, the profiles and the options, connects, and builds the
    handler, the registry of kept transactions and the pool from them; [boot] is that
    part of it, up to the wait for a signal. What the process finds outside is the
    record [Outside]. [beat] is the message of the heartbeat. The theorem carries
    the checks of the settings over to the parts they configure; the lemmas on the first
    state and on the registry under the watcher are for [Service]. *)

From S2P Require Import Prelude GoString GoOS Protocol Engine Apply Overload PriorRules Policy AuditLog Verdict.
From S2P Require Queue Sticky.
From S2P Require Import Body Rules Lists Pack Deploy ConfFile.
From S2P Require AuditSink Config Handler HandlerLogic Watch.
From stdpp Require Import options.

Local Open Scope Z_scope.

Inductive StartError :=
| BadConfig (e : Config.ConfigError) | BadRules (e : BuildError) | BadStatusMap (e : MapError)
| BadRanges (e : string) | NoStore | NoBus | NoGeo | NoSubscription (subject : string) | NoLimit.

(** Outside the process: the system, the rule files, the services, and the codecs that
    the handler uses. [new_store] is [NewRedisStore] with the [Ping] after it;
    [open_bucket] says that [desired.Watch] finds its bucket. *)
Record Outside := {
  o_sys : Config.System;
  o_parse_url : string -> option (string * string);
  o_unicode_word : Z -> bool;
  o_level_of : string -> option Z;
  o_sources : Sources;
  o_status_map : string -> option (res unit string);
  new_store : string -> option StoreOps;
  connect : string -> bool;
  geo_New : string -> Z -> Z -> option Geo;
  geo_nil : Geo;
  nuid_Next : string;
  subscribe : string -> bool;
  SetPendingLimits : Z -> bool;
  OpenBlobs : string -> bool;
  open_bucket : bool;
  o_crypto : Crypto;
  o_json_Request : string -> option Request;
  o_json_Headers : string -> option (list (string * string));
  o_json_Reply : Reply -> option string;
  o_json_Event : Event -> option string }.

(** What runs until the signal: the settings, the handler with its first state, the
    pool, the subjects in the order of their subscription, the limit of messages that wait
    in the client of the bus, and whether the control plane is watched. *)
Record Service := {
  s_cfg : Config.Config; s_handler : Handler.handler; s_state : Handler.St;
  s_pool : Queue.State; s_subjects : list string; s_limit : Z; s_watches : bool }.

Definition joined (servers : list string) : string :=
  match servers with
  | [] => ""
  | s :: rest => fold_left (fun out s => out +:+ "," +:+ s) rest s
  end.

Definition lift_err {E F A} (f : E -> F) (r : res E A) : res F A :=
  match r with Ok a => Ok a | Err e => Err (f e) end.

Section boot.
Context (o : Outside).

Definition verdictOptions (cfg : Config.Config) : res StartError Options :=
  m ← lift_err BadStatusMap (LoadStatusMap (o_status_map o (Config.StatusMapPath cfg)));
  ranges ← lift_err BadRanges (ParseRanges (Config.DenyRuleIDs cfg));
  Ok {| opt_StatusMap := Some (default BuiltinStatusMap m);
        opt_Decisive := {| dec_Ranges := ranges; dec_Tags := list_to_set (Config.DenyTags cfg) |};
        ScalePercent := 0 |}.

Definition bodyLoader (cfg : Config.Config) : res StartError Loader :=
  if str_eqb (Config.RedisURL cfg) "" then Ok {| store := None; keys := None |}
  else match new_store o (Config.RedisURL cfg) with
       | None => Err NoStore
       | Some st => Ok {| store := Some st; keys := None |}
       end.

Definition resolver (cfg : Config.Config) : res StartError Geo :=
  if str_eqb (Config.GeoAddr cfg) "" then Ok (geo_nil o)
  else match geo_New o (Config.GeoAddr cfg) (Config.GeoTimeout cfg) (Config.GeoNegMax cfg) with
       | None => Err NoGeo
       | Some g => Ok g
       end.

(** The control plane is watched when it can be: a failure is logged, no more. *)
Definition watches (cfg : Config.Config) : bool :=
  negb (str_eqb (Config.InternalURL cfg) "") && OpenBlobs o (Config.InternalURL cfg)
  && open_bucket o.

(** The subscriptions, one after the other. *)
Definition subscribe_all (subjects : list string) : res StartError unit :=
  try_each (fun s => fail_if (negb (subscribe o s)) (NoSubscription s)) subjects.

Definition boot : res StartError Service :=
  cfg ← lift_err BadConfig (Config.Load (o_parse_url o) (o_unicode_word o) (o_level_of o) (o_sys o));
  registry ← lift_err BadRules (New (o_sources o) (Config.ProfilesDir cfg) (Config.DataDir cfg));
  opts ← verdictOptions cfg;
  loader ← bodyLoader cfg;
  fail_if (negb (connect o (joined (Config.Servers cfg)))) NoBus;;
  geo ← resolver cfg;
  let keeps := 0 <? Config.ResumeMax cfg in
  let inbox := if keeps then Config.Subject cfg +:+ ".i." +:+ nuid_Next o else "" in
  let limit := wrap64 (Config.QueueDepth cfg + Config.Workers cfg + 2) in
  let private := if keeps then [inbox; Config.Subject cfg +:+ ".release"] else [] in
  subscribe_all [Config.Subject cfg];;
  fail_if (negb (SetPendingLimits o limit)) NoLimit;;
  subscribe_all private;;
  Ok {| s_cfg := cfg;
        s_handler :=
          {| Handler.cfg_Name := Config.cfg_Name cfg; Handler.Versions := Config.Versions cfg;
             Handler.inbox := inbox; Handler.opts := opts; Handler.loader := loader;
             Handler.crypto := o_crypto o; Handler.lists := true; Handler.geo := geo;
             Handler.audit_connected := true; Handler.json_Request := o_json_Request o;
             Handler.json_Headers := o_json_Headers o; Handler.json_Reply := o_json_Reply o;
             Handler.json_Event := o_json_Event o |};
        s_state :=
          {| Handler.registry := registry;
             Handler.sticky := if keeps then Some (Sticky.New (Config.ResumeMax cfg)
                                                              (Config.ResumeTTL cfg)) else None;
             Handler.sink := AuditSink.NewSink; Handler.sent := []; Handler.published := [];
             Handler.ended := []; Handler.created := 0 |};
        s_pool := Queue.start (Z.to_nat (Config.Workers cfg)) (Config.QueueDepth cfg)
                    (Config.ReserveMS cfg) (Config.MinBudgetMS cfg) (Config.QueueFull cfg);
        s_subjects := Config.Subject cfg :: private; s_limit := limit; s_watches := watches cfg |}.
End boot.

(** ** The heartbeat *)

Record Beat := {
  b_Workers : Z; b_QueueDepth : Z; b_Queued : Z; b_Accepted : Z; b_Shed : Z; b_Expired : Z;
  b_ConfigHash : string; b_Rev : Z; b_Apply : string; b_Profiles : list string }.

(** What [startHeartbeat] sends; without a watcher the last four are empty. *)
Definition beat (cfg : Config.Config) (p : Queue.Pool) (applied : option Watch.Applied) : Beat :=
  {| b_Workers := Config.Workers cfg; b_QueueDepth := Config.QueueDepth cfg;
     b_Queued := Queue.qlen p; b_Accepted := Queue.Accepted p; b_Shed := Queue.Shed p;
     b_Expired := Queue.Expired p;
     b_ConfigHash := match applied with Some a => Watch.hash a | None => "" end;
     b_Rev := match applied with Some a => Watch.rev a | None => 0 end;
     b_Apply := match applied with Some a => Watch.apply a | None => "" end;
     b_Profiles := match applied with Some a => Watch.names a | None => [] end |}.

(** ** Lemmas *)

Lemma lift_err_ok {E F A} (f : E -> F) (r : res E A) a : lift_err f r = Ok a <-> r = Ok a.
Proof. destruct r; split; by intros [= ->]. Qed.

Lemma ReloadFrom_serves src d r r' : ReloadFrom src d r = Ok r' -> serves r'.
Proof.
  unfold ReloadFrom, build. rewrite res_bind_ok. intros (s & H & [= <-]).
  apply res_bind_ok in H as (s1 & _ & H). apply res_bind_ok in H as (u & Hu & [= <-]).
  apply fail_if_ok, negb_false_iff in Hu. unfold serves. simpl.
  revert Hu. destruct (s1 !! _); [by eexists|done].
Qed.

(** A registry that can serve, with policies that load. *)
Definition ready (r : Registry) : Prop := serves r /\ rules_loaded r.

Lemma ReloadFrom_ready src d r r' : ReloadFrom src d r = Ok r' -> ready r'.
Proof. intros H. split; [by eapply ReloadFrom_serves|by eapply ReloadFrom_loaded]. Qed.

Lemma Apply_serves dataDir sources visit `{!VisitsAll visit} `{!ReadsLive dataDir sources} m w w' e :
  ready (reg w) -> Deploy.Apply dataDir sources visit m w = (w', e) -> ready (reg w').
Proof.
  intros Hw Ha. destruct (Apply_swaps dataDir sources visit m w w' e Ha) as [Hs _].
  destruct e as [e|]; [|destruct Hs as [_ Hs]; by eapply ReloadFrom_ready].
  destruct e; simpl in Hs; try (by rewrite Hs).
  destruct Hs as [_ [->|(d & _ & Hs)]]; [done|by eapply ReloadFrom_ready].
Qed.

(** The watcher keeps a registry that serves. *)
Definition serving (w : Watch.Watcher) : Prop :=
  (Watch.retry w = true -> Watch.pending w <> None) /\ ready (reg (Watch.world w)).

Lemma step_serves crypto dataDir sources unmarshal level_of `{!ReadsLive dataDir sources} ev w :
  Watch.good_event ev -> serving w ->
  exists w', Watch.step crypto dataDir sources unmarshal level_of ev w = Done w' /\ serving w'.
Proof.
  intros Hg [Hr Hw]. apply Watch.step_cases; try done.
  - intros r _ Hc _. split; [done|]. unfold ready, serves, rules_loaded in *. simpl. by rewrite Hc.
  - intros env p w' again Hge _ _ Hh.
    assert (ready (reg (Watch.world w'))) as Hs.
    { destruct Hh as [| | |m wd e _ Ha|m wd _ Ha]; try done;
        apply Apply_serves in Ha; try done; try apply Hge.
      simpl. by rewrite Watch.apply_settings_world. }
    destruct again; [by split|]. split; [|done].
    pose proof (Watch.handled_keeps_pending _ _ _ _ _ _ _ _ Hh) as Hk. by rewrite <- Hk.
Qed.

(** The state of a process that has started. *)
Lemma boot_state o s :
  boot o = Ok s ->
  Handler.crypto (s_handler s) = o_crypto o /\ Handler.json_Reply (s_handler s) = o_json_Reply o
  /\ ready (Handler.registry (s_state s))
  /\ HandlerLogic.St_ok [] (is_some (Handler.sticky (s_state s))) 0 (s_state s).
Proof.
  unfold boot. rewrite res_bind_ok. intros (cfg & _ & H).
  apply res_bind_ok in H as (registry & Hreg%lift_err_ok & H).
  apply res_bind_ok in H as (opts & _ & H). apply res_bind_ok in H as (loader & _ & H).
  apply res_bind_ok in H as (_ & _ & H). apply res_bind_ok in H as (geo & _ & H).
  cbv zeta in H. do 2 apply res_bind_ok in H as (_ & _ & H).
  apply res_bind_ok in H as (_ & _ & [= <-]). simpl.
  apply ReloadFrom_ready in Hreg as Hready. split_and!; [done..|].
  destruct Hready as [_ Hl]. destruct (0 <? Config.ResumeMax cfg); constructor; done || constructor.
Qed.

(** The pool starts with a worker at least. *)
Lemma boot_pool o s :
  boot o = Ok s ->
  exists n d r m f, (0 < n)%nat /\ s_pool s = Queue.start n d r m f.
Proof.
  unfold boot. rewrite res_bind_ok. intros (cfg & Hcfg%lift_err_ok & H).
  apply res_bind_ok in H as (registry & _ & H).
  apply res_bind_ok in H as (opts & _ & H). apply res_bind_ok in H as (loader & _ & H).
  apply res_bind_ok in H as (_ & _ & H). apply res_bind_ok in H as (geo & _ & H).
  cbv zeta in H. do 2 apply res_bind_ok in H as (_ & _ & H).
  apply res_bind_ok in H as (_ & _ & [= <-]). simpl.
  destruct (Config.Load_config_ok _ _ _ _ _ Hcfg) as [_ _ Hw _ _ _ _ _ _ _ _].
  eexists _, _, _, _, _. split; [|done]. lia.
Qed.

(** ** Sample *)

Definition sample_store : StoreOps :=
  {| Get := fun _ _ _ => Ok ""; GetMany := None |}.

(** A row that lists the client of every message that is let through. *)
Definition sample_row : Outcome :=
  {| o_On := "allow"; o_At := None; Below := false; Eq := false; Policy.Rules := []; o_Tags := [];
     ranges := []; o_To := ""; o_Do := ""; o_Apply := ""; o_Phase := "";
     o_Delta := None; o_Value := None; o_Counter := ""; o_Group := ""; o_Set := "";
     o_Headers := None; o_Args := None; o_Body := None; o_When := []; o_Marker := "";
     List_ := "seen"; Write := ""; o_TTL := "1h"; o_Code := "SEEN" |}.

Definition sample_profiles : Sources :=
  {| readDir := fun _ => Some [("default", true)]; globConf := fun _ => Some ["a.conf"];
     newEngine := fun _ => Some Apply.quiet_engine;
     readFile := fun _ => Some (Ok "outcomes"); yaml := fun _ => Some ([], [sample_row]) |}.

Definition sample_outside : Outside :=
  {| o_sys := Config.sample_system; o_parse_url := sample_url; o_unicode_word := fun _ => false;
     o_level_of := Config.sample_level; o_sources := sample_profiles;
     o_status_map := fun _ => None; new_store := fun _ => Some sample_store;
     connect := fun _ => true; geo_New := fun _ _ _ => None;
     geo_nil := {| Networked := fun _ => false; geo_Write := fun _ _ => Err "" |};
     nuid_Next := "N1"; subscribe := fun _ => true;
     SetPendingLimits := fun _ => true; OpenBlobs := fun _ => true; open_bucket := true;
     o_crypto := sample_crypto;
     o_json_Request := fun _ => None; o_json_Headers := fun _ => None;
     o_json_Reply := fun _ => None; o_json_Event := fun _ => None |}.

(** ** Properties *)


