(* ===== verification/Service.v ===== *)
(** * The running service

    The parts together, over the state they share. The subscriptions start goroutines that
    [receive] a message and submit its task to the pool; the pool's goroutines call
    [evaluate]; the registry of kept transactions is swept, the sink publishes audit
    events, and the watcher changes the profiles. Each goroutine has its own place in its
    code, and an [event] lets one of them make one move: an action of its program, or a
    section of the pool. So a run is any interleaving of the actions of many messages. A
    push is one move: the handler sees nothing of the watcher but the registry it leaves. *)

From S2P Require Import Prelude GoString Protocol Engine Apply Overload PriorRules Policy.
From S2P Require Import AuditLog Verdict Queue Sticky Body Rules Lists.
From S2P Require Import Handler HandlerLogic HandlerSafety HandlerFlow.
From S2P Require AuditSink Pack Deploy ConfFile Config Watch Main.
From stdpp Require Import options.

Local Open Scope Z_scope.

(** What [receive] made of a message: a task for the pool, an error with the RID it read,
    or the release of a state. *)
Inductive dealing := Submitted (t : Task) | Rejected (rid : string) | Released.

Inductive goroutine :=
| Receiving (o1 o2 : list string) (m : Msg) (prog : M (option Task))
| Pooled (th : Queue.thread) (call : option (Call * M (option Task)))
| Background (prog : M unit).

(** The shared state; the watcher, the pool and the goroutines; and traces: the messages
    received and what was made of them, the calls of the handler begun and returned, the
    audit messages published and the heartbeats sent. *)
Record Running := {
  st : St; watcher : Watch.Watcher; workers : Queue.Pool; gos : list goroutine;
  received : list Msg; dealt : list (Msg * dealing); begun : list Call;
  returned : list Call; audited : list (string * AuditSink.envelope);
  beats : list Main.Beat }.

Inductive event :=
| Arrive (ck : Clock) (o1 o2 : list string) (m : Msg)
| Run (i : nat) (ck : Clock) (o : Queue.Oracle)
| Timer (i : nat)
| Tick (now : Z)
| StopPool
| ClosePool
| Publish (c : AuditSink.select_case)
| CloseSink
| CloseKept
| Push (ev : Watch.event)
| Heartbeat.

(** The registry is one object, which the watcher and the handler point to. *)
Definition share (s : St) (w : Watch.Watcher) : Watch.Watcher :=
  Watch.set_world (Deploy.set_reg (registry s) (Watch.world w)) w.

(** [Sweep] and [Close] of the registry of kept transactions: the transactions taken out
    under the lock are discarded after it. *)
Definition discard_all (dead : option (list Kept)) : M unit :=
  match dead with Some dead => discard dead | None => mret tt end.

Definition sweep (now : Z) : M unit :=
  dead ← with_sticky (fun reg => let '(_, dead, reg) := Sweep now reg in (dead, reg));
  discard_all dead.

Definition close_kept : M unit := dead ← with_sticky Close; discard_all dead.

(** [st] and the goroutines change. *)
Definition set_gos (s : St) (gs : list goroutine) (r : Running) : Running :=
  {| st := s; watcher := watcher r; workers := workers r; gos := gs; received := received r;
     dealt := dealt r; begun := begun r; returned := returned r; audited := audited r; beats := beats r |}.

Definition set_workers (p : Pool) (r : Running) : Running :=
  {| st := st r; watcher := watcher r; workers := p; gos := gos r; received := received r;
     dealt := dealt r; begun := begun r; returned := returned r; audited := audited r; beats := beats r |}.

Definition add_dealt (x : Msg * dealing) (r : Running) : Running :=
  {| st := st r; watcher := watcher r; workers := workers r; gos := gos r;
     received := received r; dealt := dealt r ++ [x]; begun := begun r;
     returned := returned r; audited := audited r; beats := beats r |}.

Definition add_received (m : Msg) (r : Running) : Running :=
  {| st := st r; watcher := watcher r; workers := workers r; gos := gos r;
     received := received r ++ [m]; dealt := dealt r; begun := begun r;
     returned := returned r; audited := audited r; beats := beats r |}.

Definition add_begun (l : list Call) (r : Running) : Running :=
  {| st := st r; watcher := watcher r; workers := workers r; gos := gos r;
     received := received r; dealt := dealt r; begun := begun r ++ l;
     returned := returned r; audited := audited r; beats := beats r |}.

Definition add_returned (c : Call) (r : Running) : Running :=
  {| st := st r; watcher := watcher r; workers := workers r; gos := gos r;
     received := received r; dealt := dealt r; begun := begun r;
     returned := returned r ++ [c]; audited := audited r; beats := beats r |}.

Definition add_audited (l : list (string * AuditSink.envelope)) (r : Running) : Running :=
  {| st := st r; watcher := watcher r; workers := workers r; gos := gos r;
     received := received r; dealt := dealt r; begun := begun r;
     returned := returned r; audited := audited r ++ l; beats := beats r |}.

Definition add_beat (b : Main.Beat) (r : Running) : Running :=
  {| st := st r; watcher := watcher r; workers := workers r; gos := gos r;
     received := received r; dealt := dealt r; begun := begun r;
     returned := returned r; audited := audited r; beats := beats r ++ [b] |}.

Section service.
Context (srv : Main.Service) (sources : gmap (list string) Deploy.node -> Sources).
Context (unmarshal : string -> option Pack.Pack) (level_of : string -> option Z).

Abbreviation h := (Main.s_handler srv).
Abbreviation dataDir := (Config.DataDir (Main.s_cfg srv)).

Definition rejection (o1 o2 : list string) (m : Msg) : dealing :=
  match Parse (json_Request h) o1 o2 (m_Data m) with
  | Ok req => if Supports h (V req) && is_some (req_Release req) then Released
              else Rejected (RID req)
  | Err pe => Rejected (pe_RID pe)
  end.

(** The pool's goroutine calls the handler. *)
Definition begin_call (ck : Clock) (out : list Call) : option (Call * M (option Task)) :=
  match out with
  | [] => None
  | c :: _ => Some (c, evaluate h ck (c_Task c) (c_Budget c) (c_Shed c))
  end.

(** One move of the goroutine [g], which is the [i]th. A panic that nobody recovers ends
    the process. *)
Definition run_go (i : nat) (ck : Clock) (o : Queue.Oracle) (g : goroutine) (r : Running) :
    run Running :=
  let put s g := set_gos s (<[i := g]> (gos r)) r in
  match g with
  | Receiving o1 o2 m (Act f k) => Done (put (f (st r)) (Receiving o1 o2 m (k (st r))))
  | Receiving o1 o2 m (Ret (Done (Some t))) =>
      Done (add_dealt (m, Submitted t)
              (set_gos (st r) (delete i (gos r) ++ [Pooled (TSubmit t) None]) r))
  | Receiving o1 o2 m (Ret (Done None)) =>
      Done (add_dealt (m, rejection o1 o2 m) (set_gos (st r) (delete i (gos r)) r))
  | Pooled th (Some (c, Act f k)) => Done (put (f (st r)) (Pooled th (Some (c, k (st r)))))
  | Pooled th (Some (c, Ret (Done _))) => Done (add_returned c (put (st r) (Pooled th None)))
  | Pooled th None =>
      match run_thread o th (workers r) with
      | Some (th, p, out) =>
          Done (add_begun out (set_workers p (put (st r) (Pooled th (begin_call ck out)))))
      | None => Done r
      end
  | Background (Act f k) => Done (put (f (st r)) (Background (k (st r))))
  | Background (Ret (Done _)) => Done (set_gos (st r) (delete i (gos r)) r)
  | Receiving _ _ _ (Ret Panic) | Pooled _ (Some (_, Ret Panic)) | Background (Ret Panic) => Panic
  end.

(** What the heartbeat tells now; without a watcher it has nothing to tell of packs. *)
Definition heartbeat (r : Running) : Main.Beat :=
  Main.beat (Main.s_cfg srv) (workers r)
    (if Main.s_watches srv then Some (Watch.applied (watcher r)) else None).

Definition spawn (g : goroutine) (r : Running) : Running := set_gos (st r) (gos r ++ [g]) r.

Definition run_event (e : event) (r : Running) : run Running :=
  match e with
  | Arrive ck o1 o2 m =>
      Done (add_received m (spawn (Receiving o1 o2 m (receive h ck o1 o2 m)) r))
  | Run i ck o => match gos r !! i with Some g => run_go i ck o g r | None => Done r end
  | Timer i =>
      match gos r !! i with
      | Some (Pooled (TWait t false) None) =>
          Done (set_gos (st r) (<[i := Pooled (TWait t true) None]> (gos r)) r)
      | _ => Done r
      end
  | Tick now => Done (spawn (Background (sweep now)) r)
  | StopPool => Done (set_workers (set_stop (workers r)) r)
  | ClosePool => Done (if stop (workers r) then set_workers (set_closed (workers r)) r else r)
  | Publish c =>
      match AuditSink.loop_step c (sink (st r)) with
      | Some (its, k) =>
          Done (add_audited (AuditSink.send <$> AuditSink.publish its)
                  (set_gos (set_sink k (st r)) (gos r) r))
      | None => Done r
      end
  | CloseSink => Done (set_gos (set_sink (AuditSink.Close (sink (st r))) (st r)) (gos r) r)
  | CloseKept => Done (spawn (Background close_kept) r)
  | Heartbeat => Done (add_beat (heartbeat r) r)
  | Push ev =>
      if negb (Main.s_watches srv) then Done r else
      w ← Watch.step (crypto h) dataDir sources unmarshal level_of ev (share (st r) (watcher r));
      Done {| st := set_registry (Deploy.reg (Watch.world w)) (st r); watcher := w;
              workers := workers r; gos := gos r; received := received r; dealt := dealt r;
              begun := begun r; returned := returned r; audited := audited r; beats := beats r |}
  end.

Fixpoint run_events (es : list event) (r : Running) : run Running :=
  match es with
  | [] => Done r
  | e :: es => r ← run_event e r; run_events es r
  end.
End service.

(** The service as it starts: what [Main.boot] built, and the watcher on the files below
    the data directory. *)
Definition started (s : Main.Service) (d : gmap (list string) Deploy.node) (lvl : option Z) : Running :=
  {| st := Main.s_state s;
     watcher := Watch.Watch {| Deploy.disk := d; Deploy.faults := []; Deploy.reg := registry (Main.s_state s) |} lvl;
     workers := Queue.pool (Main.s_pool s);
     gos := (fun th => Pooled th None) <$> Queue.threads (Main.s_pool s);
     received := []; dealt := []; begun := []; returned := []; audited := []; beats := [] |}.

(** ** The parts in the whole *)

Definition pooled (g : goroutine) : option Queue.thread :=
  match g with Pooled th _ => Some th | _ => None end.

Definition receiving (g : goroutine) : option Msg :=
  match g with Receiving _ _ m _ => Some m | _ => None end.

Definition calling (g : goroutine) : option Call :=
  match g with Pooled _ (Some (c, _)) => Some c | _ => None end.

Definition submitted_of (x : Msg * dealing) : option Task :=
  match x.2 with Submitted t => Some t | _ => None end.

(** The pool of the service, as a state of [Queue]. *)
Definition queue_of (r : Running) : Queue.State :=
  {| Queue.pool := workers r; threads := omap pooled (gos r); calls := begun r;
     submitted := omap submitted_of (dealt r) |}.

(** ** What the goroutines own *)

Section owned.
Context (h : handler) (p : bool).

Definition goroutine_ok (g : goroutine) (w : Own) : Prop :=
  match g with
  | Receiving o1 o2 m prog => safe p prog w (received_as h o1 o2 m)
  | Pooled th None => w = nothing
  | Pooled th (Some (c, prog)) =>
      exists ck, safe p prog w (evaluated h ck (c_Task c))
  | Background prog => safe p prog w (fun r w => r = Done tt /\ w = nothing)
  end.

Definition total (ws : list Own) : Z := foldr (fun w n => held w + n) 0 ws.
Definition outs (ws : list Own) : list (string * string) := mjoin (out <$> ws).

(** The goroutines own their part of the state: beside what they have sent so far, the
    messages [rest] were sent, and [lost] transactions belong to nobody. *)
Definition holds (gs : list goroutine) (rest : list (string * string)) (lost : Z) (s : St) : Prop :=
  exists ws, Forall2 goroutine_ok gs ws /\ St_ok (sent s) p (lost + total ws) s
    /\ sent s ≡ₚ outs ws ++ rest.

Lemma total_app w1 w2 : total (w1 ++ w2) = total w1 + total w2.
Proof using. induction w1; simpl; lia. Qed.

Lemma outs_app w1 w2 : outs (w1 ++ w2) = outs w1 ++ outs w2.
Proof using. unfold outs. by rewrite fmap_app, join_app. Qed.

Lemma holds_shared gs rest lost s : holds gs rest lost s -> shared_ok p s.
Proof using. intros (ws & _ & Hs & _). by eexists _, _. Qed.

Lemma holds_perm gs rest rest' lost s : rest ≡ₚ rest' -> holds gs rest lost s -> holds gs rest' lost s.
Proof using. intros Hr (ws & ? & ? & Hl). exists ws. by rewrite <- Hr. Qed.

(** The goroutine [g] goes on as [g'] with the action [f]. *)
Definition moves (g : goroutine) (f : St -> St) (g' : goroutine) (s : St) : Prop :=
  forall w, goroutine_ok g w -> exists w', does p f w w' s /\ goroutine_ok g' w'.

Lemma holds_move f g g' l r rest lost s :
  holds (l ++ g :: r) rest lost s -> moves g f g' s ->
  holds (l ++ g' :: r) rest lost (f s) /\ leaves s (f s).
Proof using.
  intros (ws & Hws & Hs & Hl) Hm.
  apply Forall2_app_inv_l in Hws as (wl & wr & Hwl & Hws & ->).
  apply Forall2_cons_inv_l in Hws as (w & wr' & Hw & Hwr & ->).
  destruct (Hm w Hw) as (w' & Hd & Hw').
  rewrite total_app in Hs. simpl in Hs.
  destruct (Hd (sent s) (lost + total wl + total wr')) as (new & Ho & Hs' & Hsame).
  { by replace (held w + (lost + total wl + total wr')) with (lost + (total wl + (held w + total wr'))) by lia. }
  split; [|done]. exists (wl ++ w' :: wr'). split; [by apply Forall2_app; [|constructor]|].
  pose proof (ok_sent _ _ _ _ Hs') as Hsent. rewrite Hsent. split.
  - rewrite total_app. simpl.
    by replace (lost + (total wl + (held w' + total wr'))) with (held w' + (lost + total wl + total wr')) by lia.
  - rewrite Hl. unfold outs. rewrite !fmap_app, !join_app. simpl. rewrite Ho. solve_Permutation.
Qed.

(** The goroutine ends: what it sent is among the rest, what it holds is lost. *)
Lemma holds_end g l r rest lost s :
  holds (l ++ g :: r) rest lost s ->
  exists w, goroutine_ok g w /\ holds (l ++ r) (rest ++ out w) (lost + held w) s.
Proof using.
  intros (ws & Hws & Hs & Hl).
  apply Forall2_app_inv_l in Hws as (wl & wr & Hwl & Hws & ->).
  apply Forall2_cons_inv_l in Hws as (w & wr' & Hw & Hwr & ->).
  exists w. split; [done|]. exists (wl ++ wr'). split; [by apply Forall2_app|]. split.
  - rewrite total_app in *. simpl in Hs.
    by replace (lost + held w + (total wl + total wr')) with (lost + (total wl + (held w + total wr'))) by lia.
  - rewrite Hl. unfold outs. rewrite !fmap_app, !join_app. simpl. solve_Permutation.
Qed.

Lemma holds_new g l r rest lost s :
  goroutine_ok g nothing -> holds (l ++ r) rest lost s -> holds (l ++ g :: r) rest lost s.
Proof using.
  intros Hg (ws & Hws & Hs & Hl). apply Forall2_app_inv_l in Hws as (wl & wr & Hwl & Hwr & ->).
  exists (wl ++ nothing :: wr). split; [by apply Forall2_app; [|constructor]|].
  rewrite total_app, outs_app in *. done.
Qed.

(** What a goroutine has sent so far is what it may send. *)
Lemma safe_out {A} (m : M A) w (Q : run A -> Own -> Prop) s :
  shared_ok p s -> safe p m w Q -> exists r w' new, Q r w' /\ out w' = out w ++ new.
Proof using.
  intros Hs. revert w s Hs. induction m as [r|f k IH]; intros w s Hs Hm; simpl in Hm.
  { exists r, w, []. by rewrite app_nil_r. }
  destruct (Hm s Hs) as (w1 & Hd & Hk). destruct Hs as (l & n & Hs).
  destruct (Hd l (n - held w)) as (new & Ho & Hs' & _).
  { by replace (held w + (n - held w)) with n by lia. }
  destruct (IH s w1 (f s)) as (r & w2 & new2 & HQ & Ho2); [by eexists _, _|done|].
  exists r, w2, (new ++ new2). by rewrite Ho2, Ho, (assoc_L (++)).
Qed.

(** The message that a goroutine may have sent already. *)
Definition sent_early (g : goroutine) (l : list (string * string)) : Prop :=
  l = [] \/ match g with
            | Receiving _ _ m _ => exists rid, sent_one h [] (m_Reply m)
                (fun rep => Verdict rep = VerdictError /\ rep_RID rep = rid) l
            | Pooled _ (Some (c, _)) => exists ck, sent_one h [] (t_Reply (c_Task c))
                (honest h ck (t_Req (c_Task c))) l
            | _ => False
            end.

Lemma sent_one_prefix subject phi l l' new :
  sent_one h [] subject phi l' -> l' = l ++ new -> l = [] \/ l = l'.
Proof using.
  unfold sent_one. destruct (str_eqb _ _).
  - intros -> H. left. by destruct l.
  - intros (rep & text & _ & _ & ->) H. destruct l as [|x l]; [by left|right].
    simpl in *. injection H as -> H. by destruct l.
Qed.

Lemma goroutine_early g w s : shared_ok p s -> goroutine_ok g w -> sent_early g (out w).
Proof using.
  intros Hs. destruct g as [o1 o2 m prog|th [[c prog]|]|prog]; simpl; intros Hg.
  - destruct (safe_out prog w _ s Hs Hg) as (r & w' & new & [_ HQ] & Ho). unfold sent_early.
    destruct r as [[t|]|]; [| |done].
    + destruct HQ as [Hn _]. left. rewrite Ho in Hn. by apply app_nil in Hn as [-> _].
    + assert (out w' = [] \/ exists rid, sent_one h [] (m_Reply m)
        (fun rep => Verdict rep = VerdictError /\ rep_RID rep = rid) (out w')) as H.
      { destruct (Parse _ _ _ _) as [req|]; [destruct (_ && _); [|destruct HQ]|]; eauto. }
      destruct H as [Hn|[rid Hn]].
      { left. rewrite Ho in Hn. by apply app_nil in Hn as [-> _]. }
      destruct (sent_one_prefix _ _ (out w) _ new Hn Ho) as [-> | ->]; eauto.
  - destruct Hg as [ck Hg]. destruct (safe_out prog w _ s Hs Hg) as (r & w' & new & (_ & _ & HQ) & Ho).
    destruct (sent_one_prefix _ _ (out w) _ new HQ Ho) as [-> | ->]; [by left|right; eauto].
  - left. by subst w.
  - destruct (safe_out prog w _ s Hs Hg) as (r & w' & new & [_ ->] & Ho). left. simpl in Ho.
    by destruct (out w).
Qed.

Lemma discards_safe (op : Sticky.Registry (T := Kept) -> list Kept * Sticky.Registry (T := Kept)) :
  (forall reg, values (items reg) ≡ₚ (op reg).1 ++ values (items (op reg).2)) ->
  goroutine_ok (Background (dead ← with_sticky op; discard_all dead)) nothing.
Proof using.
  intros Hop. apply safe_bind. eapply safe_mono.
  - refine (with_sticky_ok p _ (owns [] 0) (fun x w => match x with
      | None => owns [] 0 w
      | Some dead => Forall open_kept dead /\ owns [] (0 + Z.of_nat (length dead)) w end)
      (fun _ => False) [] (fun x => x) _ _ _ _ nothing (conj eq_refl eq_refl)); [|constructor|done|].
    + intros reg. rewrite app_nil_r. apply Hop.
    + intros dead g _ [Hl Hn] Ho. split; [done|]. split; simpl in *; [done|lia].
  - assert (forall w, owns [] 0 w -> w = nothing) as Hnone.
    { intros [] [Hl Hn]. simpl in *. by subst. }
    intros [[dead|]|] w; [|intros Hw; split; [done|by apply Hnone]|done].
    intros [Ho Hg]. eapply safe_mono; [exact (discard_ok [] p 0 dead _ (fun _ => False) Ho eq_refl w Hg)|].
    intros [[]|] w' Hw; [|done]. split; [done|by apply Hnone].
Qed.

Lemma sweep_safe now : goroutine_ok (Background (sweep now)) nothing.
Proof using.
  apply discards_safe. intros reg. destruct (Sweep now reg) as [[k dead] reg'] eqn:E.
  by eapply Sweep_owned.
Qed.

Lemma close_safe : goroutine_ok (Background close_kept) nothing.
Proof using. apply discards_safe. intros reg. simpl. by rewrite app_nil_r. Qed.
End owned.

(** ** The invariant of a run *)

Section invariant.
Context (h : handler) (p : bool).

(** The task is the one of a well-formed message. *)
Definition task_of (m : Msg) (t : Task) : Prop :=
  t_Reply t = m_Reply m /\ Supports h (V (t_Req t)) = true /\ supports (Phase (t_Req t)) = true
  /\ req_Release (t_Req t) = None
  /\ exists o1 o2, Parse (json_Request h) o1 o2 (m_Data m) = Ok (t_Req t).

Definition dealt_ok (x : Msg * dealing) : Prop :=
  match x.2 with Submitted t => task_of x.1 t | _ => True end.

(** The messages sent for a message rejected; for a call of the handler. *)
Definition refused (x : Msg * dealing) (l : list (string * string)) : Prop :=
  match x.2 with
  | Rejected rid => sent_one h [] (m_Reply x.1)
                      (fun rep => Verdict rep = VerdictError /\ rep_RID rep = rid) l
  | _ => l = []
  end.

Definition answered (c : Call) (l : list (string * string)) : Prop :=
  exists ck, sent_one h [] (t_Reply (c_Task c)) (honest h ck (t_Req (c_Task c))) l.

Record accounted (q0 : Queue.State) (r : Running) : Prop := {
  ac_queue : rtc Queue.step q0 (queue_of r);
  ac_received : received r ≡ₚ omap receiving (gos r) ++ (dealt r).*1;
  ac_dealt : Forall dealt_ok (dealt r);
  ac_begun : begun r ≡ₚ omap calling (gos r) ++ returned r }.

(** Transactions are lost to panics of the loader only, at most one for a call. *)
Record owned (r : Running) (refusals answers : list (list (string * string))) (lost : Z) : Prop := {
  ow_holds : holds h p (gos r) (mjoin refusals ++ mjoin answers) lost (st r);
  ow_refused : Forall2 refused (dealt r) refusals;
  ow_answered : Forall2 answered (returned r) answers;
  ow_lost : 0 <= lost <= Z.of_nat (length (returned r)) /\ (lost = 0 \/ loader_panics h) }.

(** The watcher's claims, of the registry that the messages are served from. *)
Definition watched (dataDir : string) (sources : gmap (list string) Deploy.node -> Sources)
    (P : Pack.Pack -> Prop) (r : Running) : Prop :=
  let w := share (st r) (watcher r) in
  Watch.reported (crypto h) dataDir sources P w /\ Main.serving w.
End invariant.

Lemma lookup_split {A} (l : list A) i x :
  l !! i = Some x ->
  exists l1 l2, l = l1 ++ x :: l2 /\ (forall y, <[i := y]> l = l1 ++ y :: l2)
  /\ delete i l = l1 ++ l2.
Proof.
  intros (l1 & l2 & -> & ->)%list_elem_of_split_length. exists l1, l2. split_and!; [done| |].
  - intros y. by rewrite insert_app_r_alt, Nat.sub_diag by lia.
  - apply delete_middle.
Qed.

(** ** Every event keeps the invariant *)

Section events.
Context (srv : Main.Service) (sources : gmap (list string) Deploy.node -> Sources).
Context (unmarshal : string -> option Pack.Pack) (level_of : string -> option Z).
Abbreviation h := (Main.s_handler srv).
Abbreviation dataDir := (Config.DataDir (Main.s_cfg srv)).
Context (P : Pack.Pack -> Prop) (p : bool) (q0 : Queue.State).
Context (Henc : forall r, is_some (json_Reply h r) = true).
Context {Hlive : Deploy.ReadsLive dataDir sources}.

Definition running_ok (r : Running) : Prop :=
  accounted h q0 r /\ (exists refusals answers lost, owned h p r refusals answers lost)
  /\ watched h dataDir sources P r.

(** A push is good when its events are, and [P] holds of the packs it accepts. *)
Definition good_event (e : event) : Prop :=
  match e with
  | Push ev => Watch.good_event ev
               /\ forall q, Watch.accepted unmarshal level_of ev = Some q -> P q
  | _ => True
  end.

Definition runs_to (r : run Running) : Prop := exists r', r = Done r' /\ running_ok r'.

(** A move of a goroutine, which leaves alone what the handler does. *)
Definition goes_to (r : Running) (res : run Running) : Prop :=
  exists r', res = Done r' /\ running_ok r' /\ leaves (st r) (st r').

Lemma goes_runs r res : goes_to r res -> runs_to res.
Proof using. intros (r' & ? & ? & _). by exists r'. Qed.

Lemma watched_rules r r' :
  watcher r' = watcher r -> leaves (st r) (st r') ->
  watched h dataDir sources P r -> watched h dataDir sources P r'.
Proof using.
  unfold watched, share. simpl. intros -> (Hc & Hd & _) [(Hr & Hp & Hok) [Hs1 Hs2]]. split; [|split].
  - split_and!; [done..|]. intros Ha. destruct (Hok Ha) as (q & m & Hq & [] & Hn & Hl).
    exists q, m. split_and!; [done| |done|done]. split; simpl in *; try done; congruence.
  - done.
  - unfold Main.ready, serves, rules_loaded in *. simpl in *. by rewrite Hc.
Qed.

(** A goroutine goes on, in the handler or in the background: the state changes, and the
    place of the goroutine. *)
Lemma act_keeps i f g g' r :
  gos r !! i = Some g -> running_ok r -> moves h p g f g' (st r) ->
  pooled g' = pooled g -> receiving g' = receiving g -> calling g' = calling g ->
  goes_to r (Done (set_gos (f (st r)) (<[i := g']> (gos r)) r)).
Proof using.
  intros (l1 & l2 & Eg & Ei & _)%lookup_split ([Hq Hr Hd Hb] & (ref & ans & lost & [Hh Hf Ha Hl]) & Hw)
    Hm E1 E2 E3. rewrite Ei. rewrite Eg in Hh.
  destruct (holds_move _ _ f g g' _ _ _ _ _ Hh Hm) as [Hh' Hsame].
  eexists. split; [done|]. split; [|done].
  split; [|split; [exists ref, ans, lost; by constructor|by apply (watched_rules r)]].
  unfold queue_of in *. rewrite Eg in *. rewrite !omap_app in *. simpl in *.
  constructor; unfold queue_of; simpl; rewrite ?omap_app; simpl; by rewrite ?E1, ?E2, ?E3.
Qed.

(** A goroutine is past its program: what it sent joins the other messages. *)
Lemma ends_with g l1 l2 r refusals answers lost :
  gos r = l1 ++ g :: l2 -> owned h p r refusals answers lost ->
  exists w, goroutine_ok h p g w
  /\ holds h p (l1 ++ l2) ((mjoin refusals ++ mjoin answers) ++ out w) (lost + held w) (st r).
Proof using.
  intros Eg [Hh _ _ _]. rewrite Eg in Hh. by apply holds_end.
Qed.

Lemma mjoin_snoc {A} (ls : list (list A)) l : mjoin (ls ++ [l]) = mjoin ls ++ l.
Proof using. rewrite join_app. simpl. by rewrite app_nil_r. Qed.

(** In what is accounted for, the goroutine that moves is singled out. *)
Local Ltac at_place Egs Hq Hr Hb :=
  unfold queue_of in Hq; rewrite Egs in Hq, Hr, Hb; rewrite omap_app in Hq;
  rewrite omap_app in Hr; rewrite omap_app in Hb; simpl in Hq, Hr, Hb.

Lemma rejection_cases o1 o2 m w :
  received_as h o1 o2 m (Done None) w ->
  held w = 0 /\ refused h (m, rejection srv o1 o2 m) (out w)
  /\ submitted_of (m, rejection srv o1 o2 m) = None /\ dealt_ok h (m, rejection srv o1 o2 m).
Proof using.
  intros [Hh Hr]. split; [done|]. unfold rejection, refused, submitted_of, dealt_ok. simpl.
  destruct (Parse _ _ _ _) as [req|]; [|done]. destruct (_ && _); [done|]. by destruct Hr.
Qed.

Lemma receive_keeps i ck o o1 o2 m prog r :
  gos r !! i = Some (Receiving o1 o2 m prog) -> running_ok r ->
  goes_to r (run_go srv i ck o (Receiving o1 o2 m prog) r).
Proof using.
  intros Eg Hok. destruct prog as [res|f k].
  2: { apply (act_keeps i f _ _ _ Eg); [done| |done..].
       intros w Hw. apply Hw. destruct Hok as (_ & (? & ? & ? & [Hh _ _ _]) & _). by eapply holds_shared. }
  destruct (lookup_split _ _ _ Eg) as (l1 & l2 & Egs & _ & Ed).
  destruct Hok as ([Hq Hr Hd Hb] & (ref & ans & lost & Ho) & Hw).
  destruct (ends_with _ _ _ _ _ _ _ Egs Ho) as (w & Hres & Hh). destruct Ho as [_ Hf Ha Hl].
  at_place Egs Hq Hr Hb.
  destruct res as [[t|]|]; [| |by destruct Hres].
  - destruct Hres as (Hheld & Ho & Hp & Hv & Hrel & Hph & Ht).
    rewrite Hheld, Z.add_0_r, Ho, app_nil_r in Hh.
    eexists. split; [done|]. rewrite Ed. split; [|done].
    split; [constructor|split; [exists (ref ++ [[]]), ans, lost; constructor|done]]; simpl.
    + eapply rtc_r; [exact Hq|]. unfold queue_of. simpl. rewrite !omap_app. simpl.
      exact (step_arrive {| Queue.pool := workers r; threads := omap pooled l1 ++ omap pooled l2;
        calls := begun r; submitted := omap submitted_of (dealt r) |} t).
    + rewrite Hr, !omap_app, fmap_app. simpl. solve_Permutation.
    + apply list.Forall_app. split; [done|]. constructor; [|done]. split_and!; try done. by exists o1, o2.
    + rewrite Hb, !omap_app. simpl. by rewrite app_nil_r.
    + apply holds_new; [done|]. rewrite app_nil_r. by rewrite mjoin_snoc, app_nil_r.
    + apply Forall2_app; [done|]. by constructor.
    + done.
    + done.
  - apply rejection_cases in Hres as (Hheld & Href & Hsub & Hdok).
    rewrite Hheld, Z.add_0_r in Hh.
    eexists. split; [done|]. rewrite Ed. split; [|done].
    split; [constructor|split; [exists (ref ++ [out w]), ans, lost; constructor|done]]; simpl.
    + unfold queue_of. simpl. rewrite !omap_app. simpl. by rewrite Hsub, app_nil_r.
    + rewrite Hr, !omap_app, fmap_app. simpl. solve_Permutation.
    + apply list.Forall_app. split; [done|]. by constructor.
    + by rewrite Hb, !omap_app.
    + eapply holds_perm; [|exact Hh]. rewrite mjoin_snoc. solve_Permutation.
    + apply Forall2_app; [done|]. by constructor.
    + done.
    + done.
Qed.

Lemma background_keeps i ck o prog r :
  gos r !! i = Some (Background prog) -> running_ok r ->
  goes_to r (run_go srv i ck o (Background prog) r).
Proof using.
  intros Eg Hok. destruct prog as [res|f k].
  2: { apply (act_keeps i f _ _ _ Eg); [done| |done..].
       intros w Hw. apply Hw. destruct Hok as (_ & (? & ? & ? & [Hh _ _ _]) & _). by eapply holds_shared. }
  destruct (lookup_split _ _ _ Eg) as (l1 & l2 & Egs & _ & Ed).
  destruct Hok as ([Hq Hr Hd Hb] & (ref & ans & lost & Ho) & Hw).
  destruct (ends_with _ _ _ _ _ _ _ Egs Ho) as (w & Hres & Hh). destruct Ho as [_ Hf Ha Hl].
  at_place Egs Hq Hr Hb. destruct Hres as [-> ->].
  rewrite Z.add_0_r, app_nil_r in Hh. eexists. split; [done|]. rewrite Ed. split; [|done].
  split; [constructor|split; [exists ref, ans, lost; constructor|done]]; simpl; try done;
    unfold queue_of; simpl; by rewrite !omap_app.
Qed.

(** A call of the handler returns. *)
Lemma call_returns i ck o th c res r :
  gos r !! i = Some (Pooled th (Some (c, Ret res))) -> running_ok r ->
  goes_to r (run_go srv i ck o (Pooled th (Some (c, Ret res))) r).
Proof using.
  intros Eg Hok. destruct (lookup_split _ _ _ Eg) as (l1 & l2 & Egs & Ei & _).
  destruct Hok as ([Hq Hr Hd Hb] & (ref & ans & lost & Ho) & Hw).
  destruct (ends_with _ _ _ _ _ _ _ Egs Ho) as (w & Hres & Hh). destruct Ho as [_ Hf Ha Hl].
  at_place Egs Hq Hr Hb. destruct Hres as [ck' (-> & Hheld & Hsent)].
  eexists. split; [done|]. cbv beta zeta. rewrite Ei. split; [|done].
  split; [constructor|split; [exists ref, (ans ++ [out w]), (lost + held w); constructor|done]]; simpl.
  - unfold queue_of. simpl. by rewrite !omap_app.
  - by rewrite Hr, !omap_app.
  - done.
  - rewrite Hb, !omap_app. simpl. solve_Permutation.
  - apply holds_new; [done|]. eapply holds_perm; [|exact Hh]. rewrite mjoin_snoc.
    by rewrite (assoc_L (++)).
  - done.
  - apply Forall2_app; [done|]. constructor; [|done]. by exists ck'.
  - rewrite length_app. simpl. destruct Hheld as [-> | [-> ?]];
      [rewrite Z.add_0_r; split; [lia|apply Hl]|split; [lia|by right]].
Qed.

(** A section of the pool, which may call the handler. *)
Lemma section_keeps i ck o th r :
  gos r !! i = Some (Pooled th None) -> running_ok r ->
  goes_to r (run_go srv i ck o (Pooled th None) r).
Proof using Henc.
  intros Eg Hok. simpl.
  destruct (run_thread o th (workers r)) as [[[th' q'] l]|] eqn:Er; [|by exists r].
  pose proof (run_thread_call _ _ _ _ _ _ Er) as Hlen.
  assert (moves h p (Pooled th None) (fun s => s) (Pooled th' (begin_call srv ck l)) (st r)) as Hm.
  { intros w ->. exists nothing. split; [apply does_nothing|]. destruct l as [|c l]; [done|].
    exists ck. by apply evaluate_ok. }
  destruct (lookup_split _ _ _ Eg) as (l1 & l2 & Egs & Ei & _).
  destruct Hok as ([Hq Hr Hd Hb] & (ref & ans & lost & [Hh Hf Ha Hl]) & Hw).
  rewrite Egs in Hh. destruct (holds_move _ _ _ _ _ _ _ _ _ _ Hh Hm) as [Hh' _].
  at_place Egs Hq Hr Hb. eexists. split; [done|]. rewrite Ei. split; [|done].
  split; [constructor|split; [exists ref, ans, lost; by constructor|done]]; simpl.
  - eapply rtc_r; [exact Hq|]. unfold queue_of. simpl. rewrite !omap_app. simpl.
    exact (step_run {| Queue.pool := workers r;
      threads := omap pooled l1 ++ th :: omap pooled l2; calls := begun r;
      submitted := omap submitted_of (dealt r) |} (omap pooled l1) th (omap pooled l2)
      o th' q' l eq_refl Er).
  - by rewrite Hr, !omap_app.
  - done.
  - rewrite Hb, !omap_app. simpl. destruct l as [|c [|c2 l]]; simpl in *; [by rewrite app_nil_r| |lia].
    solve_Permutation.
Qed.

Lemma pool_keeps i ck o th call r :
  gos r !! i = Some (Pooled th call) -> running_ok r ->
  goes_to r (run_go srv i ck o (Pooled th call) r).
Proof using Henc.
  intros Eg Hok. destruct call as [[c [res|f k]]|];
    [by apply call_returns| |by apply section_keeps].
  apply (act_keeps i f _ _ _ Eg); [done| |done..].
  intros w [ck' Hw]. destruct (Hw (st r)) as (w' & Hd & Hk).
  { destruct Hok as (_ & (? & ? & ? & [Hh _ _ _]) & _). by eapply holds_shared. }
  exists w'. split; [done|]. by exists ck'.
Qed.

(** Events that concern the pool, or the sink, only. *)
Lemma workers_keeps q' r :
  Queue.step (queue_of r) (queue_of (set_workers q' r)) -> running_ok r -> running_ok (set_workers q' r).
Proof using.
  intros Hs ([Hq Hr Hdl Hb] & (ref & ans & lost & [Hh Hf Ha Hl]) & Hw).
  split; [|split; [exists ref, ans, lost; by constructor|done]].
  constructor; try done. by eapply rtc_r.
Qed.

Lemma sink_keeps k r r' :
  running_ok r -> st r' = set_sink k (st r) -> watcher r' = watcher r -> workers r' = workers r ->
  gos r' = gos r -> received r' = received r -> dealt r' = dealt r -> begun r' = begun r ->
  returned r' = returned r -> running_ok r'.
Proof using.
  intros ([Hq Hr Hdl Hb] & (ref & ans & lost & [Hh Hf Ha Hl]) & Hw) E1 E2 E3 E4 E5 E6 E7 E8.
  split; [|split].
  - constructor; rewrite ?E4, ?E5, ?E6, ?E7, ?E8; try done. unfold queue_of in *.
    by rewrite E3, E4, E6, E7.
  - exists ref, ans, lost. constructor; rewrite ?E1, ?E4, ?E6, ?E8; try done.
    destruct Hh as (ws & Hws & [] & Ho). by exists ws.
  - unfold watched, share in *. by rewrite E1, E2.
Qed.

Lemma spawn_keeps g r :
  goroutine_ok h p g nothing -> pooled g = None -> calling g = None ->
  running_ok r ->
  running_ok (match receiving g with
              | Some m => add_received m (spawn g r)
              | None => spawn g r
              end).
Proof using.
  intros Hg E1 E3 ([Hq Hr Hdl Hb] & (ref & ans & lost & [Hh Hf Ha Hl]) & Hw).
  assert (holds h p (gos r ++ [g]) (mjoin ref ++ mjoin ans) lost (st r)) as Hh'
    by (apply holds_new; by rewrite ?app_nil_r).
  destruct (receiving g) as [m|] eqn:E2; (split; [|split; [exists ref, ans, lost; by constructor|done]]);
    constructor; unfold queue_of in *; simpl; rewrite ?omap_app; simpl;
      rewrite ?E1, ?E2, ?E3, ?app_nil_r; try done.
  rewrite Hr. solve_Permutation.
Qed.

Lemma push_keeps ev r :
  good_event (Push ev) -> running_ok r ->
  runs_to (run_event srv sources unmarshal level_of (Push ev) r).
Proof using Hlive.
  intros Hg Hok. simpl. destruct (Main.s_watches srv); simpl; [|by eexists].
  destruct Hok as ([Hq Hrc Hdl Hb] & (ref & ans & lost & [Hh Hf Ha Hl]) & Hr & Hv).
  destruct (Watch.reported_step (crypto h) dataDir sources unmarshal level_of P ev _ Hg Hr)
    as (w & E & Hr').
  destruct (Main.step_serves (crypto h) dataDir sources unmarshal level_of ev _ (proj1 Hg) Hv)
    as (w2 & E2 & Hv'). rewrite E in E2. injection E2 as <-. rewrite E. simpl.
  eexists. split; [done|]. split; [by constructor|]. split.
  - exists ref, ans, lost. constructor; try done. simpl.
    destruct Hh as (ws & Hws & Hs & Ho). exists ws. split_and!; [done| |done].
    destruct Hs, Hv' as [_ [_ Hrl]]. by constructor.
  - assert (share (set_registry (Deploy.reg (Watch.world w)) (st r)) w = w) as Hsh
      by by destruct w as [? ? ? [] ? ?].
    unfold watched. simpl. by rewrite Hsh.
Qed.

Lemma timer_keeps i r : running_ok r ->
  runs_to (run_event srv sources unmarshal level_of (Timer i) r).
Proof using.
  intros Hok. simpl.
  destruct (gos r !! i) as [[|[| | |t []| | | | | | |] [|]|]|] eqn:Eg; try by eexists.
  destruct (lookup_split _ _ _ Eg) as (l1 & l2 & Egs & Ei & _).
  destruct Hok as ([Hq Hr Hd Hb] & (ref & ans & lost & [Hh Hf Ha Hl]) & Hw).
  at_place Egs Hq Hr Hb. rewrite Egs in Hh.
  eexists. split; [done|]. rewrite Ei.
  split; [constructor|split; [exists ref, ans, lost; constructor|done]]; simpl; try done.
  - eapply rtc_r; [exact Hq|]. unfold queue_of. simpl. rewrite !omap_app. simpl.
    exact (step_timer {| Queue.pool := workers r;
        threads := omap pooled l1 ++ TWait t false :: omap pooled l2; calls := begun r;
        submitted := omap submitted_of (dealt r) |} (omap pooled l1) t (omap pooled l2) eq_refl).
  - by rewrite Hr, !omap_app.
  - by rewrite Hb, !omap_app.
  - apply holds_end in Hh as (w & -> & Hh). rewrite app_nil_r, Z.add_0_r in Hh. by apply holds_new.
Qed.

Lemma event_keeps e r :
  good_event e -> running_ok r ->
  runs_to (run_event srv sources unmarshal level_of e r).
Proof using Henc Hlive.
  intros Hg Hok. destruct e as [ck o1 o2 m|i ck o|i|now| | |c| | |ev|]; simpl.
  - eexists. split; [done|].
    apply (spawn_keeps (Receiving o1 o2 m (receive h ck o1 o2 m))); try done. by apply receive_safe.
  - destruct (gos r !! i) as [[o1 o2 m prog|th call|prog]|] eqn:Eg; [..|by eexists].
    + by eapply goes_runs, receive_keeps.
    + by eapply goes_runs, pool_keeps.
    + by eapply goes_runs, background_keeps.
  - by apply timer_keeps.
  - eexists. split; [done|]. apply (spawn_keeps (Background (sweep now))); try done. apply sweep_safe.
  - eexists. split; [done|]. apply workers_keeps; [apply (step_stop (queue_of r))|done].
  - eexists. split; [done|]. destruct (stop (workers r)) eqn:E; [|done].
    apply workers_keeps; [by apply (step_close (queue_of r))|done].
  - destruct (AuditSink.loop_step c (sink (st r))) as [[its k]|] eqn:E; eexists; (split; [done|]); [|done].
    by eapply sink_keeps.
  - eexists. split; [done|]. by eapply sink_keeps.
  - eexists. split; [done|]. apply (spawn_keeps (Background close_kept)); try done. apply close_safe.
  - by apply push_keeps.
  - eexists. split; [done|]. destruct Hok as ([] & (ref & ans & lost & []) & Hw).
    split; [by constructor|split; [exists ref, ans, lost; by constructor|done]].
Qed.

Lemma run_leaves i ck o r :
  running_ok r -> goes_to r (run_event srv sources unmarshal level_of (Run i ck o) r).
Proof using Henc.
  intros Hok. simpl. destruct (gos r !! i) as [[o1 o2 m prog|th call|prog]|] eqn:Eg; [..|by exists r].
  - by apply receive_keeps.
  - by apply pool_keeps.
  - by apply background_keeps.
Qed.

Lemma run_events_app es1 es2 r :
  run_events srv sources unmarshal level_of (es1 ++ es2) r
  = (r' ← run_events srv sources unmarshal level_of es1 r;
     run_events srv sources unmarshal level_of es2 r').
Proof using.
  revert r. induction es1 as [|e es1 IH]; intros r; [done|]. cbn [run_events app].
  destruct (run_event _ _ _ _ e r) as [r1|]; [apply IH|done].
Qed.

Lemma run_events_keep es r :
  Forall good_event es -> running_ok r ->
  runs_to (run_events srv sources unmarshal level_of es r).
Proof using Henc Hlive.
  intros Hg. revert r. induction Hg as [|e es He _ IH]; intros r Hr; [by exists r|].
  destruct (event_keeps e r He Hr) as (r1 & E & H1). cbn [run_events]. rewrite E. by apply IH.
Qed.
End events.
