(* ===== verification/Serving.v ===== *)
(** * The service from its start to its end

    The runs of [Service] from the state of [Main.boot]: what they have sent, what they hold
    and what the watcher reports at any time; that from any state the service can be shut
    down, in the order of [run] of main.go; and what is left then. *)

From S2P Require Import Prelude GoString Protocol Engine Apply Overload PriorRules Policy.
From S2P Require Import AuditLog Verdict Queue Sticky Body Rules Lists.
From S2P Require Import Handler HandlerLogic HandlerSafety HandlerFlow Service.
From S2P Require AuditSink Pack Deploy ConfFile Config Watch Main.
From stdpp Require Import options.

Local Open Scope Z_scope.

(** ** Coming to rest *)

(** The goroutine has returned. *)
Definition at_rest (g : goroutine) : Prop :=
  match g with Pooled th None => Queue.finished th | _ => False end.

Definition is_run (e : event) : Prop := match e with Run _ _ _ => True | _ => False end.

Definition quiet_clock : Clock := {| take_at := 0; park_at := 0; elapsed_us := 0; stamp := "" |}.

(** What a closed service still has to do, beside the actions of its programs. *)
Definition go_left (g : goroutine) : nat :=
  match g with
  | Receiving _ _ _ _ => 14
  | Pooled th None => 2 * work_left th
  | Pooled th (Some _) => 2 * work_left th + 1
  | Background _ => 1
  end.

Definition left_over (r : Running) : nat :=
  (sum_list_with go_left (gos r) + 6 * length (q (workers r)))%nat.

Section rest.
Context (srv : Main.Service) (sources : gmap (list string) Deploy.node -> Sources).
Context (unmarshal : string -> option Pack.Pack) (level_of : string -> option Z).

Abbreviation h := (Main.s_handler srv).
Abbreviation dataDir := (Config.DataDir (Main.s_cfg srv)).
Abbreviation run es := (run_events srv sources unmarshal level_of es).

(** A goroutine runs its program, to the end of it, while the others wait. *)
Lemma run_program {A} (place : M A -> goroutine) i ck o m r :
  (forall f k r, gos r !! i = Some (place (Act f k)) ->
     run_go srv i ck o (place (Act f k)) r
     = Done (set_gos (f (st r)) (<[i := place (k (st r))]> (gos r)) r)) ->
  gos r !! i = Some (place m) ->
  exists n, run (replicate n (Run i ck o)) r
    = Done (set_gos (exec m (st r)).1 (<[i := place (Ret (exec m (st r)).2)]> (gos r)) r).
Proof using.
  intros Hact. revert r. induction m as [res|f k IH]; intros r Eg.
  { exists 0%nat. simpl. rewrite list_insert_id by done. by destruct r. }
  set (r1 := set_gos (f (st r)) (<[i := place (k (st r))]> (gos r)) r).
  assert (i < length (gos r))%nat as Hi by (apply lookup_lt_is_Some_1; by eexists).
  destruct (IH (st r) r1) as (n & E).
  { simpl. by apply list_lookup_insert_eq. }
  exists (S n). cbn [replicate run_events run_event]. rewrite Eg, Hact by done.
  cbn [mbind run_bind]. fold r1. etrans; [exact E|]. unfold r1, set_gos. simpl.
  by rewrite list_insert_insert_eq.
Qed.

(** The program of a goroutine runs, and ends with the next move. *)
Lemma program_ends i r g :
  gos r !! i = Some g -> (match g with Pooled _ None => False | _ => True end) ->
  exists es r1 g1, Forall is_run es /\ run es r = Done r1 /\ gos r1 = <[i := g1]> (gos r)
    /\ workers r1 = workers r /\ received r1 = received r
    /\ match g, g1 with
       | Receiving o1 o2 m _, Receiving o1' o2' m' (Ret _) => o1' = o1 /\ o2' = o2 /\ m' = m
       | Pooled th _, Pooled th' (Some (c, Ret _)) => th' = th
       | Background _, Background (Ret _) => True
       | _, _ => False
       end.
Proof using.
  assert (forall n (e : event), is_run e -> Forall is_run (replicate n e)) as Hrun
    by (intros; by apply Forall_replicate).
  intros Eg Hg. set (o := {| now0 := 0; now1 := 0; now2 := 0; pick := true |}).
  destruct g as [o1 o2 m prog|th [[c prog]|]|prog]; [| |done|].
  - destruct (run_program (Receiving o1 o2 m) i quiet_clock o prog r) as (n & E); [done..|].
    eexists _, _, _. split; [|split; [exact E|]]; [by apply Hrun|]. done.
  - destruct (run_program (fun prog => Pooled th (Some (c, prog))) i quiet_clock o prog r)
      as (n & E); [done..|].
    eexists _, _, _. split; [|split; [exact E|]]; [by apply Hrun|]. done.
  - destruct (run_program Background i quiet_clock o prog r) as (n & E); [done..|].
    eexists _, _, _. split; [|split; [exact E|]]; [by apply Hrun|]. done.
Qed.

Context (P : Pack.Pack -> Prop) (p : bool) (q0 : Queue.State).
Context (Henc : forall r, is_some (json_Reply h r) = true).

Abbreviation ok := (running_ok srv sources P p q0).

(** Any moves of the goroutines. *)
Lemma runs_leave es r :
  Forall is_run es -> ok r ->
  exists r', run es r = Done r' /\ ok r' /\ leaves (st r) (st r').
Proof using Henc.
  intros Hes. revert r. induction Hes as [|e es He _ IH]; intros r Hok; [by exists r|].
  destruct e as [|i ck o| | | | | | | | |]; try done.
  destruct (run_leaves srv sources unmarshal level_of P p q0 Henc i ck o r Hok)
    as (r1 & E & Hok1 & H1 & H2 & H3).
  destruct (IH r1 Hok1) as (r2 & E2 & Hok2 & H1' & H2' & H3').
  exists r2. cbn [run_events]. rewrite E. split_and!; [done|done|].
  split_and!; congruence.
Qed.

(** What is less after some moves of the goroutines. *)
Definition progresses (r : Running) (es : list event) (r' : Running) : Prop :=
  Forall is_run es /\ run es r = Done r' /\ (left_over r' < left_over r)%nat
  /\ closed (workers r') = true /\ stop (workers r') = true /\ received r' = received r.

(** A goroutine in the pool's code. *)
Lemma section_progress i th r :
  closed (workers r) = true -> stop (workers r) = true ->
  gos r !! i = Some (Pooled th None) -> ~ Queue.finished th ->
  exists es r', progresses r es r'.
Proof using.
  intros Hc Hs Eg Hf. destruct (Queue.progress th (workers r) Hc Hs Hf) as (o & th' & q' & l & Er & Hlt).
  destruct (lookup_split _ _ _ Eg) as (l1 & l2 & Egs & Ei & _).
  pose proof (Queue.run_thread_live _ _ _ _ _ _ Er) as (Hc' & Hs' & _).
  exists [Run i quiet_clock o]. eexists. split; [by repeat constructor|]. split.
  { cbn [run_events run_event]. rewrite Eg. cbn [run_go]. rewrite Er. cbn [mbind run_bind]. done. }
  unfold left_over. simpl. rewrite Ei, Egs, !sum_list_with_split. simpl.
  rewrite Hc', Hs'. split_and!; try done. destruct (begin_call srv quiet_clock l); lia.
Qed.

(** A goroutine in a program. *)
Lemma program_progress i g r :
  ok r -> closed (workers r) = true -> stop (workers r) = true ->
  gos r !! i = Some g -> (match g with Pooled _ None => False | _ => True end) ->
  exists es r', progresses r es r'.
Proof using Henc.
  intros Hok Hc Hs Eg Hg.
  destruct (program_ends i r g Eg Hg) as (es & r1 & g1 & Hes & E1 & Egs1 & Ew & Erc & Hg1).
  destruct (runs_leave es r Hes Hok) as (r1' & E1' & Hok1 & _). rewrite E1 in E1'. injection E1' as <-.
  assert (gos r1 !! i = Some g1) as Eg1.
  { rewrite Egs1. apply list_lookup_insert_eq. by eapply lookup_lt_Some. }
  set (last := Run i quiet_clock {| now0 := 0; now1 := 0; now2 := 0; pick := true |}).
  destruct (run_leaves srv sources unmarshal level_of P p q0 Henc _ _ _ r1 Hok1
    : exists r2, run_event srv sources unmarshal level_of last r1 = Done r2 /\ _) as (r2 & E2 & _).
  exists (es ++ [last]), r2. split; [apply list.Forall_app; split; [done|by repeat constructor]|].
  split. { rewrite run_events_app, E1. cbn [mbind run_bind run_events]. by rewrite E2. }
  simpl in E2. rewrite Eg1 in E2. rewrite <- Erc. rewrite <- Ew in Hc, Hs.
  assert (left_over r1 = left_over r) as <-.
  { unfold left_over. rewrite Ew, Egs1. destruct (lookup_split _ _ _ Eg) as (l1 & l2 & Egs & Ei & _).
    rewrite Ei, Egs, !sum_list_with_split. f_equal. f_equal. f_equal.
    destruct g as [o1 o2 m prog|th [[c prog]|]|prog], g1 as [o1' o2' m' prog'|th' [[c' prog']|]|prog'];
      try done. simpl. destruct prog'; [by rewrite Hg1|done]. }
  destruct (lookup_split _ _ _ Eg1) as (l1 & l2 & Egs & Ei & Ed). unfold left_over. rewrite Egs.
  destruct g as [o1 o2 m prog|th [[c prog]|]|prog],
    g1 as [o1' o2' m' [[[t|]|]|]|th' [[c' [[|]|]]|]|[[[]|]|]]; try done; simpl in E2;
    simplify_eq; simpl; rewrite ?Ed, ?Ei, ?sum_list_with_app; simpl; split_and!; try done; lia.
Qed.

Lemma works_off g r :
  ok r -> closed (workers r) = true -> stop (workers r) = true ->
  g ∈ gos r -> ~ at_rest g -> exists es r', progresses r es r'.
Proof using Henc.
  intros Hok Hc Hs [i Eg]%list_elem_of_lookup Hr.
  destruct g as [o1 o2 m prog|th [call|]|prog]; [by eapply program_progress..| |by eapply program_progress].
  by eapply section_progress.
Qed.

(** All goroutines of a closed service can return. *)
Lemma come_to_rest r :
  ok r -> closed (workers r) = true -> stop (workers r) = true ->
  exists es r', Forall is_run es /\ run es r = Done r' /\ ok r' /\ Forall at_rest (gos r')
    /\ received r' = received r /\ leaves (st r) (st r').
Proof using Henc.
  remember (left_over r) as n eqn:En. revert r En.
  induction (lt_wf n) as [n _ IH]. intros r -> Hok Hc Hs.
  destruct (Forall_or_first at_rest (gos r)) as [|(l1 & g & l2 & Eg & Hg)].
  { intros [? ? ? ?|th [?|]|?]; [right; by intros []..|apply Queue.finished_dec|right; by intros []]. }
  { by exists [], r. }
  destruct (works_off g r Hok Hc Hs) as (es & r1 & Hes & E & Hlt & Hc1 & Hs1 & Hrc); [|done|].
  { rewrite Eg. set_solver. }
  destruct (runs_leave es r Hes Hok) as (r1' & E' & Hok1 & Hl1). rewrite E in E'. injection E' as <-.
  destruct (IH _ Hlt r1 eq_refl Hok1 Hc1 Hs1) as (es2 & r2 & Hes2 & E2 & Hok2 & Hrest & Hrc2 & Hl2).
  exists (es ++ es2), r2. split_and!; try done; [by apply list.Forall_app| |congruence|].
  - by rewrite run_events_app, E.
  - destruct Hl1 as (? & ? & ?), Hl2 as (? & ? & ?). split_and!; congruence.
Qed.
End rest.

(** ** One reply for each message *)

(** What a message that was dealt with has been sent: nothing for a release or without a
    reply subject, and one reply otherwise. *)
Definition replied (h : handler) (x : Msg * dealing) (l : list (string * string)) : Prop :=
  match x.2 with
  | Submitted t => exists ck, sent_one h [] (m_Reply x.1) (honest h ck (t_Req t)) l
  | _ => refused h x l
  end.

Lemma Forall2_permute {A B} (R : A -> B -> Prop) l1 l1' l2 :
  l1 ≡ₚ l1' -> Forall2 R l1 l2 -> exists l2', l2 ≡ₚ l2' /\ Forall2 R l1' l2'.
Proof.
  intros Hp. revert l2. induction Hp as [|x l1 l1' _ IH|x y l1|l1 l1' l1'' _ IH1 _ IH2]; intros l2 H.
  - by exists l2.
  - apply Forall2_cons_inv_l in H as (z & l2' & Hx & H & ->). destruct (IH _ H) as (l3 & Hp & H3).
    exists (z :: l3). split; [by rewrite Hp|by constructor].
  - apply Forall2_cons_inv_l in H as (z & l2' & Hx & H & ->).
    apply Forall2_cons_inv_l in H as (z' & l3 & Hy & H & ->).
    exists (z' :: z :: l3). split; [constructor|by repeat constructor].
  - destruct (IH1 _ H) as (l3 & Hp1 & H3). destruct (IH2 _ H3) as (l4 & Hp2 & H4).
    exists l4. split; [by trans l3|done].
Qed.

Lemma mjoin_permute {A} (l l' : list (list A)) : l ≡ₚ l' -> mjoin l ≡ₚ mjoin l'.
Proof.
  induction 1 as [|x l l' _ IH|x y l|l l' l'' _ IH1 _ IH2]; simpl; [done|by rewrite IH| |by trans (mjoin l')].
  apply Permutation_app_swap_app.
Qed.

(** The answer to a task under the identity it keeps in the pool. *)
Definition answered_as (h : handler) (k : Request * string * bool) (l : list (string * string)) : Prop :=
  exists ck, sent_one h [] k.1.2 (honest h ck k.1.1) l.

Lemma replies_in_order h ds refusals answers :
  Forall (dealt_ok h) ds -> Forall2 (refused h) ds refusals ->
  Forall2 (answered_as h) (key <$> omap submitted_of ds) answers ->
  exists replies, Forall2 (replied h) ds replies
    /\ mjoin refusals ++ mjoin answers ≡ₚ mjoin replies.
Proof.
  intros Hd Href. revert answers Hd.
  induction Href as [|[m d] l ds refusals Hl _ IH]; intros answers Hd Ha; simpl in Ha.
  { apply Forall2_nil_inv_l in Ha as ->. by exists []. }
  apply list.Forall_cons in Hd as [Hm Hd]. destruct d as [t|rid|]; simpl in *.
  - apply Forall2_cons_inv_l in Ha as (a & answers' & [ck Hx] & Ha & ->).
    destruct (IH _ Hd Ha) as (replies & Hr & Hp). exists (a :: replies). split.
    + constructor; [|done]. exists ck. destruct Hm as [Ht _]. simpl in Ht.
      change (m_Reply (m, Submitted t).1) with (m_Reply m). rewrite <- Ht. exact Hx.
    + simpl. unfold refused in Hl. simpl in Hl. subst l. rewrite <- Hp. solve_Permutation.
  - destruct (IH _ Hd Ha) as (replies & Hr & Hp). exists (l :: replies).
    split; [by constructor|]. simpl. by rewrite <- (assoc_L (++)), Hp.
  - destruct (IH _ Hd Ha) as (replies & Hr & Hp). exists (l :: replies).
    split; [by constructor|]. simpl. by rewrite <- (assoc_L (++)), Hp.
Qed.

(** ** A service from its start *)

Section service_run.
Context (o : Main.Outside) (s : Main.Service) (Hboot : Main.boot o = Ok s).
Context (sources : gmap (list string) Deploy.node -> Sources).
Context (unmarshal : string -> option Pack.Pack).
Context (d : gmap (list string) Deploy.node) (lvl : option Z) (es : list event).

(** The events [es], from the start. *)
Definition serve : run Running :=
  run_events s sources unmarshal
    (Main.o_level_of o) es (started s d lvl).

(** A pack that a push among the events brought. *)
Definition pushed (p : Pack.Pack) : Prop :=
  exists ev, Push ev ∈ es /\ Watch.accepted unmarshal (Main.o_level_of o) ev = Some p.

(** The events of the pushes are good: the store answers all it is asked, and the maps
    are visited whole. *)
Definition good_events : Prop := forall ev, Push ev ∈ es -> Watch.good_event ev.

Context {Hlive : Deploy.ReadsLive (Config.DataDir (Main.s_cfg s)) sources}.

Definition service_ok : Running -> Prop :=
  running_ok s sources pushed
    (is_some (sticky (Main.s_state s))) (Main.s_pool s).

Lemma started_ok : (forall r, is_some (Main.o_json_Reply o r) = true) -> service_ok (started s d lvl).
Proof using Hboot.
  intros Henc. destruct (Main.boot_state o s Hboot) as (_ & Hj & Hs & Hok).
  destruct (Main.boot_pool o s Hboot) as (n & dep & res & mb & f & Hn & Hpool).
  split; [|split].
  - constructor; simpl; try done.
    + unfold queue_of. simpl.
      assert (omap pooled ((fun th => Pooled th None) <$> Queue.threads (Main.s_pool s))
        = Queue.threads (Main.s_pool s)) as ->.
      { induction (Queue.threads (Main.s_pool s)) as [|th l IH]; [done|]. simpl. by f_equal. }
      rewrite Hpool. apply rtc_refl.
    + by induction (Queue.threads (Main.s_pool s)).
    + by induction (Queue.threads (Main.s_pool s)).
  - exists [], [], 0. constructor; simpl; try done; [|by split; [lia|left]].
    exists ((fun _ => nothing) <$> Queue.threads (Main.s_pool s)). simpl.
    pose proof (ok_sent _ _ _ _ Hok) as Hsent. rewrite Hsent. simpl.
    induction (Queue.threads (Main.s_pool s)) as [|th l IH]; [done|]. simpl.
    destruct IH as (IH1 & IH2 & IH3). split_and!; [by constructor|done|done].
  - unfold watched, share. simpl. split; [|done]. split_and!; done.
Qed.

Lemma serve_ok :
  (forall r, is_some (Main.o_json_Reply o r) = true) -> good_events ->
  exists r, serve = Done r /\ service_ok r.
Proof using Hboot Hlive.
  intros Henc Hg. destruct (Main.boot_state o s Hboot) as (_ & Hj & _).
  apply run_events_keep; [by rewrite Hj|done| |by apply started_ok].
  apply list.Forall_forall. intros [| | | | | | | | |ev|] Hev; simpl; try done.
  split; [by apply Hg|]. intros q Hq. by exists ev.
Qed.
End service_run.

(** ** Shutting down *)

(** The end of [run] in main.go: the watcher is stopped and the subscription drained, so
    that nothing arrives; the pool is closed, and the moves [es1] of its goroutines end it;
    the sink is closed, and ends by the cases [cs]; at last the registry is closed. *)
Definition shutdown (es1 : list event) (cs : list AuditSink.select_case) (es2 : list event) :
    list event :=
  StopPool :: ClosePool :: es1 ++ CloseSink :: (Publish <$> cs) ++ CloseKept :: es2.

Section shutdown.
Context (srv : Main.Service) (sources : gmap (list string) Deploy.node -> Sources).
Abbreviation h := (Main.s_handler srv).
Abbreviation dataDir := (Config.DataDir (Main.s_cfg srv)).
Context (unmarshal : string -> option Pack.Pack) (level_of : string -> option Z).
Context (P : Pack.Pack -> Prop) (p : bool) (q0 : Queue.State).
Context (Henc : forall r, is_some (json_Reply h r) = true).
Context {Hlive : Deploy.ReadsLive dataDir sources}.

Abbreviation run es := (run_events srv sources unmarshal level_of es).
Abbreviation ok := (running_ok srv sources P p q0).

Lemma publishes cs r :
  exists l, run (Publish <$> cs) r
    = Done (add_audited l (set_gos (set_sink (AuditSink.run_loop cs (sink (st r))).2 (st r)) (gos r) r)).
Proof using.
  revert r. induction cs as [|c cs IH]; intros r.
  { exists []. simpl. unfold add_audited, set_gos. simpl. rewrite app_nil_r. by destruct r as [[]]. }
  cbn [fmap list_fmap run_events run_event AuditSink.run_loop].
  destruct (AuditSink.loop_step c (sink (st r))) as [[its k]|]; cbn [mbind run_bind]; [|apply IH].
  set (r1 := add_audited _ _). destruct (IH r1) as [l E]. rewrite E.
  exists ((AuditSink.send <$> AuditSink.publish its) ++ l). unfold r1, add_audited, set_gos. simpl.
  rewrite <- (assoc_L (++)). by destruct (AuditSink.run_loop cs k).
Qed.

(** The last thing that the registry of kept transactions does. *)
Lemma registry_closes r :
  ok r -> Forall at_rest (gos r) ->
  exists es r', Forall is_run es /\ run (CloseKept :: es) r = Done r' /\ gos r' = gos r
    /\ received r' = received r /\ parked (st r') = [] /\ sink (st r') = sink (st r).
Proof using Henc.
  intros Hok Hrest. set (r1 := spawn (Background close_kept) r).
  assert (gos r1 !! length (gos r) = Some (Background close_kept)) as Eg
    by (simpl; by apply list_lookup_middle).
  set (o := {| now0 := 0; now1 := 0; now2 := 0; pick := true |}).
  assert ((exec close_kept (st r)).2 = Done tt
    /\ parked (exec close_kept (st r)).1 = [] /\ sink (exec close_kept (st r)).1 = sink (st r))
    as (Ex & Hp & Hs).
  { unfold close_kept, parked. simpl. destruct (sticky (st r)) as [reg|] eqn:Es; [done|].
    simpl. by rewrite Es. }
  destruct (run_program srv sources unmarshal level_of Background (length (gos r)) quiet_clock o
    close_kept r1) as (n & E); [done..|].
  change (st r1) with (st r) in E. rewrite Ex in E.
  revert E Hp Hs. generalize (exec close_kept (st r)).1 as s2. intros s2 E Hp Hs.
  exists (replicate n (Run (length (gos r)) quiet_clock o) ++ [Run (length (gos r)) quiet_clock o]).
  eexists. split; [apply list.Forall_app; split; [by apply Forall_replicate|by repeat constructor]|].
  split.
  { cbn [run_events run_event]. cbn [mbind run_bind]. fold r1. rewrite run_events_app, E.
    cbn [mbind run_bind run_events run_event]. simpl gos.
    rewrite list_lookup_insert_eq by (rewrite length_app; simpl; lia).
    done. }
  simpl. split_and!; try done.
  rewrite insert_app_r_alt, Nat.sub_diag by lia. simpl. rewrite delete_middle. apply app_nil_r.
Qed.

(** It can always be gone through. *)
Lemma shuts_down r :
  ok r -> AuditSink.loop_at (sink (st r)) <> AuditSink.Returned ->
  exists es1 cs es2 r', Forall is_run es1 /\ Forall is_run es2
  /\ run (shutdown es1 cs es2) r = Done r'
  /\ ok r' /\ Forall at_rest (gos r') /\ received r' = received r /\ parked (st r') = []
  /\ AuditSink.loop_at (sink (st r')) = AuditSink.Returned
  /\ AuditSink.pending (sink (st r')) = [].
Proof using Henc Hlive.
  intros Hok Hsink. set (r1 := set_workers (set_closed (set_stop (workers r))) r).
  assert (run [StopPool; ClosePool] r = Done r1) as E1 by done.
  destruct (run_events_keep srv sources unmarshal level_of P p q0 Henc [StopPool; ClosePool] r)
    as (r1' & E1' & Hok1); [by repeat constructor|done|]. rewrite E1 in E1'. injection E1' as <-.
  destruct (come_to_rest srv sources unmarshal level_of P p q0 Henc r1 Hok1 eq_refl eq_refl)
    as (es1 & r2 & Hes1 & E2 & Hok2 & Hrest & Hrc & _ & _ & Hloop).
  set (r3 := set_gos (set_sink (AuditSink.Close (sink (st r2))) (st r2)) (gos r2) r2).
  destruct (AuditSink.closed_returns (AuditSink.Close (sink (st r2)))) as (cs & msgs & k & Ek & Hk & Hpend & _).
  { simpl. by rewrite Hloop. }
  { done. }
  destruct (publishes cs r3) as [l E3]. change (sink (st r3)) with (AuditSink.Close (sink (st r2))) in E3.
  rewrite Ek in E3. cbn [snd] in E3. set (r4 := add_audited l _) in E3.
  assert (ok r4) as Hok4 by by eapply sink_keeps.
  destruct (registry_closes r4 Hok4 Hrest) as (es2 & r5 & Hes2 & E5 & Hg5 & Hrc5 & Hp5 & Hs5).
  exists es1, cs, es2, r5.
  assert (run ([StopPool; ClosePool] ++ es1 ++ [CloseSink] ++ (Publish <$> cs) ++ CloseKept :: es2) r
    = Done r5) as E.
  { rewrite run_events_app, E1. cbn [mbind run_bind]. rewrite run_events_app, E2. cbn [mbind run_bind].
    rewrite run_events_app. cbn [run_events run_event mbind run_bind]. fold r3.
    rewrite run_events_app, E3. cbn [mbind run_bind]. exact E5. }
  split_and!; try done.
  - destruct (run_events_keep srv sources unmarshal level_of P p q0 Henc
      ([StopPool; ClosePool] ++ es1 ++ [CloseSink] ++ (Publish <$> cs) ++ CloseKept :: es2) r)
      as (r5' & E' & Hok5); [|done|rewrite E in E'; by injection E' as <-].
    assert (forall es, Forall is_run es -> Forall (good_event unmarshal level_of P) es) as Hgood
      by (intros es H; eapply list.Forall_impl; [exact H|]; by intros []).
    apply list.Forall_app. split; [by repeat constructor|].
    apply list.Forall_app. split; [by apply Hgood|]. constructor; [done|].
    apply list.Forall_app. split; [|constructor; [done|by apply Hgood]].
    apply list.Forall_fmap, list.Forall_true. by intros.
  - by rewrite Hg5.
  - by rewrite Hrc5.
  - by rewrite Hs5.
  - by rewrite Hs5.
Qed.

(** At rest, all that was received has been answered. *)
Lemma rest_answered r :
  ok r -> (exists n d rs m f, (0 < n)%nat /\ q0 = Queue.start n d rs m f) -> Forall at_rest (gos r) ->
  q (workers r) = [] /\ received r ≡ₚ (dealt r).*1
  /\ (exists replies, sent (st r) ≡ₚ mjoin replies /\ Forall2 (replied h) (dealt r) replies)
  /\ exists lost, St_ok (sent (st r)) p lost (st r) /\ 0 <= lost <= Z.of_nat (length (dealt r))
     /\ (lost = 0 \/ loader_panics h).
Proof using.
  intros ([Hq Hr Hd Hb] & (ref & ans & lost & [Hh Hf Ha Hl]) & _) (n & dep & rs & m & f & Hn & ->) Hrest.
  assert (Forall Queue.finished (Queue.threads (queue_of r)) /\ omap receiving (gos r) = []
    /\ omap calling (gos r) = []) as (Hfin & Hnr & Hnc).
  { unfold queue_of. simpl. clear -Hrest. induction Hrest as [|g l Hg _ (IH1 & IH2 & IH3)]; [done|].
    destruct g as [|th []|]; simpl in *; try done. by split_and!; [constructor|..]. }
  destruct (Queue.finished_answered n dep rs m f (queue_of r) Hn Hq Hfin) as [Hqn Hkeys].
  simpl in Hqn, Hkeys. rewrite Hnr in Hr. rewrite Hnc in Hb. simpl in Hr, Hb.
  destruct Hh as (ws & Hws & Hs & Hsent).
  assert (total ws = 0 /\ outs ws = []) as [Hw Ho].
  { clear -Hws Hrest. revert Hrest. induction Hws as [|g w l ws Hg _ IH]; [done|].
    intros [Hr Hl]%list.Forall_cons. destruct (IH Hl) as [H1 H2].
    destruct g as [|th []|]; simpl in *; try done. subst w.
    split; [simpl; lia|exact H2]. }
  rewrite Hw, Z.add_0_r in Hs. rewrite Ho in Hsent. simpl in Hsent.
  assert (length (returned r) <= length (dealt r))%nat as Hlen.
  { apply Permutation_length in Hkeys. rewrite !length_fmap, Hb in Hkeys. rewrite <- Hkeys.
    clear. unfold omap. induction (dealt r) as [|[m []] l IH]; simpl; lia. }
  split_and!; [done|done| |exists lost; split_and!; [done|lia|lia|apply Hl]].
  destruct (Forall2_permute (answered_as h) (key <$> (c_Task <$> returned r))
    (key <$> omap submitted_of (dealt r)) ans) as (ans' & Hpa & Ha').
  { by rewrite Hkeys, Hb. }
  { rewrite <- list_fmap_compose. apply Forall2_fmap_l. exact Ha. }
  destruct (replies_in_order h _ _ _ Hd Hf Ha') as (replies & Hrep & Hp).
  exists replies. split; [|done]. by rewrite Hsent, <- Hp, (mjoin_permute _ _ Hpa).
Qed.
End shutdown.

(** ** Sample *)

(** A bus with malformed and well-formed messages, a store, and codecs. *)
Definition sample_outside : Main.Outside :=
  {| Main.o_sys := Config.sample_system; Main.o_parse_url := ConfFile.sample_url;
     Main.o_unicode_word := fun _ => false; Main.o_level_of := Config.sample_level;
     Main.o_sources := Main.sample_profiles; Main.o_status_map := fun _ => None;
     Main.new_store := fun _ => Some sample_store; Main.connect := fun _ => true;
     Main.geo_New := fun _ _ _ => None;
     Main.geo_nil := {| Networked := fun _ => false; geo_Write := fun _ _ => Err "" |};
     Main.nuid_Next := "N1"; Main.subscribe := fun _ => true;
     Main.SetPendingLimits := fun _ => true; Main.OpenBlobs := fun _ => true;
     Main.open_bucket := true; Main.o_crypto := sample_crypto;
     Main.o_json_Request := fun text => if str_eqb text "{" then None else Some wanting;
     Main.o_json_Headers := fun _ => None; Main.o_json_Reply := fun r => Some (rep_RID r);
     Main.o_json_Event := fun _ => None |}.

Definition sample_valid : Msg :=
  {| m_Subject := "waf.req.modsec"; m_Reply := "inbox.2"; m_Data := "{}" |}.

Definition sample_oracle : Queue.Oracle := {| now0 := 0; now1 := 0; now2 := 0; pick := false |}.

Definition sample_move (i : nat) : event := Run i sample_clock sample_oracle.

(** Two messages arrive and are parsed in turns; the pool takes the task of one; packs are
    pushed while a worker is in the middle of it; then the registry is swept. *)
Definition sample_arrivals : list event :=
  [Arrive sample_clock [] [] sample_valid; Arrive sample_clock [] [] sample_msg]
  ++ concat (replicate 4 [sample_move 9; sample_move 10]) ++ replicate 5 (sample_move 9).

Definition sample_events : list event :=
  sample_arrivals ++ replicate 10 (sample_move 1) ++ map Push Watch.sample_events
  ++ replicate 12 (sample_move 1) ++ Tick 1 :: replicate 3 (sample_move 10).

Lemma sample_run_good : good_events sample_events.
Proof.
  assert (Forall (fun e => match e with Push ev => Watch.good_event ev | _ => True end) sample_events)
    as H; [|intros ev Hev; rewrite list.Forall_forall in H; apply (H _ Hev)].
  unfold sample_events, sample_arrivals. rewrite !list.Forall_app.
  split_and!; try by apply Forall_replicate.
  - by repeat constructor.
  - by repeat constructor.
  - apply list.Forall_fmap. apply Watch.sample_events_good.
  - constructor; [done|by apply Forall_replicate].
Qed.

Definition sample_serve (s : Main.Service) : run Running :=
  serve sample_outside s (fun _ => Main.sample_profiles) Watch.sample_unmarshal ∅ None sample_events.

Lemma sample_live s :
  Deploy.ReadsLive (Config.DataDir (Main.s_cfg s)) (fun _ => Main.sample_profiles).
Proof. intros d1 d2 r _. reflexivity. Qed.

(** What the run comes to, computed. *)
Lemma sample_result s r :
  Main.boot sample_outside = Ok s -> sample_serve s = Done r ->
  (sent (st r)).*1 = ["inbox.1"; "inbox.2"] /\ length (returned r) = 1%nat
  /\ length (parked (st r)) = 1%nat /\ created (st r) = 1
  /\ Main.b_Apply (heartbeat s r) = Watch.ApplyOK /\ exists x, published (st r) = [x].
Proof.
  intros E Er.
  assert (match Main.boot sample_outside with
    | Ok s =>
        match sample_serve s with
        | Done r =>
            ((sent (st r)).*1, length (returned r), length (parked (st r)), created (st r),
             Main.b_Apply (heartbeat s r), length (published (st r)))
        | Panic => ([], 0%nat, 0%nat, 0, "", 0%nat)
        end
    | Err _ => ([], 0%nat, 0%nat, 0, "", 0%nat)
    end = (["inbox.1"; "inbox.2"], 1%nat, 1%nat, 1, Watch.ApplyOK, 1%nat)) as H by (vm_compute; reflexivity).
  rewrite E, Er in H. clear E Er. injection H as H1 H2 H3 H4 H5 H6. split_and!; try assumption.
  destruct (published (st r)) as [|x [|]]; try discriminate H6. exists x. reflexivity.
Qed.

(** ** Properties *)










