(* ===== verification/Inspector.v ===== *)
(** * The inspector as one sequential server

    What the whole process comes to for its clients. [Inspector] knows only the messages
    it has heard, the duties it has not yet done, and the messages it has told, in order;
    one step hears a message, or does one duty at once. The theorem says that the process,
    with all its goroutines, queues and interleavings, implements it: the events of
    [Service] are steps of [Inspector], or nothing. *)

From S2P Require Import Prelude GoString Protocol Engine Apply Overload PriorRules Policy.
From S2P Require Import AuditLog Verdict Queue Sticky Body Rules Lists.
From S2P Require Import Handler HandlerLogic HandlerSafety HandlerFlow Service Serving.
From S2P Require AuditSink Pack Deploy ConfFile Config Watch Main.
From stdpp Require Import options.

Local Open Scope Z_scope.

(** ** Specification *)

(** A message to read, or the request of a task to judge, with its reply subject and
    whether it came on the private subject. *)
Inductive duty := Reading (m : Msg) | Judging (k : Request * string * bool).

Record Inspector := { heard : list Msg; duties : list duty; told : list (string * string) }.

Definition idle : Inspector := {| heard := []; duties := []; told := [] |}.

Section inspector.
Context (h : handler).

(** How a duty is done: what is left to do, and what is told.
    - A well-formed message of a phase that is inspected becomes a request to judge.
    - A release tells nothing.
    - Any other message is answered with an error, under the RID that could be read.
    - A request is judged by one honest reply.
    Nothing is told without a reply subject. *)
Inductive handles : duty -> option duty -> list (string * string) -> Prop :=
| handles_task m t : task_of h m t -> handles (Reading m) (Some (Judging (key t))) []
| handles_release m o1 o2 req :
    Parse (json_Request h) o1 o2 (m_Data m) = Ok req ->
    Supports h (V req) = true -> is_some (req_Release req) = true ->
    handles (Reading m) None []
| handles_other m o1 o2 req l :
    Parse (json_Request h) o1 o2 (m_Data m) = Ok req ->
    Supports h (V req) && (is_some (req_Release req) || supports (Phase req)) = false ->
    sent_one h [] (m_Reply m) (fun rep => Verdict rep = VerdictError /\ rep_RID rep = RID req) l ->
    handles (Reading m) None l
| handles_malformed m o1 o2 pe l :
    Parse (json_Request h) o1 o2 (m_Data m) = Err pe ->
    sent_one h [] (m_Reply m) (fun rep => Verdict rep = VerdictError /\ rep_RID rep = pe_RID pe) l ->
    handles (Reading m) None l
| handles_request k ck l :
    sent_one h [] k.1.2 (honest h ck k.1.1) l -> handles (Judging k) None l.

Inductive istep : Inspector -> Inspector -> Prop :=
| hears m I ds :
    ds ≡ₚ Reading m :: duties I ->
    istep I {| heard := heard I ++ [m]; duties := ds; told := told I |}
| does_duty d o l rest I ds :
    duties I ≡ₚ d :: rest -> handles d o l -> ds ≡ₚ option_list o ++ rest ->
    istep I {| heard := heard I; duties := ds; told := told I ++ l |}.

(** ** The duties of a running process *)

(** A goroutine's own duty, until its answer is sent; and the tasks that it holds. *)
Definition own_duty (g : goroutine) : list duty :=
  match g with
  | Receiving _ _ m _ => [Reading m]
  | Pooled _ (Some (c, _)) => [Judging (key (c_Task c))]
  | _ => []
  end.

Definition held_duties (g : goroutine) : list duty :=
  match g with Pooled th _ => Judging <$> (key <$> Queue.held th) | _ => [] end.

Definition duties_of (x : goroutine * Own) : list duty :=
  match out x.2 with [] => own_duty x.1 | _ => [] end ++ held_duties x.1.

Definition queued (r : Running) : list duty := Judging <$> (key <$> q (workers r)).

(** The process implements the inspector: it has heard and told the same, in the same
    order, and the duties are in the hands of its goroutines and in the queue. *)
Definition implements (p : bool) (r : Running) (I : Inspector) : Prop :=
  heard I = received r /\ told I = sent (st r)
  /\ exists gws, gos r = gws.*1 /\ Forall (fun x => goroutine_ok h p x.1 x.2) gws
     /\ duties I ≡ₚ mjoin (duties_of <$> gws) ++ queued r.

(** What clients see of the inspector: it has heard what the process has received and told
    what the process has sent; and it has no duties when the process is at rest. *)
Definition observed (r : Running) (I : Inspector) : Prop :=
  heard I = received r /\ told I = sent (st r) /\ (Forall at_rest (gos r) -> duties I = []).

(** ** Lemmas *)

Lemma handles_short d o l : handles d o l -> (length l <= 1)%nat.
Proof using.
  assert (forall subject phi l, sent_one h [] subject phi l -> (length l <= 1)%nat) as Hs.
  { intros subject phi l'. unfold sent_one. destruct (str_eqb _ _); [intros ->; simpl; lia|].
    intros (rep & text & _ & _ & ->). simpl. lia. }
  destruct 1; simpl; eauto; lia.
Qed.

Context (p : bool).

(** What a goroutine has sent is the doing of its duty. *)
Lemma early_handled g w s :
  shared_ok p s -> goroutine_ok h p g w -> out w <> [] ->
  exists d, own_duty g = [d] /\ handles d None (out w).
Proof using.
  intros Hs. destruct g as [o1 o2 m prog|th [[c prog]|]|prog]; simpl; intros Hg Hne.
  - exists (Reading m). split; [done|].
    destruct (safe_out p prog w _ s Hs Hg) as (r & w' & new & [_ HQ] & Ho).
    assert (out w' <> []) as Hne' by (rewrite Ho; by intros [? _]%app_nil).
    assert (forall phi, sent_one h [] (m_Reply m) phi (out w') -> out w = out w') as Heq.
    { intros phi Hphi. by destruct (sent_one_prefix h _ _ (out w) _ new Hphi Ho). }
    destruct r as [[t|]|]; [by destruct HQ| |done].
    destruct (Parse _ _ _ _) as [req|pe] eqn:Ep.
    + destruct (Supports h (V req)) eqn:Ev, (is_some (req_Release req)) eqn:Er; simpl in HQ;
        [done|destruct HQ as [Hph HQ]..]; rewrite (Heq _ HQ);
        eapply handles_other; try exact Ep; try exact HQ; by rewrite ?Ev, ?Er.
    + rewrite (Heq _ HQ). by eapply handles_malformed.
  - exists (Judging (key (c_Task c))). split; [done|]. destruct Hg as [ck Hg].
    destruct (safe_out p prog w _ s Hs Hg) as (r & w' & new & (_ & _ & HQ) & Ho).
    destruct (sent_one_prefix h _ _ (out w) _ new HQ Ho) as [? | ->]; [done|].
    by eapply handles_request.
  - by subst w.
  - destruct (safe_out p prog w _ s Hs Hg) as (r & w' & new & [_ ->] & Ho). simpl in Ho.
    by destruct (out w).
Qed.
End inspector.

(** ** The events implement the inspector *)

Section simulation.
Context (srv : Main.Service) (sources : gmap (list string) Deploy.node -> Sources).
Context (unmarshal : string -> option Pack.Pack) (level_of : string -> option Z).
Abbreviation h := (Main.s_handler srv).
Context (p : bool).
Context (Henc : forall r, is_some (json_Reply h r) = true).

(** The inspector follows the process to [r]. *)
Definition follows (I : Inspector) (r : Running) : Prop :=
  exists I', rtc (istep h) I I' /\ implements h p r I'.

Lemma follows_still I r : implements h p r I -> follows I r.
Proof using. intros H. by exists I. Qed.

(** One goroutine singled out: its duties, and those of the others. *)
Lemma implements_at r I i g :
  implements h p r I -> gos r !! i = Some g ->
  exists w others, goroutine_ok h p g w /\ duties I ≡ₚ duties_of (g, w) ++ others ++ queued r
  /\ (forall g' w', goroutine_ok h p g' w' -> exists gws, <[i := g']> (gos r) = gws.*1
        /\ Forall (fun x => goroutine_ok h p x.1 x.2) gws
        /\ mjoin (duties_of <$> gws) ≡ₚ duties_of (g', w') ++ others)
  /\ exists gws, delete i (gos r) = gws.*1 /\ Forall (fun x => goroutine_ok h p x.1 x.2) gws
       /\ mjoin (duties_of <$> gws) ≡ₚ others.
Proof using.
  intros (_ & _ & gws & -> & Hok & Hd) Hi. rewrite list_lookup_fmap in Hi.
  destruct (gws !! i) as [[g0 w]|] eqn:E; [|done]. injection Hi as ->.
  destruct (lookup_split _ _ _ E) as (l1 & l2 & -> & Hput & Hdel).
  apply list.Forall_app in Hok as [Hok1 [Hg Hok2]%list.Forall_cons].
  exists w, (mjoin (duties_of <$> l1) ++ mjoin (duties_of <$> l2)). split_and!; [done| | |].
  - rewrite Hd, fmap_app, join_app. simpl. solve_Permutation.
  - intros g' w' Hg'. exists (l1 ++ (g', w') :: l2). split_and!.
    + symmetry. by rewrite <- Hput, list_fmap_insert.
    + apply list.Forall_app. split; [done|]. by constructor.
    + rewrite fmap_app, join_app. simpl. solve_Permutation.
  - exists (l1 ++ l2). split_and!.
    + symmetry. by rewrite <- Hdel, list_fmap_delete.
    + by apply list.Forall_app.
    + by rewrite fmap_app, join_app.
Qed.

(** An action may tell one message, and that does the duty of its goroutine. *)
Lemma act_follows i f g g' r I :
  gos r !! i = Some g -> shared_ok p (st r) -> implements h p r I ->
  moves h p g f g' (st r) -> own_duty g' = own_duty g -> held_duties g' = held_duties g ->
  follows I (set_gos (f (st r)) (<[i := g']> (gos r)) r).
Proof using.
  intros Hi Hsh HI Hm Eo Eh.
  destruct (implements_at _ _ _ _ HI Hi) as (w & others & Hg & Hd & Hput & _).
  destruct HI as (Hh & Ht & _). destruct (Hm w Hg) as (w' & Hdoes & Hg').
  destruct Hsh as (l & n & Hs). pose proof (ok_sent _ _ _ _ Hs) as Hl.
  destruct (Hdoes l (n - held w)) as (new & Ho & Hs' & _).
  { by replace (held w + (n - held w)) with n by lia. }
  pose proof (ok_sent _ _ _ _ Hs') as Hl'. subst l.
  destruct (Hput g' w' Hg') as (gws & Hgws & Hok & Hd').
  assert (forall I', heard I' = heard I -> told I' = told I ++ new ->
    duties I' ≡ₚ duties_of (g', w') ++ others ++ queued r ->
    implements h p (set_gos (f (st r)) (<[i := g']> (gos r)) r) I') as Himp.
  { intros I' Hh' Ht' Hdu. split_and!; simpl; [by rewrite Hh'|by rewrite Ht', Ht|].
    exists gws. split_and!; [done|done|]. by rewrite Hd', <- (assoc_L (++)). }
  unfold duties_of in Hd, Himp. simpl in Hd, Himp. rewrite Eo, Eh in Himp.
  destruct new as [|x new].
  { rewrite app_nil_r in Ho, Himp. rewrite Ho in Himp. apply follows_still. by apply Himp. }
  assert (out w' <> []) as Hne by (rewrite Ho; by destruct (out w)).
  destruct (early_handled h p g' w' (f (st r))) as (d & Hdu & Hha); [by eexists _, _|done..|].
  pose proof (handles_short h _ _ _ Hha) as Hlen. rewrite Ho, length_app in Hlen. simpl in Hlen.
  destruct (out w) as [|y l] eqn:Ew; [|simpl in Hlen; lia]. simpl in Ho. rewrite Ho in Hha.
  rewrite <- Eo, Hdu in Hd. rewrite Ho in Himp.
  eexists. split; [apply rtc_once; eapply (does_duty h d None (x :: new)); [exact Hd|exact Hha|done]|].
  by apply Himp.
Qed.

(** How a reading ends is the doing of its duty, if it has told nothing before. *)
Lemma read_handled o1 o2 m w :
  received_as h o1 o2 m (Done None) w -> handles h (Reading m) None (out w).
Proof using.
  intros [_ H]. destruct (Parse _ _ _ _) as [req|pe] eqn:Ep; [|by eapply handles_malformed].
  destruct (Supports h (V req)) eqn:Ev, (is_some (req_Release req)) eqn:Er; simpl in H.
  { rewrite H. by eapply handles_release. }
  all: destruct H as [Hph H]; eapply handles_other; [exact Ep| |exact H]; by rewrite ?Ev, ?Er.
Qed.

(** A goroutine that ends, or goes on without a duty of its own, has done it. *)
Lemma end_follows r I d w others tasks gs (r' : Running) :
  implements h p r I -> duties I ≡ₚ match out w with [] => [d] | _ => [] end ++ others ->
  handles h d None (out w) ->
  received r' = received r -> sent (st r') = sent (st r) -> gos r' = gs -> queued r' = tasks ->
  (exists gws, gs = gws.*1 /\ Forall (fun x => goroutine_ok h p x.1 x.2) gws
     /\ others ≡ₚ mjoin (duties_of <$> gws) ++ tasks) ->
  follows I r'.
Proof using.
  intros (Hh & Ht & _) Hd Hha Er Es <- <- (gws & Hg & Hok & Ho).
  destruct (out w) as [|x l] eqn:Ew.
  - eexists. split; [apply rtc_once; by eapply (does_duty h d None [])|].
    split_and!; simpl; [by rewrite Hh|by rewrite app_nil_r, Ht|by exists gws].
  - apply follows_still. split_and!; [by rewrite Hh|by rewrite Ht|]. exists gws.
    split_and!; [done|done|]. by rewrite Hd.
Qed.

Lemma read_follows i ck o o1 o2 m res r r' I :
  gos r !! i = Some (Receiving o1 o2 m (Ret res)) -> implements h p r I ->
  run_go srv i ck o (Receiving o1 o2 m (Ret res)) r = Done r' -> follows I r'.
Proof using.
  intros Hi HI E. destruct (implements_at _ _ _ _ HI Hi) as (w & others & Hg & Hd & _ & gws & Hgws & Hok & Hdel).
  simpl in Hg, E. destruct res as [[t|]|]; [| |done]; injection E as <-.
  - destruct Hg as (_ & Ho & Hp & Hv & Hrel & Hph & Hto). unfold duties_of in Hd. simpl in Hd.
    rewrite Ho in Hd. simpl in Hd. destruct HI as (Hh & Ht & _).
    eexists. split.
    { apply rtc_once. eapply (does_duty h (Reading m) (Some (Judging (key t))) []); [exact Hd| |done].
      apply handles_task. split_and!; try done. by exists o1, o2. }
    split_and!; simpl; [done|by rewrite app_nil_r|].
    exists (gws ++ [(Pooled (TSubmit t) None, nothing)]). split_and!.
    + by rewrite fmap_app, Hgws.
    + apply list.Forall_app. split; [done|]. by constructor.
    + rewrite fmap_app, join_app, Hdel. simpl. solve_Permutation.
  - eapply (end_follows r I (Reading m) w (others ++ queued r)); try done.
    + unfold duties_of in Hd. simpl in Hd. by rewrite app_nil_r in Hd.
    + by eapply read_handled.
    + exists gws. split_and!; [done|done|]. by rewrite Hdel.
Qed.

Lemma call_follows i ck o th c res r r' I :
  gos r !! i = Some (Pooled th (Some (c, Ret res))) -> implements h p r I ->
  run_go srv i ck o (Pooled th (Some (c, Ret res))) r = Done r' -> follows I r'.
Proof using.
  intros Hi HI E. destruct (implements_at _ _ _ _ HI Hi) as (w & others & Hg & Hd & Hput & _).
  simpl in Hg, E. destruct Hg as (ck' & -> & _ & Hs). injection E as <-.
  destruct (Hput (Pooled th None) nothing eq_refl) as (gws & Hgws & Hok & Hd').
  eapply (end_follows r I (Judging (key (c_Task c))) w
    (held_duties (Pooled th None) ++ others ++ queued r)); try done.
  - rewrite Hd. unfold duties_of. simpl. by rewrite <- (assoc_L (++)).
  - by eapply handles_request.
  - exists gws. split_and!; [done|done|]. rewrite Hd'. unfold duties_of. simpl.
    by rewrite <- (assoc_L (++)).
Qed.

(** A section of the pool moves tasks between its goroutine, the queue and the call. *)
Lemma section_follows i ck o th r r' I :
  gos r !! i = Some (Pooled th None) -> implements h p r I -> qlen (workers r) <= depth (workers r) ->
  run_go srv i ck o (Pooled th None) r = Done r' -> follows I r'.
Proof using Henc.
  intros Hi HI Hb E. destruct (implements_at _ _ _ _ HI Hi) as (w & others & Hg & Hd & Hput & _).
  simpl in Hg, E. subst w.
  destruct (run_thread o th (workers r)) as [[[th' q'] l]|] eqn:Er;
    [|injection E as <-; by apply follows_still].
  injection E as <-. pose proof (run_thread_call _ _ _ _ _ _ Er) as Hlen.
  pose proof (sec_tasks _ _ _ _ _ (run_thread_ok _ _ _ _ _ _ Er Hb)) as Htasks.
  apply (fmap_Permutation Judging) in Htasks. rewrite !fmap_app in Htasks.
  destruct (Hput (Pooled th' (begin_call srv ck l)) nothing) as (gws & Hgws & Hok & Hd').
  { destruct l as [|c l]; [done|]. exists ck. by apply evaluate_ok. }
  apply follows_still. destruct HI as (Hh & Ht & _). split_and!; [done|done|].
  exists gws. split_and!; [done|done|]. rewrite Hd, Hd'. unfold duties_of, queued, held_duties. simpl.
  assert (own_duty (Pooled th' (begin_call srv ck l)) = Judging <$> (key <$> (c_Task <$> l))) as Hown.
  { destruct l as [|c [|c2 l]]; [done|done|simpl in Hlen; lia]. }
  simpl in Hown. rewrite Hown.
  set (A := Judging <$> (key <$> Queue.held th)) in *. set (A' := Judging <$> (key <$> Queue.held th')) in *.
  set (B := Judging <$> (key <$> q (workers r))) in *. set (B' := Judging <$> (key <$> q q')) in *.
  set (C := Judging <$> (key <$> (c_Task <$> l))) in *.
  trans ((A ++ B) ++ others); [solve_Permutation|]. rewrite Htasks. solve_Permutation.
Qed.

Lemma background_follows i ck o res r r' I :
  gos r !! i = Some (Background (Ret res)) -> implements h p r I ->
  run_go srv i ck o (Background (Ret res)) r = Done r' -> follows I r'.
Proof using.
  intros Hi HI E. destruct (implements_at _ _ _ _ HI Hi) as (w & others & Hg & Hd & _ & gws & Hgws & Hok & Hdel).
  simpl in Hg, E. destruct Hg as [-> ->]. injection E as <-. apply follows_still.
  destruct HI as (Hh & Ht & _). split_and!; [done|done|]. exists gws. split_and!; [done|done|].
  rewrite Hdel. exact Hd.
Qed.

Context (P : Pack.Pack -> Prop) (n : nat) (dep res mb : Z) (full_ : string).

Abbreviation ok := (running_ok srv sources P p (Queue.start n dep res mb full_)).

Lemma ok_shared r : ok r -> shared_ok p (st r).
Proof using. intros (_ & (? & ? & ? & [Hh _ _ _]) & _). by eapply holds_shared. Qed.

Lemma go_follows i ck o g r r' I :
  gos r !! i = Some g -> ok r -> implements h p r I ->
  run_go srv i ck o g r = Done r' -> follows I r'.
Proof using Henc.
  intros Hi Hok HI. pose proof (ok_shared r Hok) as Hsh.
  destruct g as [o1 o2 m [res'|f k]|th [[c [res'|f k]]|]|[res'|f k]].
  - by eapply read_follows.
  - intros [= <-]. apply (act_follows i f _ _ r I Hi Hsh HI); [|done..]. intros w Hw. by apply Hw.
  - by eapply call_follows.
  - intros [= <-]. apply (act_follows i f _ _ r I Hi Hsh HI); [|done..]. intros w [ck' Hw].
    destruct (Hw _ Hsh) as (w' & ? & ?). exists w'. split; [done|]. by exists ck'.
  - eapply section_follows; try done. destruct Hok as ([Hq _ _ _] & _).
    by apply Queue.run_inv, inv_bound in Hq.
  - by eapply background_follows.
  - intros [= <-]. apply (act_follows i f _ _ r I Hi Hsh HI); [|done..]. intros w Hw. by apply Hw.
Qed.

(** A goroutine that starts with nothing adds its duties. *)
Lemma spawn_implements g r I ds :
  implements h p r I -> goroutine_ok h p g nothing ->
  ds ≡ₚ duties_of (g, nothing) ++ duties I ->
  implements h p (spawn g r) {| heard := heard I; duties := ds; told := told I |}.
Proof using.
  intros (Hh & Ht & gws & Hg & Hok & Hd) Hgo Hds. split_and!; [done|done|].
  exists (gws ++ [(g, nothing)]). split_and!.
  - simpl. by rewrite Hg, fmap_app.
  - apply list.Forall_app. split; [done|]. by constructor.
  - simpl. rewrite Hds, Hd, fmap_app, join_app. simpl. unfold queued. simpl. solve_Permutation.
Qed.

(** What leaves the goroutines, the queue and the messages alone. *)
Lemma quiet_follows r r' I :
  implements h p r I -> gos r' = gos r -> q (workers r') = q (workers r) ->
  received r' = received r -> sent (st r') = sent (st r) -> follows I r'.
Proof using.
  intros (Hh & Ht & gws & Hg & Hok & Hd) E1 E2 E3 E4. apply follows_still.
  split_and!; [congruence|congruence|]. exists gws. split_and!; [congruence|done|].
  unfold queued. by rewrite E2.
Qed.

Lemma timer_follows i r I :
  implements h p r I -> forall r', run_event srv sources unmarshal level_of (Timer i) r = Done r' ->
  follows I r'.
Proof using.
  intros HI r' E. cbn [run_event] in E.
  destruct (gos r !! i) as [g|] eqn:Hi; [|by injection E as <-; apply follows_still].
  destruct g as [|[| | |t []| | | | | | |] [|]|]; try by injection E as <-; apply follows_still.
  injection E as <-. destruct (implements_at _ _ _ _ HI Hi) as (w & others & -> & Hd & Hput & _).
  destruct (Hput (Pooled (TWait t true) None) nothing eq_refl) as (gws & Hgws & Hok & Hd').
  destruct HI as (Hh & Ht & _). apply follows_still. split_and!; [done|done|].
  exists gws. split_and!; [done|done|]. by rewrite Hd, Hd', <- (assoc_L (++)).
Qed.

Lemma event_follows e r r' I :
  good_event unmarshal level_of P e -> ok r -> implements h p r I ->
  run_event srv sources unmarshal level_of e r = Done r' -> follows I r'.
Proof using Henc.
  intros Hg Hok HI E. destruct e as [ck o1 o2 m|i ck o|i|now| | |c| | |ev|];
    [|cbn [run_event] in E; by destruct (gos r !! i) as [g|] eqn:Hi;
        [eapply go_follows|injection E as <-; apply follows_still]
     |by eapply timer_follows|cbn [run_event] in E..].
  - injection E as <-. eexists. split; [by apply rtc_once, (hears h m)|].
    destruct (spawn_implements (Receiving o1 o2 m (receive h ck o1 o2 m)) r I
      (Reading m :: duties I)) as (Hh & Ht & Hx); [done|by apply receive_safe|done|].
    simpl in Hh. split_and!; [simpl; by rewrite Hh|done|exact Hx].
  - injection E as <-. destruct I as [hd ds tl]. apply follows_still.
    by apply (spawn_implements (Background (sweep now)) r {| heard := hd; duties := ds; told := tl |} ds
      HI (sweep_safe _ _ now)).
  - injection E as <-. by eapply quiet_follows.
  - injection E as <-. eapply quiet_follows; try done; by destruct (stop (workers r)).
  - destruct (AuditSink.loop_step c (sink (st r))) as [[its k]|]; injection E as <-;
      by eapply quiet_follows.
  - injection E as <-. by eapply quiet_follows.
  - injection E as <-. destruct I as [hd ds tl]. apply follows_still.
    by apply (spawn_implements (Background close_kept) r {| heard := hd; duties := ds; told := tl |} ds
      HI (close_safe _ _)).
  - destruct (negb _); [by injection E as <-; apply follows_still|].
    destruct (Watch.step _ _ _ _ _ _ _) as [w|]; [|done]. injection E as <-. by eapply quiet_follows.
  - injection E as <-. by eapply quiet_follows.
Qed.

Context {Hlive : Deploy.ReadsLive (Config.DataDir (Main.s_cfg srv)) sources}.

Lemma events_follow es r I :
  Forall (good_event unmarshal level_of P) es -> ok r -> implements h p r I ->
  exists r' I', run_events srv sources unmarshal level_of es r = Done r' /\ ok r'
  /\ rtc (istep h) I I' /\ implements h p r' I'.
Proof using Henc Hlive.
  intros Hg. revert r I. induction Hg as [|e es He _ IH]; intros r I Hr HI.
  { by exists r, I. }
  destruct (event_keeps srv sources unmarshal level_of P p _ Henc e r He Hr) as (r1 & E & Hr1).
  destruct (event_follows e r r1 I He Hr HI E) as (I1 & Hs1 & HI1).
  destruct (IH r1 I1 Hr1 HI1) as (r2 & I2 & E2 & Hr2 & Hs2 & HI2).
  exists r2, I2. cbn [run_events]. rewrite E. split_and!; [done|done|by trans I1|done].
Qed.

Lemma rest_idle r I :
  (0 < n)%nat -> ok r -> implements h p r I -> Forall at_rest (gos r) -> duties I = [].
Proof using.
  intros Hn Hok (_ & _ & gws & Hg & Hws & Hd) Hrest.
  destruct (rest_answered srv sources P p _ r Hok) as (Hq & _);
    [by exists n, dep, res, mb, full_|done|].
  apply Permutation_nil. rewrite Hd. unfold queued. rewrite Hq, app_nil_r, Hg in *.
  clear -Hrest. induction gws as [|[g w] gws IH]; [done|]. simpl in *.
  apply list.Forall_cons in Hrest as [Hr Hrest]. rewrite <- (IH Hrest), app_nil_r.
  destruct g as [|th [|]|]; simpl in Hr; try done. unfold duties_of. simpl.
  by destruct Hr as [-> | ->], (out w).
Qed.

Lemma implements_observed r I : (0 < n)%nat -> ok r -> implements h p r I -> observed r I.
Proof using.
  intros Hn Hok HI. pose proof (rest_idle r I Hn Hok HI) as Hrest. destruct HI as (Hh & Ht & _).
  by split_and!.
Qed.
End simulation.

Lemma started_implements o s d lvl :
  Main.boot o = Ok s ->
  implements (Main.s_handler s) (is_some (sticky (Main.s_state s))) (started s d lvl) idle.
Proof.
  intros Hboot. destruct (Main.boot_state o s Hboot) as (_ & _ & _ & Hok).
  destruct (Main.boot_pool o s Hboot) as (n & dep & rs & mb & f & _ & Hpool).
  split_and!; [done|simpl; by rewrite (ok_sent _ _ _ _ Hok)|].
  exists ((fun th => (Pooled th None, nothing)) <$> Queue.threads (Main.s_pool s)).
  unfold queued, started. simpl. rewrite Hpool. simpl. split_and!.
  - f_equal. by rewrite <- list_fmap_compose.
  - constructor; [done|]. by apply list.Forall_fmap, Forall_replicate.
  - clear Hpool. rewrite app_nil_r. induction n as [|n IH]; [done|]. exact IH.
Qed.

(** ** Properties *)

(** C2: The process implements the sequential inspector: whatever interleaves, the messages
    it has received and sent, in their order, are those that an inspector has heard and
    told which does one duty at a time, each by one honest reply or one error and only
    after its message was heard; what the process does later are later steps of the same
    inspector; and when all goroutines have returned no duty is left. *)
Theorem service_refines (o : Main.Outside) (s : Main.Service)
    (sources : gmap (list string) Deploy.node -> Sources) (unmarshal : string -> option Pack.Pack)
    (d : gmap (list string) Deploy.node) (lvl : option Z) (es es' : list event)
    {Hlive : Deploy.ReadsLive (Config.DataDir (Main.s_cfg s)) sources}
    (Hboot : Main.boot o = Ok s)
    (Henc : forall r, is_some (Main.o_json_Reply o r) = true) (Hg : good_events (es ++ es')) :
  exists r I r' I', serve o s sources unmarshal d lvl es = Done r
  /\ serve o s sources unmarshal d lvl (es ++ es') = Done r'
  /\ rtc (istep (Main.s_handler s)) idle I /\ rtc (istep (Main.s_handler s)) I I'
  /\ observed r I /\ observed r' I'.
Proof.
  destruct (Main.boot_state o s Hboot) as (_ & Hj & _).
  destruct (Main.boot_pool o s Hboot) as (n & dep & rs & mb & f & Hn & Hpool).
  pose proof (started_ok o s Hboot sources unmarshal d lvl (es ++ es') Henc) as Hok.
  unfold service_ok in Hok. rewrite Hpool in Hok.
  set (P := pushed o unmarshal (es ++ es')) in *.
  assert (Forall (good_event unmarshal (Main.o_level_of o) P) (es ++ es')) as Hes.
  { apply list.Forall_forall. intros [| | | | | | | | |ev|] Hev; simpl; try done.
    split; [by apply Hg|]. intros q Hq. by exists ev. }
  apply list.Forall_app in Hes as [He1 He2].
  assert (forall rep, is_some (json_Reply (Main.s_handler s) rep) = true) as Henc' by by rewrite Hj.
  destruct (events_follow s sources unmarshal (Main.o_level_of o) _ Henc' P n dep rs mb f
    es _ _ He1 Hok (started_implements o s d lvl Hboot)) as (r & I & E & Hr & Hs & HI).
  destruct (events_follow s sources unmarshal (Main.o_level_of o) _ Henc' P n dep rs mb f
    es' _ _ He2 Hr HI) as (r' & I' & E' & Hr' & Hs' & HI').
  exists r, I, r', I'. split_and!; [done| |done|done| |].
  - unfold serve in *. by rewrite run_events_app, E.
  - by eapply implements_observed.
  - by eapply implements_observed.
Qed.

Lemma service_refines_witness :
  exists s r I, sample_serve s = Done r /\ rtc (istep (Main.s_handler s)) idle I
  /\ length (heard I) = 2%nat /\ (told I).*1 = ["inbox.1"; "inbox.2"].
Proof.
  destruct (Main.boot sample_outside) as [s|e] eqn:E; [|vm_compute in E; discriminate E].
  destruct (@service_refines sample_outside s (fun _ => Main.sample_profiles)
    Watch.sample_unmarshal ∅ None sample_arrivals (skipn (length sample_arrivals) sample_events)
    (sample_live s) E (fun _ => eq_refl)
    sample_run_good) as (r & I & r' & I' & _ & Er & H1 & H2 & _ & Hh & Ht & _).
  exists s, r', I'. split; [exact Er|]. split; [transitivity I; [exact H1|exact H2]|].
  rewrite Hh, Ht. destruct (sample_result s r' E Er) as (Hs & _). split; [|exact Hs].
  clear -E Er. vm_compute in E. injection E as <-. vm_compute in Er. injection Er as <-. reflexivity.
Defined.
