(* ===== verification/Probe.v ===== *)
(** * The test client: [cmd/probe/main.go]

    The probe builds one message from its flags, writes the objects of the message to
    the object store, sends it, and checks the verdict. The object store is a map from
    keys to data, any write to which may fail. The codecs, the bus and the bytes of
    the random source are arguments. The theorems follow what the command line says
    through [Protocol.Parse] and [Body.LoadMany] to the input of the engine. *)

From S2P Require Import Prelude GoString Protocol Engine Apply Overload PriorRules Policy.
From S2P Require Import AuditLog Verdict Queue Sticky Body Rules Lists Handler HandlerLogic HandlerSafety.
From stdpp Require Import options.

Local Open Scope Z_scope.

Definition millisecond_ns : Z := 1000000.

Record probe := {
  servers : string; subject : string; name : string; redisURL : string; profile : string;
  uri : string; method : string; userAgent : string; clientIP : string; expect : string;
  timeout : Z; quiet : bool; phase : string; status : Z; responseBody : string;
  auditSubject : string }.

(** ** The message *)

(** [%016x] of an integer. *)
Fixpoint hex_digits (fuel : nat) (n : Z) (acc : string) : string :=
  match fuel with
  | O => acc
  | S fuel => if n =? 0 then acc else hex_digits fuel (n / 16) (String (hex_digit (n mod 16)) acc)
  end.

Fixpoint pad (n : nat) (s : string) : string :=
  match n with O => s | S n => String "0" (pad n s) end.

Definition padded (width : nat) (s : string) : string := pad (width - String.length s) s.

Definition format_016x (n : Z) : string :=
  if n <? 0 then String "-" (padded 15 (hex_digits 16 (- n) ""))
  else padded 16 (hex_digits 16 n "").

(** [%x] of a slice of bytes. *)
Definition format_x (b : list Z) : string :=
  foldr (fun n s => String (hex_digit (n / 16)) (String (hex_digit (n mod 16)) s)) "" b.

(** [uuid4] from the bytes of the random source. *)
Definition uuid4 (b : list Z) : string :=
  let b := alter (fun x => Z.lor (Z.land x 15) 64) 6%nat b in
  let b := alter (fun x => Z.lor (Z.land x 63) 128) 8%nat b in
  let part i n := format_x (firstn n%nat (drop i b)) in
  part 0%nat 4%nat +:+ "-" +:+ part 4%nat 2%nat +:+ "-" +:+ part 6%nat 2%nat +:+ "-"
  +:+ part 8%nat 2%nat +:+ "-" +:+ part 10%nat 6%nat.

(** [path, args, _ := strings.Cut(p.uri, "?")] *)
Definition cut_uri (p : probe) : string * string := default (uri p, "") (Cut "?" (uri p)).

Definition request (p : probe) (now : Z) (random : list Z) : Request :=
  let path := (cut_uri p).1 in
  let args := (cut_uri p).2 in
  let response := str_eqb (phase p) PhaseResponse in
  let audited := negb (str_eqb (auditSubject p) "") in
  {| V := Protocol.Version; RID := format_016x now; Ray := if audited then uuid4 random else "";
     Phase := phase p; Wave := 0; Inspector := name p;
     DeadlineMS := Z.quot (timeout p) millisecond_ns;
     AuditSubject := if audited then Some (auditSubject p) else None; Node := "probe";
     req_Conn := {| ClientIP := clientIP p; ClientPort := 12345; ServerIP := "127.0.0.1";
                    ServerPort := 8080; conn_TLS := None |};
     req_HTTP := {| Method := method p; Scheme := "http"; Host := "probe.local"; URI := path;
                    ArgsSize := len args; http_Version := "HTTP/1.1" |};
     Vars := ∅;
     Needs := if response then [NeedHeaders; NeedBody] else [NeedHeaders; NeedArgs];
     req_Store := {| st_Headers := None; st_Args := None; st_Body := None |};
     req_Route := {| ServerName := "probe.local"; Location := "/"; Profile := profile p |};
     req_Score := {| Total := 0; DenyAt := 100 |}; Prior := [];
     req_Response := if response
                     then Some {| Status := status p; rsp_Headers := []; UpstreamMS := 0 |}
                     else None;
     RequestStore := {| st_Headers := None; st_Args := None; st_Body := None |};
     req_Resume := None; req_Release := None; ConnID := ""; Seq := 0; req_Stream := None |}.

Definition set_stores (needs : list string) (own earlier : Store) (r : Request) : Request :=
  {| V := V r; RID := RID r; Ray := Ray r; Phase := Phase r; Wave := Wave r;
     Inspector := Inspector r; DeadlineMS := DeadlineMS r; AuditSubject := AuditSubject r;
     Node := Node r; req_Conn := req_Conn r; req_HTTP := req_HTTP r; Vars := Vars r;
     Needs := needs; req_Store := own; req_Route := req_Route r; req_Score := req_Score r;
     Prior := Prior r; req_Response := req_Response r; RequestStore := earlier;
     req_Resume := req_Resume r; req_Release := req_Release r; ConnID := ConnID r;
     Seq := Seq r; req_Stream := req_Stream r |}.

(** ** Writing the objects *)

Inductive ProbeError :=
| BadPhase | NoBus | NoEvents | BadStore | BadEncoding | PutFailed (key : string)
| NoVerdict | BadReply | NoEvent | Unexpected (verdict : string).

(** The object store, and the writes to it; a failed one changes nothing. *)
Abbreviation KV := (gmap string string).

Definition W (A : Type) : Type := KV -> KV * res ProbeError A.

#[global] Instance W_ret : MRet W := fun A a kv => (kv, Ok a).
#[global] Instance W_bind : MBind W := fun A B k m kv =>
  match m kv with
  | (kv, Ok a) => k a kv
  | (kv, Err e) => (kv, Err e)
  end.

Definition lift {A} (r : res ProbeError A) : W A := fun kv => (kv, r).

Definition some_or {A} (e : ProbeError) (o : option A) : res ProbeError A :=
  match o with Some a => Ok a | None => Err e end.

(** What the probe uses from outside: writes by their keys, the connections, a request
    on the bus, answered by whoever reads the store, the next audit event. *)
Record World := {
  open_ok : string -> bool; set_ok : string -> bool;
  connect_ok : string -> bool; subscribe_ok : string -> bool;
  bus_Request : KV -> string -> string -> option string; NextMsg : option string;
  marshal_headers : list Header -> option string; marshal : Request -> option string;
  marshal_reply : Reply -> option string; unmarshal_reply : string -> option Reply }.

Section probe.
Context (w : World).

Definition Put (key data : string) : W unit := fun kv =>
  if set_ok w key then (<[key := data]> kv, Ok tt) else (kv, Err (PutFailed key)).

(** The closure [put]. *)
Definition locator (key data : string) : Locator :=
  {| loc_Store := "probe"; Driver := "redis"; Key := key; Unavailable := "";
     Size := len data; DeclaredSize := 0; SHA256 := ""; ProcessedSHA256 := "";
     Transformed := false; Complete := true; Truncated := false; Encoding := "";
     ExpiresAt := 0; Hint := ""; loc_Enc := None |}.

Definition put (base key data : string) : W Locator :=
  Put (base +:+ key) data;; mret (locator (base +:+ key) data).

Definition request_headers (p : probe) : list Header :=
  [("host", "probe.local"); ("user-agent", userAgent p); ("accept", "*/*")].

Definition response_headers : list Header := [("content-type", "text/html; charset=utf-8")].

Definition place (p : probe) (req : Request) : W Request :=
  let '(_, args) := cut_uri p in
  if str_eqb (redisURL p) "" then mret (set_stores [] (req_Store req) (RequestStore req) req)
  else
    lift (fail_if (negb (open_ok w (redisURL p))) BadStore);;
    let base := "probe:" +:+ RID req in
    text ← lift (some_or BadEncoding (marshal_headers w (request_headers p)));
    hdr ← put base ":req:hdr" text;
    arg ← (if str_eqb args "" then mret None
           else l ← put base ":req:arg" args; mret (Some l));
    let target := {| st_Headers := Some hdr; st_Args := arg; st_Body := None |} in
    if negb (str_eqb (phase p) PhaseResponse)
    then mret (set_stores (Needs req) target (RequestStore req) req)
    else
      text ← lift (some_or BadEncoding (marshal_headers w response_headers));
      hdr ← put base ":rsp:hdr" text;
      b ← put base ":rsp:body" (responseBody p);
      mret (set_stores (Needs req)
              {| st_Headers := Some hdr; st_Args := None; st_Body := Some b |} target req).

(** [run]: what is printed, and the result. *)
Definition say (p : probe) (line : string) : list string := if quiet p then [] else [line].

Definition run (p : probe) (now : Z) (random : list Z) (kv : KV) :
    list string * res ProbeError unit :=
  let audited := negb (str_eqb (auditSubject p) "") in
  let '(kv, sending) :=
    (lift (fail_if (negb (str_eqb (phase p) PhaseRequest) && negb (str_eqb (phase p) PhaseResponse))
             BadPhase);;
     lift (fail_if (negb (connect_ok w (servers p))) NoBus);;
     lift (fail_if (audited && negb (subscribe_ok w (auditSubject p))) NoEvents);;
     req ← place p (request p now random);
     lift (some_or BadEncoding (marshal w req))) kv in
  match sending with
  | Err e => ([], Err e)
  | Ok payload =>
      match bus_Request w kv (subject p) payload with
      | None => ([], Err NoVerdict)
      | Some answer =>
          match unmarshal_reply w answer with
          | None => ([], Err BadReply)
          | Some reply =>
              let out := say p (default "" (marshal_reply w reply)) in
              let verdict :=
                fail_if (negb (str_eqb (expect p) "") && negb (str_eqb (Verdict reply) (expect p)))
                  (Unexpected (Verdict reply)) in
              if audited then
                match NextMsg w with
                | None => (out, Err NoEvent)
                | Some ev => (out ++ say p ev, verdict)
                end
              else (out, verdict)
          end
      end
  end.
End probe.

(** ** The flags *)

Definition env (lookup : string -> option string) (name def : string) : string :=
  match lookup name with
  | Some v => if str_eqb v "" then def else v
  | None => def
  end.

(** The values of the flags that are not given. *)
Definition flags (lookup : string -> option string) : probe :=
  {| servers := env lookup "NATS_URL" "nats://127.0.0.1:4222";
     subject := env lookup "WAF_MODSEC_SUBJECT" "waf.req.modsec";
     name := env lookup "WAF_MODSEC_NAME" "modsec"; redisURL := env lookup "REDIS_URL" "";
     profile := "default"; uri := "/healthcheck"; method := "GET"; userAgent := "modsec-probe";
     clientIP := "127.0.0.1"; expect := ""; timeout := 1000 * millisecond_ns; quiet := false;
     phase := PhaseRequest; status := 200; responseBody := ""; auditSubject := "" |}.

(** ** Specification *)

(** What the flags say the engine is to see: the objects only with an object store. *)
Definition stored_objects (p : probe) : bool := negb (str_eqb (redisURL p) "").

Definition expected_input (p : probe) (rid : string) : Input :=
  {| in_RID := rid; in_ClientIP := clientIP p; in_ClientPort := 12345;
     in_ServerIP := "127.0.0.1"; in_ServerPort := 8080; in_Method := method p;
     in_URI := (cut_uri p).1; in_Args := if stored_objects p then (cut_uri p).2 else "";
     in_Version := "HTTP/1.1"; in_Host := "probe.local";
     in_Headers := if stored_objects p then request_headers p else [];
     in_Body := ""; in_BodyTruncated := false |}.

Definition expected_response (p : probe) : ResponseInput :=
  {| rsp_Status := if status p =? 0 then 200 else status p; rsp_Proto := "";
     rsp_in_Headers := if stored_objects p then response_headers else [];
     rsp_Body := if stored_objects p then responseBody p else "";
     rsp_BodyTruncated := false |}.

(** What the two phases of the inspector that the probe tests load and build from a
    request, as in [Handler.inspectRequest] and, without a kept transaction, in
    [Handler.respond]. *)
Definition sees_request (h : handler) (req : Request) (i : Input) : Prop :=
  exists b0 b1 b, LoadMany (crypto h) (loader h)
      [st_Headers (req_Store req); st_Args (req_Store req); st_Body (req_Store req)]
    = Done [b0; b1; b]
  /\ bodyError b = ("", "") /\ input req (argsOf b1) (headers h b0) b = i.

Definition sees_response (h : handler) (req : Request) (i : Input) (rsp : ResponseInput) : Prop :=
  exists b0 b b2 b3, LoadMany (crypto h) (loader h)
      [st_Headers (req_Store req); st_Body (req_Store req);
       st_Headers (RequestStore req); st_Args (RequestStore req)]
    = Done [b0; b; b2; b3]
  /\ bodyError b = ("", "") /\ input req (argsOf b3) (headers h b2) no_body = i
  /\ {| rsp_Status := responseStatus req; rsp_Proto := "";
        rsp_in_Headers := responseHeaders h req b0; rsp_Body := Body.Data b;
        rsp_BodyTruncated := false |} = rsp.

(** ** Lemmas *)

Lemma W_bind_ok {A B} (m : W A) (k : A -> W B) kv kv' b :
  (m ≫= k) kv = (kv', Ok b) ->
  exists kv1 a, m kv = (kv1, Ok a) /\ k a kv1 = (kv', Ok b).
Proof. unfold mbind, W_bind. destruct (m kv) as [kv1 [a|e]]; [eauto|done]. Qed.

Lemma lift_ok {A} (r : res ProbeError A) kv kv' a :
  lift r kv = (kv', Ok a) -> kv' = kv /\ r = Ok a.
Proof. unfold lift. intros [= <- ->]. done. Qed.

Lemma put_ok w base key data kv kv' l :
  put w base key data kv = (kv', Ok l) ->
  kv' = <[base +:+ key := data]> kv /\ l = locator (base +:+ key) data.
Proof.
  unfold put, Put, mbind, W_bind, mret, W_ret. destruct (set_ok w _); [|done].
  by intros [= <- <-].
Qed.

Lemma str_app_inj s t u : s +:+ t = s +:+ u -> t = u.
Proof. induction s as [|a s IH]; [done|]. intros [= H]. by apply IH. Qed.

(** The object of a locator, in the store; without a locator there is none. *)
Definition obj (kv : KV) (key : string) (o : option Locator) (data : string) : Prop :=
  match o with
  | None => data = ""
  | Some l => l = locator key data /\ kv !! key = Some data
  end.

Lemma obj_new kv key data : obj (<[key := data]> kv) key (Some (locator key data)) data.
Proof. split; [done|]. by rewrite lookup_insert_eq. Qed.

Lemma obj_put base key key' data' kv o data :
  key' <> key -> obj kv (base +:+ key) o data ->
  obj (<[base +:+ key' := data']> kv) (base +:+ key) o data.
Proof.
  intros Hne. destruct o as [l|]; [|done]. intros [-> Hk]. split; [done|].
  rewrite lookup_insert_ne; [done|]. by intros H%str_app_inj.
Qed.

(** The objects of the message: what the probe was to write, as it was encoded. *)
Definition nothing : Store := {| st_Headers := None; st_Args := None; st_Body := None |}.

Definition placed (w : World) (p : probe) (kv : KV) (req : Request) : Prop :=
  let base := "probe:" +:+ RID req in
  let '(target, others) :=
    if str_eqb (phase p) PhaseResponse then (RequestStore req, req_Store req)
    else (req_Store req, RequestStore req) in
  if str_eqb (redisURL p) "" then target = nothing /\ others = nothing
  else
    (exists text, marshal_headers w (request_headers p) = Some text
                  /\ obj kv (base +:+ ":req:hdr") (st_Headers target) text
                  /\ is_some (st_Headers target) = true)
    /\ obj kv (base +:+ ":req:arg") (st_Args target) (cut_uri p).2 /\ st_Body target = None
    /\ if str_eqb (phase p) PhaseResponse
       then (exists text, marshal_headers w response_headers = Some text
                          /\ obj kv (base +:+ ":rsp:hdr") (st_Headers others) text
                          /\ is_some (st_Headers others) = true)
            /\ st_Args others = None
            /\ obj kv (base +:+ ":rsp:body") (st_Body others) (responseBody p)
       else others = nothing.

Lemma some_or_ok {A} e (o : option A) a : some_or e o = Ok a <-> o = Some a.
Proof. destruct o; split; by intros [= ->]. Qed.

Lemma place_ok w p req kv kv' req' :
  req_Store req = nothing -> RequestStore req = nothing ->
  place w p req kv = (kv', Ok req') ->
  (exists needs own earlier, req' = set_stores needs own earlier req) /\ placed w p kv' req'.
Proof.
  intros H1 H2. unfold place, placed. destruct (cut_uri p) as [path args].
  destruct (str_eqb (redisURL p) "").
  { intros [= <- <-]. split; [by eexists _, _, _|]. simpl. rewrite H1, H2.
    by destruct (str_eqb (phase p) PhaseResponse). }
  intros (? & [] & [-> _]%lift_ok & H)%W_bind_ok. cbv zeta in H.
  apply W_bind_ok in H as (? & text & [-> Ht%some_or_ok]%lift_ok & H).
  apply W_bind_ok in H as (kv1 & hdr & [-> ->]%put_ok & H).
  apply W_bind_ok in H as (kv2 & arg & Harg & H). set (base := "probe:" +:+ RID req) in *.
  assert (obj kv2 (base +:+ ":req:arg") arg args
    /\ obj kv2 (base +:+ ":req:hdr") (Some (locator (base +:+ ":req:hdr") text)) text) as [Ha Hh].
  { destruct (str_eqb args "") eqn:Ea.
    - injection Harg as <- <-. apply str_eqb_true in Ea. split; [done|apply obj_new].
    - apply W_bind_ok in Harg as (? & l & [-> ->]%put_ok & [= <- <-]).
      split; [apply obj_new|]. apply obj_put; [done|apply obj_new]. }
  destruct (str_eqb (phase p) PhaseResponse); simpl in H.
  - apply W_bind_ok in H as (? & rtext & [-> Hrt%some_or_ok]%lift_ok & H).
    apply W_bind_ok in H as (? & rhdr & [-> ->]%put_ok & H).
    apply W_bind_ok in H as (? & b & [-> ->]%put_ok & [= <- <-]).
    split; [by eexists _, _, _|].
    cbn [set_stores req_Store RequestStore st_Headers st_Args st_Body RID is_some snd]. fold base.
    split; [exists text|split; [by do 2 (apply obj_put; [done|])|split; [done|split; [exists rtext|]]]].
    + split; [done|]. split; [|done]. by do 2 (apply obj_put; [done|]).
    + split; [done|]. split; [|done]. apply obj_put; [done|apply obj_new].
    + split; [done|apply obj_new].
  - injection H as <- <-. split; [by eexists _, _, _|]. simpl. split_and!; try done. by exists text.
Qed.

Section loading.
Context (w : World) (h : handler) (kv : KV) (get : string -> option string).
Context (Hstore : loader h
  = {| store := Some (RedisStore get (fun ks => Some (get <$> ks))); keys := None |}).
Context (Hget : forall k v, kv !! k = Some v -> get k = Some v).
Context (Hcodec : forall l t, marshal_headers w l = Some t -> t <> "" /\ json_Headers h t = Some l).

(** The body that is loaded for a locator: whole, with these bytes. *)
Definition got (b : Body) (data : string) : Prop :=
  Body.Data b = data /\ Body_Unavailable b = "" /\ Body_Truncated b = false.

Lemma Load_obj key o data :
  obj kv key o data -> exists b, Load (crypto h) (loader h) o = Done b /\ got b data.
Proof using Hstore Hget.
  destruct o as [l|]; simpl; [|intros ->; by exists no_body].
  intros [-> Hk]. rewrite Hstore. unfold Load. simpl. unfold redis_Get. simpl.
  rewrite (Hget _ _ Hk). by eexists.
Qed.

Lemma LoadMany_got locs datas :
  Forall2 (fun loc data => exists key, obj kv key loc data) locs datas ->
  exists bs, LoadMany (crypto h) (loader h) locs = Done bs /\ Forall2 got bs datas.
Proof using Hstore Hget.
  intros H.
  assert (exists bs, Forall2 (fun loc b => Load (crypto h) (loader h) loc = Done b) locs bs
    /\ Forall2 got bs datas) as (bs & Hl & Hb).
  { induction H as [|loc data locs datas [key Ho] _ (bs & Hl & Hb)]; [by exists []|].
    destruct (Load_obj _ _ _ Ho) as (b & Hload & Hgot). exists (b :: bs). by split; constructor. }
  exists bs. split; [|done]. rewrite Hstore in *. by apply LoadMany_loads; [apply RedisStore_batch|].
Qed.

Lemma headers_got b l t :
  marshal_headers w l = Some t -> got b t -> headers h b = l.
Proof using Hcodec.
  intros Hm (Hd & Hu & _). apply Hcodec in Hm as [Hne Hj]. unfold headers, Available.
  rewrite Hu, Hd, Hj. simpl. destruct t; [done|].
  unfold len. by rewrite (proj2 (Z.eqb_neq _ _)) by (simpl; lia).
Qed.

Lemma headers_none b : got b "" -> headers h b = [].
Proof using. intros (Hd & Hu & _). unfold headers, Available. by rewrite Hu, Hd. Qed.

Lemma args_got b data : got b data -> argsOf b = data.
Proof using. intros (Hd & Hu & _). unfold argsOf, Available. by rewrite Hu. Qed.

Lemma bodyError_got b data : got b data -> bodyError b = ("", "").
Proof using. intros (_ & Hu & Ht). unfold bodyError, Available. by rewrite Hu, Ht. Qed.
End loading.

Lemma obj_ok kv rid key o data : obj kv (("probe:" +:+ rid) +:+ key) o data -> locator_ok o.
Proof.
  destruct o as [l|]; [|done]. intros [-> _]. right. left. split; [done|]. split; discriminate.
Qed.

Lemma placed_store_ok w p kv req :
  placed w p kv req -> store_ok (req_Store req) /\ store_ok (RequestStore req).
Proof.
  unfold placed, store_ok. destruct (str_eqb (phase p) PhaseResponse), (str_eqb (redisURL p) "").
  1,3: by intros [-> ->].
  - intros ((t & _ & H1 & _) & H2 & H3 & (t' & _ & H4 & _) & H5 & H6).
    rewrite H3, H5. split_and!; try done; by eapply obj_ok.
  - intros ((t & _ & H1 & _) & H2 & H3 & ->). rewrite H3. split_and!; try done; by eapply obj_ok.
Qed.

Lemma format_016x_nonempty n : format_016x n <> "".
Proof.
  assert (forall k t, String.length (pad k t) = (k + String.length t)%nat) as Hpad
    by (intros k t; induction k; simpl; congruence).
  unfold format_016x. destruct (n <? 0); [done|]. intros H. apply (f_equal String.length) in H.
  unfold padded in H. rewrite Hpad in H. simpl in H. lia.
Qed.

(** The message is the one of [request] but for the stores and the needs. *)
Lemma placed_request_ok w p now random kv needs own earlier :
  name p <> "" -> method p <> "" -> (cut_uri p).1 <> "" ->
  phase p = PhaseRequest \/ phase p = PhaseResponse ->
  placed w p kv (set_stores needs own earlier (request p now random)) ->
  request_ok (set_stores needs own earlier (request p now random)).
Proof.
  intros Hn Hm Hu Hp Hpl. apply placed_store_ok in Hpl. revert Hpl.
  unfold request_ok, envelope_ok. simpl.
  intros [H1 H2]. pose proof (format_016x_nonempty now). split_and!; try done.
  destruct Hp as [->| ->]; auto.
Qed.

Lemma placed_received h o1 o2 ck m s req payload :
  request_ok req -> V req = Protocol.Version -> req_Release req = None -> supports (Phase req) = true ->
  json_Request h payload = Some req -> Supports h Protocol.Version = true ->
  o1 ≡ₚ need_names -> o2 ≡ₚ need_names -> m_Data m = payload ->
  exists t, receive h ck o1 o2 m s = (s, Done (Some t)) /\ t_Req t = req.
Proof.
  intros Hok Hver Hrel Hph Hj Hv Ho1 Ho2 Hm.
  apply (check_request_ok o1 o2) in Hok; [|done..].
  unfold receive, recoverInto, Parse. rewrite Hm, Hj.
  destruct (check_request o1 o2 req) as [[]|]; [|done]. simpl.
  rewrite Hver, Hv, Hrel, Hph. simpl. by eexists.
Qed.

Section seeing.
Context (w : World) (h : handler) (p : probe) (kv : KV) (get : string -> option string).
Context (now : Z) (random : list Z) (needs : list string) (own earlier : Store).
Context (Hstore : loader h
  = {| store := Some (RedisStore get (fun ks => Some (get <$> ks))); keys := None |}).
Context (Hget : forall k v, kv !! k = Some v -> get k = Some v).
Context (Hcodec : forall l t, marshal_headers w l = Some t -> t <> "" /\ json_Headers h t = Some l).

Lemma input_request args hdr b :
  input (set_stores needs own earlier (request p now random)) args hdr b
  = {| in_RID := format_016x now; in_ClientIP := clientIP p; in_ClientPort := 12345;
       in_ServerIP := "127.0.0.1"; in_ServerPort := 8080; in_Method := method p;
       in_URI := (cut_uri p).1; in_Args := args; in_Version := "HTTP/1.1";
       in_Host := "probe.local"; in_Headers := hdr; in_Body := Body.Data b;
       in_BodyTruncated := false |}.
Proof using. done. Qed.

(** The texts of the objects: of the headers, as the inspector decodes them. *)
Definition header_text (l : list Header) (t : string) : Prop :=
  forall b, got b t -> headers h b = if stored_objects p then l else [].

Lemma placed_sees_request :
  phase p = PhaseRequest ->
  placed w p kv (set_stores needs own earlier (request p now random)) ->
  sees_request h (set_stores needs own earlier (request p now random))
    (expected_input p (format_016x now)).
Proof using Hstore Hget Hcodec.
  unfold placed. intros ->. simpl str_eqb. cbv iota. intros Hpl.
  assert (exists t, header_text (request_headers p) t
    /\ Forall2 (fun loc data => exists key, obj kv key loc data)
         [st_Headers own; st_Args own; st_Body own]
         [t; if stored_objects p then (cut_uri p).2 else ""; ""]) as (t & Ht & Hobjs).
  { unfold header_text, stored_objects. simpl in Hpl.
    destruct (str_eqb (redisURL p) ""); simpl.
    - destruct Hpl as [-> _]. exists "". split; [intros b; apply headers_none|].
      repeat constructor; by exists "".
    - destruct Hpl as ((t & Hm & Ho & _) & Ha & Hb & _). exists t.
      split; [intros b; by eapply headers_got|]. rewrite Hb.
      repeat constructor; eauto. by exists "". }
  destruct (LoadMany_got h kv get Hstore Hget _ _ Hobjs) as (bs & Hload & Hgot).
  pose proof (list.Forall2_length _ _ _ Hgot).
  destruct bs as [|b0 [|b1 [|b [|? ?]]]]; try done. rewrite !list.Forall2_cons in Hgot.
  destruct Hgot as (H0 & H1 & H2 & _).
  exists b0, b1, b. split; [exact Hload|]. split; [by eapply bodyError_got|].
  rewrite input_request, (Ht _ H0), (args_got _ _ H1). unfold expected_input.
  by destruct H2 as [-> _].
Qed.

Lemma placed_sees_response :
  phase p = PhaseResponse ->
  placed w p kv (set_stores needs own earlier (request p now random)) ->
  sees_response h (set_stores needs own earlier (request p now random))
    (expected_input p (format_016x now)) (expected_response p).
Proof using Hstore Hget Hcodec.
  unfold placed. intros Hp. rewrite Hp. simpl str_eqb. cbv iota. intros Hpl.
  assert (exists t t', header_text response_headers t /\ header_text (request_headers p) t'
    /\ Forall2 (fun loc data => exists key, obj kv key loc data)
         [st_Headers own; st_Body own; st_Headers earlier; st_Args earlier]
         [t; if stored_objects p then responseBody p else "";
          t'; if stored_objects p then (cut_uri p).2 else ""]) as (t & t' & Ht & Ht' & Hobjs).
  { unfold header_text, stored_objects. simpl in Hpl.
    destruct (str_eqb (redisURL p) ""); simpl.
    - destruct Hpl as [-> ->]. exists "", "".
      split_and!; [intros b; apply headers_none..|]. repeat constructor; by exists "".
    - destruct Hpl as ((t' & Hm' & Ho' & _) & Ha & _ & (t & Hm & Ho & _) & _ & Hb). exists t, t'.
      split_and!; [intros b; by eapply headers_got..|]. repeat constructor; eauto. }
  destruct (LoadMany_got h kv get Hstore Hget _ _ Hobjs) as (bs & Hload & Hgot).
  pose proof (list.Forall2_length _ _ _ Hgot).
  destruct bs as [|b0 [|b [|b2 [|b3 [|? ?]]]]]; try done. rewrite !list.Forall2_cons in Hgot.
  destruct Hgot as (H0 & H1 & H2 & H3 & _).
  exists b0, b, b2, b3. split; [exact Hload|]. split; [by eapply bodyError_got|]. split.
  - by rewrite input_request, (Ht' _ H2), (args_got _ _ H3).
  - unfold responseHeaders, responseStatus. rewrite (Ht _ H0). simpl. rewrite Hp.
    unfold expected_response. destruct H1 as [-> _]. by destruct (stored_objects p).
Qed.
End seeing.

(** The probe succeeds only when the inspector has answered the message that was placed, with
    the verdict that was expected, if one was. *)
Lemma run_checks w p now random kv out :
  run w p now random kv = (out, Ok tt) ->
  (phase p = PhaseRequest \/ phase p = PhaseResponse)
  /\ exists kv' req payload answer reply,
      place w p (request p now random) kv = (kv', Ok req) /\ marshal w req = Some payload
      /\ bus_Request w kv' (subject p) payload = Some answer
      /\ unmarshal_reply w answer = Some reply
      /\ (expect p = "" \/ Verdict reply = expect p).
Proof.
  unfold run.
  match goal with |- context [let '(kv, sending) := ?m in _] => destruct m as [kv' [payload|e]] eqn:E end;
    [|done].
  apply W_bind_ok in E as (? & [] & [-> Hp]%lift_ok & E).
  apply W_bind_ok in E as (? & [] & [-> _]%lift_ok & E).
  apply W_bind_ok in E as (? & [] & [-> _]%lift_ok & E).
  apply W_bind_ok in E as (kv1 & req & Hpl & [-> Hm%some_or_ok]%lift_ok).
  destruct (bus_Request w kv1 (subject p) payload) as [answer|] eqn:Ea; [|done].
  destruct (unmarshal_reply w answer) as [reply|] eqn:Er; [|done]. intros H.
  assert (fail_if (negb (str_eqb (expect p) "") && negb (str_eqb (Verdict reply) (expect p)))
    (Unexpected (Verdict reply)) = Ok tt) as Hx
    by (destruct (negb (str_eqb (auditSubject p) "")); [destruct (NextMsg w)|]; by injection H).
  apply fail_if_ok, andb_false_iff in Hx, Hp.
  rewrite !negb_false_iff, !str_eqb_true in Hx, Hp. split; [done|].
  exists kv1, req, payload, answer, reply. by split_and!.
Qed.

Lemma all_bytes (f : Z -> bool) :
  forallb (fun n => f (Z.of_nat n)) (seq 0 256) = true -> forall x, 0 <= x < 256 -> f x = true.
Proof.
  intros H x Hx. rewrite forallb_forall in H. specialize (H (Z.to_nat x)).
  rewrite Z2Nat.id in H by lia. apply H, in_seq. lia.
Qed.

(** The version and the variant of a random UUID. *)
Lemma uuid4_version b :
  length b = 16%nat -> Forall (fun x => 0 <= x < 256) b ->
  String.get 14 (uuid4 b) = Some "4"%char
  /\ exists c, String.get 19 (uuid4 b) = Some c /\ c ∈ ["8"; "9"; "a"; "b"]%char.
Proof.
  intros Hl Hb. do 16 (destruct b as [|? b]; [done|]). destruct b; [|done].
  rewrite !list.Forall_cons in Hb. destruct Hb as (_ & _ & _ & _ & _ & _ & H6 & _ & H8 & _).
  split.
  - apply (all_bytes (fun x => ascii_eqb (hex_digit (Z.lor (Z.land x 15) 64 / 16)) "4"))
      in H6; [|by vm_compute]. apply ascii_eqb_true in H6. unfold uuid4. simpl. by rewrite H6.
  - apply (all_bytes (fun x => existsb (ascii_eqb (hex_digit (Z.lor (Z.land x 63) 128 / 16)))
      ["8"; "9"; "a"; "b"]%char)) in H8; [|by vm_compute].
    apply existsb_exists in H8 as (c & Hc & H8). apply ascii_eqb_true in H8.
    exists c. split; [|by apply list_elem_of_In]. unfold uuid4. simpl. by rewrite H8.
Qed.

(** ** Properties *)

(** C40: The probe tests what its command line says. The message it sends is accepted by the
    inspector and queued; from the objects that the probe wrote the inspector loads and
    decodes, complete, the headers, the arguments and, in the response phase, the headers
    and the body of the response; so the engine gets exactly the method, path, query,
    address and headers of the flags, and the status and body of the response. Without an
    object store it gets none of the objects. The name, the method and the path must not
    be empty, and the store must still hold what was written. *)
Theorem probe_inspected (w : World) (h : handler) (p : probe) (now : Z) (random : list Z)
    (kv kv' : KV) (req : Request) (get : string -> option string) (payload : string)
    (o1 o2 : list string) (ck : Clock) (m : Msg) (s : St)
    (Hstore : loader h
       = {| store := Some (RedisStore get (fun ks => Some (get <$> ks))); keys := None |})
    (Hget : forall k v, kv' !! k = Some v -> get k = Some v)
    (Hcodec : forall l t, marshal_headers w l = Some t -> t <> "" /\ json_Headers h t = Some l)
    (Hplace : place w p (request p now random) kv = (kv', Ok req))
    (Hphase : phase p = PhaseRequest \/ phase p = PhaseResponse)
    (Hname : name p <> "") (Hmethod : method p <> "") (Hpath : (cut_uri p).1 <> "")
    (Hjson : json_Request h payload = Some req) (Hv : Supports h Protocol.Version = true)
    (Ho1 : o1 ≡ₚ need_names) (Ho2 : o2 ≡ₚ need_names) (Hm : m_Data m = payload) :
  (exists t, receive h ck o1 o2 m s = (s, Done (Some t)) /\ t_Req t = req)
  /\ if str_eqb (phase p) PhaseResponse
     then sees_response h req (expected_input p (format_016x now)) (expected_response p)
     else sees_request h req (expected_input p (format_016x now)).
Proof.
  destruct (place_ok _ _ (request p now random) _ _ _ eq_refl eq_refl Hplace) as [(needs & own & earlier & ->) Hpl].
  pose proof (placed_request_ok _ _ _ _ _ _ _ _ Hname Hmethod Hpath Hphase Hpl) as Hok.
  split.
  { eapply placed_received; try done. simpl. by destruct Hphase as [->| ->]. }
  destruct Hphase as [Hp|Hp]; rewrite Hp; simpl str_eqb; cbv iota.
  - by eapply placed_sees_request.
  - by eapply placed_sees_response.
Qed.

(** A probe of the response phase, and the handler over the store it writes to. *)
Definition sample_probe : probe :=
  {| servers := ""; subject := "waf.req.modsec"; name := "modsec"; redisURL := "redis://r";
     profile := "default"; uri := "/a?b=c"; method := "GET"; userAgent := "curl";
     clientIP := "192.0.2.1"; expect := "deny"; timeout := 1000000000; quiet := true;
     phase := PhaseResponse; status := 0; responseBody := "page"; auditSubject := "" |}.

Definition sample_world : World :=
  {| open_ok := fun _ => true; set_ok := fun _ => true; connect_ok := fun _ => true;
     subscribe_ok := fun _ => true; bus_Request := fun _ _ _ => None; NextMsg := None;
     marshal_headers := fun l => if bool_decide (l = response_headers) then Some "R" else
                                 if bool_decide (l = request_headers sample_probe) then Some "Q"
                                 else None;
     marshal := fun _ => Some "{}"; marshal_reply := fun _ => None;
     unmarshal_reply := fun _ => None |}.

Definition sample_placed : KV * res ProbeError Request :=
  place sample_world sample_probe (request sample_probe 1700000000000000000 []) ∅.

Definition sample_get (key : string) : option string := sample_placed.1 !! key.

Definition sample_req : Request :=
  match sample_placed.2 with Ok r => r | Err _ => request sample_probe 0 [] end.

Definition probed_handler : handler :=
  {| cfg_Name := "modsec"; Versions := [2]; inbox := "";
     opts := {| opt_StatusMap := None;
                opt_Decisive := {| dec_Ranges := []; dec_Tags := ∅ |}; ScalePercent := 0 |};
     loader := {| store := Some (RedisStore sample_get (fun ks => Some (sample_get <$> ks)));
                  keys := None |};
     crypto := sample_crypto; lists := false;
     geo := {| Networked := fun _ => false; geo_Write := fun _ _ => Ok [] |};
     audit_connected := false; json_Request := fun _ => Some sample_req;
     json_Headers := fun t => if str_eqb t "R" then Some response_headers
                              else if str_eqb t "Q" then Some (request_headers sample_probe)
                              else None;
     json_Reply := fun _ => None; json_Event := fun _ => None |}.

Lemma probe_inspected_witness :
  (exists t, receive probed_handler sample_clock need_names need_names
     {| m_Subject := "waf.req.modsec"; m_Reply := "i"; m_Data := "{}" |} sample_state
     = (sample_state, Done (Some t)) /\ t_Req t = sample_req)
  /\ sees_response probed_handler sample_req
       (expected_input sample_probe (format_016x 1700000000000000000))
       (expected_response sample_probe).
Proof.
  apply (probe_inspected sample_world probed_handler sample_probe 1700000000000000000 []
    ∅ sample_placed.1 sample_req sample_get "{}" need_names need_names sample_clock
    {| m_Subject := "waf.req.modsec"; m_Reply := "i"; m_Data := "{}" |} sample_state).
  - reflexivity.
  - intros k v H. exact H.
  - intros l t. simpl. case_bool_decide as H1; [intros [= <-]; subst; split; [discriminate|reflexivity]|].
    case_bool_decide as H2; [intros [= <-]; subst; split; [discriminate|reflexivity]|discriminate].
  - vm_compute. reflexivity.
  - right. reflexivity.
  - discriminate.
  - discriminate.
  - discriminate.
  - reflexivity.
  - reflexivity.
  - reflexivity.
  - reflexivity.
  - reflexivity.
Defined.
